(** * The asynchronous IPC framework of HelenOS, [uspace/lib/c/generic/async.c]

    A shallow embedding of the framework as explicit state passing over a
    heap of connection and message records, together with the properties
    of its inbox, its timeout list and its reply bookkeeping. *)

From stdpp Require Import gmap list sorting.
From Stdlib Require Import ZArith Lia.

Local Open Scope Z_scope.

(** ** Kernel interface

    The headers [ipc/ipc.h], [errno.h], [sys/time.h], [async_priv.h],
    [adt/list.h] and [adt/hash_table.h] are not among the sources at hand.
    What [async.c] uses of them is written down here by name; no proof
    depends on the numbers chosen beyond [EOK] being zero and the codes
    and methods being different from each other. *)

(** Modelled from the spec: the flag bit of [ipc/ipc.h] that marks the
    call id of a notification. *)
Definition IPC_CALLID_NOTIFICATION : Z := 2.

(** Modelled from the spec: the method of [ipc/ipc.h] that closes a
    connection. *)
Definition IPC_M_PHONE_HUNGUP : Z := 0.

(** Modelled from the spec: the two methods of [ipc/ipc.h] that open a
    connection. *)
Definition IPC_M_CONNECT_ME : Z := 2.
Definition IPC_M_CONNECT_ME_TO : Z := 4.

(** Modelled from the spec: the method of [ipc/ipc.h] that starts a data
    write. *)
Definition IPC_M_DATA_WRITE : Z := 7.

(** Modelled from the spec: the error codes of [errno.h] that the
    framework returns or answers with. *)
Definition EOK : Z := 0.
Definition ENOMEM : Z := -2.
Definition EHANGUP : Z := -8.
Definition ETIMEOUT : Z := -14.
Definition EINVAL : Z := -15.

(** ** Data model

    Words of the machine ([ipcarg_t], [ipc_callid_t], [fid_t], [size_t],
    [suseconds_t]) and addresses are integers. *)

(** The number of bits of [ipcarg_t], the unsigned machine word; it
    depends on the platform the library is built for. *)
Class ipcarg_width := ipcarg_bits : Z.

(** The platforms with words of 64 bits. *)
Definition lp64 : ipcarg_width := 64.

(** An [int] converted to [ipcarg_t]. *)
Definition int_to_ipcarg `{!ipcarg_width} (x : Z) : Z :=
  x `mod` 2 ^ ipcarg_bits.

(** An [ipcarg_t] converted to [int], which has 32 bits. *)
Definition to_int (x : Z) : Z := (x + 2 ^ 31) `mod` 2 ^ 32 - 2 ^ 31.

(** Modelled from the spec: [ipc_call_t] of [ipc/ipc.h], a method, five
    payload words and the phone hash the kernel attaches to an incoming
    call. *)
Record ipc_call_t := mk_call {
  call_method : Z;
  call_arg1 : Z;
  call_arg2 : Z;
  call_arg3 : Z;
  call_arg4 : Z;
  call_arg5 : Z;
  in_phone_hash : Z
}.

(** Modelled from the spec: the accessor macros of [ipc/ipc.h]. *)
Definition IPC_GET_METHOD (c : ipc_call_t) : Z := call_method c.
Definition IPC_GET_ARG2 (c : ipc_call_t) : Z := call_arg2 c.
Definition IPC_GET_ARG5 (c : ipc_call_t) : Z := call_arg5 c.
Definition IPC_SET_METHOD (m : Z) (c : ipc_call_t) : ipc_call_t :=
  mk_call m (call_arg1 c) (call_arg2 c) (call_arg3 c) (call_arg4 c)
    (call_arg5 c) (in_phone_hash c).

(** [memset(call, 0, sizeof(ipc_call_t))] *)
Definition zero_call : ipc_call_t := mk_call 0 0 0 0 0 0 0.

(** Modelled from the spec: [struct timeval] with [tv_add], [tv_gt] and
    [tv_gteq] of [sys/time.h].  A point in time is its number of
    microseconds. *)
Definition tv_add (tv usecs : Z) : Z := tv + usecs.
Definition tv_gt (tv1 tv2 : Z) : bool := bool_decide (tv1 > tv2).
Definition tv_gteq (tv1 tv2 : Z) : bool := bool_decide (tv1 >= tv2).

(** Modelled from the spec: [to_event_t] of [async_priv.h], without its
    list link; the position of an awaiter in the timeout list is kept in
    [timeout_list] below. *)
Record to_event_t := mk_to_event {
  expires : Z;
  inlist : bool;
  occurred : bool
}.

(** Modelled from the spec: [awaiter_t] of [async_priv.h]. *)
Record awaiter_t := mk_awaiter {
  fid : Z;
  active : bool;
  to_event : to_event_t
}.

(** [amsg_t]; [dataptr] is an address, [0] for [NULL]. *)
Record amsg_t := mk_amsg {
  msg_wdata : awaiter_t;
  done : bool;
  dataptr : Z;
  retval : Z
}.

(** [msg_t]: one node of a connection's message queue. *)
Record msg_t := mk_msg {
  callid : Z;
  call : ipc_call_t
}.

(** [connection_t]; [msg_queue] is the list headed by the field of that
    name, head first.  The handler pointer [cfibril] is user code and is
    not represented. *)
Record connection_t := mk_conn {
  conn_wdata : awaiter_t;
  conn_in_phone_hash : Z;
  msg_queue : list msg_t;
  conn_callid : Z;
  conn_call : ipc_call_t;
  close_callid : Z
}.

(** Field updates. *)

Definition set_expires (e : Z) (w : awaiter_t) : awaiter_t :=
  mk_awaiter (fid w) (active w)
    (mk_to_event e (inlist (to_event w)) (occurred (to_event w))).
Definition set_inlist (b : bool) (w : awaiter_t) : awaiter_t :=
  mk_awaiter (fid w) (active w)
    (mk_to_event (expires (to_event w)) b (occurred (to_event w))).
Definition set_occurred (b : bool) (w : awaiter_t) : awaiter_t :=
  mk_awaiter (fid w) (active w)
    (mk_to_event (expires (to_event w)) (inlist (to_event w)) b).
Definition set_active (b : bool) (w : awaiter_t) : awaiter_t :=
  mk_awaiter (fid w) b (to_event w).
Definition set_fid (f : Z) (w : awaiter_t) : awaiter_t :=
  mk_awaiter f (active w) (to_event w).

Definition with_msg_wdata (f : awaiter_t → awaiter_t) (m : amsg_t) : amsg_t :=
  mk_amsg (f (msg_wdata m)) (done m) (dataptr m) (retval m).
Definition set_done (b : bool) (m : amsg_t) : amsg_t :=
  mk_amsg (msg_wdata m) b (dataptr m) (retval m).
Definition set_dataptr (d : Z) (m : amsg_t) : amsg_t :=
  mk_amsg (msg_wdata m) (done m) d (retval m).
Definition set_retval (r : Z) (m : amsg_t) : amsg_t :=
  mk_amsg (msg_wdata m) (done m) (dataptr m) r.

Definition with_conn_wdata (f : awaiter_t → awaiter_t) (c : connection_t)
    : connection_t :=
  mk_conn (f (conn_wdata c)) (conn_in_phone_hash c) (msg_queue c)
    (conn_callid c) (conn_call c) (close_callid c).
Definition set_msg_queue (q : list msg_t) (c : connection_t) : connection_t :=
  mk_conn (conn_wdata c) (conn_in_phone_hash c) q
    (conn_callid c) (conn_call c) (close_callid c).
Definition set_close_callid (k : Z) (c : connection_t) : connection_t :=
  mk_conn (conn_wdata c) (conn_in_phone_hash c) (msg_queue c)
    (conn_callid c) (conn_call c) k.

(** The heap holds the two kinds of record that embed an [awaiter_t] as
    their first field, so the address of the awaiter is the address of
    the record. *)
Inductive object :=
  | OConn (c : connection_t)
  | OMsg (m : amsg_t).

Definition obj_wdata (o : object) : awaiter_t :=
  match o with
  | OConn c => conn_wdata c
  | OMsg m => msg_wdata m
  end.

Definition obj_with_wdata (f : awaiter_t → awaiter_t) (o : object) : object :=
  match o with
  | OConn c => OConn (with_conn_wdata f c)
  | OMsg m => OMsg (with_msg_wdata f m)
  end.

Definition obj_with_conn (f : connection_t → connection_t) (o : object)
    : object :=
  match o with
  | OConn c => OConn (f c)
  | OMsg m => OMsg m
  end.

Definition obj_with_msg (f : amsg_t → amsg_t) (o : object) : object :=
  match o with
  | OConn c => OConn c
  | OMsg m => OMsg (f m)
  end.

(** Calls to the outside world, in the order the framework makes them. *)
Inductive effect :=
  | FutexDown
  | FutexUp
  | IpcAnswer0 (callid retval : Z)
  | FibrilAddReady (fid : Z)
  | FibrilSwitchToManager
  | Free (p : Z)
  | IpcCallAsync (phoneid method : Z) (args : list Z) (userdata : Z).

(** What a fibril still has to run once it is switched back in after
    [fibril_switch(FIBRIL_TO_MANAGER)], with the locals it needs. *)
Inductive frame :=
  | FGetCall (usecs : Z)
  | FWaitFor (retval_ptr : bool)
  | FWaitTimeout (retval_ptr : bool)
  | FUsleep.

(** The heap keeps what every block handed out by [malloc] holds, and
    [freed] the blocks that went back to [free].  No block is handed out
    twice, so a freed block is never filled again. *)
Record state := mk_state {
  heap : gmap Z object;
  freed : gset Z;
  conn_hash_table : list Z;
  timeout_list : list Z;
  parked : gmap Z frame;
  call_store : gmap Z ipc_call_t;
  effects : list effect
}.

Definition init_state : state := mk_state ∅ ∅ [] [] ∅ ∅ [].

Definition with_heap (f : gmap Z object → gmap Z object) (st : state) : state :=
  mk_state (f (heap st)) (freed st) (conn_hash_table st) (timeout_list st)
    (parked st) (call_store st) (effects st).
Definition with_freed (f : gset Z → gset Z) (st : state) : state :=
  mk_state (heap st) (f (freed st)) (conn_hash_table st) (timeout_list st)
    (parked st) (call_store st) (effects st).
Definition set_conn_hash_table (t : list Z) (st : state) : state :=
  mk_state (heap st) (freed st) t (timeout_list st) (parked st)
    (call_store st) (effects st).
Definition set_timeout_list (l : list Z) (st : state) : state :=
  mk_state (heap st) (freed st) (conn_hash_table st) l (parked st)
    (call_store st) (effects st).
Definition with_parked (f : gmap Z frame → gmap Z frame) (st : state) : state :=
  mk_state (heap st) (freed st) (conn_hash_table st) (timeout_list st)
    (f (parked st)) (call_store st) (effects st).
Definition with_call_store (f : gmap Z ipc_call_t → gmap Z ipc_call_t)
    (st : state) : state :=
  mk_state (heap st) (freed st) (conn_hash_table st) (timeout_list st)
    (parked st) (f (call_store st)) (effects st).
Definition emit (e : effect) (st : state) : state :=
  mk_state (heap st) (freed st) (conn_hash_table st) (timeout_list st)
    (parked st) (call_store st) (effects st ++ [e]).

(** Reading and writing through a pointer. *)

Definition wdata_at (st : state) (p : Z) : option awaiter_t :=
  obj_wdata <$> heap st !! p.

Definition conn_at (st : state) (p : Z) : option connection_t :=
  match heap st !! p with
  | Some (OConn c) => Some c
  | _ => None
  end.

Definition msg_at (st : state) (p : Z) : option amsg_t :=
  match heap st !! p with
  | Some (OMsg m) => Some m
  | _ => None
  end.

Definition upd_wdata (p : Z) (f : awaiter_t → awaiter_t) (st : state) : state :=
  with_heap (alter (obj_with_wdata f) p) st.
Definition upd_conn (p : Z) (f : connection_t → connection_t) (st : state)
    : state :=
  with_heap (alter (obj_with_conn f) p) st.
Definition upd_msg (p : Z) (f : amsg_t → amsg_t) (st : state) : state :=
  with_heap (alter (obj_with_msg f) p) st.

(** A block handed out by [malloc]: its address and whatever it holds. *)
Definition alloc (p : Z) (o : object) (st : state) : state :=
  with_heap (insert p o) st.

(** [free]: the block goes back to the allocator. *)
Definition free (p : Z) (st : state) : state :=
  emit (Free p) (with_freed (union {[p]}) st).

(** Reading a connection record through a pointer to a block that has
    been freed has no result.  [connection_fibril] is the one function of
    the framework that reads a record after the call that frees it; it
    reads through [live_conn_at]. *)
Definition live_conn_at (st : state) (p : Z) : option connection_t :=
  if decide (p ∈ freed st) then None else conn_at st p.

(** Modelled from the spec: [list_remove] of [adt/list.h], which unlinks
    a node from whatever list it is in. *)
Definition list_remove (p : Z) (l : list Z) : list Z :=
  filter (λ q, q ≠ p) l.

(** [fibril_switch(FIBRIL_TO_MANAGER)] with [async_futex] held: the rest
    of the caller is saved, and the manager the fibril switches to lets go
    of the futex ([async_manager_worker]). *)
Definition park (p : Z) (fr : frame) (st : state) : state :=
  emit FutexUp (with_parked (insert p fr) (emit FibrilSwitchToManager st)).

(** Result of a function that may give up the processor. *)
Inductive ret (A : Type) :=
  | Return (a : A)
  | Switched.
Arguments Return {A} a.
Arguments Switched {A}.

(** ** The timeout list *)

(** The walk of [async_insert_timeout]: [tmp] runs over [l] and the new
    link goes in front of the node at which the walk stops. *)
Fixpoint insert_walk (st : state) (e : Z) (wd : Z) (l : list Z) : list Z :=
  match l with
  | [] => [wd]
  | tmp :: next =>
      match wdata_at st tmp with
      | Some cur =>
          if tv_gteq (expires (to_event cur)) e then wd :: l
          else tmp :: insert_walk st e wd next
      | None => wd :: l
      end
  end.

Definition async_insert_timeout (wd : Z) (st : state) : option state :=
  _ ← wdata_at st wd;
  let st := upd_wdata wd (set_occurred false) st in
  let st := upd_wdata wd (set_inlist true) st in
  w ← wdata_at st wd;
  Some (set_timeout_list
          (insert_walk st (expires (to_event w)) wd (timeout_list st)) st).

(** The loop of [handle_expired_timeouts]; [l] is the chain of [next]
    pointers as it stands when the loop starts. *)
Fixpoint expire_walk (tv : Z) (l : list Z) (st : state) : state :=
  match l with
  | [] => st
  | cur :: next =>
      match wdata_at st cur with
      | Some waiter =>
          if tv_gt (expires (to_event waiter)) tv then st
          else
            let st := set_timeout_list (list_remove cur (timeout_list st)) st in
            let st := upd_wdata cur (set_inlist false) st in
            let st := upd_wdata cur (set_occurred true) st in
            let st :=
              if active waiter then st
              else emit (FibrilAddReady (fid waiter))
                     (upd_wdata cur (set_active true) st) in
            expire_walk tv next st
      | None => st
      end
  end.

Definition handle_expired_timeouts (tv : Z) (st : state) : state :=
  let st := emit FutexDown st in
  let st := expire_walk tv (timeout_list st) st in
  emit FutexUp st.

(** ** The connection table

    [adt/hash_table.h] is outside the sources at hand.  Collisions are
    chained and items with equal keys share a chain, so a single list in
    insertion order gives the same answers as the table. *)

(** [conn_compare] *)
Definition conn_compare (st : state) (key : Z) (item : Z) : bool :=
  match conn_at st item with
  | Some hs => bool_decide (key = conn_in_phone_hash hs)
  | None => false
  end.

(** Modelled from the spec: [hash_table_find] of [adt/hash_table.h],
    which returns the first item of the chain that [conn_compare]
    accepts. *)
Definition hash_table_find (st : state) (key : Z) : option Z :=
  List.find (conn_compare st key) (conn_hash_table st).

(** Modelled from the spec: [hash_table_insert] of [adt/hash_table.h],
    which appends the item to its chain. *)
Definition hash_table_insert (item : Z) (st : state) : state :=
  set_conn_hash_table (conn_hash_table st ++ [item]) st.

(** [conn_remove]: the removal callback frees the connection record. *)
Definition conn_remove (item : Z) (st : state) : state :=
  free item st.

Fixpoint unlink_first (x : Z) (l : list Z) : list Z :=
  match l with
  | [] => []
  | y :: l' => if decide (y = x) then l' else y :: unlink_first x l'
  end.

(** Modelled from the spec: [hash_table_remove] of [adt/hash_table.h],
    which unlinks the item [hash_table_find] returns and hands it to the
    removal callback. *)
Definition hash_table_remove (key : Z) (st : state) : state :=
  match hash_table_find st key with
  | Some cur =>
      conn_remove cur
        (set_conn_hash_table (unlink_first cur (conn_hash_table st)) st)
  | None => st
  end.

(** ** Routing of incoming calls *)

(** [msg_alloc] tells whether [malloc(sizeof(msg_t))] succeeds. *)
Definition route_call (callid : Z) (call : ipc_call_t) (msg_alloc : bool)
    (st : state) : state * bool :=
  let st := emit FutexDown st in
  let key := in_phone_hash call in
  match hash_table_find st key with
  | None => (emit FutexUp st, false)
  | Some hlp =>
      match conn_at st hlp with
      | None => (emit FutexUp st, false)
      | Some conn =>
          if negb msg_alloc then (emit FutexUp st, false)
          else
            let st :=
              upd_conn hlp
                (λ c, set_msg_queue (msg_queue c ++ [mk_msg callid call]) c)
                st in
            let st :=
              if decide (IPC_GET_METHOD call = IPC_M_PHONE_HUNGUP)
              then upd_conn hlp (set_close_callid callid) st
              else st in
            let st :=
              if active (conn_wdata conn) then st
              else
                let st :=
                  if inlist (to_event (conn_wdata conn)) then
                    set_timeout_list (list_remove hlp (timeout_list st))
                      (upd_wdata hlp (set_inlist false) st)
                  else st in
                emit (FibrilAddReady (fid (conn_wdata conn)))
                  (upd_wdata hlp (set_active true) st) in
            (emit FutexUp st, true)
      end
  end.

(** [new_fid] is what [fibril_create] returns. *)
Definition process_notification (callid : Z) (call : ipc_call_t)
    (msg_alloc : bool) (new_fid : Z) (st : state) : state * bool :=
  let st := emit FutexDown st in
  if negb msg_alloc then (emit FutexUp st, false)
  else (emit FutexUp (emit (FibrilAddReady new_fid) st), true).

(** ** Reading the inbox *)

(** The [while (list_empty(&conn->msg_queue))] loop of
    [async_get_call_timeout] up to its next return or switch, followed by
    the dequeue.  The result is the returned call id and, when [*call] is
    written, the record stored there. *)
Definition get_call_loop (conn : Z) (usecs : Z) (st : state)
    : option (state * ret (Z * option ipc_call_t)) :=
  c ← conn_at st conn;
  match msg_queue c with
  | [] =>
      if decide (close_callid c ≠ 0) then
        Some (emit FutexUp st,
              Return (close_callid c,
                      Some (IPC_SET_METHOD IPC_M_PHONE_HUNGUP zero_call)))
      else
        st ← (if decide (usecs ≠ 0) then async_insert_timeout conn st
              else Some st);
        let st := upd_wdata conn (set_active false) st in
        Some (park conn (FGetCall usecs) st, Switched)
  | msg :: rest =>
      let st := upd_conn conn (set_msg_queue rest) st in
      Some (emit FutexUp st, Return (callid msg, Some (call msg)))
  end.

(** [async_get_call_timeout] from its entry; [conn] is
    [FIBRIL_connection] and [now] is what [gettimeofday] reports. *)
Definition async_get_call_timeout (conn : Z) (usecs : Z) (now : Z)
    (st : state) : option (state * ret (Z * option ipc_call_t)) :=
  _ ← conn_at st conn;
  let st := emit FutexDown st in
  let st :=
    if decide (usecs ≠ 0)
    then upd_wdata conn (set_expires (tv_add now usecs)) st
    else upd_wdata conn (set_inlist false) st in
  get_call_loop conn usecs st.

(** [async_get_call_timeout] from the point where [fibril_switch]
    returns. *)
Definition async_get_call_timeout_resume (conn : Z) (usecs : Z) (st : state)
    : option (state * ret (Z * option ipc_call_t)) :=
  c ← conn_at st conn;
  let st := emit FutexDown st in
  if bool_decide (usecs ≠ 0) && occurred (to_event (conn_wdata c))
     && bool_decide (msg_queue c = [])
  then Some (emit FutexUp st, Return (0, None))
  else get_call_loop conn usecs st.

(** ** Life of a connection *)

(** The loop of [connection_fibril] that answers what is left in the
    inbox. *)
Fixpoint drain_msg_queue (conn : Z) (q : list msg_t) (st : state) : state :=
  match q with
  | [] => st
  | msg :: rest =>
      let st := upd_conn conn (set_msg_queue rest) st in
      let st := emit (IpcAnswer0 (callid msg) EHANGUP) st in
      drain_msg_queue conn rest st
  end.

(** The first half of [connection_fibril], from the point where the
    handler [cfibril] returns: the fibril takes the entry for its phone
    hash out of the connection table, and [hash_table_remove] hands the
    entry to [conn_remove]. *)
Definition connection_fibril_remove (conn : Z) (st : state) : option state :=
  c ← live_conn_at st conn;
  let st := emit FutexDown st in
  let st := hash_table_remove (conn_in_phone_hash c) st in
  Some (emit FutexUp st).

(** The second half: what is left in the inbox is answered, and then the
    closing call.  The queue and [close_callid] are read from
    [FIBRIL_connection] here, after the removal. *)
Definition connection_fibril_drain (conn : Z) (st : state) : option state :=
  c ← live_conn_at st conn;
  let st := drain_msg_queue conn (msg_queue c) st in
  c ← live_conn_at st conn;
  if decide (close_callid c ≠ 0)
  then Some (emit (IpcAnswer0 (close_callid c) EOK) st)
  else Some st.

(** [connection_fibril] from the point where the handler [cfibril]
    returns. *)
Definition connection_fibril (conn : Z) (st : state) : option state :=
  st ← connection_fibril_remove conn st;
  connection_fibril_drain conn st.

(** [conn_alloc] is the block [malloc] returns, if any; [new_fid] is what
    [fibril_create] returns.  The result is the new fibril id or [0]. *)
Definition async_new_connection (in_phone_hash callid : Z)
    (call : option ipc_call_t) (conn_alloc : option (Z * connection_t))
    (new_fid : Z) (st : state) : state * Z :=
  match conn_alloc with
  | None =>
      (if decide (callid ≠ 0) then emit (IpcAnswer0 callid ENOMEM) st else st,
       0)
  | Some (p, blk) =>
      let conn :=
        mk_conn (set_fid new_fid (set_active true (conn_wdata blk)))
          in_phone_hash [] callid
          (match call with Some c => c | None => conn_call blk end) 0 in
      let st := alloc p (OConn conn) st in
      if decide (new_fid = 0) then
        let st := free p st in
        (if decide (callid ≠ 0) then emit (IpcAnswer0 callid ENOMEM) st
         else st, 0)
      else
        let st := emit FutexDown st in
        let st := hash_table_insert p st in
        let st := emit FutexUp st in
        (emit (FibrilAddReady new_fid) st, new_fid)
  end.

(** ** The dispatcher's call handler *)

Definition handle_call (callid : Z) (call : ipc_call_t) (msg_alloc : bool)
    (conn_alloc : option (Z * connection_t)) (new_fid : Z) (st : state)
    : state :=
  if decide (Z.land callid IPC_CALLID_NOTIFICATION ≠ 0) then
    fst (process_notification callid call msg_alloc new_fid st)
  else if decide (IPC_GET_METHOD call = IPC_M_CONNECT_ME
                  ∨ IPC_GET_METHOD call = IPC_M_CONNECT_ME_TO) then
    fst (async_new_connection (IPC_GET_ARG5 call) callid (Some call)
           conn_alloc new_fid st)
  else
    let '(st, routed) := route_call callid call msg_alloc st in
    if routed then st else emit (IpcAnswer0 callid EHANGUP) st.

(** ** Outgoing messages *)

(** [reply_received]: [arg] is the user data of the call, [retval] the
    status, an [int], and [data] the answer record if the kernel passes
    one.  The field [msg->retval] is an [ipcarg_t]. *)
Definition reply_received `{!ipcarg_width} (arg : Z) (retval : Z)
    (data : option ipc_call_t) (st : state) : option state :=
  msg ← msg_at st arg;
  let st := emit FutexDown st in
  let st := upd_msg arg (set_retval (int_to_ipcarg retval)) st in
  let st :=
    match data with
    | Some d =>
        if decide (dataptr msg ≠ 0)
        then with_call_store (insert (dataptr msg) d) st
        else st
    | None => st
    end in
  let st :=
    if inlist (to_event (msg_wdata msg))
    then set_timeout_list (list_remove arg (timeout_list st)) st
    else st in
  let st := upd_msg arg (set_done true) st in
  let st :=
    if active (msg_wdata msg) then st
    else emit (FibrilAddReady (fid (msg_wdata msg)))
           (upd_wdata arg (set_active true) st) in
  Some (emit FutexUp st).

(** The part shared by [async_send_fast] and [async_send_slow];
    [msg_alloc] is the block [malloc] returns, if any.  The result is the
    message id, [0] on failure. *)
Definition async_send (phoneid method : Z) (args : list Z) (dptr : Z)
    (msg_alloc : option (Z * amsg_t)) (st : state) : state * Z :=
  match msg_alloc with
  | None => (st, 0)
  | Some (p, blk) =>
      let st := alloc p (OMsg blk) st in
      let st := upd_msg p (set_done false) st in
      let st := upd_msg p (set_dataptr dptr) st in
      let st := upd_wdata p (set_inlist false) st in
      let st := upd_wdata p (set_active true) st in
      (emit (IpcCallAsync phoneid method args p) st, p)
  end.

Definition async_send_fast (phoneid method arg1 arg2 arg3 arg4 : Z)
    (dptr : Z) (msg_alloc : option (Z * amsg_t)) (st : state) : state * Z :=
  async_send phoneid method [arg1; arg2; arg3; arg4] dptr msg_alloc st.

Definition async_send_slow (phoneid method arg1 arg2 arg3 arg4 arg5 : Z)
    (dptr : Z) (msg_alloc : option (Z * amsg_t)) (st : state) : state * Z :=
  async_send phoneid method [arg1; arg2; arg3; arg4; arg5] dptr msg_alloc st.

(** The code after the label [done] of [async_wait_for]; the result is
    what is stored in [*retval] when [retval] is not [NULL]. *)
Definition wait_for_done (amsgid : Z) (retval_ptr : bool) (st : state)
    : option (state * ret (option Z)) :=
  msg ← msg_at st amsgid;
  Some (free amsgid st,
        Return (if retval_ptr then Some (retval msg) else None)).

(** [async_wait_for] from its entry; [self] is [fibril_get_id()]. *)
Definition async_wait_for (amsgid : Z) (retval_ptr : bool) (self : Z)
    (st : state) : option (state * ret (option Z)) :=
  msg ← msg_at st amsgid;
  let st := emit FutexDown st in
  if done msg then wait_for_done amsgid retval_ptr (emit FutexUp st)
  else
    let st := upd_wdata amsgid (set_fid self) st in
    let st := upd_wdata amsgid (set_active false) st in
    let st := upd_wdata amsgid (set_inlist false) st in
    Some (park amsgid (FWaitFor retval_ptr) st, Switched).

Definition async_wait_for_resume (amsgid : Z) (retval_ptr : bool)
    (st : state) : option (state * ret (option Z)) :=
  wait_for_done amsgid retval_ptr st.

(** The code after the label [done] of [async_wait_timeout]; the result
    is the return value and what is stored in [*retval]. *)
Definition wait_timeout_done (amsgid : Z) (retval_ptr : bool) (st : state)
    : option (state * ret (Z * option Z)) :=
  msg ← msg_at st amsgid;
  Some (free amsgid st,
        Return (0, if retval_ptr then Some (retval msg) else None)).

Definition async_wait_timeout (amsgid : Z) (retval_ptr : bool)
    (timeout : Z) (now : Z) (self : Z) (st : state)
    : option (state * ret (Z * option Z)) :=
  if decide (timeout < 0) then Some (st, Return (ETIMEOUT, None))
  else
    msg ← msg_at st amsgid;
    let st := emit FutexDown st in
    if done msg then wait_timeout_done amsgid retval_ptr (emit FutexUp st)
    else
      let st := upd_wdata amsgid (set_expires (tv_add now timeout)) st in
      let st := upd_wdata amsgid (set_fid self) st in
      let st := upd_wdata amsgid (set_active false) st in
      st ← async_insert_timeout amsgid st;
      Some (park amsgid (FWaitTimeout retval_ptr) st, Switched).

Definition async_wait_timeout_resume (amsgid : Z) (retval_ptr : bool)
    (st : state) : option (state * ret (Z * option Z)) :=
  msg ← msg_at st amsgid;
  if negb (done msg) then Some (st, Return (ETIMEOUT, None))
  else wait_timeout_done amsgid retval_ptr st.

(** [async_usleep] from its entry. *)
Definition async_usleep (timeout : Z) (now : Z) (self : Z)
    (msg_alloc : option (Z * amsg_t)) (st : state)
    : option (state * ret unit) :=
  match msg_alloc with
  | None => Some (st, Return ())
  | Some (p, blk) =>
      let st := alloc p (OMsg blk) st in
      let st := upd_wdata p (set_fid self) st in
      let st := upd_wdata p (set_active false) st in
      let st := upd_wdata p (set_expires (tv_add now timeout)) st in
      let st := emit FutexDown st in
      st ← async_insert_timeout p st;
      Some (park p FUsleep st, Switched)
  end.

Definition async_usleep_resume (msg : Z) (st : state)
    : option (state * ret unit) :=
  Some (free msg st, Return ()).

(** ** Receiving written data *)

(** [async_data_write_receive] once [async_get_call] has returned
    [callid] and [data]: success flag and the size it stores. *)
Definition async_data_write_receive (data : ipc_call_t) : bool * Z :=
  if decide (IPC_GET_METHOD data ≠ IPC_M_DATA_WRITE) then (false, 0)
  else (true, IPC_GET_ARG2 data).

(** What [async_data_write_accept] leaves behind: its return value, the
    answers it sends itself, the size it asks [malloc] for, the buffer
    stored in [*data] and the size stored in [*received]. *)
Record write_accept_result := mk_write_accept {
  wa_rc : Z;
  wa_answers : list (Z * Z);
  wa_malloc : option Z;
  wa_data : option (list Z);
  wa_received : option Z
}.

(** [async_data_write_accept] once [async_get_call] has returned.
    [bits] is the width of [size_t]; [malloc] gives the block returned
    for a requested size, if any; [finalize] is
    [ipc_data_write_finalize], giving its return value and the bytes it
    copies to the start of the buffer. *)
Definition async_data_write_accept (bits : Z) (callid : Z) (data : ipc_call_t)
    (nullterm : bool) (min_size max_size granularity : Z)
    (received_ptr : bool) (malloc : Z → option (list Z))
    (finalize : Z → Z → Z * list Z) : write_accept_result :=
  let '(ok, size) := async_data_write_receive data in
  if negb ok then mk_write_accept EINVAL [(callid, EINVAL)] None None None
  else if decide (size < min_size) then
    mk_write_accept EINVAL [(callid, EINVAL)] None None None
  else if decide (max_size > 0 ∧ size > max_size) then
    mk_write_accept EINVAL [(callid, EINVAL)] None None None
  else if decide (granularity > 0 ∧ size `mod` granularity ≠ 0) then
    mk_write_accept EINVAL [(callid, EINVAL)] None None None
  else
    let len := if nullterm then (size + 1) `mod` 2 ^ bits else size in
    match malloc len with
    | None => mk_write_accept ENOMEM [(callid, ENOMEM)] (Some len) None None
    | Some block =>
        let '(rc, bytes) := finalize callid size in
        if decide (rc ≠ EOK) then mk_write_accept rc [] (Some len) None None
        else
          let buf := bytes ++ drop (length bytes) block in
          let buf := if nullterm then <[Z.to_nat size := 0]> buf else buf in
          mk_write_accept EOK [] (Some len) (Some buf)
            (if received_ptr then Some size else None)
    end.

(** ** The dispatcher loop *)

(** Modelled from the spec: the flag bit of [ipc/ipc.h] that marks the
    call id of an answer. *)
Definition IPC_CALLID_ANSWERED : Z := 1.

(** Modelled from the spec: [SYNCH_NO_TIMEOUT] of [synch.h], the timeout
    with which [ipc_wait_cycle] waits without limit. *)
Definition SYNCH_NO_TIMEOUT : Z := 0.

(** Modelled from the spec: [tv_sub] of [sys/time.h], the microseconds
    from [tv2] to [tv1]. *)
Definition tv_sub (tv1 tv2 : Z) : Z := tv1 - tv2.

Definition CONN_HASH_TABLE_CHAINS : Z := 32.

(** [conn_hash]; the key is an [unsigned long]. *)
Definition conn_hash (key : Z) : Z :=
  Z.shiftr key 4 `mod` CONN_HASH_TABLE_CHAINS.

(** How a turn of the loop of [async_manager_worker] goes on: with
    [continue], or with [ipc_wait_cycle] under the given timeout. *)
Inductive manager_next :=
  | MContinue
  | MWait (timeout : Z).

(** A turn of the loop of [async_manager_worker] from the point where
    [fibril_switch(FIBRIL_FROM_MANAGER)] has returned false, up to the
    [continue] or to the call of [ipc_wait_cycle].  The other branch of
    the loop, taken when a fibril has switched to the manager with the
    futex held, is the [FutexUp] of [park].  [now] is what [gettimeofday]
    reports here and [now'] what it reports to [handle_expired_timeouts];
    [threads] is the counter [threads_in_ipc_wait]. *)
Definition async_manager_worker_turn (now now' : Z) (threads : Z)
    (st : state) : option (state * Z * manager_next) :=
  let st := emit FutexDown st in
  match timeout_list st with
  | first :: _ =>
      waiter ← wdata_at st first;
      if tv_gteq now (expires (to_event waiter)) then
        let st := emit FutexUp st in
        Some (handle_expired_timeouts now' st, threads, MContinue)
      else
        let timeout := tv_sub (expires (to_event waiter)) now in
        Some (emit FutexUp st, threads + 1, MWait timeout)
  | [] => Some (emit FutexUp st, threads + 1, MWait SYNCH_NO_TIMEOUT)
  end.

(** The same turn from the point where [ipc_wait_cycle] has returned
    [callid] and stored [call]. *)
Definition async_manager_worker_received (callid : Z) (call : ipc_call_t)
    (now' : Z) (msg_alloc : bool) (conn_alloc : option (Z * connection_t))
    (new_fid : Z) (threads : Z) (st : state) : state * Z :=
  let threads := threads - 1 in
  if decide (callid = 0) then (handle_expired_timeouts now' st, threads)
  else if decide (Z.land callid IPC_CALLID_ANSWERED ≠ 0) then (st, threads)
  else (handle_call callid call msg_alloc conn_alloc new_fid st, threads).

(** ** The default connection handler *)

(** Modelled from the spec: the error code [ENOENT] of [errno.h]. *)
Definition ENOENT : Z := -1.

Definition default_client_connection (callid : Z) (call : ipc_call_t)
    (st : state) : state :=
  emit (IpcAnswer0 callid ENOENT) st.

(** [connection_fibril] from its entry, for a handler [cfibril] that
    returns without giving up the processor. *)
Definition connection_fibril_start
    (cfibril : Z → ipc_call_t → state → state) (conn : Z) (st : state)
    : option state :=
  c ← live_conn_at st conn;
  connection_fibril conn (cfibril (conn_callid c) (conn_call c) st).

(** ** Requests *)

(** Modelled from the spec: the remaining accessor macros of
    [ipc/ipc.h]. *)
Definition IPC_GET_ARG1 (c : ipc_call_t) : Z := call_arg1 c.
Definition IPC_GET_ARG3 (c : ipc_call_t) : Z := call_arg3 c.
Definition IPC_GET_ARG4 (c : ipc_call_t) : Z := call_arg4 c.

(** Modelled from the spec: [async_send_4] and [async_send_5] of
    [async.h], the names under which [async_req_fast] and
    [async_req_slow] call [async_send_fast] and [async_send_slow]. *)
Definition async_send_4 := async_send_fast.
Definition async_send_5 := async_send_slow.

(** What [async_req_fast] and [async_req_slow] hand back: the return
    value and what they store through [r1] to [r5]. *)
Record req_result := mk_req_result {
  req_rc : Z;
  req_r1 : option Z;
  req_r2 : option Z;
  req_r3 : option Z;
  req_r4 : option Z;
  req_r5 : option Z
}.

(** The end of [async_req_fast] and of [async_req_slow], from the return
    of [async_wait_for].  [result] is the address of the local of that
    name; [r1] to [r5] tell which of the pointers are not [NULL]. *)
Definition async_req_done (result : Z) (r1 r2 r3 r4 r5 : bool)
    (w : state * ret (option Z)) : option (state * ret req_result) :=
  match w with
  | (st, Return (Some rc)) =>
      res ← call_store st !! result;
      Some (st, Return (mk_req_result rc
              (if r1 then Some (IPC_GET_ARG1 res) else None)
              (if r2 then Some (IPC_GET_ARG2 res) else None)
              (if r3 then Some (IPC_GET_ARG3 res) else None)
              (if r4 then Some (IPC_GET_ARG4 res) else None)
              (if r5 then Some (IPC_GET_ARG5 res) else None)))
  | (st, Return None) => None
  | (st, Switched) => Some (st, Switched)
  end.

(** [async_req_fast] from its entry.  [stale] is what the local [result]
    holds before anything is stored in it. *)
Definition async_req_fast (phoneid method arg1 arg2 arg3 arg4 : Z)
    (r1 r2 r3 r4 r5 : bool) (result : Z) (stale : ipc_call_t)
    (msg_alloc : option (Z * amsg_t)) (self : Z) (st : state)
    : option (state * ret req_result) :=
  let st := with_call_store (insert result stale) st in
  let '(st, eid) :=
    async_send_4 phoneid method arg1 arg2 arg3 arg4 result msg_alloc st in
  w ← async_wait_for eid true self st;
  async_req_done result r1 r2 r3 r4 r5 w.

Definition async_req_slow (phoneid method arg1 arg2 arg3 arg4 arg5 : Z)
    (r1 r2 r3 r4 r5 : bool) (result : Z) (stale : ipc_call_t)
    (msg_alloc : option (Z * amsg_t)) (self : Z) (st : state)
    : option (state * ret req_result) :=
  let st := with_call_store (insert result stale) st in
  let '(st, eid) :=
    async_send_5 phoneid method arg1 arg2 arg3 arg4 arg5 result msg_alloc
      st in
  w ← async_wait_for eid true self st;
  async_req_done result r1 r2 r3 r4 r5 w.

(** Both functions from the point where [fibril_switch] returns inside
    [async_wait_for]. *)
Definition async_req_resume (eid : Z) (r1 r2 r3 r4 r5 : bool) (result : Z)
    (st : state) : option (state * ret req_result) :=
  w ← async_wait_for_resume eid true st;
  async_req_done result r1 r2 r3 r4 r5 w.

(** ** Bulk-data helpers *)

(** Modelled from the spec: [async_get_call] of [async.h], which is
    [async_get_call_timeout] without a timeout. *)
Definition async_get_call (conn : Z) (now : Z) (st : state)
    : option (state * ret (Z * option ipc_call_t)) :=
  async_get_call_timeout conn 0 now st.

Definition async_get_call_resume (conn : Z) (st : state)
    : option (state * ret (Z * option ipc_call_t)) :=
  async_get_call_timeout_resume conn 0 st.

(** Modelled from the spec: the methods of [ipc/ipc.h] that start the
    other bulk transfers. *)
Definition IPC_M_SHARE_OUT : Z := 5.
Definition IPC_M_SHARE_IN : Z := 6.
Definition IPC_M_DATA_READ : Z := 8.

(** The other receive helpers once [async_get_call] has returned [data]:
    the return value and what is stored through [size], and through
    [flags]. *)
Definition async_share_in_receive (data : ipc_call_t) : Z * option Z :=
  if decide (IPC_GET_METHOD data ≠ IPC_M_SHARE_IN) then (0, None)
  else (1, Some (IPC_GET_ARG2 data)).

Definition async_share_out_receive (data : ipc_call_t)
    : Z * option (Z * Z) :=
  if decide (IPC_GET_METHOD data ≠ IPC_M_SHARE_OUT) then (0, None)
  else (1, Some (IPC_GET_ARG2 data, to_int (IPC_GET_ARG3 data))).

Definition async_data_read_receive (size_ptr : bool) (data : ipc_call_t)
    : Z * option Z :=
  if decide (IPC_GET_METHOD data ≠ IPC_M_DATA_READ) then (0, None)
  else (1, if size_ptr then Some (IPC_GET_ARG2 data) else None).

(** The end of [async_data_write_void], from the return of
    [async_get_call] inside [async_data_write_receive], whose own return
    value is not looked at. *)
Definition async_data_write_void_done (retval : Z)
    (r : state * ret (Z * option ipc_call_t)) : state * ret unit :=
  match r with
  | (st, Return (callid, _)) =>
      (emit (IpcAnswer0 callid retval) st, Return ())
  | (st, Switched) => (st, Switched)
  end.

Definition async_data_write_void (conn : Z) (now : Z) (retval : Z)
    (st : state) : option (state * ret unit) :=
  r ← async_get_call conn now st;
  Some (async_data_write_void_done retval r).

Definition async_data_write_void_resume (conn : Z) (retval : Z)
    (st : state) : option (state * ret unit) :=
  r ← async_get_call_resume conn st;
  Some (async_data_write_void_done retval r).

(** The end of a forward whose [ipc_forward_fast] failed with [retval],
    from the return of [async_wait_for]. *)
Definition forward_failed_done (callid retval : Z)
    (w : state * ret (option Z)) : state * ret Z :=
  match w with
  | (st, Return _) => (emit (IpcAnswer0 callid retval) st, Return retval)
  | (st, Switched) => (st, Switched)
  end.

(** The end of a forward that went through, from the return of
    [async_wait_for]: the status comes back as [(int) rc]. *)
Definition forward_done (w : state * ret (option Z))
    : option (state * ret Z) :=
  match w with
  | (st, Return (Some rc)) => Some (st, Return (to_int rc))
  | (st, Return None) => None
  | (st, Switched) => Some (st, Switched)
  end.

(** What [async_data_read_forward_fast] and [async_data_write_forward_fast]
    have in common, from the point where the receive helper has accepted
    the call [callid].  [forward_rc] is what
    [ipc_forward_fast(callid, phoneid, 0, 0, 0, IPC_FF_ROUTE_FROM_ME)]
    returns. *)
Definition forward_send (callid : Z)
    (phoneid method arg1 arg2 arg3 arg4 dptr : Z)
    (msg_alloc : option (Z * amsg_t)) (forward_rc : Z) (self : Z)
    (st : state) : option (state * ret Z) :=
  let '(st, msg) :=
    async_send_fast phoneid method arg1 arg2 arg3 arg4 dptr msg_alloc st in
  if decide (msg = 0) then
    Some (emit (IpcAnswer0 callid EINVAL) st, Return EINVAL)
  else if decide (forward_rc ≠ EOK) then
    w ← async_wait_for msg false self st;
    Some (forward_failed_done callid forward_rc w)
  else
    w ← async_wait_for msg true self st;
    forward_done w.

(** [async_data_read_forward_fast] once [async_get_call] has returned
    [callid] and [data]. *)
Definition async_data_read_forward_fast (callid : Z) (data : ipc_call_t)
    (phoneid method arg1 arg2 arg3 arg4 dptr : Z)
    (msg_alloc : option (Z * amsg_t)) (forward_rc : Z) (self : Z)
    (st : state) : option (state * ret Z) :=
  if decide ((async_data_read_receive false data).1 = 0) then
    Some (emit (IpcAnswer0 callid EINVAL) st, Return EINVAL)
  else
    forward_send callid phoneid method arg1 arg2 arg3 arg4 dptr msg_alloc
      forward_rc self st.

(** [async_data_write_forward_fast] once [async_get_call] has returned
    [callid] and [data]. *)
Definition async_data_write_forward_fast (callid : Z) (data : ipc_call_t)
    (phoneid method arg1 arg2 arg3 arg4 dptr : Z)
    (msg_alloc : option (Z * amsg_t)) (forward_rc : Z) (self : Z)
    (st : state) : option (state * ret Z) :=
  if negb (async_data_write_receive data).1 then
    Some (emit (IpcAnswer0 callid EINVAL) st, Return EINVAL)
  else
    forward_send callid phoneid method arg1 arg2 arg3 arg4 dptr msg_alloc
      forward_rc self st.

(** Both functions from the point where [fibril_switch] returns inside
    [async_wait_for], after a forward that failed with [retval] and after
    one that went through. *)
Definition forward_failed_resume (msg callid retval : Z) (st : state)
    : option (state * ret Z) :=
  w ← async_wait_for_resume msg false st;
  Some (forward_failed_done callid retval w).

Definition forward_resume (msg : Z) (st : state) : option (state * ret Z) :=
  w ← async_wait_for_resume msg true st;
  forward_done w.

(** ** The framework as a transition system

    One label per entry point, with what the environment decides at that
    call: the incoming call, the clock, the outcome of [malloc] and of
    [fibril_create]. *)
Inductive label :=
  | LHandleCall (callid : Z) (call : ipc_call_t) (msg_alloc : bool)
      (conn_alloc : option (Z * connection_t)) (new_fid : Z)
  | LHandleExpiredTimeouts (now : Z)
  | LReplyReceived (arg rv : Z) (data : option ipc_call_t)
  | LNewConnection (in_phone_hash callid : Z) (call : option ipc_call_t)
      (conn_alloc : option (Z * connection_t)) (new_fid : Z)
  | LGetCallTimeout (conn usecs now : Z)
  | LConnectionReturn (conn : Z)
  | LSendFast (phoneid method arg1 arg2 arg3 arg4 dptr : Z)
      (msg_alloc : option (Z * amsg_t))
  | LSendSlow (phoneid method arg1 arg2 arg3 arg4 arg5 dptr : Z)
      (msg_alloc : option (Z * amsg_t))
  | LWaitFor (amsgid : Z) (retval_ptr : bool) (self : Z)
  | LWaitTimeout (amsgid : Z) (retval_ptr : bool) (timeout now self : Z)
  | LUsleep (timeout now self : Z) (msg_alloc : option (Z * amsg_t))
  | LResume (p : Z).

Inductive outcome :=
  | OVoid
  | OId (id : Z)
  | OGetCall (r : ret (Z * option ipc_call_t))
  | OWaitFor (r : ret (option Z))
  | OWaitTimeout (r : ret (Z * option Z))
  | OUsleep (r : ret unit).

(** [malloc] returns a non-null address that it has not handed out
    before. *)
Definition fresh_block {A} (st : state) (a : option (Z * A)) : bool :=
  match a with
  | Some (p, _) => bool_decide (p ≠ 0) && bool_decide (heap st !! p = None)
  | None => true
  end.

(** The rest of a parked function. *)
Definition resume (p : Z) (fr : frame) (st : state)
    : option (state * outcome) :=
  match fr with
  | FGetCall usecs =>
      '(st', r) ← async_get_call_timeout_resume p usecs st;
      Some (st', OGetCall r)
  | FWaitFor retval_ptr =>
      '(st', r) ← async_wait_for_resume p retval_ptr st;
      Some (st', OWaitFor r)
  | FWaitTimeout retval_ptr =>
      '(st', r) ← async_wait_timeout_resume p retval_ptr st;
      Some (st', OWaitTimeout r)
  | FUsleep =>
      '(st', r) ← async_usleep_resume p st;
      Some (st', OUsleep r)
  end.

(** One step.  A function is entered on an awaiter only while no fibril
    is parked on it, and a parked fibril runs again only after its awaiter
    was made active, which is where the framework calls
    [fibril_add_ready]. *)
Definition exec `{!ipcarg_width} (l : label) (st : state)
    : option (state * outcome) :=
  match l with
  | LHandleCall callid call msg_alloc conn_alloc new_fid =>
      guard (fresh_block st conn_alloc = true);;
      Some (handle_call callid call msg_alloc conn_alloc new_fid st, OVoid)
  | LHandleExpiredTimeouts now =>
      Some (handle_expired_timeouts now st, OVoid)
  | LReplyReceived arg rv data =>
      st' ← reply_received arg rv data st;
      Some (st', OVoid)
  | LNewConnection hash callid call conn_alloc new_fid =>
      guard (fresh_block st conn_alloc = true);;
      let '(st', f) :=
        async_new_connection hash callid call conn_alloc new_fid st in
      Some (st', OId f)
  | LGetCallTimeout conn usecs now =>
      guard (parked st !! conn = None);;
      '(st', r) ← async_get_call_timeout conn usecs now st;
      Some (st', OGetCall r)
  | LConnectionReturn conn =>
      guard (parked st !! conn = None);;
      st' ← connection_fibril conn st;
      Some (st', OVoid)
  | LSendFast phoneid method arg1 arg2 arg3 arg4 dptr msg_alloc =>
      guard (fresh_block st msg_alloc = true);;
      let '(st', id) :=
        async_send_fast phoneid method arg1 arg2 arg3 arg4 dptr msg_alloc
          st in
      Some (st', OId id)
  | LSendSlow phoneid method arg1 arg2 arg3 arg4 arg5 dptr msg_alloc =>
      guard (fresh_block st msg_alloc = true);;
      let '(st', id) :=
        async_send_slow phoneid method arg1 arg2 arg3 arg4 arg5 dptr
          msg_alloc st in
      Some (st', OId id)
  | LWaitFor amsgid retval_ptr self =>
      guard (parked st !! amsgid = None);;
      '(st', r) ← async_wait_for amsgid retval_ptr self st;
      Some (st', OWaitFor r)
  | LWaitTimeout amsgid retval_ptr timeout now self =>
      guard (timeout < 0 ∨ parked st !! amsgid = None);;
      '(st', r) ← async_wait_timeout amsgid retval_ptr timeout now self st;
      Some (st', OWaitTimeout r)
  | LUsleep timeout now self msg_alloc =>
      guard (fresh_block st msg_alloc = true);;
      '(st', r) ← async_usleep timeout now self msg_alloc st;
      Some (st', OUsleep r)
  | LResume p =>
      fr ← parked st !! p;
      w ← wdata_at st p;
      guard (active w = true);;
      resume p fr (with_parked (delete p) st)
  end.

(** A step as it happened: the state before, the call, what it returned
    and the state after. *)
Record event := mk_event {
  ev_pre : state;
  ev_label : label;
  ev_out : outcome;
  ev_post : state
}.

Fixpoint run `{!ipcarg_width} (ls : list label) (st : state)
    : option (state * list event) :=
  match ls with
  | [] => Some (st, [])
  | l :: ls =>
      '(st1, o) ← exec l st;
      '(st', tr) ← run ls st1;
      Some (st', mk_event st l o st1 :: tr)
  end.

(** ** What the properties talk about *)

Definition expires_at (st : state) (p : Z) : Z :=
  from_option (λ w, expires (to_event w)) 0 (wdata_at st p).

Definition queue_at (st : state) (p : Z) : list msg_t :=
  from_option msg_queue [] (conn_at st p).

Definition done_at (st : state) (p : Z) : option bool :=
  done <$> msg_at st p.

Definition retval_at (st : state) (p : Z) : option Z :=
  retval <$> msg_at st p.

(** Frames of the functions that park with the awaiter in the timeout
    list. *)
Definition frame_links (fr : frame) : bool :=
  match fr with
  | FGetCall usecs => bool_decide (usecs ≠ 0)
  | FWaitFor _ => false
  | FWaitTimeout _ => true
  | FUsleep => true
  end.

(** The [expires] values do not decrease from head to tail. *)
Definition expires_sorted (st : state) : Prop :=
  StronglySorted (λ p q, expires_at st p <= expires_at st q)
    (timeout_list st).

(** A linked awaiter is a live record, is flagged [inlist], is not active
    and has a fibril parked on it. *)
Definition linked_ok (st : state) : Prop :=
  ∀ p, p ∈ timeout_list st →
    ∃ w fr, wdata_at st p = Some w ∧ active w = false
      ∧ inlist (to_event w) = true
      ∧ parked st !! p = Some fr ∧ frame_links fr = true.

Record timeout_inv (st : state) : Prop := mk_timeout_inv {
  ti_nodup : NoDup (timeout_list st);
  ti_sorted : expires_sorted st;
  ti_linked : linked_ok st
}.

(** Between [st] and [st'] nothing changed in the heap or among the
    parked fibrils except possibly at [p]. *)
Definition only_at (p : Z) (st st' : state) : Prop :=
  ∀ q, q ≠ p →
    heap st' !! q = heap st !! q ∧ parked st' !! q = parked st !! q.

(** What a call added to the log of outside calls. *)
Definition new_effects (st st' : state) : list effect :=
  drop (length (effects st)) (effects st').

(** The answers sent, in order. *)
Definition answers_of (es : list effect) : list (Z * Z) :=
  omap (λ e, match e with IpcAnswer0 c r => Some (c, r) | _ => None end) es.

Definition hangup_answers (q : list msg_t) : list effect :=
  map (λ msg, IpcAnswer0 (callid msg) EHANGUP) q.

(** The record [async_get_call_timeout] makes up for a connection that
    was hung up. *)
Definition hungup_call : ipc_call_t :=
  IPC_SET_METHOD IPC_M_PHONE_HUNGUP zero_call.

(** The size checks of [async_data_write_accept]. *)
Definition size_rejected (size min_size max_size granularity : Z) : Prop :=
  size < min_size ∨ (max_size > 0 ∧ size > max_size)
  ∨ (granularity > 0 ∧ size `mod` granularity ≠ 0).

Definition same_queues (st st' : state) : Prop :=
  ∀ q, queue_at st' q = queue_at st q.

(** The connection a step reads the inbox of, if it is a call of
    [async_get_call_timeout] or its continuation. *)
Definition get_call_conn (l : label) : option Z :=
  match l with
  | LGetCallTimeout conn _ _ => Some conn
  | LResume p => Some p
  | _ => None
  end.

(** What a step returns to the fibril of [conn] from
    [async_get_call_timeout]: the call id and the record stored in
    [*call]; nothing for a return of zero. *)
Definition returned (conn : Z) (ev : event) : list msg_t :=
  match ev_out ev with
  | OGetCall (Return (cid, Some c)) =>
      if decide (get_call_conn (ev_label ev) = Some conn)
      then [mk_msg cid c] else []
  | _ => []
  end.

(** The same, for the returns made while the inbox holds a message. *)
Definition dequeued (conn : Z) (ev : event) : list msg_t :=
  if decide (queue_at (ev_pre ev) conn = []) then [] else returned conn ev.

(** The call [handle_call] passes to [route_call] in a step, if the
    connection table sends it to [conn]. *)
Definition passed (conn : Z) (ev : event) : list msg_t :=
  match ev_label ev with
  | LHandleCall cid cl _ _ _ =>
      if decide (Z.land cid IPC_CALLID_NOTIFICATION = 0
                 ∧ IPC_GET_METHOD cl ≠ IPC_M_CONNECT_ME
                 ∧ IPC_GET_METHOD cl ≠ IPC_M_CONNECT_ME_TO
                 ∧ hash_table_find (ev_pre ev) (in_phone_hash cl)
                   = Some conn)
      then [mk_msg cid cl] else []
  | _ => []
  end.

(** The same, when [route_call] could allocate the queue node and so
    returned true. *)
Definition accepted (conn : Z) (ev : event) : list msg_t :=
  match ev_label ev with
  | LHandleCall _ _ msg_alloc _ _ => if msg_alloc then passed conn ev else []
  | _ => []
  end.

Definition inlist_at (st : state) (p : Z) : option bool :=
  (λ w, inlist (to_event w)) <$> wdata_at st p.

(** Every message record of [st] is still there in [st'], with the same
    [done] flag and the same [retval], and every connection record is
    still a connection record. *)
Definition msgs_kept (st st' : state) : Prop :=
  (∀ q m, msg_at st q = Some m →
     ∃ m', msg_at st' q = Some m' ∧ done m' = done m
           ∧ retval m' = retval m)
  ∧ (∀ q, is_Some (conn_at st q) → is_Some (conn_at st' q)).

(** Parked fibrils are parked on live records, and a fibril parked in
    [async_wait_for] whose awaiter was made active has its reply. *)
Definition wait_for_inv (st : state) : Prop :=
  (∀ p, is_Some (parked st !! p) → is_Some (heap st !! p))
  ∧ (∀ p rp m, parked st !! p = Some (FWaitFor rp) →
       msg_at st p = Some m → active (msg_wdata m) = true →
       done m = true).

(** The step is an [async_send_fast] or [async_send_slow] that got the
    block at [p] for its message. *)
Definition created_by_send (p : Z) (ev : event) : Prop :=
  match ev_label ev with
  | LSendFast _ _ _ _ _ _ _ (Some (q, _)) => q = p
  | LSendSlow _ _ _ _ _ _ _ _ (Some (q, _)) => q = p
  | _ => False
  end.

(** The status, an [int], that the step hands to [reply_received] for
    the message at [p], if it is such a call. *)
Definition reply_to (p : Z) (ev : event) : option Z :=
  match ev_label ev with
  | LReplyReceived arg rv _ => if decide (arg = p) then Some rv else None
  | _ => None
  end.

Definition last_reply (p : Z) (tr : list event) : option Z :=
  last (omap (reply_to p) tr).

(** The step takes [done] of the message at [p] from false to true. *)
Definition done_set (p : Z) (ev : event) : Prop :=
  done_at (ev_pre ev) p = Some false ∧ done_at (ev_post ev) p = Some true.

#[global] Instance done_set_dec p ev : Decision (done_set p ev) :=
  ltac:(unfold done_set; apply _).

(** The step is a return of [async_wait_for] for the message at [p], on
    entry or after having been parked; the result tells whether it was
    called with a [retval] that is not [NULL]. *)
Definition wait_for_returns (p : Z) (ev : event) : option bool :=
  match ev_label ev, ev_out ev with
  | LWaitFor q retval_ptr _, OWaitFor (Return _) =>
      if decide (q = p) then Some retval_ptr else None
  | LResume q, OWaitFor (Return _) =>
      if decide (q = p) then
        match parked (ev_pre ev) !! q with
        | Some (FWaitFor retval_ptr) => Some retval_ptr
        | _ => None
        end
      else None
  | _, _ => None
  end.

(** ** What the further properties talk about *)

Definition fid_at (st : state) (p : Z) : Z :=
  from_option fid 0 (wdata_at st p).

(** What [handle_expired_timeouts] does to an awaiter it takes off the
    list. *)
Definition woken (w : awaiter_t) : awaiter_t :=
  set_active true (set_occurred true (set_inlist false w)).

(** The discipline of [async_futex] over a sequence of outside calls:
    [futex_after held es] is whether the futex is held after [es] when it
    was held, or not, before.  There is no result if the futex is taken
    while held or released while free, if an answer or a request is sent
    with the futex held, or if the fibril switches to the manager without
    holding it. *)
Fixpoint futex_after (held : bool) (es : list effect) : option bool :=
  match es with
  | [] => Some held
  | e :: es =>
      match e with
      | FutexDown => if held then None else futex_after true es
      | FutexUp => if held then futex_after false es else None
      | IpcAnswer0 _ _ | IpcCallAsync _ _ _ _ =>
          if held then None else futex_after false es
      | FibrilSwitchToManager =>
          if held then futex_after true es else None
      | FibrilAddReady _ | Free _ => futex_after held es
      end
  end.

(** Between [st] and [st'] the log of outside calls only grew, and what
    was added takes the futex from [h] to [h']. *)
Definition futex_step (h h' : bool) (st st' : state) : Prop :=
  ∃ es, effects st' = effects st ++ es ∧ futex_after h es = Some h'.

(** Every entry of the connection table is the address of a connection
    record, and no record is entered twice. *)
Definition table_conns (st : state) : Prop :=
  NoDup (conn_hash_table st)
  ∧ ∀ p, p ∈ conn_hash_table st → is_Some (conn_at st p).

(** Moreover, no entry of the table has been freed. *)
Definition table_inv (st : state) : Prop :=
  table_conns st ∧ ∀ p, p ∈ conn_hash_table st → p ∉ freed st.

(** What has been freed had been handed out by [malloc], and a fibril
    parked in [async_usleep] is parked on a message. *)
Definition blocks_inv (st : state) : Prop :=
  (∀ p, p ∈ freed st → is_Some (heap st !! p))
  ∧ (∀ p, parked st !! p = Some FUsleep → is_Some (msg_at st p)).

(** Between [st] and [st'] the log of outside calls only grew, and no
    answer was sent. *)
Definition quiet (st st' : state) : Prop :=
  ∃ es, effects st' = effects st ++ es ∧ answers_of es = [].

(** The record [async_new_connection] sets up in the block [blk]. *)
Definition new_conn (in_phone_hash callid : Z) (call : option ipc_call_t)
    (blk : connection_t) (new_fid : Z) : connection_t :=
  mk_conn (set_fid new_fid (set_active true (conn_wdata blk)))
    in_phone_hash [] callid (from_option id (conn_call blk) call) 0.

(** A call id as [handle_call] routes it: neither a notification nor a
    request for a connection. *)
Definition routable (callid : Z) (call : ipc_call_t) : Prop :=
  Z.land callid IPC_CALLID_NOTIFICATION = 0
  ∧ IPC_GET_METHOD call ≠ IPC_M_CONNECT_ME
  ∧ IPC_GET_METHOD call ≠ IPC_M_CONNECT_ME_TO.

(** A call that asks for a connection. *)
Definition connect_request (callid : Z) (call : ipc_call_t) : Prop :=
  Z.land callid IPC_CALLID_NOTIFICATION = 0
  ∧ (IPC_GET_METHOD call = IPC_M_CONNECT_ME
     ∨ IPC_GET_METHOD call = IPC_M_CONNECT_ME_TO).

(** What [async_req_fast] and [async_req_slow] hand back for the status
    [rc] when the local [result] holds [res]. *)
Definition req_values (res : ipc_call_t) (rc : Z) (r1 r2 r3 r4 r5 : bool)
    : req_result :=
  mk_req_result rc
    (if r1 then Some (IPC_GET_ARG1 res) else None)
    (if r2 then Some (IPC_GET_ARG2 res) else None)
    (if r3 then Some (IPC_GET_ARG3 res) else None)
    (if r4 then Some (IPC_GET_ARG4 res) else None)
    (if r5 then Some (IPC_GET_ARG5 res) else None).

(** The two forwarding functions, and the method each of them takes. *)
Definition forward_fast (write : bool) :=
  if write then async_data_write_forward_fast
  else async_data_read_forward_fast.

Definition forward_method (write : bool) : Z :=
  if write then IPC_M_DATA_WRITE else IPC_M_DATA_READ.

(** What holds of a fibril parked on [p] with the frame [fr] and the
    awaiter [w].  If it has not been made ready and it parked with a
    timeout, it is in the timeout list.  If it reads an inbox and has been
    made ready, there is a call for it or its timeout has come. *)
Definition wake_ok (st : state) (p : Z) (fr : frame) (w : awaiter_t)
    : Prop :=
  (active w = false → frame_links fr = true → p ∈ timeout_list st)
  ∧ (∀ usecs, fr = FGetCall usecs →
       ∃ c, conn_at st p = Some c
         ∧ (active w = true →
            msg_queue c ≠ []
            ∨ (usecs ≠ 0 ∧ occurred (to_event w) = true))).

Definition wake_inv (st : state) : Prop :=
  ∀ p fr w, parked st !! p = Some fr → wdata_at st p = Some w →
    wake_ok st p fr w.

(** Between [st] and [st'] no awaiter other than [p] entered or left the
    timeout list. *)
Definition tl_others (p : Z) (st st' : state) : Prop :=
  ∀ q, q ≠ p → q ∈ timeout_list st' ↔ q ∈ timeout_list st.

(** ** Inputs for the examples *)

(** Blocks as [malloc] may hand them out, with leftovers in every field
    the framework does not set. *)
Definition stale_awaiter : awaiter_t :=
  mk_awaiter 55 false (mk_to_event 3 true true).
Definition stale_conn : connection_t :=
  mk_conn stale_awaiter 66 [mk_msg 1 zero_call] 77 zero_call 88.
Definition stale_amsg : amsg_t := mk_amsg stale_awaiter true 44 99.

(** The state a list of calls leads to from the initial state. *)
Definition state_after `{!ipcarg_width} (ls : list label) : state :=
  from_option fst init_state (run ls init_state).

Definition drain_example `{!ipcarg_width} : state :=
  state_after
    [LNewConnection 7 0 None (Some (100, stale_conn)) 11;
     LHandleCall 8 (mk_call 1024 0 0 0 0 0 7) true None 0;
     LHandleCall 12 (mk_call IPC_M_PHONE_HUNGUP 0 0 0 0 0 7) true None 0].

Definition drain_example_conn `{!ipcarg_width} : connection_t :=
  from_option id stale_conn (conn_at drain_example 100).

Definition replied_example `{!ipcarg_width} : state :=
  state_after
    [LSendFast 1 1024 0 0 0 0 0 (Some (300, stale_amsg));
     LReplyReceived 300 0 None].

Definition timed_out_example `{!ipcarg_width} : state :=
  with_parked (delete 300)
    (state_after
       [LSendFast 1 1024 0 0 0 0 0 (Some (300, stale_amsg));
        LWaitTimeout 300 true 10 0 1;
        LHandleExpiredTimeouts 10]).

Definition answered_in_time_example `{!ipcarg_width} : state :=
  state_after
    [LSendFast 1 1024 0 0 0 0 0 (Some (300, stale_amsg));
     LWaitTimeout 300 true 10 0 1;
     LReplyReceived 300 42 None].

Definition flood_example : list label :=
  [LNewConnection 7 0 None (Some (100, stale_conn)) 11;
   LHandleCall 8 (mk_call 1025 0 0 0 0 0 7) true None 0;
   LHandleCall 12 (mk_call 1026 0 0 0 0 0 7) true None 0;
   LGetCallTimeout 100 0 40;
   LHandleCall 16 (mk_call 1027 0 0 0 0 0 7) true None 0;
   LGetCallTimeout 100 0 50;
   LGetCallTimeout 100 0 60].

Definition hangup_reread_example : list label :=
  [LNewConnection 7 0 None (Some (100, stale_conn)) 11;
   LHandleCall 12 (mk_call IPC_M_PHONE_HUNGUP 0 0 0 0 0 7) true None 0;
   LGetCallTimeout 100 0 40;
   LGetCallTimeout 100 0 50].

Definition sleepers_example : list label :=
  [LUsleep 5 0 1 (Some (200, stale_amsg));
   LUsleep 5 0 2 (Some (201, stale_amsg));
   LUsleep 3 0 3 (Some (202, stale_amsg));
   LUsleep 9 0 4 (Some (203, stale_amsg))].

Definition request_example : list label :=
  [LSendFast 1 1024 0 0 0 0 0 (Some (300, stale_amsg));
   LWaitFor 300 true 21;
   LReplyReceived 300 EHANGUP None;
   LResume 300].

(** * Proofs *)

(** ** Reading and writing the heap *)

Ltac st_simpl :=
  cbn [heap conn_hash_table timeout_list parked call_store effects
       emit with_heap set_conn_hash_table set_timeout_list with_parked
       with_call_store upd_wdata upd_conn upd_msg alloc park conn_remove
       hash_table_insert freed with_freed free fst snd] in *.

Lemma wdata_at_upd_wdata st p f q :
  wdata_at (upd_wdata p f st) q
  = if decide (p = q) then f <$> wdata_at st q else wdata_at st q.
Proof.
  unfold wdata_at. st_simpl. rewrite lookup_alter.
  case_decide; subst; [|done]. by destruct (heap st !! q) as [[]|].
Qed.

Lemma wdata_at_upd_conn st p f q :
  (∀ c, conn_wdata (f c) = conn_wdata c) →
  wdata_at (upd_conn p f st) q = wdata_at st q.
Proof.
  intros Hf. unfold wdata_at. st_simpl. rewrite lookup_alter.
  case_decide; subst; [|done].
  destruct (heap st !! q) as [[]|]; simpl; by rewrite ?Hf.
Qed.

Lemma wdata_at_alloc st p o q :
  wdata_at (alloc p o st) q
  = if decide (p = q) then Some (obj_wdata o) else wdata_at st q.
Proof.
  unfold wdata_at. st_simpl. rewrite lookup_insert. by case_decide.
Qed.

Lemma conn_at_upd_wdata st p f q :
  conn_at (upd_wdata p f st) q
  = if decide (p = q) then with_conn_wdata f <$> conn_at st q
    else conn_at st q.
Proof.
  unfold conn_at. st_simpl. rewrite lookup_alter.
  case_decide; subst; [|done]. by destruct (heap st !! q) as [[]|].
Qed.

Lemma conn_at_upd_conn st p f q :
  conn_at (upd_conn p f st) q
  = if decide (p = q) then f <$> conn_at st q else conn_at st q.
Proof.
  unfold conn_at. st_simpl. rewrite lookup_alter.
  case_decide; subst; [|done]. by destruct (heap st !! q) as [[]|].
Qed.

Lemma conn_at_upd_msg st p f q :
  conn_at (upd_msg p f st) q = conn_at st q.
Proof.
  unfold conn_at. st_simpl. rewrite lookup_alter.
  case_decide; subst; [|done]. by destruct (heap st !! q) as [[]|].
Qed.

Lemma conn_at_alloc st p o q :
  conn_at (alloc p o st) q
  = if decide (p = q)
    then match o with OConn c => Some c | OMsg _ => None end
    else conn_at st q.
Proof.
  unfold conn_at. st_simpl. rewrite lookup_insert. by case_decide.
Qed.

Lemma msg_at_upd_wdata st p f q :
  msg_at (upd_wdata p f st) q
  = if decide (p = q) then with_msg_wdata f <$> msg_at st q
    else msg_at st q.
Proof.
  unfold msg_at. st_simpl. rewrite lookup_alter.
  case_decide; subst; [|done]. by destruct (heap st !! q) as [[]|].
Qed.

Lemma msg_at_upd_msg st p f q :
  msg_at (upd_msg p f st) q
  = if decide (p = q) then f <$> msg_at st q else msg_at st q.
Proof.
  unfold msg_at. st_simpl. rewrite lookup_alter.
  case_decide; subst; [|done]. by destruct (heap st !! q) as [[]|].
Qed.

Lemma msg_at_upd_conn st p f q :
  msg_at (upd_conn p f st) q = msg_at st q.
Proof.
  unfold msg_at. st_simpl. rewrite lookup_alter.
  case_decide; subst; [|done]. by destruct (heap st !! q) as [[]|].
Qed.

Lemma msg_at_alloc st p o q :
  msg_at (alloc p o st) q
  = if decide (p = q)
    then match o with OMsg m => Some m | OConn _ => None end
    else msg_at st q.
Proof.
  unfold msg_at. st_simpl. rewrite lookup_insert. by case_decide.
Qed.

Lemma wdata_at_conn st p c :
  conn_at st p = Some c → wdata_at st p = Some (conn_wdata c).
Proof.
  unfold conn_at, wdata_at. destruct (heap st !! p) as [[]|]; naive_solver.
Qed.

Lemma wdata_at_msg st p m :
  msg_at st p = Some m → wdata_at st p = Some (msg_wdata m).
Proof.
  unfold msg_at, wdata_at. destruct (heap st !! p) as [[]|]; naive_solver.
Qed.

Lemma conn_at_msg_at st p c m :
  conn_at st p = Some c → msg_at st p = Some m → False.
Proof.
  unfold conn_at, msg_at. destruct (heap st !! p) as [[]|]; naive_solver.
Qed.

Lemma wdata_at_is_Some st p :
  is_Some (wdata_at st p) ↔ is_Some (heap st !! p).
Proof. unfold wdata_at. by rewrite fmap_is_Some. Qed.

Lemma wdata_at_emit st e p : wdata_at (emit e st) p = wdata_at st p.
Proof. done. Qed.
Lemma wdata_at_set_timeout_list st l p :
  wdata_at (set_timeout_list l st) p = wdata_at st p.
Proof. done. Qed.
Lemma wdata_at_set_conn_hash_table st l p :
  wdata_at (set_conn_hash_table l st) p = wdata_at st p.
Proof. done. Qed.
Lemma wdata_at_with_parked st f p :
  wdata_at (with_parked f st) p = wdata_at st p.
Proof. done. Qed.
Lemma wdata_at_with_call_store st f p :
  wdata_at (with_call_store f st) p = wdata_at st p.
Proof. done. Qed.
Lemma wdata_at_park st q fr p : wdata_at (park q fr st) p = wdata_at st p.
Proof. done. Qed.
Lemma wdata_at_with_freed st f p :
  wdata_at (with_freed f st) p = wdata_at st p.
Proof. done. Qed.
Lemma wdata_at_free st q p : wdata_at (free q st) p = wdata_at st p.
Proof. done. Qed.

Lemma msg_at_emit st e p : msg_at (emit e st) p = msg_at st p.
Proof. done. Qed.
Lemma msg_at_set_timeout_list st l p :
  msg_at (set_timeout_list l st) p = msg_at st p.
Proof. done. Qed.
Lemma msg_at_set_conn_hash_table st l p :
  msg_at (set_conn_hash_table l st) p = msg_at st p.
Proof. done. Qed.
Lemma msg_at_with_parked st f p :
  msg_at (with_parked f st) p = msg_at st p.
Proof. done. Qed.
Lemma msg_at_with_call_store st f p :
  msg_at (with_call_store f st) p = msg_at st p.
Proof. done. Qed.
Lemma msg_at_park st q fr p : msg_at (park q fr st) p = msg_at st p.
Proof. done. Qed.
Lemma msg_at_with_freed st f p : msg_at (with_freed f st) p = msg_at st p.
Proof. done. Qed.
Lemma msg_at_free st q p : msg_at (free q st) p = msg_at st p.
Proof. done. Qed.

Lemma conn_at_emit st e p : conn_at (emit e st) p = conn_at st p.
Proof. done. Qed.
Lemma conn_at_set_timeout_list st l p :
  conn_at (set_timeout_list l st) p = conn_at st p.
Proof. done. Qed.
Lemma conn_at_set_conn_hash_table st l p :
  conn_at (set_conn_hash_table l st) p = conn_at st p.
Proof. done. Qed.
Lemma conn_at_with_parked st f p :
  conn_at (with_parked f st) p = conn_at st p.
Proof. done. Qed.
Lemma conn_at_with_call_store st f p :
  conn_at (with_call_store f st) p = conn_at st p.
Proof. done. Qed.
Lemma conn_at_park st q fr p : conn_at (park q fr st) p = conn_at st p.
Proof. done. Qed.
Lemma conn_at_with_freed st f p :
  conn_at (with_freed f st) p = conn_at st p.
Proof. done. Qed.
Lemma conn_at_free st q p : conn_at (free q st) p = conn_at st p.
Proof. done. Qed.

Create Rewrite HintDb heap_read.
#[global] Hint Rewrite wdata_at_emit wdata_at_set_timeout_list
  wdata_at_set_conn_hash_table wdata_at_with_parked wdata_at_with_call_store
  wdata_at_park msg_at_emit msg_at_set_timeout_list
  msg_at_set_conn_hash_table msg_at_with_parked msg_at_with_call_store
  msg_at_park conn_at_emit conn_at_set_timeout_list
  conn_at_set_conn_hash_table conn_at_with_parked conn_at_with_call_store
  conn_at_park wdata_at_upd_wdata wdata_at_alloc conn_at_upd_wdata
  conn_at_upd_conn conn_at_upd_msg conn_at_alloc msg_at_upd_wdata
  msg_at_upd_msg msg_at_upd_conn msg_at_alloc wdata_at_with_freed
  wdata_at_free msg_at_with_freed msg_at_free conn_at_with_freed
  conn_at_free : heap_read.

(** From here on the width of a machine word is any fixed one. *)
Section async.
Context {width : ipcarg_width}.

(** ** The timeout list stays ordered *)

Lemma StronglySorted_sublist {A} (R : relation A) (k l : list A) :
  k `sublist_of` l → StronglySorted R l → StronglySorted R k.
Proof.
  induction 1 as [|x k l Hkl IH|x k l Hkl IH]; intros Hl.
  - constructor.
  - apply StronglySorted_inv in Hl as [Hl Hx]. constructor; [by apply IH|].
    rewrite Forall_forall in *. intros y Hy. apply Hx.
    by eapply elem_of_sublist.
  - apply StronglySorted_inv in Hl as [Hl _]. by apply IH.
Qed.

Lemma StronglySorted_ext_in {A} (R R' : relation A) (l : list A) :
  (∀ x y, x ∈ l → y ∈ l → R x y → R' x y) →
  StronglySorted R l → StronglySorted R' l.
Proof.
  induction l as [|x l IH]; intros HR Hl; [constructor|].
  apply StronglySorted_inv in Hl as [Hl Hx]. constructor.
  - apply IH; [|done]. intros y z Hy Hz. apply HR; by right.
  - rewrite Forall_forall in *. intros y Hy.
    apply HR; [by left|by right|by apply Hx].
Qed.

Lemma list_remove_sublist p l : list_remove p l `sublist_of` l.
Proof. apply sublist_filter. Qed.

Lemma elem_of_list_remove p q l : q ∈ list_remove p l ↔ q ≠ p ∧ q ∈ l.
Proof. unfold list_remove. by rewrite list_elem_of_filter. Qed.

Lemma expires_at_eq st st' q :
  wdata_at st' q = wdata_at st q → expires_at st' q = expires_at st q.
Proof. unfold expires_at. by intros ->. Qed.

(** Unlinking awaiters and leaving the linked ones alone keeps the
    invariant. *)
Lemma timeout_inv_frame st st' :
  timeout_inv st →
  timeout_list st' `sublist_of` timeout_list st →
  (∀ q, q ∈ timeout_list st' →
     wdata_at st' q = wdata_at st q ∧ parked st' !! q = parked st !! q) →
  timeout_inv st'.
Proof.
  intros [Hnd Hs Hl] Hsub Hsame. split.
  - by eapply sublist_NoDup.
  - unfold expires_sorted in *.
    eapply StronglySorted_ext_in;
      [|by eapply StronglySorted_sublist].
    intros x y Hx Hy. simpl.
    rewrite (expires_at_eq st st' x), (expires_at_eq st st' y);
      [done|by apply Hsame..].
  - intros q Hq. destruct (Hsame q Hq) as [-> ->].
    apply Hl. by eapply elem_of_sublist.
Qed.

(** The same, when all that changes in the heap and among the parked
    fibrils is at one address that ends up unlinked. *)
Lemma timeout_inv_local st st' p :
  timeout_inv st →
  timeout_list st' `sublist_of` timeout_list st →
  p ∉ timeout_list st' →
  (∀ q, q ≠ p →
     wdata_at st' q = wdata_at st q ∧ parked st' !! q = parked st !! q) →
  timeout_inv st'.
Proof.
  intros Hinv Hsub Hp Hsame. eapply timeout_inv_frame; [done..|].
  intros q Hq. apply Hsame. by intros ->.
Qed.

Lemma linked_not_active st p w :
  timeout_inv st → wdata_at st p = Some w → active w = true →
  p ∉ timeout_list st.
Proof.
  intros [_ _ Hl] Hw Ha Hp. destruct (Hl p Hp) as (w' & fr & Hw' & Ha' & _).
  congruence.
Qed.

Lemma linked_parked st p :
  timeout_inv st → parked st !! p = None → p ∉ timeout_list st.
Proof.
  intros [_ _ Hl] Hpk Hp.
  destruct (Hl p Hp) as (w' & fr & _ & _ & _ & Hfr & _). congruence.
Qed.

Lemma linked_inlist st p w :
  timeout_inv st → wdata_at st p = Some w →
  inlist (to_event w) = false → p ∉ timeout_list st.
Proof.
  intros [_ _ Hl] Hw Ha Hp.
  destruct (Hl p Hp) as (w' & fr & Hw' & _ & Hi & _). congruence.
Qed.

Lemma linked_live st p :
  timeout_inv st → heap st !! p = None → p ∉ timeout_list st.
Proof.
  intros [_ _ Hl] Hh Hp. destruct (Hl p Hp) as (w' & fr & Hw' & _).
  unfold wdata_at in Hw'. by rewrite Hh in Hw'.
Qed.

(** Where [async_insert_timeout] puts the new link: behind every entry
    that expires strictly earlier and in front of the first one that does
    not. *)
Lemma insert_walk_split st e wd l :
  (∀ q, q ∈ l → is_Some (wdata_at st q)) →
  ∃ l1 l2, l = l1 ++ l2 ∧ insert_walk st e wd l = l1 ++ wd :: l2
    ∧ Forall (λ q, expires_at st q < e) l1
    ∧ match l2 with [] => True | q :: _ => e <= expires_at st q end.
Proof.
  induction l as [|tmp next IH]; intros Hlive.
  - by exists [], [].
  - simpl. destruct (Hlive tmp) as [cur Hcur]; [by left|].
    rewrite Hcur. unfold tv_gteq. case_bool_decide as Hge.
    + exists [], (tmp :: next). repeat split; [constructor|].
      unfold expires_at. rewrite Hcur. simpl. lia.
    + destruct IH as (l1 & l2 & -> & -> & Hl1 & Hl2).
      { intros q Hq. apply Hlive. by right. }
      exists (tmp :: l1), l2. repeat split; [|done].
      constructor; [|done]. unfold expires_at. rewrite Hcur. simpl. lia.
Qed.

Lemma insert_walk_ext st st' e wd l :
  (∀ q, q ∈ l → expires_at st' q = expires_at st q
                ∧ (is_Some (wdata_at st' q) ↔ is_Some (wdata_at st q))) →
  insert_walk st' e wd l = insert_walk st e wd l.
Proof.
  induction l as [|tmp next IH]; intros Hsame; [done|]. simpl.
  destruct (Hsame tmp) as [He Hs]; [by left|].
  rewrite IH by (intros q Hq; apply Hsame; by right).
  unfold expires_at in He.
  destruct (wdata_at st' tmp) as [w'|], (wdata_at st tmp) as [w|];
    simpl in *; try done.
  - by rewrite He.
  - destruct Hs as [Hs _]. by destruct Hs.
  - destruct Hs as [_ Hs]. by destruct Hs.
Qed.

Lemma insert_walk_sorted st e wd l :
  (∀ q, q ∈ l → is_Some (wdata_at st q)) →
  expires_at st wd = e →
  StronglySorted (λ p q, expires_at st p <= expires_at st q) l →
  StronglySorted (λ p q, expires_at st p <= expires_at st q)
    (insert_walk st e wd l).
Proof.
  intros Hlive He Hs.
  destruct (insert_walk_split st e wd l Hlive)
    as (l1 & l2 & -> & -> & Hl1 & Hl2).
  apply StronglySorted_app in Hs as (H12 & Hs1 & Hs2).
  apply StronglySorted_app. split_and!; [|done|].
  - rewrite Forall_forall in Hl1. intros x1 x2 Hx1 Hx2.
    specialize (Hl1 x1 Hx1).
    apply elem_of_cons in Hx2 as [->|Hx2]; [lia|].
    by apply H12.
  - apply SSorted_cons; [exact Hs2|]. rewrite Forall_forall. intros y Hy.
    destruct l2 as [|q l2]; [by apply elem_of_nil in Hy|].
    apply StronglySorted_inv in Hs2 as [_ Hq]. rewrite Forall_forall in Hq.
    apply elem_of_cons in Hy as [->|Hy]; [lia|]. specialize (Hq y Hy). lia.
Qed.

Lemma insert_walk_elem_of st e wd l q :
  q ∈ insert_walk st e wd l ↔ q = wd ∨ q ∈ l.
Proof.
  induction l as [|tmp next IH]; simpl.
  - rewrite list_elem_of_singleton. set_solver.
  - destruct (wdata_at st tmp) as [cur|]; [|set_solver].
    destruct (tv_gteq _ _); set_solver.
Qed.

Lemma insert_walk_NoDup st e wd l :
  wd ∉ l → NoDup l → NoDup (insert_walk st e wd l).
Proof.
  induction l as [|tmp next IH]; simpl; intros Hwd Hnd.
  - apply NoDup_singleton.
  - apply not_elem_of_cons in Hwd as [Hne Hwd].
    assert (NoDup (wd :: tmp :: next)).
    { constructor; [|done]. set_solver. }
    destruct (wdata_at st tmp) as [cur|]; [|done].
    destruct (tv_gteq _ _); [done|].
    apply NoDup_cons in Hnd as [Htmp Hnd]. constructor; [|by apply IH].
    rewrite insert_walk_elem_of. set_solver.
Qed.

(** ** Steps that touch one address *)

Lemma only_at_refl p st : only_at p st st.
Proof. by intros q _. Qed.

Lemma only_at_trans p st1 st2 st3 :
  only_at p st1 st2 → only_at p st2 st3 → only_at p st1 st3.
Proof.
  intros H12 H23 q Hq. destruct (H12 q Hq) as [<- <-]. by apply H23.
Qed.

Lemma only_at_emit p st st' e : only_at p st st' → only_at p st (emit e st').
Proof. done. Qed.

Lemma only_at_with_freed p st st' f :
  only_at p st st' → only_at p st (with_freed f st').
Proof. done. Qed.

Lemma only_at_free p st st' q : only_at p st st' → only_at p st (free q st').
Proof. done. Qed.

Lemma only_at_set_timeout_list p st st' l :
  only_at p st st' → only_at p st (set_timeout_list l st').
Proof. done. Qed.

Lemma only_at_set_conn_hash_table p st st' l :
  only_at p st st' → only_at p st (set_conn_hash_table l st').
Proof. done. Qed.

Lemma only_at_with_call_store p st st' f :
  only_at p st st' → only_at p st (with_call_store f st').
Proof. done. Qed.

Lemma only_at_upd_wdata p st st' f :
  only_at p st st' → only_at p st (upd_wdata p f st').
Proof.
  intros H q Hq. destruct (H q Hq) as [<- <-]. st_simpl.
  by rewrite lookup_alter_ne.
Qed.

Lemma only_at_upd_conn p st st' f :
  only_at p st st' → only_at p st (upd_conn p f st').
Proof.
  intros H q Hq. destruct (H q Hq) as [<- <-]. st_simpl.
  by rewrite lookup_alter_ne.
Qed.

Lemma only_at_upd_msg p st st' f :
  only_at p st st' → only_at p st (upd_msg p f st').
Proof.
  intros H q Hq. destruct (H q Hq) as [<- <-]. st_simpl.
  by rewrite lookup_alter_ne.
Qed.

Lemma only_at_alloc p st st' o :
  only_at p st st' → only_at p st (alloc p o st').
Proof.
  intros H q Hq. destruct (H q Hq) as [<- <-]. st_simpl.
  by rewrite lookup_insert_ne.
Qed.

Lemma only_at_park p st st' fr :
  only_at p st st' → only_at p st (park p fr st').
Proof.
  intros H q Hq. destruct (H q Hq) as [<- <-]. st_simpl.
  by rewrite lookup_insert_ne.
Qed.

Lemma only_at_unpark p st st' :
  only_at p st st' → only_at p st (with_parked (delete p) st').
Proof.
  intros H q Hq. destruct (H q Hq) as [<- <-]. st_simpl.
  by rewrite lookup_delete_ne.
Qed.

Ltac solve_only_at :=
  repeat first
    [ apply only_at_refl | apply only_at_free | apply only_at_emit
    | apply only_at_with_freed | apply only_at_set_timeout_list
    | apply only_at_set_conn_hash_table | apply only_at_with_call_store
    | apply only_at_upd_wdata | apply only_at_upd_conn | apply only_at_upd_msg
    | apply only_at_alloc | apply only_at_park | apply only_at_unpark
    | match goal with
      | |- only_at _ _ (if ?b then _ else _) => destruct b
      | |- only_at _ _ (match ?d with Some _ => _ | None => _ end) =>
          destruct d
      end ].

Lemma only_at_wdata p st st' q :
  only_at p st st' → q ≠ p → wdata_at st' q = wdata_at st q.
Proof. intros H Hq. unfold wdata_at. by destruct (H q Hq) as [-> _]. Qed.

Lemma only_at_conn p st st' q :
  only_at p st st' → q ≠ p → conn_at st' q = conn_at st q.
Proof. intros H Hq. unfold conn_at. by destruct (H q Hq) as [-> _]. Qed.

Lemma only_at_msg p st st' q :
  only_at p st st' → q ≠ p → msg_at st' q = msg_at st q.
Proof. intros H Hq. unfold msg_at. by destruct (H q Hq) as [-> _]. Qed.

Lemma only_at_parked p st st' q :
  only_at p st st' → q ≠ p → parked st' !! q = parked st !! q.
Proof. intros H Hq. by destruct (H q Hq) as [_ ->]. Qed.

Lemma timeout_inv_only_at st st' p :
  timeout_inv st →
  timeout_list st' `sublist_of` timeout_list st →
  p ∉ timeout_list st' →
  only_at p st st' →
  timeout_inv st'.
Proof.
  intros Hinv Hsub Hp Hat. eapply timeout_inv_local; [done..|].
  intros q Hq. split; [by eapply only_at_wdata|by eapply only_at_parked].
Qed.

Lemma timeout_inv_same st st' :
  timeout_list st' = timeout_list st → heap st' = heap st →
  parked st' = parked st → timeout_inv st → timeout_inv st'.
Proof.
  intros Htl Hh Hp Hinv. eapply timeout_inv_frame; [done|by rewrite Htl|].
  intros q _. unfold wdata_at. by rewrite Hh, Hp.
Qed.

Lemma timeout_inv_emit e st : timeout_inv st → timeout_inv (emit e st).
Proof. by apply timeout_inv_same. Qed.

Lemma timeout_inv_free p st : timeout_inv st → timeout_inv (free p st).
Proof. by apply timeout_inv_same. Qed.

(** [async_insert_timeout] spelled out. *)
Lemma async_insert_timeout_Some wd st st' :
  async_insert_timeout wd st = Some st' →
  ∃ w, wdata_at st wd = Some w
    ∧ st' = set_timeout_list
              (insert_walk st (expires (to_event w)) wd (timeout_list st))
              (upd_wdata wd (set_inlist true)
                 (upd_wdata wd (set_occurred false) st)).
Proof.
  unfold async_insert_timeout. intros H.
  destruct (wdata_at st wd) as [w|] eqn:Hw; [|done]. simpl in H.
  rewrite !wdata_at_upd_wdata, !decide_True, Hw in H by done.
  simpl in H. injection H as <-. exists w. split; [done|].
  f_equal. apply insert_walk_ext. intros q _.
  unfold expires_at. rewrite !wdata_at_upd_wdata.
  case_decide; subst; [|done]. rewrite Hw. simpl. split; [done|].
  by rewrite !is_Some_alt.
Qed.

Lemma async_insert_timeout_only_at wd st st' :
  async_insert_timeout wd st = Some st' → only_at wd st st'.
Proof.
  intros (w & _ & ->)%async_insert_timeout_Some. solve_only_at.
Qed.

(** Linking an unlinked awaiter whose fibril then parks keeps the
    invariant; [st'] is the state once the fibril is parked. *)
Lemma timeout_inv_insert wd st st1 st' fr :
  timeout_inv st → wd ∉ timeout_list st →
  async_insert_timeout wd st = Some st1 →
  timeout_list st' = timeout_list st1 →
  only_at wd st1 st' →
  (∃ w, wdata_at st' wd = Some w ∧ active w = false
        ∧ inlist (to_event w) = true) →
  expires_at st' wd = expires_at st wd →
  parked st' !! wd = Some fr → frame_links fr = true →
  timeout_inv st'.
Proof.
  intros [Hnd Hs Hl] Hwd Hins Htl Hat (w' & Hw' & Ha' & Hi') He Hfr Hlk.
  pose proof (async_insert_timeout_only_at _ _ _ Hins) as Hat1.
  apply async_insert_timeout_Some in Hins as (w & Hw & ->).
  st_simpl.
  assert (Hat' : only_at wd st st') by (by eapply only_at_trans).
  assert (Hlive : ∀ q, q ∈ timeout_list st → is_Some (wdata_at st q)).
  { intros q Hq. destruct (Hl q Hq) as (? & ? & -> & _). by eexists. }
  assert (Hex : ∀ q, expires_at st' q = expires_at st q).
  { intros q. destruct (decide (q = wd)) as [->|Hq]; [done|].
    apply expires_at_eq. by eapply only_at_wdata. }
  split.
  - rewrite Htl. by apply insert_walk_NoDup.
  - unfold expires_sorted. rewrite Htl.
    eapply StronglySorted_ext_in;
      [|apply (insert_walk_sorted st); [done| |exact Hs]].
    + intros x y _ _. simpl. by rewrite !Hex.
    + unfold expires_at. by rewrite Hw.
  - intros q. rewrite Htl, insert_walk_elem_of. intros [->|Hq].
    + by exists w', fr.
    + assert (q ≠ wd) by (by intros ->).
      rewrite (only_at_wdata wd st st'), (only_at_parked wd st st') by done.
      by apply Hl.
Qed.

(** ** Every entry point keeps the timeout list in order *)

Lemma expire_walk_inv tv l st :
  timeout_inv st → timeout_inv (expire_walk tv l st).
Proof.
  revert st. induction l as [|cur next IH]; intros st Hinv; simpl; [done|].
  destruct (wdata_at st cur) as [waiter|]; [|done].
  destruct (tv_gt _ _); [done|]. apply IH.
  eapply (timeout_inv_only_at st _ cur); [done| | |].
  - destruct (active waiter); st_simpl; apply list_remove_sublist.
  - destruct (active waiter); st_simpl; rewrite elem_of_list_remove;
      naive_solver.
  - destruct (active waiter); solve_only_at.
Qed.

Lemma handle_expired_timeouts_inv tv st :
  timeout_inv st → timeout_inv (handle_expired_timeouts tv st).
Proof.
  intros Hinv. unfold handle_expired_timeouts.
  by apply timeout_inv_emit, expire_walk_inv, timeout_inv_emit.
Qed.

Lemma hash_table_find_conn st key hlp :
  hash_table_find st key = Some hlp →
  ∃ c, conn_at st hlp = Some c ∧ conn_in_phone_hash c = key
       ∧ hlp ∈ conn_hash_table st.
Proof.
  unfold hash_table_find. intros [Hin Hc]%find_some.
  unfold conn_compare in Hc. destruct (conn_at st hlp) as [c|]; [|done].
  apply bool_decide_eq_true in Hc. exists c.
  by rewrite list_elem_of_In.
Qed.

Lemma route_call_inv callid call msg_alloc st :
  timeout_inv st → timeout_inv (route_call callid call msg_alloc st).1.
Proof.
  intros Hinv. unfold route_call.
  destruct (hash_table_find _ _) as [hlp|] eqn:Hfind;
    [|by apply (timeout_inv_same st)].
  destruct (conn_at _ hlp) as [conn|] eqn:Hconn;
    [|by apply (timeout_inv_same st)].
  destruct msg_alloc; simpl; [|by apply (timeout_inv_same st)].
  change (conn_at (emit FutexDown st) hlp) with (conn_at st hlp) in Hconn.
  apply wdata_at_conn in Hconn.
  eapply (timeout_inv_only_at st _ hlp); [done| | |].
  - destruct (decide _), (active (conn_wdata conn));
      try destruct (inlist (to_event (conn_wdata conn))); st_simpl;
      first [reflexivity|apply list_remove_sublist].
  - destruct (active (conn_wdata conn)) eqn:Ha.
    { destruct (decide _); st_simpl; by eapply linked_not_active. }
    destruct (inlist (to_event (conn_wdata conn))) eqn:Hi.
    { destruct (decide _); st_simpl; rewrite elem_of_list_remove;
        naive_solver. }
    destruct (decide _); st_simpl; by eapply linked_inlist.
  - solve_only_at.
Qed.

Lemma process_notification_inv callid call msg_alloc new_fid st :
  timeout_inv st →
  timeout_inv (process_notification callid call msg_alloc new_fid st).1.
Proof.
  intros Hinv. unfold process_notification.
  destruct msg_alloc; by apply (timeout_inv_same st).
Qed.

Lemma fresh_block_Some {A} st p (blk : A) :
  fresh_block st (Some (p, blk)) = true → p ≠ 0 ∧ heap st !! p = None.
Proof.
  simpl. intros [H1 H2]%andb_true_iff.
  by apply bool_decide_eq_true in H1, H2.
Qed.

Lemma async_new_connection_inv hash callid call conn_alloc new_fid st :
  timeout_inv st → fresh_block st conn_alloc = true →
  timeout_inv
    (async_new_connection hash callid call conn_alloc new_fid st).1.
Proof.
  intros Hinv Hfresh. unfold async_new_connection.
  destruct conn_alloc as [[p blk]|]; simpl.
  2: { destruct (decide _); [by apply timeout_inv_emit|done]. }
  apply fresh_block_Some in Hfresh as [_ Hfresh].
  eapply (timeout_inv_only_at st _ p); [done| | |].
  - by repeat (destruct (decide _)); st_simpl.
  - repeat (destruct (decide _)); st_simpl; by apply linked_live.
  - repeat (destruct (decide _)); simpl; solve_only_at.
Qed.

Lemma handle_call_inv callid call msg_alloc conn_alloc new_fid st :
  timeout_inv st → fresh_block st conn_alloc = true →
  timeout_inv (handle_call callid call msg_alloc conn_alloc new_fid st).
Proof.
  intros Hinv Hfresh. unfold handle_call.
  destruct (decide _); [by apply process_notification_inv|].
  destruct (decide _); [by apply async_new_connection_inv|].
  pose proof (route_call_inv callid call msg_alloc st Hinv) as Hr.
  destruct (route_call _ _ _ _) as [st' []]; simpl in *; [done|].
  by apply timeout_inv_emit.
Qed.

Lemma reply_received_inv arg rv data st st' :
  timeout_inv st → reply_received arg rv data st = Some st' →
  timeout_inv st'.
Proof.
  intros Hinv. unfold reply_received.
  destruct (msg_at st arg) as [msg|] eqn:Hmsg; [|done]. simpl.
  intros [= <-]. apply wdata_at_msg in Hmsg.
  eapply (timeout_inv_only_at st _ arg); [done| | |].
  - destruct data, (inlist (to_event (msg_wdata msg))),
      (active (msg_wdata msg)); repeat (destruct (decide _));
      st_simpl; first [reflexivity|apply list_remove_sublist].
  - destruct (inlist (to_event (msg_wdata msg))) eqn:Hi.
    + destruct data, (active (msg_wdata msg));
        repeat (destruct (decide _)); st_simpl;
        rewrite elem_of_list_remove; naive_solver.
    + destruct data, (active (msg_wdata msg));
        repeat (destruct (decide _)); st_simpl;
        by eapply linked_inlist.
  - destruct data; repeat (destruct (decide _)); solve_only_at.
Qed.

Lemma async_insert_timeout_wdata wd st st' :
  async_insert_timeout wd st = Some st' →
  ∃ w, wdata_at st wd = Some w
    ∧ wdata_at st' wd = Some (set_inlist true (set_occurred false w))
    ∧ parked st' = parked st.
Proof.
  intros (w & Hw & ->)%async_insert_timeout_Some. exists w.
  split_and!; [done| |done].
  change (wdata_at (set_timeout_list ?l ?s) wd) with (wdata_at s wd).
  by rewrite !wdata_at_upd_wdata, !decide_True, Hw.
Qed.

Lemma get_call_loop_inv conn usecs st st' r :
  timeout_inv st → conn ∉ timeout_list st →
  get_call_loop conn usecs st = Some (st', r) → timeout_inv st'.
Proof.
  intros Hinv Hconn. unfold get_call_loop.
  destruct (conn_at st conn) as [c|] eqn:Hc; [|done]. simpl.
  destruct (msg_queue c) as [|msg rest].
  - destruct (decide (close_callid c ≠ 0)).
    { intros [= <- _]. by apply timeout_inv_emit. }
    destruct (decide (usecs ≠ 0)) as [Hu|Hu]; simpl.
    + destruct (async_insert_timeout conn st) as [st1|] eqn:Hins; [|done].
      simpl. intros [= <- _].
      destruct (async_insert_timeout_wdata _ _ _ Hins) as (w & Hw & Hw1 & Hp).
      eapply (timeout_inv_insert conn st st1); [done..| | | | | |].
      * done.
      * solve_only_at.
      * eexists. split_and!.
        { change (wdata_at (park ?p ?f ?s) conn) with (wdata_at s conn).
          by rewrite wdata_at_upd_wdata, decide_True, Hw1. }
        all: done.
      * unfold expires_at.
        change (wdata_at (park ?p ?f ?s) conn) with (wdata_at s conn).
        by rewrite wdata_at_upd_wdata, decide_True, Hw1, Hw.
      * st_simpl. apply lookup_insert_eq.
      * simpl. by apply bool_decide_eq_true.
    + intros [= <- _].
      eapply (timeout_inv_only_at st _ conn); [done|done|done|].
      solve_only_at.
  - intros [= <- _].
    eapply (timeout_inv_only_at st _ conn); [done|done|done|].
    solve_only_at.
Qed.

Lemma async_get_call_timeout_inv conn usecs now st st' r :
  timeout_inv st → parked st !! conn = None →
  async_get_call_timeout conn usecs now st = Some (st', r) →
  timeout_inv st'.
Proof.
  intros Hinv Hpk. unfold async_get_call_timeout.
  destruct (conn_at st conn) as [c|] eqn:Hc; [|done]. simpl.
  pose proof (linked_parked _ _ Hinv Hpk) as Hconn.
  apply get_call_loop_inv.
  - eapply (timeout_inv_only_at st _ conn); [done| | |].
    + by destruct (decide _).
    + by destruct (decide _).
    + destruct (decide _); solve_only_at.
  - by destruct (decide _).
Qed.

Lemma async_get_call_timeout_resume_inv conn usecs st st' r :
  timeout_inv st → conn ∉ timeout_list st →
  async_get_call_timeout_resume conn usecs st = Some (st', r) →
  timeout_inv st'.
Proof.
  intros Hinv Hconn. unfold async_get_call_timeout_resume.
  destruct (conn_at st conn) as [c|] eqn:Hc; [|done]. simpl.
  destruct (_ && _).
  - intros [= <- _]. by do 2 apply timeout_inv_emit.
  - apply get_call_loop_inv; [by apply timeout_inv_emit|done].
Qed.

Lemma drain_msg_queue_only_at conn q st0 st :
  only_at conn st0 st → only_at conn st0 (drain_msg_queue conn q st).
Proof.
  revert st. induction q as [|msg rest IH]; intros st Hat; simpl; [done|].
  apply IH. solve_only_at. done.
Qed.

Lemma drain_msg_queue_timeout_list conn q st :
  timeout_list (drain_msg_queue conn q st) = timeout_list st.
Proof.
  revert st. induction q as [|msg rest IH]; intros st; simpl; [done|].
  by rewrite IH.
Qed.

Lemma hash_table_remove_only_at key p st0 st :
  only_at p st0 st → only_at p st0 (hash_table_remove key st).
Proof.
  intros Hat. unfold hash_table_remove.
  destruct (hash_table_find st key); [|done]. by solve_only_at.
Qed.

Lemma hash_table_remove_timeout_list key st :
  timeout_list (hash_table_remove key st) = timeout_list st.
Proof. unfold hash_table_remove. by destruct (hash_table_find st key). Qed.

Lemma hash_table_remove_conn_at key st p :
  conn_at (hash_table_remove key st) p = conn_at st p.
Proof. unfold hash_table_remove. by destruct (hash_table_find st key). Qed.

Lemma hash_table_remove_freed key st :
  freed (hash_table_remove key st)
  = match hash_table_find st key with
    | Some cur => {[cur]} ∪ freed st
    | None => freed st
    end.
Proof. unfold hash_table_remove. by destruct (hash_table_find st key). Qed.

Lemma drain_msg_queue_freed conn q st :
  freed (drain_msg_queue conn q st) = freed st.
Proof.
  revert st. induction q as [|msg rest IH]; intros st; simpl; [done|].
  by rewrite IH.
Qed.

Lemma drain_msg_queue_conn_at conn q st c :
  conn_at st conn = Some c →
  conn_at (drain_msg_queue conn q st) conn
  = Some (match q with [] => c | _ => set_msg_queue [] c end).
Proof.
  revert st c. induction q as [|msg rest IH]; intros st c Hc; simpl; [done|].
  erewrite IH;
    [|by rewrite conn_at_emit, conn_at_upd_conn, decide_True, Hc].
  by destruct rest.
Qed.

Lemma live_conn_at_Some st p c :
  live_conn_at st p = Some c ↔ conn_at st p = Some c ∧ p ∉ freed st.
Proof. unfold live_conn_at. case_decide; naive_solver. Qed.

(** [connection_fibril] returns only if the record it works on is not
    the one [hash_table_remove] finds under its phone hash; it has then
    done what the second part of the statement spells out. *)
Lemma connection_fibril_Some conn st st' :
  connection_fibril conn st = Some st' →
  ∃ c, conn_at st conn = Some c ∧ (conn ∉ freed st)
    ∧ hash_table_find st (conn_in_phone_hash c) ≠ Some conn
    ∧ (let st := emit FutexDown st in
       let st := hash_table_remove (conn_in_phone_hash c) st in
       let st := emit FutexUp st in
       let st := drain_msg_queue conn (msg_queue c) st in
       if decide (close_callid c ≠ 0)
       then Some (emit (IpcAnswer0 (close_callid c) EOK) st)
       else Some st) = Some st'.
Proof.
  unfold connection_fibril, connection_fibril_remove, connection_fibril_drain.
  destruct (live_conn_at st conn) as [c|] eqn:Hl; [|done]. simpl.
  apply live_conn_at_Some in Hl as [Hc Hlive].
  destruct (live_conn_at _ conn) as [c1|] eqn:Hl1; [|done]. simpl.
  apply live_conn_at_Some in Hl1 as [Hc1 Hlive1].
  rewrite conn_at_emit, hash_table_remove_conn_at, conn_at_emit, Hc in Hc1.
  injection Hc1 as <-.
  destruct (live_conn_at _ conn) as [c2|] eqn:Hl2; [|done]. simpl.
  apply live_conn_at_Some in Hl2 as [Hc2 _].
  erewrite drain_msg_queue_conn_at in Hc2;
    [|by rewrite conn_at_emit, hash_table_remove_conn_at, conn_at_emit].
  assert (close_callid c2 = close_callid c) as ->.
  { injection Hc2 as <-. by destruct (msg_queue c). }
  intros H. exists c. split_and!; [done..| |done].
  intros Hfind. apply Hlive1. st_simpl.
  rewrite hash_table_remove_freed.
  change (hash_table_find (emit FutexDown st) (conn_in_phone_hash c))
    with (hash_table_find st (conn_in_phone_hash c)).
  rewrite Hfind. set_solver.
Qed.

Lemma connection_fibril_inv conn st st' :
  timeout_inv st → parked st !! conn = None →
  connection_fibril conn st = Some st' → timeout_inv st'.
Proof.
  intros Hinv Hpk Hcf.
  apply connection_fibril_Some in Hcf as (c & Hc & _ & _ & Hcf).
  revert Hcf. simpl.
  pose proof (linked_parked _ _ Hinv Hpk) as Hconn.
  assert (timeout_inv
            (drain_msg_queue conn (msg_queue c)
               (emit FutexUp
                  (hash_table_remove (conn_in_phone_hash c)
                     (emit FutexDown st))))).
  { eapply (timeout_inv_only_at st _ conn); [done| | |].
    - by rewrite drain_msg_queue_timeout_list; st_simpl;
        rewrite hash_table_remove_timeout_list.
    - by rewrite drain_msg_queue_timeout_list; st_simpl;
        rewrite hash_table_remove_timeout_list.
    - apply drain_msg_queue_only_at, only_at_emit,
        hash_table_remove_only_at. solve_only_at. }
  destruct (decide _); intros [= <-]; [by apply timeout_inv_emit|done].
Qed.

Lemma async_send_inv phoneid method args dptr msg_alloc st :
  timeout_inv st → fresh_block st msg_alloc = true →
  timeout_inv (async_send phoneid method args dptr msg_alloc st).1.
Proof.
  intros Hinv Hfresh. unfold async_send.
  destruct msg_alloc as [[p blk]|]; [|done].
  apply fresh_block_Some in Hfresh as [_ Hfresh].
  eapply (timeout_inv_only_at st _ p); [done|done| |].
  - st_simpl. by apply linked_live.
  - st_simpl. solve_only_at.
Qed.

Lemma wait_for_done_inv amsgid retval_ptr st st' r :
  timeout_inv st → wait_for_done amsgid retval_ptr st = Some (st', r) →
  timeout_inv st'.
Proof.
  intros Hinv. unfold wait_for_done. destruct (msg_at st amsgid); [|done].
  simpl. intros [= <- _]. by apply timeout_inv_free.
Qed.

Lemma async_wait_for_inv amsgid retval_ptr self st st' r :
  timeout_inv st → parked st !! amsgid = None →
  async_wait_for amsgid retval_ptr self st = Some (st', r) →
  timeout_inv st'.
Proof.
  intros Hinv Hpk. unfold async_wait_for.
  destruct (msg_at st amsgid) as [msg|] eqn:Hmsg; [|done]. simpl.
  destruct (done msg).
  - apply wait_for_done_inv. by do 2 apply timeout_inv_emit.
  - intros [= <- _].
    eapply (timeout_inv_only_at st _ amsgid); [done|done| |].
    + st_simpl. by apply linked_parked.
    + solve_only_at.
Qed.

Lemma wait_timeout_done_inv amsgid retval_ptr st st' r :
  timeout_inv st → wait_timeout_done amsgid retval_ptr st = Some (st', r) →
  timeout_inv st'.
Proof.
  intros Hinv. unfold wait_timeout_done.
  destruct (msg_at st amsgid); [|done].
  simpl. intros [= <- _]. by apply timeout_inv_free.
Qed.

Lemma async_wait_timeout_inv amsgid retval_ptr timeout now self st st' r :
  timeout_inv st → timeout < 0 ∨ parked st !! amsgid = None →
  async_wait_timeout amsgid retval_ptr timeout now self st = Some (st', r) →
  timeout_inv st'.
Proof.
  intros Hinv Hpk. unfold async_wait_timeout.
  destruct (decide (timeout < 0)); [by intros [= <- _]|].
  destruct Hpk as [?|Hpk]; [done|].
  destruct (msg_at st amsgid) as [msg|] eqn:Hmsg; [|done]. simpl.
  destruct (done msg).
  { apply wait_timeout_done_inv. by do 2 apply timeout_inv_emit. }
  pose proof (linked_parked _ _ Hinv Hpk) as Hnl.
  apply wdata_at_msg in Hmsg.
  match goal with
  | |- context [async_insert_timeout amsgid ?s] => set (st1 := s)
  end.
  assert (Hw1 : wdata_at st1 amsgid
     = Some (set_active false (set_fid self
               (set_expires (tv_add now timeout) (msg_wdata msg))))).
  { subst st1. rewrite !wdata_at_upd_wdata, !decide_True by done.
    change (wdata_at (emit ?e ?s) amsgid) with (wdata_at s amsgid).
    by rewrite Hmsg. }
  assert (Hinv1 : timeout_inv st1).
  { eapply (timeout_inv_only_at st _ amsgid); [done|done|done|].
    subst st1. solve_only_at. }
  destruct (async_insert_timeout amsgid st1) as [st2|] eqn:Hins; [|done].
  simpl. intros [= <- _].
  destruct (async_insert_timeout_wdata _ _ _ Hins) as (w & Hw & Hw2 & Hp).
  rewrite Hw1 in Hw. injection Hw as <-.
  eapply (timeout_inv_insert amsgid st1 st2); [done..| | | | | |].
  - done.
  - solve_only_at.
  - eexists. split_and!.
    { change (wdata_at (park ?p ?f ?s) amsgid) with (wdata_at s amsgid).
      exact Hw2. }
    all: done.
  - unfold expires_at.
    change (wdata_at (park ?p ?f ?s) amsgid) with (wdata_at s amsgid).
    by rewrite Hw2, Hw1.
  - st_simpl. apply lookup_insert_eq.
  - done.
Qed.

Lemma async_wait_timeout_resume_inv amsgid retval_ptr st st' r :
  timeout_inv st →
  async_wait_timeout_resume amsgid retval_ptr st = Some (st', r) →
  timeout_inv st'.
Proof.
  intros Hinv. unfold async_wait_timeout_resume.
  destruct (msg_at st amsgid) as [msg|] eqn:Hmsg; [|done]. simpl.
  destruct (negb _); [by intros [= <- _]|].
  by apply wait_timeout_done_inv.
Qed.

Lemma async_usleep_inv timeout now self msg_alloc st st' r :
  timeout_inv st → fresh_block st msg_alloc = true →
  async_usleep timeout now self msg_alloc st = Some (st', r) →
  timeout_inv st'.
Proof.
  intros Hinv Hfresh. unfold async_usleep.
  destruct msg_alloc as [[p blk]|]; [|by intros [= <- _]].
  apply fresh_block_Some in Hfresh as [_ Hfresh].
  pose proof (linked_live _ _ Hinv Hfresh) as Hnl.
  match goal with
  | |- context [async_insert_timeout p ?s] => set (st1 := s)
  end.
  assert (Hw1 : wdata_at st1 p
     = Some (set_expires (tv_add now timeout)
               (set_active false (set_fid self (msg_wdata blk))))).
  { subst st1.
    change (wdata_at (emit ?e ?s) p) with (wdata_at s p).
    by rewrite !wdata_at_upd_wdata, !decide_True, wdata_at_alloc,
      decide_True. }
  assert (Hinv1 : timeout_inv st1).
  { eapply (timeout_inv_only_at st _ p); [done|done|done|].
    subst st1. solve_only_at. }
  destruct (async_insert_timeout p st1) as [st2|] eqn:Hins; [|done].
  simpl. intros [= <- _].
  destruct (async_insert_timeout_wdata _ _ _ Hins) as (w & Hw & Hw2 & Hp).
  rewrite Hw1 in Hw. injection Hw as <-.
  eapply (timeout_inv_insert p st1 st2); [done..| | | | | |].
  - done.
  - solve_only_at.
  - eexists. split_and!.
    { change (wdata_at (park ?q ?f ?s) p) with (wdata_at s p).
      exact Hw2. }
    all: done.
  - unfold expires_at.
    change (wdata_at (park ?q ?f ?s) p) with (wdata_at s p).
    by rewrite Hw2, Hw1.
  - st_simpl. apply lookup_insert_eq.
  - done.
Qed.

Lemma resume_inv p fr st st' o :
  timeout_inv st → p ∉ timeout_list st →
  resume p fr st = Some (st', o) → timeout_inv st'.
Proof.
  intros Hinv Hp. unfold resume. destruct fr as [usecs|rp|rp|].
  - destruct (async_get_call_timeout_resume p usecs st) as [[st1 r]|] eqn:H;
      [|done].
    simpl. intros [= <- _]. by eapply async_get_call_timeout_resume_inv.
  - destruct (async_wait_for_resume p rp st) as [[st1 r]|] eqn:H; [|done].
    simpl. intros [= <- _]. by eapply wait_for_done_inv.
  - destruct (async_wait_timeout_resume p rp st) as [[st1 r]|] eqn:H;
      [|done].
    simpl. intros [= <- _]. by eapply async_wait_timeout_resume_inv.
  - simpl. intros [= <- _]. by apply timeout_inv_free.
Qed.

(** The invariant of the timeout list holds in the initial state and is
    kept by every step. *)
Lemma timeout_inv_init : timeout_inv init_state.
Proof.
  split; [apply NoDup_nil_2|constructor|]. intros p Hp.
  by apply elem_of_nil in Hp.
Qed.

(** What a successful step amounts to, label by label. *)
Lemma exec_inv l st st' o :
  exec l st = Some (st', o) →
  match l with
  | LHandleCall callid call msg_alloc conn_alloc new_fid =>
      fresh_block st conn_alloc = true
      ∧ st' = handle_call callid call msg_alloc conn_alloc new_fid st
      ∧ o = OVoid
  | LHandleExpiredTimeouts now =>
      st' = handle_expired_timeouts now st ∧ o = OVoid
  | LReplyReceived arg rv data =>
      reply_received arg rv data st = Some st' ∧ o = OVoid
  | LNewConnection hash callid call conn_alloc new_fid =>
      fresh_block st conn_alloc = true
      ∧ ∃ f, async_new_connection hash callid call conn_alloc new_fid st
             = (st', f) ∧ o = OId f
  | LGetCallTimeout conn usecs now =>
      parked st !! conn = None
      ∧ ∃ r, async_get_call_timeout conn usecs now st = Some (st', r)
             ∧ o = OGetCall r
  | LConnectionReturn conn =>
      parked st !! conn = None
      ∧ connection_fibril conn st = Some st' ∧ o = OVoid
  | LSendFast phoneid method arg1 arg2 arg3 arg4 dptr msg_alloc =>
      fresh_block st msg_alloc = true
      ∧ ∃ id, async_send phoneid method [arg1; arg2; arg3; arg4] dptr
                msg_alloc st = (st', id) ∧ o = OId id
  | LSendSlow phoneid method arg1 arg2 arg3 arg4 arg5 dptr msg_alloc =>
      fresh_block st msg_alloc = true
      ∧ ∃ id, async_send phoneid method [arg1; arg2; arg3; arg4; arg5] dptr
                msg_alloc st = (st', id) ∧ o = OId id
  | LWaitFor amsgid retval_ptr self =>
      parked st !! amsgid = None
      ∧ ∃ r, async_wait_for amsgid retval_ptr self st = Some (st', r)
             ∧ o = OWaitFor r
  | LWaitTimeout amsgid retval_ptr timeout now self =>
      (timeout < 0 ∨ parked st !! amsgid = None)
      ∧ ∃ r, async_wait_timeout amsgid retval_ptr timeout now self st
             = Some (st', r) ∧ o = OWaitTimeout r
  | LUsleep timeout now self msg_alloc =>
      fresh_block st msg_alloc = true
      ∧ ∃ r, async_usleep timeout now self msg_alloc st = Some (st', r)
             ∧ o = OUsleep r
  | LResume p =>
      ∃ fr w, parked st !! p = Some fr ∧ wdata_at st p = Some w
        ∧ active w = true
        ∧ resume p fr (with_parked (delete p) st) = Some (st', o)
  end.
Proof.
  destruct l; simpl; intros H.
  - case_guard; [|done]. by injection H as <- <-.
  - by injection H as <- <-.
  - destruct (reply_received _ _ _ _); [|done]. by injection H as <- <-.
  - case_guard; [|done]. simpl in H.
    destruct (async_new_connection _ _ _ _ _ _) as [st1 f].
    injection H as <- <-. eauto.
  - case_guard; [|done]. simpl in H.
    destruct (async_get_call_timeout _ _ _ _) as [[st1 r]|]; [|done].
    injection H as <- <-. eauto.
  - case_guard; [|done]. simpl in H.
    destruct (connection_fibril _ _); [|done]. by injection H as <- <-.
  - case_guard; [|done]. simpl in H. unfold async_send_fast in H.
    destruct (async_send _ _ _ _ _ _) as [st1 f].
    injection H as <- <-. eauto.
  - case_guard; [|done]. simpl in H. unfold async_send_slow in H.
    destruct (async_send _ _ _ _ _ _) as [st1 f].
    injection H as <- <-. eauto.
  - case_guard; [|done]. simpl in H.
    destruct (async_wait_for _ _ _ _) as [[st1 r]|]; [|done].
    injection H as <- <-. eauto.
  - case_guard; [|done]. simpl in H.
    destruct (async_wait_timeout _ _ _ _ _ _) as [[st1 r]|]; [|done].
    injection H as <- <-. eauto.
  - case_guard; [|done]. simpl in H.
    destruct (async_usleep _ _ _ _ _) as [[st1 r]|]; [|done].
    injection H as <- <-. eauto.
  - destruct (parked st !! p) as [fr|]; [|done]. simpl in H.
    destruct (wdata_at st p) as [w|]; [|done]. simpl in H.
    case_guard; [|done]. simpl in H. eauto 10.
Qed.

Lemma exec_timeout_inv l st st' o :
  timeout_inv st → exec l st = Some (st', o) → timeout_inv st'.
Proof.
  intros Hinv Hexec%exec_inv.
  destruct l as [cid cl ma ca nf|now|arg rv data|hash cid cl ca nf
    |conn usecs now|conn|ph m a1 a2 a3 a4 dp ma|ph m a1 a2 a3 a4 a5 dp ma
    |amsgid rp self|amsgid rp timeout now self|timeout now self ma|p].
  - destruct Hexec as (? & -> & _). by apply handle_call_inv.
  - destruct Hexec as (-> & _). by apply handle_expired_timeouts_inv.
  - destruct Hexec as (? & _). by eapply reply_received_inv.
  - destruct Hexec as (Hf & f & Hn & _).
    pose proof (async_new_connection_inv hash cid cl _ nf _ Hinv Hf) as Hi.
    by rewrite Hn in Hi.
  - destruct Hexec as (? & r & ? & _). by eapply async_get_call_timeout_inv.
  - destruct Hexec as (? & ? & _). by eapply connection_fibril_inv.
  - destruct Hexec as (Hf & id & Hn & _).
    pose proof (async_send_inv ph m [a1; a2; a3; a4] dp _ _ Hinv Hf) as Hi.
    by rewrite Hn in Hi.
  - destruct Hexec as (Hf & id & Hn & _).
    pose proof (async_send_inv ph m [a1; a2; a3; a4; a5] dp _ _ Hinv Hf)
      as Hi.
    by rewrite Hn in Hi.
  - destruct Hexec as (? & r & ? & _). by eapply async_wait_for_inv.
  - destruct Hexec as (? & r & ? & _). by eapply async_wait_timeout_inv.
  - destruct Hexec as (? & r & ? & _). by eapply async_usleep_inv.
  - destruct Hexec as (fr & w & Hfr & Hw & Ha & Hr).
    pose proof (linked_not_active _ _ _ Hinv Hw Ha) as Hp.
    eapply (resume_inv p fr); [| |exact Hr]; [|done].
    eapply (timeout_inv_only_at st _ p); [done|done|done|solve_only_at].
Qed.

Lemma run_timeout_inv ls st st' tr :
  timeout_inv st → run ls st = Some (st', tr) → timeout_inv st'.
Proof.
  revert st tr. induction ls as [|l ls IH]; intros st tr Hinv; simpl.
  - by intros [= <- _].
  - destruct (exec l st) as [[st1 o]|] eqn:Hexec; [|done]. simpl.
    destruct (run ls st1) as [[st2 tr2]|] eqn:Hrun; [|done]. simpl.
    intros [= <- _]. eapply IH; [|done]. by eapply exec_timeout_inv.
Qed.

(** ** Effects of a single call *)

Lemma new_effects_app st st' es :
  effects st' = effects st ++ es → new_effects st st' = es.
Proof. unfold new_effects. intros ->. by rewrite drop_app_length. Qed.

Lemma drain_msg_queue_effects conn q st :
  effects (drain_msg_queue conn q st) = effects st ++ hangup_answers q.
Proof.
  revert st. induction q as [|msg rest IH]; intros st; simpl.
  - by rewrite app_nil_r.
  - rewrite IH. st_simpl. by rewrite <-app_assoc.
Qed.

Lemma drain_msg_queue_conn_hash_table conn q st :
  conn_hash_table (drain_msg_queue conn q st) = conn_hash_table st.
Proof.
  revert st. induction q as [|msg rest IH]; intros st; simpl; [done|].
  by rewrite IH.
Qed.

Lemma drain_msg_queue_queue conn q st c :
  conn_at st conn = Some c →
  queue_at (drain_msg_queue conn q st) conn
  = match q with [] => msg_queue c | _ => [] end.
Proof.
  revert st c. induction q as [|msg rest IH]; intros st c Hc; simpl.
  - unfold queue_at. by rewrite Hc.
  - erewrite IH.
    2: { change (conn_at (emit ?e ?s) conn) with (conn_at s conn).
         rewrite conn_at_upd_conn, decide_True, Hc by done. done. }
    by destruct rest.
Qed.

Lemma unlink_first_NoDup x l : NoDup l → x ∉ unlink_first x l.
Proof.
  induction l as [|y l IH]; simpl; intros Hnd; [apply not_elem_of_nil|].
  apply NoDup_cons in Hnd as [Hy Hnd]. case_decide; subst; [done|].
  apply not_elem_of_cons. split; [done|by apply IH].
Qed.

Lemma answers_of_app es1 es2 :
  answers_of (es1 ++ es2) = answers_of es1 ++ answers_of es2.
Proof. apply omap_app. Qed.

Lemma answers_of_hangup_answers q :
  answers_of (hangup_answers q) = map (λ msg, (callid msg, EHANGUP)) q.
Proof. induction q as [|msg q IH]; simpl; [done|]. by f_equal. Qed.

(** ** Properties of single entry points *)

Lemma route_call_false callid call msg_alloc st :
  (route_call callid call msg_alloc st).2 = false →
  (hash_table_find st (in_phone_hash call) = None ∨ msg_alloc = false)
  ∧ (route_call callid call msg_alloc st).1
    = emit FutexUp (emit FutexDown st).
Proof.
  unfold route_call.
  change (hash_table_find (emit FutexDown st)) with (hash_table_find st).
  destruct (hash_table_find st _) as [hlp|] eqn:Hfind; [|by auto].
  apply hash_table_find_conn in Hfind as (c & Hc & _).
  change (conn_at (emit FutexDown st)) with (conn_at st). rewrite Hc.
  destruct msg_alloc; simpl; [done|by auto].
Qed.

Lemma route_call_turned_down callid call msg_alloc st :
  hash_table_find st (in_phone_hash call) = None ∨ msg_alloc = false →
  route_call callid call msg_alloc st
  = (emit FutexUp (emit FutexDown st), false).
Proof.
  unfold route_call.
  change (hash_table_find (emit FutexDown st)) with (hash_table_find st).
  destruct (hash_table_find st _) as [hlp|] eqn:Hfind; [|done].
  intros [?| ->]; [done|].
  apply hash_table_find_conn in Hfind as (c & Hc & _).
  change (conn_at (emit FutexDown st)) with (conn_at st). by rewrite Hc.
Qed.

(** C6. Take a call without the notification bit that is no connection
    request.  [route_call] returns false for it exactly when no
    connection has its phone hash or the queue node cannot be allocated.
    In both cases [handle_call] sends exactly one answer, [EHANGUP], and
    leaves the same state behind: the one in which the futex was taken
    and released and the answer was sent. *)
Theorem handle_call_unrouted callid call msg_alloc conn_alloc new_fid st :
  Z.land callid IPC_CALLID_NOTIFICATION = 0 →
  IPC_GET_METHOD call ≠ IPC_M_CONNECT_ME →
  IPC_GET_METHOD call ≠ IPC_M_CONNECT_ME_TO →
  ((route_call callid call msg_alloc st).2 = false
   ↔ hash_table_find st (in_phone_hash call) = None ∨ msg_alloc = false)
  ∧ (hash_table_find st (in_phone_hash call) = None ∨ msg_alloc = false →
     handle_call callid call msg_alloc conn_alloc new_fid st
     = emit (IpcAnswer0 callid EHANGUP) (emit FutexUp (emit FutexDown st))
     ∧ answers_of
         (new_effects st
            (handle_call callid call msg_alloc conn_alloc new_fid st))
       = [(callid, EHANGUP)]).
Proof.
  intros Hn Hc1 Hc2. split.
  { split; [by intros [H _]%route_call_false|].
    intros H. by rewrite route_call_turned_down. }
  intros Hwhy.
  assert (Hh : handle_call callid call msg_alloc conn_alloc new_fid st
    = emit (IpcAnswer0 callid EHANGUP) (emit FutexUp (emit FutexDown st))).
  { unfold handle_call. destruct (decide _) as [Hn'|_]; [done|].
    destruct (decide _) as [[?|?]|_]; [done..|].
    by rewrite route_call_turned_down. }
  split; [done|]. rewrite Hh.
  erewrite new_effects_app.
  2: { st_simpl. by rewrite <-!app_assoc. }
  done.
Qed.

Lemma connection_fibril_drain_live conn c st :
  conn_at st conn = Some c → conn ∉ freed st →
  ∃ st', connection_fibril_drain conn st = Some st'
    ∧ new_effects st st'
      = hangup_answers (msg_queue c)
          ++ (if decide (close_callid c ≠ 0)
              then [IpcAnswer0 (close_callid c) EOK] else [])
    ∧ queue_at st' conn = [].
Proof.
  intros Hc Hlive. unfold connection_fibril_drain.
  assert (live_conn_at st conn = Some c) as -> by by apply live_conn_at_Some.
  simpl.
  assert (Hc' := drain_msg_queue_conn_at conn (msg_queue c) st c Hc).
  assert (live_conn_at (drain_msg_queue conn (msg_queue c) st) conn
          = Some (match msg_queue c with [] => c | _ => set_msg_queue [] c end))
    as ->.
  { apply live_conn_at_Some. by rewrite drain_msg_queue_freed. }
  simpl.
  assert (Hq : queue_at (drain_msg_queue conn (msg_queue c) st) conn = []).
  { erewrite drain_msg_queue_queue by done. by destruct (msg_queue c). }
  assert (close_callid (match msg_queue c with
                        | [] => c | _ => set_msg_queue [] c end)
          = close_callid c) as -> by by destruct (msg_queue c).
  destruct (decide (close_callid c ≠ 0)); eexists; (split; [done|]).
  - split; [|exact Hq]. apply new_effects_app. st_simpl.
    by rewrite drain_msg_queue_effects, <-app_assoc.
  - split; [|exact Hq]. apply new_effects_app.
    by rewrite drain_msg_queue_effects, app_nil_r.
Qed.

(** C5. After the handler has returned, [connection_fibril] takes the
    connection out of the table and then goes through its inbox.  On a
    record that is still there the second half answers each message left
    in the inbox with [EHANGUP], in inbox order, and then [close_callid]
    with [EOK] if it is set.  But the first half has freed the record by
    then: for a connection that is in the table under its phone hash,
    [hash_table_remove] takes it out and hands it to [conn_remove], which
    frees it.  The queue and [close_callid] are read from the freed
    record, and the function has no defined result. *)
Theorem connection_fibril_reads_freed_record conn c st :
  conn_at st conn = Some c → conn ∉ freed st →
  hash_table_find st (conn_in_phone_hash c) = Some conn →
  NoDup (conn_hash_table st) →
  (∃ st1, connection_fibril_remove conn st = Some st1
     ∧ (conn ∉ conn_hash_table st1)
     ∧ new_effects st st1 = [FutexDown; Free conn; FutexUp]
     ∧ conn_at st1 conn = Some c
     ∧ conn ∈ freed st1
     ∧ connection_fibril_drain conn st1 = None)
  ∧ connection_fibril conn st = None
  ∧ (∀ st1, conn_at st1 conn = Some c → conn ∉ freed st1 →
       ∃ st', connection_fibril_drain conn st1 = Some st'
         ∧ answers_of (new_effects st1 st')
           = map (λ msg, (callid msg, EHANGUP)) (msg_queue c)
               ++ (if decide (close_callid c ≠ 0)
                   then [(close_callid c, EOK)] else [])
         ∧ queue_at st' conn = []).
Proof.
  intros Hc Hlive Hfind Hnd.
  assert (Hrem : ∃ st1, connection_fibril_remove conn st = Some st1
     ∧ (conn ∉ conn_hash_table st1)
     ∧ new_effects st st1 = [FutexDown; Free conn; FutexUp]
     ∧ conn_at st1 conn = Some c
     ∧ conn ∈ freed st1
     ∧ connection_fibril_drain conn st1 = None).
  { unfold connection_fibril_remove.
    assert (live_conn_at st conn = Some c) as ->
      by by apply live_conn_at_Some.
    simpl. eexists. split; [done|].
    unfold hash_table_remove.
    change (hash_table_find (emit FutexDown st)) with (hash_table_find st).
    rewrite Hfind. st_simpl. split_and!.
    - by apply unlink_first_NoDup.
    - apply new_effects_app. st_simpl. by rewrite <-!app_assoc.
    - done.
    - set_solver.
    - unfold connection_fibril_drain, live_conn_at. st_simpl.
      rewrite decide_True by set_solver. done. }
  split; [exact Hrem|]. split.
  - destruct Hrem as (st1 & Hr & _ & _ & _ & _ & Hd).
    unfold connection_fibril. by rewrite Hr.
  - intros st1 Hc1 Hlive1.
    destruct (connection_fibril_drain_live conn c st1 Hc1 Hlive1)
      as (st' & Hd & He & Hq).
    exists st'. split_and!; [done| |done].
    rewrite He, answers_of_app, answers_of_hangup_answers.
    by destruct (decide _).
Qed.

Lemma get_call_hungup conn c usecs now st :
  conn_at st conn = Some c → msg_queue c = [] → close_callid c ≠ 0 →
  ∃ st' c',
    async_get_call_timeout conn usecs now st
    = Some (st', Return (close_callid c, Some hungup_call))
    ∧ conn_at st' conn = Some c' ∧ msg_queue c' = []
    ∧ close_callid c' = close_callid c
    ∧ parked st' = parked st.
Proof.
  intros Hc Hq Hclose. unfold async_get_call_timeout. rewrite Hc. simpl.
  unfold get_call_loop.
  destruct (decide (usecs ≠ 0)).
  - change (conn_at (upd_wdata conn ?f (emit ?e st)) conn)
      with (conn_at (upd_wdata conn f st) conn).
    rewrite conn_at_upd_wdata, decide_True, Hc by done. simpl.
    rewrite Hq, decide_True by done.
    eexists _, _. split; [done|].
    change (conn_at (emit ?e (upd_wdata conn ?f (emit ?e' st))) conn)
      with (conn_at (upd_wdata conn f st) conn).
    rewrite conn_at_upd_wdata, decide_True, Hc by done. done.
  - change (conn_at (upd_wdata conn ?f (emit ?e st)) conn)
      with (conn_at (upd_wdata conn f st) conn).
    rewrite conn_at_upd_wdata, decide_True, Hc by done. simpl.
    rewrite Hq, decide_True by done.
    eexists _, _. split; [done|].
    change (conn_at (emit ?e (upd_wdata conn ?f (emit ?e' st))) conn)
      with (conn_at (upd_wdata conn f st) conn).
    rewrite conn_at_upd_wdata, decide_True, Hc by done. done.
Qed.

(** C7. Whenever [async_get_call_timeout] is called on a connection
    whose inbox is empty and whose [close_callid] is set, it returns
    [close_callid] with a zeroed call record whose method is
    [IPC_M_PHONE_HUNGUP]; so does every further call, whatever timeouts
    are asked for. *)
Theorem get_call_hungup_idempotent conn c (args : list (Z * Z)) st :
  conn_at st conn = Some c → msg_queue c = [] → close_callid c ≠ 0 →
  parked st !! conn = None →
  ∃ st' tr,
    run (map (λ a, LGetCallTimeout conn a.1 a.2) args) st = Some (st', tr)
    ∧ length tr = length args
    ∧ Forall (λ ev, ev_out ev
                = OGetCall (Return (close_callid c, Some hungup_call))) tr.
Proof.
  revert c st. induction args as [|[usecs now] args IH];
    intros c st Hc Hq Hclose Hpk; simpl.
  - by exists st, [].
  - rewrite option_guard_True by done. simpl.
    destruct (get_call_hungup conn c usecs now st Hc Hq Hclose)
      as (st1 & c1 & -> & Hc1 & Hq1 & Hclose1 & Hpk1). simpl.
    destruct (IH c1 st1) as (st' & tr & -> & Hlen & Hall);
      [done|done|congruence|congruence|].
    simpl. eexists _, _. split; [done|]. split; [simpl; by f_equal|].
    constructor; [done|]. by rewrite <-Hclose1.
Qed.

Lemma wait_timeout_negative amsgid retval_ptr timeout now self st :
  timeout < 0 →
  async_wait_timeout amsgid retval_ptr timeout now self st
  = Some (st, Return (ETIMEOUT, None)).
Proof.
  intros Hneg. unfold async_wait_timeout. by rewrite decide_True.
Qed.

(** C9. With a negative timeout [async_wait_timeout] returns [ETIMEOUT]
    at once: the state is as before, so the futex was not taken, nothing
    was freed and [*retval] was not written, and the answer does not
    depend on the message at all, in particular not on its [done]
    flag. *)
Theorem async_wait_timeout_negative amsgid retval_ptr timeout now self st :
  timeout < 0 →
  async_wait_timeout amsgid retval_ptr timeout now self st
  = Some (st, Return (ETIMEOUT, None)).
Proof. apply wait_timeout_negative. Qed.

(** C10. When [async_usleep] cannot allocate its message it returns at
    once, without parking the fibril and without touching the timeout
    list or anything else; the caller is told nothing. *)
Theorem async_usleep_alloc_failure timeout now self st :
  async_usleep timeout now self None st = Some (st, Return ()).
Proof. reflexivity. Qed.

Lemma wait_timeout_done_Some amsgid retval_ptr st st' rc v :
  wait_timeout_done amsgid retval_ptr st = Some (st', Return (rc, v)) →
  rc = 0 ∧ st' = free amsgid st
  ∧ ∃ msg, msg_at st amsgid = Some msg
      ∧ v = if retval_ptr then Some (retval msg) else None.
Proof.
  unfold wait_timeout_done.
  destruct (msg_at st amsgid) as [msg|]; [|done]. simpl.
  intros [= <- <- <-]. eauto.
Qed.

(** C4. A return of [ETIMEOUT] from [async_wait_timeout], on entry or
    after the fibril was woken with [done] still unset, leaves the state
    as it was: the message is not freed and stays in place for
    [reply_received].  The message is freed only on the other return
    path, which returns [0] and is taken only when [done] is set. *)
Theorem async_wait_timeout_keeps_amsg amsgid retval_ptr timeout now self
    st st' rc v :
  async_wait_timeout amsgid retval_ptr timeout now self st
    = Some (st', Return (rc, v))
  ∨ async_wait_timeout_resume amsgid retval_ptr st
    = Some (st', Return (rc, v)) →
  (rc = ETIMEOUT →
     st' = st ∧ v = None
     ∧ ∀ rv data, is_Some (msg_at st amsgid) →
         is_Some (reply_received amsgid rv data st'))
  ∧ (rc ≠ ETIMEOUT →
     rc = 0 ∧ done_at st amsgid = Some true
     ∧ Free amsgid ∈ new_effects st st')
  ∧ (∀ p, Free p ∈ new_effects st st' →
     p = amsgid ∧ rc = 0 ∧ done_at st amsgid = Some true).
Proof.
  assert (Hreply : ∀ rv data, is_Some (msg_at st amsgid) →
            is_Some (reply_received amsgid rv data st)).
  { intros rv data [msg Hmsg]. unfold reply_received. rewrite Hmsg.
    by eexists. }
  assert (Hnone : new_effects st st = []).
  { unfold new_effects. by rewrite drop_all. }
  intros [H|H].
  - unfold async_wait_timeout in H. destruct (decide (timeout < 0)).
    { injection H as <- <- <-. split_and!; [done| |].
      - by intros [].
      - intros p. rewrite Hnone. by intros ?%elem_of_nil. }
    destruct (msg_at st amsgid) as [msg|] eqn:Hmsg; [|done]. simpl in H.
    destruct (done msg) eqn:Hdone.
    + apply wait_timeout_done_Some in H as (-> & -> & _).
      assert (Hnew : new_effects st
                (free amsgid (emit FutexUp (emit FutexDown st)))
              = [FutexDown; FutexUp; Free amsgid]).
      { apply new_effects_app. st_simpl. by rewrite <-!app_assoc. }
      assert (Hd : done_at st amsgid = Some true).
      { unfold done_at. by rewrite Hmsg, <-Hdone. }
      split_and!; [done| |].
      * intros _. rewrite Hnew. split_and!; [done..|]. set_solver.
      * intros p. rewrite Hnew. set_solver.
    + destruct (async_insert_timeout _ _); done.
  - unfold async_wait_timeout_resume in H.
    destruct (msg_at st amsgid) as [msg|] eqn:Hmsg; [|done]. simpl in H.
    destruct (done msg) eqn:Hdone; simpl in H.
    + apply wait_timeout_done_Some in H as (-> & -> & _).
      assert (Hnew : new_effects st (free amsgid st)
              = [Free amsgid]) by (by apply new_effects_app).
      assert (Hd : done_at st amsgid = Some true).
      { unfold done_at. by rewrite Hmsg, <-Hdone. }
      split_and!; [done| |].
      * intros _. rewrite Hnew. split_and!; [done..|]. set_solver.
      * intros p. rewrite Hnew. set_solver.
    + injection H as <- <- <-. split_and!; [done| |].
      * by intros [].
      * intros p. rewrite Hnone. by intros ?%elem_of_nil.
Qed.

Lemma write_accept_buffer (bytes block : list Z) (size : Z) :
  0 <= size → length bytes = Z.to_nat size →
  length block = Z.to_nat (size + 1) →
  <[Z.to_nat size := 0]> (bytes ++ drop (length bytes) block)
  = bytes ++ [0].
Proof.
  intros Hsize Hbytes Hblock.
  assert (Hdrop : length (drop (length bytes) block) = 1%nat).
  { rewrite length_drop. lia. }
  destruct (drop (length bytes) block) as [|x [|y l]]; simpl in Hdrop;
    try lia.
  rewrite <-Hbytes. rewrite insert_app_r_alt by lia.
  by rewrite Nat.sub_diag.
Qed.

(** C8, as the code has it.  [async_data_write_accept] answers and
    returns [EINVAL] when the call is no [IPC_M_DATA_WRITE] or when its
    size fails one of the three checks.  Otherwise it asks [malloc] for
    [size] bytes, or for [size + 1] in [size_t] arithmetic when
    [nullterm] is set; if that fails it answers and returns [ENOMEM]; if
    [ipc_data_write_finalize] fails it returns that code; otherwise it
    returns [EOK], stores [size] in [*received] when that pointer is
    given, and the buffer holds the transferred bytes, followed by a zero
    at index [size] when [nullterm] is set. *)
Theorem async_data_write_accept_spec bits callid data (nullterm : bool)
    min_size max_size granularity (received_ptr : bool) malloc finalize :
  let size := IPC_GET_ARG2 data in
  let len := if nullterm then (size + 1) `mod` 2 ^ bits else size in
  let r := async_data_write_accept bits callid data nullterm min_size
             max_size granularity received_ptr malloc finalize in
  (IPC_GET_METHOD data ≠ IPC_M_DATA_WRITE
   ∨ size_rejected size min_size max_size granularity →
   r = mk_write_accept EINVAL [(callid, EINVAL)] None None None)
  ∧ (IPC_GET_METHOD data = IPC_M_DATA_WRITE →
     ¬ size_rejected size min_size max_size granularity →
     wa_malloc r = Some len
     ∧ match malloc len with
       | None =>
           wa_rc r = ENOMEM ∧ wa_answers r = [(callid, ENOMEM)]
           ∧ wa_data r = None ∧ wa_received r = None
       | Some block =>
           if decide ((finalize callid size).1 = EOK) then
             wa_rc r = EOK ∧ wa_answers r = []
             ∧ wa_received r = (if received_ptr then Some size else None)
             ∧ (0 <= size → size + 1 < 2 ^ bits →
                length (finalize callid size).2 = Z.to_nat size →
                length block = Z.to_nat len →
                wa_data r
                = Some (if nullterm then (finalize callid size).2 ++ [0]
                        else (finalize callid size).2))
           else
             wa_rc r = (finalize callid size).1 ∧ wa_answers r = []
             ∧ wa_data r = None ∧ wa_received r = None
       end).
Proof.
  intros size len r. subst r. unfold async_data_write_accept,
    async_data_write_receive, size_rejected.
  fold size. split.
  - intros Hrej. destruct (decide (IPC_GET_METHOD data ≠ _)); [done|].
    simpl. repeat (case_decide; [done|]). exfalso. tauto.
  - intros Hm Hok. rewrite decide_False by (by intros []). simpl.
    rewrite decide_False by tauto. rewrite decide_False by tauto.
    rewrite decide_False by tauto. fold len.
    destruct (malloc len) as [block|]; [|done].
    destruct (finalize callid size) as [rc bytes] eqn:Hfin. simpl.
    destruct (decide (rc ≠ EOK)) as [Hrc|Hrc].
    { by rewrite decide_False. }
    rewrite decide_True by (by destruct (decide (rc = EOK))).
    split_and!; [done..|]. intros Hsize Hbits Hbytes Hblock.
    subst len. destruct nullterm.
    + rewrite Z.mod_small in Hblock by lia.
      by rewrite write_accept_buffer.
    + rewrite drop_ge by lia. by rewrite app_nil_r.
Qed.

(** ** Steps that leave every inbox alone *)

Lemma queue_at_upd_wdata st p f q :
  queue_at (upd_wdata p f st) q = queue_at st q.
Proof.
  unfold queue_at. rewrite conn_at_upd_wdata. case_decide; [|done].
  by destruct (conn_at st q).
Qed.

Lemma queue_at_upd_msg st p f q :
  queue_at (upd_msg p f st) q = queue_at st q.
Proof. unfold queue_at. by rewrite conn_at_upd_msg. Qed.

Lemma queue_at_upd_conn st p f q :
  queue_at (upd_conn p f st) q
  = if decide (p = q)
    then from_option (λ c, msg_queue (f c)) [] (conn_at st q)
    else queue_at st q.
Proof.
  unfold queue_at. rewrite conn_at_upd_conn. case_decide; [|done].
  by destruct (conn_at st q).
Qed.

Lemma queue_at_alloc st p o q :
  queue_at (alloc p o st) q
  = if decide (p = q)
    then match o with OConn c => msg_queue c | OMsg _ => [] end
    else queue_at st q.
Proof.
  unfold queue_at. rewrite conn_at_alloc. case_decide; [|done].
  by destruct o.
Qed.

Lemma queue_at_fresh st p : heap st !! p = None → queue_at st p = [].
Proof. unfold queue_at, conn_at. by intros ->. Qed.

Lemma same_queues_refl st : same_queues st st.
Proof. done. Qed.

Lemma same_queues_trans st1 st2 st3 :
  same_queues st1 st2 → same_queues st2 st3 → same_queues st1 st3.
Proof. intros H12 H23 q. by rewrite H23, H12. Qed.

Lemma same_queues_emit st st' e :
  same_queues st st' → same_queues st (emit e st').
Proof. done. Qed.

Lemma same_queues_set_timeout_list st st' l :
  same_queues st st' → same_queues st (set_timeout_list l st').
Proof. done. Qed.

Lemma same_queues_set_conn_hash_table st st' l :
  same_queues st st' → same_queues st (set_conn_hash_table l st').
Proof. done. Qed.

Lemma same_queues_with_call_store st st' f :
  same_queues st st' → same_queues st (with_call_store f st').
Proof. done. Qed.

Lemma same_queues_with_parked st st' f :
  same_queues st st' → same_queues st (with_parked f st').
Proof. done. Qed.

Lemma same_queues_park st st' p fr :
  same_queues st st' → same_queues st (park p fr st').
Proof. done. Qed.

Lemma same_queues_upd_wdata st st' p f :
  same_queues st st' → same_queues st (upd_wdata p f st').
Proof. intros H q. by rewrite queue_at_upd_wdata. Qed.

Lemma same_queues_upd_msg st st' p f :
  same_queues st st' → same_queues st (upd_msg p f st').
Proof. intros H q. by rewrite queue_at_upd_msg. Qed.

Lemma same_queues_set_close_callid st st' p k :
  same_queues st st' → same_queues st (upd_conn p (set_close_callid k) st').
Proof.
  intros H q. rewrite queue_at_upd_conn. case_decide; [|done].
  rewrite <-H. unfold queue_at. by destruct (conn_at st' q).
Qed.

Lemma same_queues_alloc_msg st p m :
  heap st !! p = None → same_queues st (alloc p (OMsg m) st).
Proof.
  intros Hp q. rewrite queue_at_alloc. case_decide; subst; [|done].
  by rewrite queue_at_fresh.
Qed.

Lemma same_queues_alloc_conn st p c :
  heap st !! p = None → msg_queue c = [] →
  same_queues st (alloc p (OConn c) st).
Proof.
  intros Hp Hc q. rewrite queue_at_alloc. case_decide; subst; [|done].
  by rewrite queue_at_fresh.
Qed.

Ltac solve_same_queues :=
  repeat first
    [ assumption | apply same_queues_refl | apply same_queues_emit
    | apply same_queues_set_timeout_list
    | apply same_queues_set_conn_hash_table
    | apply same_queues_with_call_store | apply same_queues_with_parked
    | apply same_queues_park | apply same_queues_upd_wdata
    | apply same_queues_upd_msg | apply same_queues_set_close_callid
    | match goal with
      | |- same_queues _ (if ?b then _ else _) => destruct b
      | |- same_queues _ (match ?d with Some _ => _ | None => _ end) =>
          destruct d
      end ].

Lemma async_insert_timeout_same_queues wd st0 st st' :
  same_queues st0 st → async_insert_timeout wd st = Some st' →
  same_queues st0 st'.
Proof.
  intros H0 (w & _ & ->)%async_insert_timeout_Some. solve_same_queues.
Qed.

Lemma expire_walk_same_queues tv l st0 st :
  same_queues st0 st → same_queues st0 (expire_walk tv l st).
Proof.
  revert st. induction l as [|cur next IH]; intros st H0; simpl; [done|].
  destruct (wdata_at st cur) as [waiter|]; [|done].
  destruct (tv_gt _ _); [done|]. apply IH.
  destruct (active waiter); solve_same_queues.
Qed.

Lemma handle_expired_timeouts_same_queues tv st :
  same_queues st (handle_expired_timeouts tv st).
Proof.
  unfold handle_expired_timeouts.
  apply same_queues_emit, expire_walk_same_queues. solve_same_queues.
Qed.

Lemma reply_received_same_queues arg rv data st st' :
  reply_received arg rv data st = Some st' → same_queues st st'.
Proof.
  unfold reply_received. destruct (msg_at st arg) as [msg|]; [|done].
  simpl. intros [= <-]. destruct data; solve_same_queues.
Qed.

Lemma process_notification_same_queues callid call msg_alloc new_fid st :
  same_queues st (process_notification callid call msg_alloc new_fid st).1.
Proof. unfold process_notification. by destruct msg_alloc. Qed.

Lemma async_new_connection_same_queues hash callid call conn_alloc new_fid
    st :
  fresh_block st conn_alloc = true →
  same_queues st
    (async_new_connection hash callid call conn_alloc new_fid st).1.
Proof.
  intros Hfresh. unfold async_new_connection.
  destruct conn_alloc as [[p blk]|]; [|by destruct (decide _)].
  apply fresh_block_Some in Hfresh as [_ Hfresh].
  repeat (destruct (decide _)); st_simpl;
    repeat first [apply same_queues_emit|apply same_queues_set_conn_hash_table];
    by apply same_queues_alloc_conn.
Qed.

Lemma async_send_same_queues phoneid method args dptr msg_alloc st :
  fresh_block st msg_alloc = true →
  same_queues st (async_send phoneid method args dptr msg_alloc st).1.
Proof.
  intros Hfresh. unfold async_send.
  destruct msg_alloc as [[p blk]|]; [|done].
  apply fresh_block_Some in Hfresh as [_ Hfresh]. st_simpl.
  pose proof (same_queues_alloc_msg st p blk Hfresh). solve_same_queues.
Qed.

Lemma wait_for_done_same_queues amsgid retval_ptr st0 st st' r :
  same_queues st0 st →
  wait_for_done amsgid retval_ptr st = Some (st', r) → same_queues st0 st'.
Proof.
  intros H0. unfold wait_for_done. destruct (msg_at st amsgid); [|done].
  simpl. by intros [= <- _].
Qed.

Lemma async_wait_for_same_queues amsgid retval_ptr self st st' r :
  async_wait_for amsgid retval_ptr self st = Some (st', r) →
  same_queues st st'.
Proof.
  unfold async_wait_for. destruct (msg_at st amsgid) as [msg|]; [|done].
  simpl. destruct (done msg).
  - by apply wait_for_done_same_queues.
  - intros [= <- _]. solve_same_queues.
Qed.

Lemma wait_timeout_done_same_queues amsgid retval_ptr st0 st st' r :
  same_queues st0 st →
  wait_timeout_done amsgid retval_ptr st = Some (st', r) →
  same_queues st0 st'.
Proof.
  intros H0. unfold wait_timeout_done.
  destruct (msg_at st amsgid); [|done]. simpl. by intros [= <- _].
Qed.

Lemma async_wait_timeout_same_queues amsgid retval_ptr timeout now self
    st st' r :
  async_wait_timeout amsgid retval_ptr timeout now self st = Some (st', r) →
  same_queues st st'.
Proof.
  unfold async_wait_timeout. destruct (decide _); [by intros [= <- _]|].
  destruct (msg_at st amsgid) as [msg|]; [|done]. simpl.
  destruct (done msg).
  - by apply wait_timeout_done_same_queues.
  - destruct (async_insert_timeout _ _) as [st1|] eqn:Hins; [|done].
    simpl. intros [= <- _]. apply same_queues_park.
    eapply async_insert_timeout_same_queues; [|done]. solve_same_queues.
Qed.

Lemma async_wait_timeout_resume_same_queues amsgid retval_ptr st st' r :
  async_wait_timeout_resume amsgid retval_ptr st = Some (st', r) →
  same_queues st st'.
Proof.
  unfold async_wait_timeout_resume.
  destruct (msg_at st amsgid) as [msg|]; [|done]. simpl.
  destruct (negb _); [by intros [= <- _]|].
  by apply wait_timeout_done_same_queues.
Qed.

Lemma async_usleep_same_queues timeout now self msg_alloc st st' r :
  fresh_block st msg_alloc = true →
  async_usleep timeout now self msg_alloc st = Some (st', r) →
  same_queues st st'.
Proof.
  intros Hfresh. unfold async_usleep.
  destruct msg_alloc as [[p blk]|]; [|by intros [= <- _]].
  apply fresh_block_Some in Hfresh as [_ Hfresh].
  destruct (async_insert_timeout _ _) as [st1|] eqn:Hins; [|done].
  simpl. intros [= <- _]. apply same_queues_park.
  eapply async_insert_timeout_same_queues; [|done].
  pose proof (same_queues_alloc_msg st p blk Hfresh). solve_same_queues.
Qed.

(** ** The inbox is a queue *)

Lemma route_call_queue cid cl ma st q :
  queue_at (route_call cid cl ma st).1 q
  = queue_at st q
    ++ (if decide (hash_table_find st (in_phone_hash cl) = Some q
                   ∧ ma = true)
        then [mk_msg cid cl] else []).
Proof.
  unfold route_call.
  change (hash_table_find (emit FutexDown st)) with (hash_table_find st).
  destruct (hash_table_find st _) as [hlp|] eqn:Hfind.
  2: { rewrite decide_False by (by intros []). by rewrite app_nil_r. }
  apply hash_table_find_conn in Hfind as (c & Hc & _).
  change (conn_at (emit FutexDown st)) with (conn_at st). rewrite Hc.
  destruct ma; simpl.
  2: { rewrite decide_False by (by intros []). by rewrite app_nil_r. }
  match goal with
  | |- context [upd_conn hlp ?f (emit FutexDown st)] =>
      set (st1 := upd_conn hlp f (emit FutexDown st))
  end.
  assert (H1 : queue_at st1 q
    = queue_at st q ++ (if decide (hlp = q) then [mk_msg cid cl] else [])).
  { subst st1. rewrite queue_at_upd_conn.
    change (conn_at (emit FutexDown st)) with (conn_at st).
    change (queue_at (emit FutexDown st)) with (queue_at st).
    case_decide; subst; [|by rewrite app_nil_r].
    unfold queue_at. by rewrite Hc. }
  assert (Hsame : ∀ st2, same_queues st1 st2 →
            queue_at st2 q = queue_at st q
              ++ (if decide (Some hlp = Some q ∧ true = true)
                  then [mk_msg cid cl] else [])).
  { intros st2 ->. rewrite H1. f_equal.
    destruct (decide (hlp = q)); subst.
    - by rewrite decide_True.
    - rewrite decide_False; [done|]. by intros [[= ?] _]. }
  apply Hsame. solve_same_queues.
Qed.

Lemma handle_call_queue cid cl ma ca nf st o st' q :
  fresh_block st ca = true →
  queue_at (handle_call cid cl ma ca nf st) q
  = queue_at st q ++ accepted q (mk_event st (LHandleCall cid cl ma ca nf) o st').
Proof.
  intros Hfresh. unfold handle_call, accepted, passed. simpl.
  destruct (decide (Z.land cid IPC_CALLID_NOTIFICATION ≠ 0)) as [Hn|Hn].
  { rewrite process_notification_same_queues.
    rewrite decide_False by (by intros [? _]).
    destruct ma; by rewrite app_nil_r. }
  destruct (decide (_ ∨ _)) as [Hc|Hc].
  { rewrite async_new_connection_same_queues by done.
    rewrite decide_False by (intros (_ & ? & ? & _); tauto).
    destruct ma; by rewrite app_nil_r. }
  pose proof (route_call_queue cid cl ma st q) as Hr.
  destruct (route_call cid cl ma st) as [st1 routed]. simpl in Hr.
  assert (Hq : queue_at (if routed then st1
                         else emit (IpcAnswer0 cid EHANGUP) st1) q
               = queue_at st1 q) by (by destruct routed).
  rewrite Hq, Hr. f_equal. destruct ma.
  - destruct (decide (hash_table_find st (in_phone_hash cl) = Some q)).
    + rewrite !decide_True; [done| |done]. split_and!; [|tauto|tauto|done].
      by destruct (decide (Z.land cid IPC_CALLID_NOTIFICATION = 0));
        [|exfalso; tauto].
    + rewrite !decide_False; [done|tauto|tauto].
  - rewrite decide_False; [done|]. by intros [_ ?].
Qed.

Lemma get_call_loop_queue conn usecs st st' r q :
  get_call_loop conn usecs st = Some (st', r) →
  (if decide (queue_at st q = []) then []
   else match r with
        | Return (cid, Some c) =>
            if decide (Some conn = Some q) then [mk_msg cid c] else []
        | _ => []
        end) ++ queue_at st' q = queue_at st q.
Proof.
  unfold get_call_loop.
  destruct (conn_at st conn) as [c|] eqn:Hc; [|done]. simpl.
  destruct (msg_queue c) as [|msg rest] eqn:Hq.
  - assert (Hsame : ∀ st2 (X : list msg_t), same_queues st st2 →
              (Some conn ≠ Some q → X = []) →
              (if decide (queue_at st q = []) then [] else X)
                ++ queue_at st2 q = queue_at st q).
    { intros st2 X -> HX. destruct (decide (queue_at st q = [])); [done|].
      rewrite HX; [done|]. intros [= <-].
      unfold queue_at in *. by rewrite Hc in *. }
    assert (HX : ∀ cid c0, Some conn ≠ Some q →
              (if decide (Some conn = Some q) then [mk_msg cid c0] else [])
              = []).
    { intros cid c0 Hne. by rewrite decide_False. }
    destruct (decide (close_callid c ≠ 0)).
    { intros [= <- <-]. apply Hsame; [solve_same_queues|apply HX]. }
    destruct (decide (usecs ≠ 0)); simpl.
    + destruct (async_insert_timeout conn st) as [st1|] eqn:Hins; [|done].
      simpl. intros [= <- <-]. apply Hsame; [|done].
      apply same_queues_park, same_queues_upd_wdata.
      by eapply async_insert_timeout_same_queues.
    + intros [= <- <-]. apply Hsame; [solve_same_queues|done].
  - intros [= <- <-].
    change (queue_at (emit ?e ?s) q) with (queue_at s q).
    rewrite queue_at_upd_conn.
    destruct (decide (conn = q)) as [<-|Hne].
    + unfold queue_at. rewrite Hc. simpl. rewrite Hq.
      rewrite decide_False by done. rewrite decide_True by done.
      by destruct msg.
    + destruct (decide (queue_at st q = [])) as [->|]; [done|].
      rewrite decide_False; [done|]. by intros [= ?].
Qed.

Lemma connection_fibril_queue conn st st' q :
  connection_fibril conn st = Some st' → q ≠ conn →
  queue_at st' q = queue_at st q.
Proof.
  intros H Hq. apply connection_fibril_Some in H as (c & Hc & _ & _ & H).
  simpl in H. unfold queue_at. f_equal.
  apply (only_at_conn conn); [|done].
  destruct (decide _); injection H as <-;
    repeat apply only_at_emit;
    apply drain_msg_queue_only_at, only_at_emit, hash_table_remove_only_at;
    solve_only_at.
Qed.

Lemma dequeued_not_get_call conn st l o st' :
  match o with OGetCall _ => False | _ => True end →
  dequeued conn (mk_event st l o st') = [].
Proof.
  intros Ho. unfold dequeued, returned. simpl. case_decide; [done|].
  by destruct o.
Qed.

Lemma dequeued_get_call conn p st l r st' :
  get_call_conn l = Some p →
  dequeued conn (mk_event st l (OGetCall r) st')
  = if decide (queue_at st conn = []) then []
    else match r with
         | Return (cid, Some c) =>
             if decide (Some p = Some conn) then [mk_msg cid c] else []
         | _ => []
         end.
Proof. intros Hl. unfold dequeued, returned. simpl. by rewrite Hl. Qed.

(** One step: what it hands to the fibril of [conn] from a non-empty
    inbox goes off the head of the inbox, what [route_call] accepts for
    [conn] goes to its tail, and nothing else changes the inbox. *)
Lemma exec_queue conn l st st' o :
  exec l st = Some (st', o) → l ≠ LConnectionReturn conn →
  dequeued conn (mk_event st l o st') ++ queue_at st' conn
  = queue_at st conn ++ accepted conn (mk_event st l o st').
Proof.
  intros Hexec%exec_inv Hl.
  assert (Hsame : same_queues st st' →
            match o with OGetCall _ => False | _ => True end →
            match l with LHandleCall _ _ _ _ _ => False | _ => True end →
            dequeued conn (mk_event st l o st') ++ queue_at st' conn
            = queue_at st conn ++ accepted conn (mk_event st l o st')).
  { intros -> Ho Hlab. rewrite dequeued_not_get_call by done.
    unfold accepted. simpl. destruct l; try done; by rewrite app_nil_r. }
  destruct l as [cid cl ma ca nf|now|arg rv data|hash cid cl ca nf
    |c usecs now|c|ph m a1 a2 a3 a4 dp ma|ph m a1 a2 a3 a4 a5 dp ma
    |amsgid rp self|amsgid rp timeout now self|timeout now self ma|p].
  - destruct Hexec as (Hf & -> & ->).
    rewrite dequeued_not_get_call by done. simpl.
    by apply handle_call_queue.
  - destruct Hexec as (-> & ->).
    apply Hsame; [apply handle_expired_timeouts_same_queues|done..].
  - destruct Hexec as (H & ->).
    apply Hsame; [by eapply reply_received_same_queues|done..].
  - destruct Hexec as (Hf & f & Hn & ->).
    apply Hsame; [|done..].
    pose proof (async_new_connection_same_queues hash cid cl ca nf st Hf)
      as Hs. by rewrite Hn in Hs.
  - destruct Hexec as (Hpk & r & Hg & ->).
    rewrite (dequeued_get_call conn c) by done.
    unfold accepted. simpl. rewrite app_nil_r.
    unfold async_get_call_timeout in Hg.
    destruct (conn_at st c) as [cc|]; [|done]. simpl in Hg.
    apply (get_call_loop_queue _ _ _ _ _ conn) in Hg.
    assert (Hq : ∀ s, queue_at
                   (if decide (usecs ≠ 0)
                    then upd_wdata c (set_expires (tv_add now usecs))
                           (emit FutexDown st)
                    else upd_wdata c (set_inlist false) (emit FutexDown st))
                   s = queue_at st s).
    { intros s. by destruct (decide (usecs ≠ 0));
        rewrite queue_at_upd_wdata. }
    rewrite !Hq in Hg. exact Hg.
  - destruct Hexec as (Hpk & H & ->).
    rewrite dequeued_not_get_call by done.
    unfold accepted. simpl. rewrite app_nil_r.
    eapply connection_fibril_queue; [done|]. intros ->. by apply Hl.
  - destruct Hexec as (Hf & id & Hn & ->).
    apply Hsame; [|done..].
    pose proof (async_send_same_queues ph m [a1; a2; a3; a4] dp ma st Hf)
      as Hs. by rewrite Hn in Hs.
  - destruct Hexec as (Hf & id & Hn & ->).
    apply Hsame; [|done..].
    pose proof (async_send_same_queues ph m [a1; a2; a3; a4; a5] dp ma st
                  Hf) as Hs. by rewrite Hn in Hs.
  - destruct Hexec as (Hpk & r & H & ->).
    apply Hsame; [by eapply async_wait_for_same_queues|done..].
  - destruct Hexec as (Hpk & r & H & ->).
    apply Hsame; [by eapply async_wait_timeout_same_queues|done..].
  - destruct Hexec as (Hf & r & H & ->).
    apply Hsame; [by eapply async_usleep_same_queues|done..].
  - destruct Hexec as (fr & w & Hfr & Hw & Ha & Hr).
    unfold resume in Hr. destruct fr as [usecs|rp|rp|].
    + destruct (async_get_call_timeout_resume _ _ _) as [[st1 r]|] eqn:Hg;
        [|done].
      simpl in Hr. injection Hr as <- <-.
      rewrite (dequeued_get_call conn p) by done.
      unfold accepted. simpl. rewrite app_nil_r.
      unfold async_get_call_timeout_resume in Hg.
      destruct (conn_at _ p) as [cc|] eqn:Hcc; [|done]. simpl in Hg.
      destruct (_ && _) eqn:Hcond.
      * injection Hg as <- <-. by destruct (decide _).
      * apply (get_call_loop_queue _ _ _ _ _ conn) in Hg. exact Hg.
    + destruct (async_wait_for_resume _ _ _) as [[st1 r]|] eqn:Hg; [|done].
      simpl in Hr. injection Hr as <- <-.
      apply Hsame; [|done..].
      eapply wait_for_done_same_queues; [|exact Hg]. done.
    + destruct (async_wait_timeout_resume _ _ _) as [[st1 r]|] eqn:Hg;
        [|done].
      simpl in Hr. injection Hr as <- <-.
      apply Hsame; [|done..].
      eapply same_queues_trans;
        [|by eapply async_wait_timeout_resume_same_queues]. done.
    + simpl in Hr. injection Hr as <- <-. by apply Hsame.
Qed.

(** C1, as the code has it.  As long as the handler of a connection has
    not returned, the calls [async_get_call_timeout] returns to it from a
    non-empty inbox, followed by what is still in the inbox, are the
    calls that were in the inbox at the start followed by the calls
    [route_call] accepted for the connection since, in the same order.
    Returns of zero and records made up after a hangup are not part of
    that sequence, and a call whose queue node could not be allocated
    never is. *)
Theorem inbox_fifo conn ls st st' tr :
  run ls st = Some (st', tr) → LConnectionReturn conn ∉ ls →
  concat (map (dequeued conn) tr) ++ queue_at st' conn
  = queue_at st conn ++ concat (map (accepted conn) tr).
Proof.
  revert st tr. induction ls as [|l ls IH]; intros st tr; simpl.
  - intros [= <- <-] _. simpl. by rewrite app_nil_r.
  - destruct (exec l st) as [[st1 o]|] eqn:Hexec; [|done]. simpl.
    destruct (run ls st1) as [[st2 tr2]|] eqn:Hrun; [|done]. simpl.
    intros [= <- <-] Hnot. apply not_elem_of_cons in Hnot as [Hl Hls].
    simpl. rewrite <-!app_assoc, (IH _ _ Hrun Hls), !app_assoc. f_equal.
    apply exec_queue; [done|]. by intros ->.
Qed.

(** ** Where a new timeout goes, and the membership flag *)

Lemma async_insert_timeout_links wd st st' :
  timeout_inv st → async_insert_timeout wd st = Some st' →
  ∃ l1 l2, timeout_list st = l1 ++ l2 ∧ timeout_list st' = l1 ++ wd :: l2
    ∧ Forall (λ q, expires_at st q < expires_at st wd) l1
    ∧ Forall (λ q, expires_at st wd <= expires_at st q) l2
    ∧ expires_sorted st' ∧ inlist_at st' wd = Some true.
Proof.
  intros [Hnd Hs Hl] Hins.
  destruct (async_insert_timeout_wdata _ _ _ Hins) as (w & Hw & Hw' & _).
  pose proof (async_insert_timeout_only_at _ _ _ Hins) as Hat.
  apply async_insert_timeout_Some in Hins as (w0 & Hw0 & ->).
  rewrite Hw in Hw0. injection Hw0 as <-. st_simpl.
  assert (Hlive : ∀ q, q ∈ timeout_list st → is_Some (wdata_at st q)).
  { intros q Hq. destruct (Hl q Hq) as (? & ? & -> & _). by eexists. }
  assert (He : expires_at st wd = expires (to_event w)).
  { unfold expires_at. by rewrite Hw. }
  destruct (insert_walk_split st (expires (to_event w)) wd (timeout_list st)
              Hlive) as (l1 & l2 & Hsplit & Hwalk & Hl1 & Hl2).
  exists l1, l2. rewrite He. split_and!; [done..| | |].
  - unfold expires_sorted in Hs. rewrite Hsplit in Hs.
    apply StronglySorted_app in Hs as (_ & _ & Hs2).
    destruct l2 as [|q l2]; [constructor|].
    apply StronglySorted_inv in Hs2 as [_ Hq]. constructor; [done|].
    eapply Forall_impl; [exact Hq|]. simpl. intros; lia.
  - unfold expires_sorted. st_simpl.
    match goal with |- StronglySorted _ ?l => set (l' := l) end.
    eapply StronglySorted_ext_in;
      [|apply (insert_walk_sorted st); [exact Hlive|exact He|exact Hs]].
    intros x y _ _. simpl.
    assert (Hx : ∀ z, expires_at
                   (set_timeout_list l'
                      (upd_wdata wd (set_inlist true)
                         (upd_wdata wd (set_occurred false) st))) z
                 = expires_at st z).
    { intros z. unfold expires_at.
      change (wdata_at (set_timeout_list ?l ?s) z) with (wdata_at s z).
      rewrite !wdata_at_upd_wdata. case_decide; subst; [|done].
      by rewrite Hw. }
    by rewrite !Hx.
  - unfold inlist_at. by rewrite Hw'.
Qed.

Lemma inlist_at_upd_wdata_other st p f q :
  (∀ w, inlist (to_event (f w)) = inlist (to_event w)) →
  inlist_at (upd_wdata p f st) q = inlist_at st q.
Proof.
  intros Hf. unfold inlist_at. rewrite wdata_at_upd_wdata.
  case_decide; [|done]. destruct (wdata_at st q); simpl; [|done].
  by rewrite Hf.
Qed.

Lemma expire_walk_inlist_false tv l st p :
  inlist_at st p = Some false →
  inlist_at (expire_walk tv l st) p = Some false.
Proof.
  revert st. induction l as [|cur next IH]; intros st Hp; simpl; [done|].
  destruct (wdata_at st cur) as [waiter|]; [|done].
  destruct (tv_gt _ _); [done|]. apply IH.
  assert (H1 : inlist_at (upd_wdata cur (set_inlist false) st) p
               = Some false).
  { unfold inlist_at in *. rewrite wdata_at_upd_wdata.
    case_decide; [|done]. by destruct (wdata_at st p). }
  destruct (active waiter); st_simpl;
    change (inlist_at (emit ?e ?s) p) with (inlist_at s p);
    rewrite ?(inlist_at_upd_wdata_other _ _ (set_active true)) by done;
    rewrite (inlist_at_upd_wdata_other _ _ (set_occurred true)) by done;
    exact H1.
Qed.

Lemma expire_walk_unlinked tv l st p :
  is_Some (wdata_at st p) →
  p ∈ timeout_list st → p ∉ timeout_list (expire_walk tv l st) →
  inlist_at (expire_walk tv l st) p = Some false.
Proof.
  revert st. induction l as [|cur next IH]; intros st Hlive Hin Hout;
    simpl in *; [done|].
  destruct (wdata_at st cur) as [waiter|] eqn:Hcur; [|done].
  destruct (tv_gt _ _); [done|].
  match goal with
  | |- inlist_at (expire_walk tv next ?s) p = _ => set (st1 := s) in *
  end.
  assert (Htl : timeout_list st1 = list_remove cur (timeout_list st)).
  { subst st1. by destruct (active waiter). }
  destruct (decide (p = cur)) as [->|Hne].
  - apply expire_walk_inlist_false. subst st1.
    destruct (active waiter); st_simpl;
      change (inlist_at (emit ?e ?s) cur) with (inlist_at s cur);
      rewrite ?(inlist_at_upd_wdata_other _ _ (set_active true)) by done;
      rewrite (inlist_at_upd_wdata_other _ _ (set_occurred true)) by done;
      unfold inlist_at; rewrite wdata_at_upd_wdata, decide_True by done;
      change (wdata_at (set_timeout_list ?l ?s) cur) with (wdata_at s cur);
      by rewrite Hcur.
  - apply IH; [| |done].
    + rewrite wdata_at_is_Some in *.
      assert (Hh : heap st1 !! p = heap st !! p).
      { apply (only_at_refl cur st) in Hne as Hst.
        assert (Hat : only_at cur st st1).
        { subst st1. destruct (active waiter); solve_only_at. }
        by destruct (Hat p Hne) as [-> _]. }
      by rewrite Hh.
    + rewrite Htl, elem_of_list_remove. done.
Qed.

Lemma handle_expired_timeouts_unlinked now st p :
  timeout_inv st →
  p ∈ timeout_list st → p ∉ timeout_list (handle_expired_timeouts now st) →
  inlist_at (handle_expired_timeouts now st) p = Some false.
Proof.
  intros [_ _ Hl] Hin Hout. unfold handle_expired_timeouts in *.
  change (inlist_at (emit ?e ?s) p) with (inlist_at s p).
  destruct (Hl p Hin) as (w & fr & Hw & _).
  apply expire_walk_unlinked; [by exists w|done|done].
Qed.

Lemma route_call_unlinked callid call ma st p :
  p ∈ timeout_list st → p ∉ timeout_list (route_call callid call ma st).1 →
  inlist_at (route_call callid call ma st).1 p = Some false.
Proof.
  unfold route_call.
  change (hash_table_find (emit FutexDown st)) with (hash_table_find st).
  destruct (hash_table_find st _) as [hlp|] eqn:Hfind; [|done].
  change (conn_at (emit FutexDown st)) with (conn_at st).
  destruct (conn_at st hlp) as [conn|] eqn:Hconn; [|done].
  destruct ma; [|done]. simpl.
  destruct (decide _), (active (conn_wdata conn)); try done;
    destruct (inlist (to_event (conn_wdata conn))); try done; st_simpl;
    rewrite elem_of_list_remove; intros Hin Hout;
    (assert (p = hlp) as -> by (destruct (decide (p = hlp)); tauto));
    unfold inlist_at; autorewrite with heap_read;
    rewrite !decide_True by done;
    rewrite !wdata_at_upd_conn by done; autorewrite with heap_read;
    by rewrite (wdata_at_conn _ _ _ Hconn).
Qed.

(** C3, as the code has it.  In every state the framework can reach,
    the [expires] values in the timeout list do not decrease from head to
    tail, no awaiter is linked twice, and every linked awaiter has
    [inlist] set, is inactive and has a fibril parked on it.
    [async_insert_timeout] sets [inlist] and links the awaiter behind all
    entries that expire strictly earlier and in front of all others, so in
    front of the entries with the same [expires];
    [handle_expired_timeouts] and [route_call] clear [inlist] of every
    awaiter they unlink. *)
Theorem timeout_list_order ls st tr :
  run ls init_state = Some (st, tr) →
  (NoDup (timeout_list st) ∧ expires_sorted st ∧ linked_ok st)
  ∧ (∀ wd st', async_insert_timeout wd st = Some st' →
       ∃ l1 l2, timeout_list st = l1 ++ l2
         ∧ timeout_list st' = l1 ++ wd :: l2
         ∧ Forall (λ q, expires_at st q < expires_at st wd) l1
         ∧ Forall (λ q, expires_at st wd <= expires_at st q) l2
         ∧ expires_sorted st' ∧ inlist_at st' wd = Some true)
  ∧ (∀ now p,
       p ∈ timeout_list st →
       p ∉ timeout_list (handle_expired_timeouts now st) →
       inlist_at (handle_expired_timeouts now st) p = Some false)
  ∧ (∀ callid call msg_alloc p,
       p ∈ timeout_list st →
       p ∉ timeout_list (route_call callid call msg_alloc st).1 →
       inlist_at (route_call callid call msg_alloc st).1 p = Some false).
Proof.
  intros Hrun.
  pose proof (run_timeout_inv _ _ _ _ timeout_inv_init Hrun) as Hinv.
  split_and!.
  - by destruct Hinv.
  - by destruct Hinv.
  - by destruct Hinv.
  - intros wd st'. by apply async_insert_timeout_links.
  - intros now p. by apply handle_expired_timeouts_unlinked.
  - intros callid call ma p. apply route_call_unlinked.
Qed.

(** ** Steps that leave the reply bookkeeping alone *)

Lemma msgs_kept_refl st : msgs_kept st st.
Proof. split; [|done]. intros q m Hm. by exists m. Qed.

Lemma msgs_kept_emit st st' e : msgs_kept st st' → msgs_kept st (emit e st').
Proof. done. Qed.

Lemma msgs_kept_free st st' p : msgs_kept st st' → msgs_kept st (free p st').
Proof. done. Qed.

Lemma msgs_kept_set_timeout_list st st' l :
  msgs_kept st st' → msgs_kept st (set_timeout_list l st').
Proof. done. Qed.

Lemma msgs_kept_set_conn_hash_table st st' l :
  msgs_kept st st' → msgs_kept st (set_conn_hash_table l st').
Proof. done. Qed.

Lemma msgs_kept_with_call_store st st' f :
  msgs_kept st st' → msgs_kept st (with_call_store f st').
Proof. done. Qed.

Lemma msgs_kept_with_parked st st' f :
  msgs_kept st st' → msgs_kept st (with_parked f st').
Proof. done. Qed.

Lemma msgs_kept_park st st' p fr :
  msgs_kept st st' → msgs_kept st (park p fr st').
Proof. done. Qed.

Lemma msgs_kept_upd_wdata st st' p f :
  msgs_kept st st' → msgs_kept st (upd_wdata p f st').
Proof.
  intros [H C]. split.
  - intros q m Hm. destruct (H q m Hm) as (m' & Hm' & Hd & Hr).
    rewrite msg_at_upd_wdata, Hm'. case_decide; eauto.
  - intros q Hq. destruct (C q Hq) as [c Hc].
    rewrite conn_at_upd_wdata, Hc. case_decide; eauto.
Qed.

Lemma msgs_kept_upd_conn st st' p f :
  msgs_kept st st' → msgs_kept st (upd_conn p f st').
Proof.
  intros [H C]. split.
  - intros q m Hm. destruct (H q m Hm) as (m' & Hm' & Hd & Hr).
    rewrite msg_at_upd_conn. eauto.
  - intros q Hq. destruct (C q Hq) as [c Hc].
    rewrite conn_at_upd_conn, Hc. case_decide; eauto.
Qed.

Lemma msgs_kept_set_dataptr st st' p d :
  msgs_kept st st' → msgs_kept st (upd_msg p (set_dataptr d) st').
Proof.
  intros [H C]. split.
  - intros q m Hm. destruct (H q m Hm) as (m' & Hm' & Hd & Hr).
    rewrite msg_at_upd_msg, Hm'. case_decide; eauto.
  - intros q Hq. rewrite conn_at_upd_msg. auto.
Qed.

Lemma msgs_kept_upd_msg_fresh st st' p f :
  heap st !! p = None → msgs_kept st st' → msgs_kept st (upd_msg p f st').
Proof.
  intros Hp [H C]. split.
  - intros q m Hm. destruct (H q m Hm) as (m' & Hm' & Hd & Hr).
    rewrite msg_at_upd_msg, Hm'. case_decide; subst; eauto.
    unfold msg_at in Hm. by rewrite Hp in Hm.
  - intros q Hq. rewrite conn_at_upd_msg. auto.
Qed.

Lemma msgs_kept_alloc st p o :
  heap st !! p = None → msgs_kept st (alloc p o st).
Proof.
  intros Hp. split.
  - intros q m Hm. rewrite msg_at_alloc. case_decide; subst; eauto.
    unfold msg_at in Hm. by rewrite Hp in Hm.
  - intros q [c Hc]. rewrite conn_at_alloc. case_decide; subst; eauto.
    unfold conn_at in Hc. by rewrite Hp in Hc.
Qed.

Ltac solve_msgs_kept :=
  repeat first
    [ assumption | apply msgs_kept_refl | apply msgs_kept_free
    | apply msgs_kept_emit | apply msgs_kept_set_timeout_list
    | apply msgs_kept_set_conn_hash_table
    | apply msgs_kept_with_call_store | apply msgs_kept_with_parked
    | apply msgs_kept_park | apply msgs_kept_upd_wdata
    | apply msgs_kept_upd_conn | apply msgs_kept_set_dataptr
    | match goal with
      | |- msgs_kept _ (if ?b then _ else _) => destruct b
      | |- msgs_kept _ (match ?d with Some _ => _ | None => _ end) =>
          destruct d
      end ].

Lemma async_insert_timeout_msgs_kept wd st0 st st' :
  msgs_kept st0 st → async_insert_timeout wd st = Some st' →
  msgs_kept st0 st'.
Proof.
  intros H0 (w & _ & ->)%async_insert_timeout_Some. solve_msgs_kept.
Qed.

Lemma expire_walk_msgs_kept tv l st0 st :
  msgs_kept st0 st → msgs_kept st0 (expire_walk tv l st).
Proof.
  revert st. induction l as [|cur next IH]; intros st H0; simpl; [done|].
  destruct (wdata_at st cur) as [waiter|]; [|done].
  destruct (tv_gt _ _); [done|]. apply IH.
  destruct (active waiter); solve_msgs_kept.
Qed.

Lemma handle_expired_timeouts_msgs_kept tv st :
  msgs_kept st (handle_expired_timeouts tv st).
Proof.
  unfold handle_expired_timeouts.
  apply msgs_kept_emit, expire_walk_msgs_kept. solve_msgs_kept.
Qed.

Lemma route_call_msgs_kept callid call msg_alloc st :
  msgs_kept st (route_call callid call msg_alloc st).1.
Proof.
  unfold route_call. destruct (hash_table_find _ _); [|solve_msgs_kept].
  destruct (conn_at _ _); [|solve_msgs_kept].
  destruct msg_alloc; simpl; [|solve_msgs_kept].
  destruct (decide _); solve_msgs_kept.
Qed.

Lemma process_notification_msgs_kept callid call msg_alloc new_fid st :
  msgs_kept st (process_notification callid call msg_alloc new_fid st).1.
Proof.
  unfold process_notification. destruct msg_alloc; solve_msgs_kept.
Qed.

Lemma async_new_connection_msgs_kept hash callid call conn_alloc new_fid
    st :
  fresh_block st conn_alloc = true →
  msgs_kept st
    (async_new_connection hash callid call conn_alloc new_fid st).1.
Proof.
  intros Hfresh. unfold async_new_connection.
  destruct conn_alloc as [[p blk]|];
    [|destruct (decide _); solve_msgs_kept].
  apply fresh_block_Some in Hfresh as [_ Hfresh].
  match goal with
  | |- context [alloc p ?o st] =>
      pose proof (msgs_kept_alloc st p o Hfresh)
  end.
  repeat (destruct (decide _)); st_simpl; solve_msgs_kept.
Qed.

Lemma handle_call_msgs_kept callid call msg_alloc conn_alloc new_fid st :
  fresh_block st conn_alloc = true →
  msgs_kept st (handle_call callid call msg_alloc conn_alloc new_fid st).
Proof.
  intros Hfresh. unfold handle_call.
  destruct (decide _); [apply process_notification_msgs_kept|].
  destruct (decide _); [by apply async_new_connection_msgs_kept|].
  pose proof (route_call_msgs_kept callid call msg_alloc st) as Hr.
  destruct (route_call _ _ _ _) as [st' []]; simpl in *; solve_msgs_kept.
Qed.

Lemma get_call_loop_msgs_kept conn usecs st0 st st' r :
  msgs_kept st0 st → get_call_loop conn usecs st = Some (st', r) →
  msgs_kept st0 st'.
Proof.
  intros H0. unfold get_call_loop.
  destruct (conn_at st conn) as [c|]; [|done]. simpl.
  destruct (msg_queue c) as [|msg rest].
  - destruct (decide (close_callid c ≠ 0)).
    { intros [= <- _]. solve_msgs_kept. }
    destruct (decide (usecs ≠ 0)); simpl.
    + destruct (async_insert_timeout conn st) as [st1|] eqn:Hins; [|done].
      simpl. intros [= <- _].
      apply msgs_kept_park, msgs_kept_upd_wdata.
      by eapply async_insert_timeout_msgs_kept.
    + intros [= <- _]. solve_msgs_kept.
  - intros [= <- _]. solve_msgs_kept.
Qed.

Lemma async_get_call_timeout_msgs_kept conn usecs now st st' r :
  async_get_call_timeout conn usecs now st = Some (st', r) →
  msgs_kept st st'.
Proof.
  unfold async_get_call_timeout.
  destruct (conn_at st conn) as [c|]; [|done]. simpl.
  apply get_call_loop_msgs_kept. destruct (decide _); solve_msgs_kept.
Qed.

Lemma async_get_call_timeout_resume_msgs_kept conn usecs st0 st st' r :
  msgs_kept st0 st →
  async_get_call_timeout_resume conn usecs st = Some (st', r) →
  msgs_kept st0 st'.
Proof.
  intros H0. unfold async_get_call_timeout_resume.
  destruct (conn_at st conn) as [c|]; [|done]. simpl.
  destruct (_ && _).
  - intros [= <- _]. solve_msgs_kept.
  - apply get_call_loop_msgs_kept. solve_msgs_kept.
Qed.

Lemma drain_msg_queue_msgs_kept conn q st0 st :
  msgs_kept st0 st → msgs_kept st0 (drain_msg_queue conn q st).
Proof.
  revert st. induction q as [|msg rest IH]; intros st H0; simpl; [done|].
  apply IH. solve_msgs_kept.
Qed.

Lemma connection_fibril_msgs_kept conn st st' :
  connection_fibril conn st = Some st' → msgs_kept st st'.
Proof.
  intros H. apply connection_fibril_Some in H as (c & _ & _ & _ & H).
  revert H. simpl.
  assert (msgs_kept st (hash_table_remove (conn_in_phone_hash c)
                          (emit FutexDown st))).
  { unfold hash_table_remove. destruct (hash_table_find _ _);
      [|solve_msgs_kept]. unfold conn_remove. apply msgs_kept_free.
    solve_msgs_kept. }
  destruct (decide _); intros [= <-];
    repeat apply msgs_kept_emit; apply drain_msg_queue_msgs_kept;
    solve_msgs_kept.
Qed.

Lemma async_send_msgs_kept phoneid method args dptr msg_alloc st :
  fresh_block st msg_alloc = true →
  msgs_kept st (async_send phoneid method args dptr msg_alloc st).1.
Proof.
  intros Hfresh. unfold async_send.
  destruct msg_alloc as [[p blk]|]; [|solve_msgs_kept].
  apply fresh_block_Some in Hfresh as [_ Hfresh]. st_simpl.
  apply msgs_kept_upd_wdata, msgs_kept_upd_wdata, msgs_kept_set_dataptr,
    msgs_kept_upd_msg_fresh; [done|].
  by apply msgs_kept_alloc.
Qed.

Lemma wait_for_done_msgs_kept amsgid retval_ptr st0 st st' r :
  msgs_kept st0 st →
  wait_for_done amsgid retval_ptr st = Some (st', r) → msgs_kept st0 st'.
Proof.
  intros H0. unfold wait_for_done. destruct (msg_at st amsgid); [|done].
  simpl. intros [= <- _]. solve_msgs_kept.
Qed.

Lemma async_wait_for_msgs_kept amsgid retval_ptr self st st' r :
  async_wait_for amsgid retval_ptr self st = Some (st', r) →
  msgs_kept st st'.
Proof.
  unfold async_wait_for. destruct (msg_at st amsgid) as [msg|]; [|done].
  simpl. destruct (done msg).
  - apply wait_for_done_msgs_kept. solve_msgs_kept.
  - intros [= <- _]. solve_msgs_kept.
Qed.

Lemma wait_timeout_done_msgs_kept amsgid retval_ptr st0 st st' r :
  msgs_kept st0 st →
  wait_timeout_done amsgid retval_ptr st = Some (st', r) →
  msgs_kept st0 st'.
Proof.
  intros H0. unfold wait_timeout_done.
  destruct (msg_at st amsgid); [|done]. simpl. intros [= <- _].
  solve_msgs_kept.
Qed.

Lemma async_wait_timeout_msgs_kept amsgid retval_ptr timeout now self
    st st' r :
  async_wait_timeout amsgid retval_ptr timeout now self st = Some (st', r) →
  msgs_kept st st'.
Proof.
  unfold async_wait_timeout.
  destruct (decide _); [intros [= <- _]; solve_msgs_kept|].
  destruct (msg_at st amsgid) as [msg|]; [|done]. simpl.
  destruct (done msg).
  - apply wait_timeout_done_msgs_kept. solve_msgs_kept.
  - destruct (async_insert_timeout _ _) as [st1|] eqn:Hins; [|done].
    simpl. intros [= <- _]. apply msgs_kept_park.
    eapply async_insert_timeout_msgs_kept; [|done]. solve_msgs_kept.
Qed.

Lemma async_wait_timeout_resume_msgs_kept amsgid retval_ptr st0 st st' r :
  msgs_kept st0 st →
  async_wait_timeout_resume amsgid retval_ptr st = Some (st', r) →
  msgs_kept st0 st'.
Proof.
  intros H0. unfold async_wait_timeout_resume.
  destruct (msg_at st amsgid) as [msg|]; [|done]. simpl.
  destruct (negb _); [by intros [= <- _]|].
  by apply wait_timeout_done_msgs_kept.
Qed.

Lemma async_usleep_msgs_kept timeout now self msg_alloc st st' r :
  fresh_block st msg_alloc = true →
  async_usleep timeout now self msg_alloc st = Some (st', r) →
  msgs_kept st st'.
Proof.
  intros Hfresh. unfold async_usleep.
  destruct msg_alloc as [[p blk]|]; [|intros [= <- _]; solve_msgs_kept].
  apply fresh_block_Some in Hfresh as [_ Hfresh].
  destruct (async_insert_timeout _ _) as [st1|] eqn:Hins; [|done].
  simpl. intros [= <- _]. apply msgs_kept_park.
  eapply async_insert_timeout_msgs_kept; [|done].
  pose proof (msgs_kept_alloc st p (OMsg blk) Hfresh). solve_msgs_kept.
Qed.

Lemma resume_msgs_kept p fr st0 st st' o :
  msgs_kept st0 st → resume p fr st = Some (st', o) → msgs_kept st0 st'.
Proof.
  intros H0. unfold resume. destruct fr as [usecs|rp|rp|].
  - destruct (async_get_call_timeout_resume p usecs st) as [[st1 r]|] eqn:H;
      [|done].
    simpl. intros [= <- _].
    by eapply async_get_call_timeout_resume_msgs_kept.
  - destruct (async_wait_for_resume p rp st) as [[st1 r]|] eqn:H; [|done].
    simpl. intros [= <- _]. by eapply wait_for_done_msgs_kept.
  - destruct (async_wait_timeout_resume p rp st) as [[st1 r]|] eqn:H;
      [|done].
    simpl. intros [= <- _]. by eapply async_wait_timeout_resume_msgs_kept.
  - simpl. intros [= <- _]. solve_msgs_kept.
Qed.

(** What [reply_received] does to its message. *)
Lemma reply_received_msg arg rv data st st' :
  reply_received arg rv data st = Some st' →
  only_at arg st st' ∧ parked st' = parked st
  ∧ ∃ m m', msg_at st arg = Some m ∧ msg_at st' arg = Some m'
      ∧ done m' = true ∧ retval m' = int_to_ipcarg rv.
Proof.
  unfold reply_received.
  destruct (msg_at st arg) as [msg|] eqn:Hmsg; [|done]. simpl.
  intros [= <-]. split_and!.
  - destruct data; repeat (destruct (decide _)); solve_only_at.
  - by destruct data, (inlist _), (active (msg_wdata msg));
      repeat (destruct (decide _)).
  - exists msg.
    destruct data, (inlist _), (active (msg_wdata msg));
      repeat (destruct (decide _));
      autorewrite with heap_read; rewrite ?decide_True by done;
      rewrite Hmsg; eexists; split_and!; done.
Qed.

(** What a step does to a message record: [reply_received] sets [done]
    and stores the status in [retval]; no other call changes either. *)
Lemma exec_msgs l st st' o q m :
  exec l st = Some (st', o) → msg_at st q = Some m →
  ∃ m', msg_at st' q = Some m'
    ∧ ((∃ rv data, l = LReplyReceived q rv data
          ∧ done m' = true ∧ retval m' = int_to_ipcarg rv)
       ∨ ((∀ rv data, l ≠ LReplyReceived q rv data)
          ∧ done m' = done m ∧ retval m' = retval m)).
Proof.
  intros Hexec%exec_inv Hm.
  assert (Hkept : msgs_kept st st' →
            (∀ rv data, l ≠ LReplyReceived q rv data) →
            ∃ m', msg_at st' q = Some m'
              ∧ ((∃ rv data, l = LReplyReceived q rv data
                    ∧ done m' = true ∧ retval m' = int_to_ipcarg rv)
                 ∨ ((∀ rv data, l ≠ LReplyReceived q rv data)
                    ∧ done m' = done m ∧ retval m' = retval m))).
  { intros [Hk _] Hl. destruct (Hk q m Hm) as (m' & Hm' & Hd & Hr).
    exists m'. split; [done|]. by right. }
  destruct l as [cid cl ma ca nf|now|arg rv data|hash cid cl ca nf
    |c usecs now|c|ph mt a1 a2 a3 a4 dp ma|ph mt a1 a2 a3 a4 a5 dp ma
    |amsgid rp self|amsgid rp timeout now self|timeout now self ma|p].
  - destruct Hexec as (Hf & -> & ->).
    apply Hkept; [by apply handle_call_msgs_kept|done].
  - destruct Hexec as (-> & ->).
    apply Hkept; [apply handle_expired_timeouts_msgs_kept|done].
  - destruct Hexec as (H & ->).
    apply reply_received_msg in H as (Hat & _ & m0 & m' & Hm0 & Hm' & Hd & Hr).
    destruct (decide (arg = q)) as [->|Hne].
    + exists m'. split; [done|]. left. eauto.
    + exists m. split; [by rewrite (only_at_msg arg st st')|].
      right. split_and!; [|done..]. by intros ?? [= ?].
  - destruct Hexec as (Hf & f & Hn & ->). apply Hkept; [|done].
    pose proof (async_new_connection_msgs_kept hash cid cl ca nf st Hf)
      as Hs. by rewrite Hn in Hs.
  - destruct Hexec as (Hpk & r & Hg & ->).
    apply Hkept; [by eapply async_get_call_timeout_msgs_kept|done].
  - destruct Hexec as (Hpk & H & ->).
    apply Hkept; [by eapply connection_fibril_msgs_kept|done].
  - destruct Hexec as (Hf & id & Hn & ->). apply Hkept; [|done].
    pose proof (async_send_msgs_kept ph mt [a1; a2; a3; a4] dp ma st Hf)
      as Hs. by rewrite Hn in Hs.
  - destruct Hexec as (Hf & id & Hn & ->). apply Hkept; [|done].
    pose proof (async_send_msgs_kept ph mt [a1; a2; a3; a4; a5] dp ma st
                  Hf) as Hs. by rewrite Hn in Hs.
  - destruct Hexec as (Hpk & r & H & ->).
    apply Hkept; [by eapply async_wait_for_msgs_kept|done].
  - destruct Hexec as (Hpk & r & H & ->).
    apply Hkept; [by eapply async_wait_timeout_msgs_kept|done].
  - destruct Hexec as (Hf & r & H & ->).
    apply Hkept; [by eapply async_usleep_msgs_kept|done].
  - destruct Hexec as (fr & w & Hfr & Hw & Ha & Hr).
    apply Hkept; [|done].
    eapply resume_msgs_kept; [|exact Hr]. solve_msgs_kept.
Qed.

(** ** Which address a call works on *)

Lemma route_call_only_at callid call msg_alloc st :
  ∃ p, only_at p st (route_call callid call msg_alloc st).1
    ∧ (is_Some (conn_at st p)
       ∨ heap (route_call callid call msg_alloc st).1 = heap st)
    ∧ parked (route_call callid call msg_alloc st).1 = parked st.
Proof.
  unfold route_call.
  change (hash_table_find (emit FutexDown st)) with (hash_table_find st).
  destruct (hash_table_find st _) as [hlp|] eqn:Hfind.
  2: { exists 0. split_and!; [solve_only_at|by right|done]. }
  apply hash_table_find_conn in Hfind as (c & Hc & _).
  change (conn_at (emit FutexDown st)) with (conn_at st). rewrite Hc.
  exists hlp. destruct msg_alloc; simpl.
  2: { split_and!; [solve_only_at|by right|done]. }
  split_and!; [|by left|].
  - destruct (decide _); solve_only_at.
  - by destruct (decide _), (active (conn_wdata c)),
      (inlist (to_event (conn_wdata c))).
Qed.

Lemma async_new_connection_only_at hash callid call p blk new_fid st :
  only_at p st
    (async_new_connection hash callid call (Some (p, blk)) new_fid st).1
  ∧ is_Some (conn_at
       (async_new_connection hash callid call (Some (p, blk)) new_fid st).1
       p)
  ∧ parked
      (async_new_connection hash callid call (Some (p, blk)) new_fid st).1
    = parked st.
Proof.
  unfold async_new_connection, hash_table_insert. split_and!.
  - repeat (destruct (decide _)); st_simpl; solve_only_at.
  - repeat (destruct (decide _)); st_simpl;
      autorewrite with heap_read; rewrite decide_True by done; by eexists.
  - by repeat (destruct (decide _)).
Qed.

Lemma get_call_loop_only_at conn usecs st st' r :
  get_call_loop conn usecs st = Some (st', r) →
  only_at conn st st' ∧ is_Some (conn_at st conn)
  ∧ parked st' = match r with
                 | Return _ => parked st
                 | Switched => <[conn := FGetCall usecs]> (parked st)
                 end.
Proof.
  unfold get_call_loop.
  destruct (conn_at st conn) as [c|] eqn:Hc; [|done]. simpl.
  destruct (msg_queue c) as [|msg rest].
  - destruct (decide (close_callid c ≠ 0)).
    { intros [= <- <-]. split_and!; [solve_only_at|done..]. }
    destruct (decide (usecs ≠ 0)); simpl.
    + destruct (async_insert_timeout conn st) as [st1|] eqn:Hins; [|done].
      simpl. intros [= <- <-].
      destruct (async_insert_timeout_wdata _ _ _ Hins) as (_ & _ & _ & Hp).
      split_and!; [|done|by st_simpl; rewrite Hp].
      apply only_at_park, only_at_upd_wdata.
      by apply async_insert_timeout_only_at.
    + intros [= <- <-]. split_and!; [solve_only_at|done..].
  - intros [= <- <-]. split_and!; [solve_only_at|done..].
Qed.

Lemma async_get_call_timeout_only_at conn usecs now st st' r :
  async_get_call_timeout conn usecs now st = Some (st', r) →
  only_at conn st st' ∧ is_Some (conn_at st conn)
  ∧ parked st' = match r with
                 | Return _ => parked st
                 | Switched => <[conn := FGetCall usecs]> (parked st)
                 end.
Proof.
  unfold async_get_call_timeout.
  destruct (conn_at st conn) as [c|] eqn:Hc; [|done]. simpl.
  intros (Hat & _ & Hp)%get_call_loop_only_at. split_and!; [|done|].
  - eapply only_at_trans; [|exact Hat]. destruct (decide _); solve_only_at.
  - rewrite Hp. by destruct (decide _).
Qed.

Lemma async_get_call_timeout_resume_only_at conn usecs st st' r :
  async_get_call_timeout_resume conn usecs st = Some (st', r) →
  only_at conn st st' ∧ is_Some (conn_at st conn)
  ∧ parked st' = match r with
                 | Return _ => parked st
                 | Switched => <[conn := FGetCall usecs]> (parked st)
                 end.
Proof.
  unfold async_get_call_timeout_resume.
  destruct (conn_at st conn) as [c|] eqn:Hc; [|done]. simpl.
  destruct (_ && _).
  - intros [= <- <-]. split_and!; [solve_only_at|done..].
  - intros (Hat & _ & Hp)%get_call_loop_only_at. split_and!; [|done..].
    eapply only_at_trans; [|exact Hat]. solve_only_at.
Qed.

Lemma drain_msg_queue_parked conn q st :
  parked (drain_msg_queue conn q st) = parked st.
Proof.
  revert st. induction q as [|msg rest IH]; intros st; simpl; [done|].
  by rewrite IH.
Qed.

Lemma connection_fibril_only_at conn st st' :
  connection_fibril conn st = Some st' →
  only_at conn st st' ∧ is_Some (conn_at st conn) ∧ parked st' = parked st.
Proof.
  intros H. apply connection_fibril_Some in H as (c & Hc & _ & _ & H).
  simpl in H. split_and!; [|done|].
  - destruct (decide _); injection H as <-;
      repeat apply only_at_emit;
      apply drain_msg_queue_only_at, only_at_emit,
        hash_table_remove_only_at; solve_only_at.
  - destruct (decide _); injection H as <-; st_simpl;
      rewrite drain_msg_queue_parked; st_simpl; unfold hash_table_remove;
      by destruct (hash_table_find _ _).
Qed.

Lemma async_send_only_at phoneid method args dptr p blk st :
  only_at p st (async_send phoneid method args dptr (Some (p, blk)) st).1
  ∧ parked (async_send phoneid method args dptr (Some (p, blk)) st).1
    = parked st.
Proof. unfold async_send. st_simpl. split; [solve_only_at|done]. Qed.

Lemma wait_for_done_only_at amsgid retval_ptr st st' r :
  wait_for_done amsgid retval_ptr st = Some (st', r) →
  only_at amsgid st st' ∧ parked st' = parked st.
Proof.
  unfold wait_for_done. destruct (msg_at st amsgid); [|done]. simpl.
  intros [= <- _]. split; [solve_only_at|done].
Qed.

Lemma async_wait_for_only_at amsgid retval_ptr self st st' r :
  async_wait_for amsgid retval_ptr self st = Some (st', r) →
  only_at amsgid st st'
  ∧ match r with
    | Return _ => parked st' = parked st
    | Switched =>
        parked st' = <[amsgid := FWaitFor retval_ptr]> (parked st)
        ∧ ∃ m', msg_at st' amsgid = Some m'
                ∧ active (msg_wdata m') = false
    end.
Proof.
  unfold async_wait_for.
  destruct (msg_at st amsgid) as [msg|] eqn:Hmsg; [|done]. simpl.
  destruct (done msg).
  - intros H. pose proof H as (Hat & Hp)%wait_for_done_only_at.
    unfold wait_for_done in H. destruct (msg_at _ _); [|done].
    injection H as <- <-. split; [|done].
    eapply only_at_trans; [|exact Hat]. solve_only_at.
  - intros [= <- <-]. split_and!; [solve_only_at|done|].
    autorewrite with heap_read. rewrite !decide_True by done.
    rewrite Hmsg. by eexists.
Qed.

Lemma wait_timeout_done_only_at amsgid retval_ptr st st' r :
  wait_timeout_done amsgid retval_ptr st = Some (st', r) →
  only_at amsgid st st' ∧ parked st' = parked st
  ∧ ∃ x, r = Return x.
Proof.
  unfold wait_timeout_done. destruct (msg_at st amsgid); [|done]. simpl.
  intros [= <- <-]. split_and!; [solve_only_at|done|by eexists].
Qed.

Lemma async_wait_timeout_only_at amsgid retval_ptr timeout now self
    st st' r :
  async_wait_timeout amsgid retval_ptr timeout now self st = Some (st', r) →
  only_at amsgid st st'
  ∧ match r with
    | Return _ => parked st' = parked st
    | Switched =>
        parked st' = <[amsgid := FWaitTimeout retval_ptr]> (parked st)
        ∧ is_Some (heap st' !! amsgid)
    end.
Proof.
  unfold async_wait_timeout.
  destruct (decide _); [intros [= <- <-]; split; [solve_only_at|done]|].
  destruct (msg_at st amsgid) as [msg|] eqn:Hmsg; [|done]. simpl.
  destruct (done msg).
  - intros (Hat & Hp & x & ->)%wait_timeout_done_only_at. split; [|done].
    eapply only_at_trans; [|exact Hat]. solve_only_at.
  - destruct (async_insert_timeout _ _) as [st1|] eqn:Hins; [|done].
    simpl. intros [= <- <-].
    destruct (async_insert_timeout_wdata _ _ _ Hins) as (w & _ & Hw & Hp).
    split_and!.
    + apply only_at_park. eapply only_at_trans;
        [|by apply async_insert_timeout_only_at]. solve_only_at.
    + st_simpl. by rewrite Hp.
    + apply wdata_at_is_Some. autorewrite with heap_read. by rewrite Hw.
Qed.

Lemma async_wait_timeout_resume_only_at amsgid retval_ptr st st' r :
  async_wait_timeout_resume amsgid retval_ptr st = Some (st', r) →
  only_at amsgid st st' ∧ parked st' = parked st.
Proof.
  unfold async_wait_timeout_resume.
  destruct (msg_at st amsgid) as [msg|]; [|done]. simpl.
  destruct (negb _); [intros [= <- _]; split; [solve_only_at|done]|].
  by intros (Hat & Hp & _)%wait_timeout_done_only_at.
Qed.

Lemma async_usleep_only_at timeout now self p blk st st' r :
  async_usleep timeout now self (Some (p, blk)) st = Some (st', r) →
  only_at p st st' ∧ parked st' = <[p := FUsleep]> (parked st)
  ∧ is_Some (heap st' !! p).
Proof.
  unfold async_usleep.
  destruct (async_insert_timeout _ _) as [st1|] eqn:Hins; [|done].
  simpl. intros [= <- <-].
  destruct (async_insert_timeout_wdata _ _ _ Hins) as (w & _ & Hw & Hp).
  split_and!.
  - apply only_at_park. eapply only_at_trans;
      [|by apply async_insert_timeout_only_at]. solve_only_at.
  - st_simpl. by rewrite Hp.
  - apply wdata_at_is_Some. autorewrite with heap_read. by rewrite Hw.
Qed.

Lemma expire_walk_parked tv l st :
  parked (expire_walk tv l st) = parked st.
Proof.
  revert st. induction l as [|cur next IH]; intros st; simpl; [done|].
  destruct (wdata_at st cur) as [waiter|]; [|done].
  destruct (tv_gt _ _); [done|]. rewrite IH. by destruct (active waiter).
Qed.

Lemma expire_walk_untouched tv l st q :
  q ∉ l → heap (expire_walk tv l st) !! q = heap st !! q.
Proof.
  revert st. induction l as [|cur next IH]; intros st Hq; simpl; [done|].
  apply not_elem_of_cons in Hq as [Hne Hq].
  destruct (wdata_at st cur) as [waiter|]; [|done].
  destruct (tv_gt _ _); [done|]. rewrite IH by done.
  destruct (active waiter); st_simpl; by rewrite !lookup_alter_ne.
Qed.

(** ** Who can wake a fibril parked in [async_wait_for] *)

Lemma wait_for_inv_init : wait_for_inv init_state.
Proof.
  split.
  - intros p [fr Hfr]. simpl in Hfr. by rewrite lookup_empty in Hfr.
  - intros p rp m Hfr. simpl in Hfr. by rewrite lookup_empty in Hfr.
Qed.

Lemma wait_for_inv_same st st' :
  heap st' = heap st → parked st' = parked st →
  wait_for_inv st → wait_for_inv st'.
Proof.
  intros Hh Hp [HE HB]. unfold wait_for_inv, msg_at. by rewrite Hh, Hp.
Qed.

Lemma wait_for_inv_only_at p0 st st' :
  wait_for_inv st → only_at p0 st st' →
  (is_Some (parked st' !! p0) → is_Some (heap st' !! p0)) →
  (∀ rp m, parked st' !! p0 = Some (FWaitFor rp) →
     msg_at st' p0 = Some m → active (msg_wdata m) = true →
     done m = true) →
  wait_for_inv st'.
Proof.
  intros [HE HB] Hat HE0 HB0. split.
  - intros p Hp. destruct (decide (p = p0)) as [->|Hne]; [by auto|].
    destruct (Hat p Hne) as [Hh Hpk]. rewrite Hh. apply HE.
    by rewrite <-Hpk.
  - intros p rp m Hp Hm. destruct (decide (p = p0)) as [->|Hne]; [by eauto|].
    destruct (Hat p Hne) as [Hh Hpk]. rewrite Hpk in Hp.
    rewrite (only_at_msg p0 st st') in Hm by done. by eapply HB.
Qed.

Lemma wait_for_inv_only_at_conn p0 st st' :
  wait_for_inv st → only_at p0 st st' → is_Some (conn_at st' p0) →
  wait_for_inv st'.
Proof.
  intros Hinv Hat [c Hc]. eapply wait_for_inv_only_at; [done..| |].
  - intros _. unfold conn_at in Hc.
    destruct (heap st' !! p0); [by eexists|done].
  - intros rp m _ Hm. by destruct (conn_at_msg_at _ _ _ _ Hc Hm).
Qed.

Lemma wait_for_inv_only_at_unparked p0 st st' :
  wait_for_inv st → only_at p0 st st' → parked st' !! p0 = None →
  wait_for_inv st'.
Proof.
  intros Hinv Hat Hp. eapply wait_for_inv_only_at; [done..| |].
  - rewrite Hp. by intros [].
  - intros rp m. by rewrite Hp.
Qed.

Lemma wait_for_inv_unpark p st :
  wait_for_inv st → wait_for_inv (with_parked (delete p) st).
Proof.
  intros [HE HB]. split.
  - intros q [fr Hq]. st_simpl. apply lookup_delete_Some in Hq as [_ Hq].
    apply HE. by eexists.
  - intros q rp m Hq. st_simpl. apply lookup_delete_Some in Hq as [_ Hq].
    by apply (HB q rp).
Qed.

Lemma msgs_kept_live st st' p :
  msgs_kept st st' → is_Some (heap st !! p) → is_Some (heap st' !! p).
Proof.
  intros [Hm Hc] [o Ho]. destruct o as [c|m].
  - destruct (Hc p) as [c' Hc']; [unfold conn_at; rewrite Ho; by eexists|].
    unfold conn_at in Hc'. destruct (heap st' !! p); [by eexists|done].
  - destruct (Hm p m) as (m' & Hm' & _); [unfold msg_at; by rewrite Ho|].
    unfold msg_at in Hm'. destruct (heap st' !! p); [by eexists|done].
Qed.

Lemma handle_expired_timeouts_wait_for_inv now st :
  timeout_inv st → wait_for_inv st →
  wait_for_inv (handle_expired_timeouts now st).
Proof.
  intros [_ _ Hl] [HE HB].
  assert (Hp : parked (handle_expired_timeouts now st) = parked st).
  { unfold handle_expired_timeouts. st_simpl. by rewrite expire_walk_parked. }
  split.
  - intros p. rewrite Hp. intros Hpk%HE.
    eapply msgs_kept_live; [apply handle_expired_timeouts_msgs_kept|done].
  - intros p rp m. rewrite Hp. intros Hfr.
    assert (Hnl : p ∉ timeout_list st).
    { intros Hin. destruct (Hl p Hin) as (w & fr & _ & _ & _ & Hfr' & Hlk).
      rewrite Hfr in Hfr'. by injection Hfr' as <-. }
    unfold handle_expired_timeouts, msg_at. st_simpl.
    rewrite expire_walk_untouched by done. by apply (HB p rp).
Qed.

Lemma exec_wait_for_inv l st st' o :
  timeout_inv st → wait_for_inv st → exec l st = Some (st', o) →
  wait_for_inv st'.
Proof.
  intros Htl Hinv Hexec%exec_inv.
  assert (Hfresh : ∀ {A} p (blk : A),
            fresh_block st (Some (p, blk)) = true → parked st !! p = None).
  { intros A p blk [_ Hf]%fresh_block_Some. destruct Hinv as [HE _].
    destruct (parked st !! p) eqn:Hp; [|done].
    destruct (HE p) as [x Hx]; [by eexists|]. by rewrite Hf in Hx. }
  assert (Hnew : ∀ hash cid cl ca nf, fresh_block st ca = true →
            wait_for_inv (async_new_connection hash cid cl ca nf st).1).
  { intros hash cid cl [[p blk]|] nf Hf.
    - destruct (async_new_connection_only_at hash cid cl p blk nf st)
        as (Hat & Hc & _).
      by eapply wait_for_inv_only_at_conn.
    - unfold async_new_connection.
      destruct (decide _); by apply (wait_for_inv_same st). }
  assert (Hsend : ∀ ph mt args dp ma, fresh_block st ma = true →
            wait_for_inv (async_send ph mt args dp ma st).1).
  { intros ph mt args dp [[p blk]|] Hf; [|done].
    destruct (async_send_only_at ph mt args dp p blk st) as (Hat & Hp).
    eapply wait_for_inv_only_at_unparked; [done..|].
    rewrite Hp. by eapply Hfresh. }
  destruct l as [cid cl ma ca nf|now|arg rv data|hash cid cl ca nf
    |c usecs now|c|ph mt a1 a2 a3 a4 dp ma|ph mt a1 a2 a3 a4 a5 dp ma
    |amsgid rp self|amsgid rp timeout now self|timeout now self ma|p].
  - destruct Hexec as (Hf & -> & ->). unfold handle_call.
    destruct (decide _).
    { unfold process_notification.
      destruct ma; by apply (wait_for_inv_same st). }
    destruct (decide _); [by apply Hnew|].
    destruct (route_call_only_at cid cl ma st) as (p & Hat & Hk & Hp).
    pose proof (route_call_msgs_kept cid cl ma st) as [_ Hc].
    destruct (route_call cid cl ma st) as [st1 routed]. simpl in *.
    assert (wait_for_inv st1).
    { destruct Hk as [Hk|Hk]; [|by apply (wait_for_inv_same st)].
      eapply wait_for_inv_only_at_conn; [done..|]. by apply Hc. }
    destruct routed; [done|]. by apply (wait_for_inv_same st1).
  - destruct Hexec as (-> & ->).
    by apply handle_expired_timeouts_wait_for_inv.
  - destruct Hexec as (H & ->).
    apply reply_received_msg in H
      as (Hat & _ & m0 & m' & Hm0 & Hm' & Hd & Hr).
    eapply wait_for_inv_only_at; [done..| |].
    + intros _. unfold msg_at in Hm'.
      destruct (heap st' !! arg); [by eexists|done].
    + intros rp m _ Hm. by rewrite Hm' in Hm; injection Hm as <-.
  - destruct Hexec as (Hf & f & Hn & ->).
    specialize (Hnew hash cid cl ca nf Hf). by rewrite Hn in Hnew.
  - destruct Hexec as (Hpk & r & Hg & ->).
    pose proof (async_get_call_timeout_msgs_kept _ _ _ _ _ _ Hg) as [_ Hc].
    apply async_get_call_timeout_only_at in Hg as (Hat & Hconn & _).
    eapply wait_for_inv_only_at_conn; [done..|]. by apply Hc.
  - destruct Hexec as (Hpk & H & ->).
    pose proof (connection_fibril_msgs_kept _ _ _ H) as [_ Hc].
    apply connection_fibril_only_at in H as (Hat & Hconn & _).
    eapply wait_for_inv_only_at_conn; [done..|]. by apply Hc.
  - destruct Hexec as (Hf & id & Hn & ->).
    specialize (Hsend ph mt [a1; a2; a3; a4] dp ma Hf).
    by rewrite Hn in Hsend.
  - destruct Hexec as (Hf & id & Hn & ->).
    specialize (Hsend ph mt [a1; a2; a3; a4; a5] dp ma Hf).
    by rewrite Hn in Hsend.
  - destruct Hexec as (Hpk & r & H & ->).
    apply async_wait_for_only_at in H as (Hat & Hr). destruct r.
    + eapply wait_for_inv_only_at_unparked; [done..|]. by rewrite Hr.
    + destruct Hr as (Hp & m' & Hm' & Ha).
      eapply wait_for_inv_only_at; [done..| |].
      * intros _. unfold msg_at in Hm'.
        destruct (heap st' !! amsgid); [by eexists|done].
      * intros rp' m _ Hm. rewrite Hm' in Hm. injection Hm as <-.
        by rewrite Ha.
  - destruct Hexec as (Hpk & r & H & ->).
    destruct (decide (timeout < 0)) as [Hneg|Hpos].
    { rewrite wait_timeout_negative in H by done.
      by injection H as <- <-. }
    destruct Hpk as [?|Hpk]; [done|].
    apply async_wait_timeout_only_at in H as (Hat & Hr). destruct r.
    + eapply wait_for_inv_only_at_unparked; [done..|]. by rewrite Hr.
    + destruct Hr as (Hp & Hlive).
      eapply wait_for_inv_only_at; [done..| |].
      * done.
      * intros rp' m. rewrite Hp, lookup_insert_eq. done.
  - destruct Hexec as (Hf & r & H & ->).
    destruct ma as [[p blk]|]; [|by injection H as <- <-].
    apply async_usleep_only_at in H as (Hat & Hp & Hlive).
    eapply wait_for_inv_only_at; [done..| |].
    + done.
    + intros rp' m. rewrite Hp, lookup_insert_eq. done.
  - destruct Hexec as (fr & w & Hfr & Hw & Ha & Hr).
    pose proof (wait_for_inv_unpark p st Hinv) as Hinv0.
    assert (Hp0 : parked (with_parked (delete p) st) !! p = None)
      by (st_simpl; apply lookup_delete_eq).
    unfold resume in Hr. destruct fr as [usecs|rp|rp|].
    + destruct (async_get_call_timeout_resume _ _ _) as [[st1 r]|] eqn:Hg;
        [|done].
      simpl in Hr. injection Hr as <- <-.
      pose proof (async_get_call_timeout_resume_msgs_kept _ _ _ _ _ _
                    (msgs_kept_refl _) Hg) as [_ Hc].
      apply async_get_call_timeout_resume_only_at in Hg
        as (Hat & Hconn & _).
      eapply wait_for_inv_only_at_conn; [done..|]. by apply Hc.
    + destruct (async_wait_for_resume _ _ _) as [[st1 r]|] eqn:Hg; [|done].
      simpl in Hr. injection Hr as <- <-.
      apply wait_for_done_only_at in Hg as (Hat & Hp).
      eapply wait_for_inv_only_at_unparked; [done..|]. by rewrite Hp.
    + destruct (async_wait_timeout_resume _ _ _) as [[st1 r]|] eqn:Hg;
        [|done].
      simpl in Hr. injection Hr as <- <-.
      apply async_wait_timeout_resume_only_at in Hg as (Hat & Hp).
      eapply wait_for_inv_only_at_unparked; [done..|]. by rewrite Hp.
    + simpl in Hr. injection Hr as <- <-.
      by apply (wait_for_inv_same (with_parked (delete p) st)).
Qed.

(** ** One reply per message *)

Lemma run_cons l ls st st' tr :
  run (l :: ls) st = Some (st', tr) →
  ∃ st1 o tr', exec l st = Some (st1, o) ∧ run ls st1 = Some (st', tr')
    ∧ tr = mk_event st l o st1 :: tr'.
Proof.
  simpl. destruct (exec l st) as [[st1 o]|]; [|done]. simpl.
  destruct (run ls st1) as [[st2 tr2]|] eqn:Hrun; [|done]. simpl.
  intros [= <- <-]. by exists st1, o, tr2.
Qed.

Lemma run_invs ls st st' tr :
  timeout_inv st → wait_for_inv st → run ls st = Some (st', tr) →
  timeout_inv st' ∧ wait_for_inv st'.
Proof.
  revert st tr. induction ls as [|l ls IH]; intros st tr Htl Hwf Hrun.
  - by injection Hrun as <- <-.
  - apply run_cons in Hrun as (st1 & o & tr' & Hexec & Hrun & ->).
    eapply IH; [| |done].
    + by eapply exec_timeout_inv.
    + by eapply exec_wait_for_inv.
Qed.

(** An event of a run splits it in a run up to the event, the step, and
    a run from there. *)
Lemma run_lookup ls st st' tr i ev :
  run ls st = Some (st', tr) → tr !! i = Some ev →
  exec (ev_label ev) (ev_pre ev) = Some (ev_post ev, ev_out ev)
  ∧ (∃ ls1, run ls1 st = Some (ev_pre ev, take i tr))
  ∧ (∃ ls2, run ls2 (ev_post ev) = Some (st', drop (S i) tr)).
Proof.
  revert st tr i. induction ls as [|l ls IH]; intros st tr i Hrun Hi.
  - injection Hrun as <- <-. by rewrite lookup_nil in Hi.
  - apply run_cons in Hrun as (st1 & o & tr' & Hexec & Hrun & ->).
    destruct i as [|i]; simpl in Hi.
    + injection Hi as <-. simpl. split_and!; [done|by exists []|].
      exists ls. by rewrite drop_0.
    + destruct (IH _ _ _ Hrun Hi) as (He & (ls1 & H1) & (ls2 & H2)).
      split_and!; [done| |by exists ls2].
      exists (l :: ls1). simpl. by rewrite Hexec; simpl; rewrite H1.
Qed.

Lemma async_send_created phoneid method args dptr p blk st :
  done_at (async_send phoneid method args dptr (Some (p, blk)) st).1 p
  = Some false.
Proof.
  unfold async_send, done_at. st_simpl. autorewrite with heap_read.
  by rewrite !decide_True.
Qed.

Lemma last_reply_snoc p hist ev :
  last_reply p (hist ++ [ev])
  = match reply_to p ev with
    | Some rv => Some rv
    | None => last_reply p hist
    end.
Proof.
  unfold last_reply. rewrite omap_app. simpl.
  destruct (reply_to p ev); [by rewrite last_snoc|by rewrite app_nil_r].
Qed.

(** What [async_wait_for] stores when it returns, and where it gets it
    from. *)
Lemma wait_for_returns_now p l st st1 o rp m0 :
  wait_for_inv st → exec l st = Some (st1, o) → msg_at st p = Some m0 →
  wait_for_returns p (mk_event st l o st1) = Some rp →
  done m0 = true
  ∧ o = OWaitFor (Return (if rp then Some (retval m0) else None)).
Proof.
  intros [_ HB] Hexec%exec_inv Hm. unfold wait_for_returns. simpl.
  destruct l as [cid cl ma ca nf|now|arg rv data|hash cid cl ca nf
    |c usecs now|c|ph mt a1 a2 a3 a4 dp ma|ph mt a1 a2 a3 a4 a5 dp ma
    |amsgid rp0 self|amsgid rp0 timeout now self|timeout now self ma|q];
    try done.
  - destruct Hexec as (_ & r & H & ->).
    destruct r as [x|]; try done. case_decide as Heq; [|done].
    subst amsgid. intros [= ->].
    unfold async_wait_for in H. rewrite Hm in H. simpl in H.
    destruct (done m0) eqn:Hd; [|done]. split; [done|].
    unfold wait_for_done in H. autorewrite with heap_read in H.
    rewrite Hm in H. simpl in H. by simplify_eq.
  - destruct Hexec as (fr & w & Hfr & Hw & Ha & Hr).
    destruct o as [| | |[x|]| |]; try done.
    case_decide as Heq; [|done]. subst q. rewrite Hfr.
    destruct fr as [usecs|rp0|rp0|]; try done. intros [= ->].
    rewrite (wdata_at_msg _ _ _ Hm) in Hw. injection Hw as <-.
    split; [by eapply HB|].
    unfold resume, async_wait_for_resume, wait_for_done in Hr.
    autorewrite with heap_read in Hr. rewrite Hm in Hr. simpl in Hr.
    by simplify_eq.
Qed.

Lemma amsg_run p ls st st' tr hist m0 :
  run ls st = Some (st', tr) → timeout_inv st → wait_for_inv st →
  msg_at st p = Some m0 →
  (done m0 = true →
   ∃ rv, last_reply p hist = Some rv ∧ retval m0 = int_to_ipcarg rv) →
  (∀ ev, ev ∈ tr → done_set p ev →
     ∃ rv data, ev_label ev = LReplyReceived p rv data)
  ∧ (∀ ev, ev ∈ tr → done_at (ev_pre ev) p = Some true →
       done_at (ev_post ev) p = Some true)
  ∧ (∀ ev rv, ev ∈ tr → reply_to p ev = Some rv →
       done_at (ev_post ev) p = Some true
       ∧ retval_at (ev_post ev) p = Some (int_to_ipcarg rv))
  ∧ (length (filter (done_set p) tr) ≤ 1)%nat
  ∧ (done m0 = true → length (filter (done_set p) tr) = 0%nat)
  ∧ (done m0 = false →
     (∃ ev, ev ∈ tr ∧ is_Some (reply_to p ev)) →
     length (filter (done_set p) tr) = 1%nat)
  ∧ (∀ j ev rp, tr !! j = Some ev → wait_for_returns p ev = Some rp →
       done_at (ev_pre ev) p = Some true
       ∧ ∃ rv, last_reply p (hist ++ take j tr) = Some rv
           ∧ ev_out ev
             = OWaitFor (Return (if rp then Some (int_to_ipcarg rv)
                                 else None))).
Proof.
  revert st tr hist m0.
  induction ls as [|l ls IH]; intros st tr hist m0 Hrun Htl Hwf Hm HJ.
  { injection Hrun as <- <-. split_and!; try done.
    - by intros ev ?%elem_of_nil.
    - by intros ev ?%elem_of_nil.
    - by intros ev rv ?%elem_of_nil.
    - simpl. lia.
    - by intros _ (ev & ?%elem_of_nil & _). }
  apply run_cons in Hrun as (st1 & o & tr' & Hexec & Hrun & ->).
  destruct (exec_msgs _ _ _ _ _ _ Hexec Hm) as (m1 & Hm1 & Hcase).
  pose proof (exec_timeout_inv _ _ _ _ Htl Hexec) as Htl1.
  pose proof (exec_wait_for_inv _ _ _ _ Htl Hwf Hexec) as Hwf1.
  set (e := mk_event st l o st1).
  assert (Hpre : done_at (ev_pre e) p = Some (done m0)).
  { unfold done_at. simpl. by rewrite Hm. }
  assert (Hpost : done_at (ev_post e) p = Some (done m1)).
  { unfold done_at. simpl. by rewrite Hm1. }
  assert (Hret : retval_at (ev_post e) p = Some (retval m1)).
  { unfold retval_at. simpl. by rewrite Hm1. }
  assert (HJ1 : done m1 = true →
            ∃ rv, last_reply p (hist ++ [e]) = Some rv
              ∧ retval m1 = int_to_ipcarg rv).
  { intros Hd1. rewrite last_reply_snoc. unfold reply_to. simpl.
    destruct Hcase as [(rv & data & -> & _ & Hr)|(Hl & Hd & Hr)].
    - rewrite decide_True by done. by exists rv.
    - destruct l; try (rewrite Hr; apply HJ; congruence).
      case_decide; subst; [by destruct (Hl rv data)|].
      rewrite Hr; apply HJ; congruence. }
  destruct (IH _ _ (hist ++ [e]) m1 Hrun Htl1 Hwf1 Hm1 HJ1)
    as (I1 & I2 & I3 & I4 & I5 & I6 & I7).
  assert (Hreply_e : ∀ rv, reply_to p e = Some rv →
            done m1 = true ∧ retval m1 = int_to_ipcarg rv).
  { intros rv. unfold reply_to. simpl.
    destruct l; try done. case_decide; [|done]. subst. intros [= ->].
    destruct Hcase as [(rv' & data' & [= <- <-] & ? & ?)|(Hl & _)]; [done|].
    by destruct (Hl rv data). }
  assert (Hset_e : done_set p e →
            ∃ rv data, l = LReplyReceived p rv data).
  { intros [Hf Ht]. rewrite Hpre in Hf. rewrite Hpost in Ht.
    destruct Hcase as [(rv & data & -> & _)|(_ & Hd & _)]; [by eauto|].
    congruence. }
  assert (Hnoset : done m0 = true → ¬ done_set p e).
  { intros Hd [Hf _]. rewrite Hpre in Hf. congruence. }
  assert (Hkeep : done m0 = true → done m1 = true).
  { intros Hd. destruct Hcase as [(? & ? & _ & ? & _)|(_ & ? & _)];
      congruence. }
  split_and!.
  - intros ev [->|Hev]%elem_of_cons; [|by apply I1]. exact Hset_e.
  - intros ev [->|Hev]%elem_of_cons; [|by apply I2].
    rewrite Hpre, Hpost. intros [= Hd]. by rewrite Hkeep.
  - intros ev rv [->|Hev]%elem_of_cons; [|by apply I3].
    intros [Hd Hr]%Hreply_e. rewrite Hpost, Hret. by rewrite Hd, Hr.
  - rewrite filter_cons. destruct (decide (done_set p e)) as [Hs|Hs];
      [|done].
    simpl. rewrite I5; [lia|]. destruct Hs as [_ Ht].
    rewrite Hpost in Ht. congruence.
  - intros Hd. rewrite filter_cons, decide_False by (by apply Hnoset).
    by apply I5, Hkeep.
  - intros Hd (ev & [->|Hev]%elem_of_cons & Hrep).
    + destruct Hrep as [rv [Hd1 _]%Hreply_e].
      rewrite filter_cons, decide_True.
      2: { split; [by rewrite Hpre, Hd|by rewrite Hpost, Hd1]. }
      simpl. by rewrite I5.
    + rewrite filter_cons. destruct (decide (done_set p e)) as [Hs|Hs].
      * simpl. rewrite I5; [done|]. destruct Hs as [_ Ht].
        rewrite Hpost in Ht. congruence.
      * apply I6; [|by eauto].
        destruct (done m1) eqn:Hd1; [|done]. destruct Hs.
        split; [by rewrite Hpre, Hd|by rewrite Hpost].
  - intros [|j] ev rp Hj Hst; simpl in Hj.
    + injection Hj as <-.
      destruct (wait_for_returns_now _ _ _ _ _ _ _ Hwf Hexec Hm Hst)
        as [Hd ->].
      split; [by rewrite Hpre, Hd|]. simpl. rewrite app_nil_r.
      destruct (HJ Hd) as (rv & Hl & ->). by exists rv.
    + destruct (I7 j ev rp Hj Hst) as [Hd Hl]. split; [done|].
      by rewrite <-app_assoc in Hl.
Qed.

(** C2. Take a message created by [async_send_fast] or
    [async_send_slow].  It starts with [done] unset.  From then on
    [done] is never reset, a step that sets it is a call of
    [reply_received] for the message, and every such call leaves [done]
    set and its status, converted to [ipcarg_t], in [retval]; so [done]
    goes from false to true at most once, and exactly once when the
    reply comes.  Whenever [async_wait_for] returns for the message, on
    entry or after having been parked, [done] is set, there has been a
    reply, and what the call stores in [*retval] is the status of the
    latest [reply_received] for the message, converted to [ipcarg_t];
    with [retval] being [NULL] it stores nothing. *)
Theorem amsg_done_once ls st tr i ev p :
  run ls init_state = Some (st, tr) → tr !! i = Some ev →
  created_by_send p ev →
  done_at (ev_post ev) p = Some false
  ∧ (∀ ev', ev' ∈ drop (S i) tr → done_set p ev' →
       ∃ rv data, ev_label ev' = LReplyReceived p rv data)
  ∧ (∀ ev', ev' ∈ drop (S i) tr → done_at (ev_pre ev') p = Some true →
       done_at (ev_post ev') p = Some true)
  ∧ (∀ ev' rv, ev' ∈ drop (S i) tr → reply_to p ev' = Some rv →
       done_at (ev_post ev') p = Some true
       ∧ retval_at (ev_post ev') p = Some (int_to_ipcarg rv))
  ∧ (length (filter (done_set p) (drop (S i) tr)) ≤ 1)%nat
  ∧ ((∃ ev', ev' ∈ drop (S i) tr ∧ is_Some (reply_to p ev')) →
     length (filter (done_set p) (drop (S i) tr)) = 1%nat)
  ∧ (∀ j ev' rp, drop (S i) tr !! j = Some ev' →
       wait_for_returns p ev' = Some rp →
       done_at (ev_pre ev') p = Some true
       ∧ ∃ rv, last_reply p (take j (drop (S i) tr)) = Some rv
           ∧ ev_out ev'
             = OWaitFor (Return (if rp then Some (int_to_ipcarg rv)
                                 else None))).
Proof.
  intros Hrun Hi Hsend.
  destruct (run_lookup _ _ _ _ _ _ Hrun Hi)
    as (Hexec & (ls1 & Hrun1) & (ls2 & Hrun2)).
  destruct (run_invs _ _ _ _ timeout_inv_init wait_for_inv_init Hrun1)
    as [Htl Hwf].
  pose proof (exec_timeout_inv _ _ _ _ Htl Hexec) as Htl1.
  pose proof (exec_wait_for_inv _ _ _ _ Htl Hwf Hexec) as Hwf1.
  assert (Hnew : done_at (ev_post ev) p = Some false).
  { apply exec_inv in Hexec. unfold created_by_send in Hsend.
    destruct (ev_label ev) as [| | | | | |ph mt a1 a2 a3 a4 dp [[q blk]|]
      |ph mt a1 a2 a3 a4 a5 dp [[q blk]|]| | | |]; try done; subst q.
    - destruct Hexec as (_ & id & Hs & _).
      pose proof (async_send_created ph mt [a1; a2; a3; a4] dp p blk
                    (ev_pre ev)) as Hd.
      by rewrite Hs in Hd.
    - destruct Hexec as (_ & id & Hs & _).
      pose proof (async_send_created ph mt [a1; a2; a3; a4; a5] dp p blk
                    (ev_pre ev)) as Hd.
      by rewrite Hs in Hd. }
  unfold done_at in Hnew.
  destruct (msg_at (ev_post ev) p) as [m0|] eqn:Hm0; [|done].
  injection Hnew as Hd0.
  destruct (amsg_run p ls2 (ev_post ev) st (drop (S i) tr) [] m0 Hrun2
              Htl1 Hwf1 Hm0) as (I1 & I2 & I3 & I4 & _ & I6 & I7).
  { by rewrite Hd0. }
  split_and!; try done.
  - unfold done_at. rewrite Hm0. simpl. by rewrite Hd0.
  - by apply I6.
Qed.

(** * Further properties *)

(** ** The sweep of the timeout list *)

Lemma filter_ext_in {A} (P Q : A → Prop) `{∀ x, Decision (P x)}
    `{∀ x, Decision (Q x)} (l : list A) :
  (∀ x, x ∈ l → P x ↔ Q x) → filter P l = filter Q l.
Proof.
  induction l as [|x l IH]; intros HPQ; [done|].
  rewrite !filter_cons.
  rewrite IH by (intros y Hy; apply HPQ; by right).
  destruct (decide (P x)) as [HP|HP], (decide (Q x)) as [HQ|HQ];
    try done; exfalso; apply (HPQ x) in HP || apply (HPQ x) in HQ;
    try done; by left.
Qed.

Lemma filter_all {A} (P : A → Prop) `{∀ x, Decision (P x)} (l : list A) :
  (∀ x, x ∈ l → P x) → filter P l = l.
Proof.
  induction l as [|x l IH]; intros HP; [done|].
  rewrite filter_cons_True by (apply HP; by left).
  f_equal. apply IH. intros y Hy. apply HP. by right.
Qed.

Lemma filter_none {A} (P : A → Prop) `{∀ x, Decision (P x)} (l : list A) :
  (∀ x, x ∈ l → ¬ P x) → filter P l = [].
Proof.
  induction l as [|x l IH]; intros HP; [done|].
  rewrite filter_cons_False by (apply HP; by left).
  apply IH. intros y Hy. apply HP. by right.
Qed.

Lemma list_remove_head p l : p ∉ l → list_remove p (p :: l) = l.
Proof.
  intros Hp. unfold list_remove. rewrite filter_cons_False by naive_solver.
  apply filter_all. intros x Hx ->. done.
Qed.

Lemma expire_walk_spec tv l st :
  timeout_list st = l → NoDup l →
  StronglySorted (λ p q, expires_at st p <= expires_at st q) l →
  (∀ p, p ∈ l → ∃ w, wdata_at st p = Some w ∧ active w = false) →
  timeout_list (expire_walk tv l st)
    = filter (λ p, tv < expires_at st p) l
  ∧ effects (expire_walk tv l st)
    = effects st ++ map (λ p, FibrilAddReady (fid_at st p))
                      (filter (λ p, expires_at st p <= tv) l)
  ∧ (∀ p, p ∈ l → expires_at st p <= tv →
       heap (expire_walk tv l st) !! p
       = obj_with_wdata woken <$> heap st !! p)
  ∧ (∀ p, p ∉ l ∨ tv < expires_at st p →
       heap (expire_walk tv l st) !! p = heap st !! p)
  ∧ parked (expire_walk tv l st) = parked st
  ∧ conn_hash_table (expire_walk tv l st) = conn_hash_table st
  ∧ call_store (expire_walk tv l st) = call_store st.
Proof.
  revert st. induction l as [|cur next IH]; intros st Htl Hnd Hs Hlive.
  { simpl. rewrite app_nil_r. split_and!; try done.
    intros p Hp. by apply elem_of_nil in Hp. }
  apply NoDup_cons in Hnd as [Hcur Hnd].
  apply StronglySorted_inv in Hs as [Hs Hle].
  rewrite Forall_forall in Hle.
  destruct (Hlive cur) as (waiter & Hw & Hact); [by left|].
  assert (He : expires_at st cur = expires (to_event waiter)).
  { unfold expires_at. by rewrite Hw. }
  simpl. rewrite Hw. unfold tv_gt.
  destruct (bool_decide (expires (to_event waiter) > tv)) eqn:Hgt.
  - apply bool_decide_eq_true in Hgt.
    assert (Hall : ∀ q, q ∈ cur :: next → tv < expires_at st q).
    { intros q [->|Hq]%elem_of_cons; [lia|]. specialize (Hle q Hq). lia. }
    split_and!; try done.
    + rewrite Htl. symmetry. by apply filter_all.
    + rewrite filter_none; [by rewrite app_nil_r|].
      intros q Hq. specialize (Hall q Hq). lia.
    + intros p Hp Hexp. specialize (Hall p Hp). lia.
  - apply bool_decide_eq_false in Hgt. rewrite Hact.
    set (st1 := emit (FibrilAddReady (fid waiter))
                  (upd_wdata cur (set_active true)
                     (upd_wdata cur (set_occurred true)
                        (upd_wdata cur (set_inlist false)
                           (set_timeout_list
                              (list_remove cur (timeout_list st)) st))))).
    assert (Hh1 : ∀ q, q ≠ cur → heap st1 !! q = heap st !! q).
    { intros q Hq. subst st1. st_simpl. by rewrite !lookup_alter_ne. }
    assert (Hhc : heap st1 !! cur = obj_with_wdata woken <$> heap st !! cur).
    { subst st1. st_simpl. rewrite !lookup_alter_eq.
      destruct (heap st !! cur) as [[c|m]|]; done. }
    assert (He1 : ∀ q, q ≠ cur → expires_at st1 q = expires_at st q).
    { intros q Hq. unfold expires_at, wdata_at. by rewrite Hh1. }
    destruct (IH st1) as (IH1 & IH2 & IH3 & IH4 & IH5 & IH6 & IH7).
    { subst st1. st_simpl. rewrite Htl. by apply list_remove_head. }
    { done. }
    { eapply StronglySorted_ext_in; [|exact Hs].
      intros x y Hx Hy. simpl.
      rewrite !He1 by (intros ->; done). done. }
    { intros p Hp. unfold wdata_at. rewrite Hh1 by (intros ->; done).
      apply Hlive. by right. }
    rewrite filter_cons_False by lia.
    rewrite filter_cons_True by lia.
    split_and!.
    + rewrite IH1. apply filter_ext_in. intros q Hq.
      rewrite He1 by (intros ->; done). done.
    + rewrite IH2. subst st1. st_simpl. rewrite <-app_assoc. simpl.
      do 2 f_equal.
      * unfold fid_at. by rewrite Hw.
      * erewrite (filter_ext_in _ (λ p, expires_at st p <= tv)).
        2:{ intros q Hq. rewrite He1 by (intros ->; done). done. }
        apply map_ext_in. intros q Hq%list_elem_of_In.
        apply list_elem_of_filter in Hq as [_ Hq].
        unfold fid_at, wdata_at. rewrite Hh1 by (intros ->; done). done.
    + intros p [->|Hp]%elem_of_cons Hexp.
      * rewrite IH4 by (by left). done.
      * assert (p ≠ cur) by (intros ->; done).
        rewrite IH3, Hh1; [done..|]. by rewrite He1.
    + intros p Hp. destruct (decide (p = cur)) as [->|Hne].
      { destruct Hp as [Hp|Hp]; [|lia]. exfalso. apply Hp. by left. }
      rewrite IH4, Hh1; [done..|].
      rewrite He1 by done. destruct Hp as [Hp|Hp]; [|by right].
      left. intros Hin. apply Hp. by right.
    + by rewrite IH5.
    + by rewrite IH6.
    + by rewrite IH7.
Qed.

Lemma handle_expired_timeouts_spec tv st :
  timeout_inv st →
  timeout_list (handle_expired_timeouts tv st)
    = filter (λ p, tv < expires_at st p) (timeout_list st)
  ∧ new_effects st (handle_expired_timeouts tv st)
    = FutexDown
      :: map (λ p, FibrilAddReady (fid_at st p))
           (filter (λ p, expires_at st p <= tv) (timeout_list st))
      ++ [FutexUp]
  ∧ (∀ p, p ∈ timeout_list st → expires_at st p <= tv →
       heap (handle_expired_timeouts tv st) !! p
       = obj_with_wdata woken <$> heap st !! p)
  ∧ (∀ p, p ∉ timeout_list st ∨ tv < expires_at st p →
       heap (handle_expired_timeouts tv st) !! p = heap st !! p)
  ∧ parked (handle_expired_timeouts tv st) = parked st
  ∧ conn_hash_table (handle_expired_timeouts tv st) = conn_hash_table st
  ∧ call_store (handle_expired_timeouts tv st) = call_store st.
Proof.
  intros [Hnd Hs Hl]. unfold handle_expired_timeouts.
  destruct (expire_walk_spec tv (timeout_list st) (emit FutexDown st))
    as (H1 & H2 & H3 & H4 & H5 & H6 & H7); [done..| |].
  { intros p Hp. destruct (Hl p Hp) as (w & fr & Hw & Ha & _). eauto. }
  st_simpl. split_and!; try done.
  apply new_effects_app. st_simpl. rewrite H2. st_simpl.
  by rewrite <-!app_assoc.
Qed.

(** X1. Under the invariant of the timeout list the sweep takes off the
    list exactly the awaiters whose time has come and leaves the others
    in place; each awaiter it takes off is marked as timed out, made
    active and handed to [fibril_add_ready] once, in list order; no other
    record changes. *)
Theorem handle_expired_timeouts_sweep tv st :
  timeout_inv st →
  timeout_list (handle_expired_timeouts tv st)
    = filter (λ p, tv < expires_at st p) (timeout_list st)
  ∧ new_effects st (handle_expired_timeouts tv st)
    = FutexDown
      :: map (λ p, FibrilAddReady (fid_at st p))
           (filter (λ p, expires_at st p <= tv) (timeout_list st))
      ++ [FutexUp]
  ∧ (∀ p, p ∈ timeout_list st → expires_at st p <= tv →
       heap (handle_expired_timeouts tv st) !! p
       = obj_with_wdata woken <$> heap st !! p)
  ∧ (∀ p, p ∉ timeout_list st ∨ tv < expires_at st p →
       heap (handle_expired_timeouts tv st) !! p = heap st !! p).
Proof.
  intros Hinv.
  destruct (handle_expired_timeouts_spec tv st Hinv)
    as (H1 & H2 & H3 & H4 & _).
  done.
Qed.

(** ** The dispatcher *)

Lemma expires_sorted_head st p l q :
  expires_sorted st → timeout_list st = p :: l → q ∈ timeout_list st →
  expires_at st p <= expires_at st q.
Proof.
  unfold expires_sorted. intros Hs Htl Hq. rewrite Htl in Hs, Hq.
  apply StronglySorted_inv in Hs as [_ Hle]. rewrite Forall_forall in Hle.
  apply elem_of_cons in Hq as [->|Hq]; [lia|by apply Hle].
Qed.

(** X2. When no awaiter in the timeout list has expired, a turn of the
    dispatcher changes nothing and goes to wait for the kernel: without
    limit if the list is empty, and otherwise for exactly the time left
    until the earliest deadline in the list, which is positive. *)
Theorem async_manager_worker_turn_wait now now' threads st :
  timeout_inv st →
  (∀ p, p ∈ timeout_list st → now < expires_at st p) →
  ∃ t, async_manager_worker_turn now now' threads st
       = Some (emit FutexUp (emit FutexDown st), threads + 1, MWait t)
    ∧ (timeout_list st = [] → t = SYNCH_NO_TIMEOUT)
    ∧ (timeout_list st ≠ [] →
       0 < t
       ∧ (∀ p, p ∈ timeout_list st → now + t <= expires_at st p)
       ∧ ∃ p, p ∈ timeout_list st ∧ expires_at st p = now + t).
Proof.
  intros [Hnd Hs Hl] Hnew. unfold async_manager_worker_turn. st_simpl.
  destruct (timeout_list st) as [|p l] eqn:Htl.
  { eexists. split_and!; [done..|]. by intros []. }
  destruct (Hl p) as (w & fr & Hw & _); [rewrite Htl; by left|].
  change (wdata_at (emit FutexDown st) p) with (wdata_at st p).
  rewrite Hw. simpl.
  assert (He : expires_at st p = expires (to_event w)).
  { unfold expires_at. by rewrite Hw. }
  assert (Hp : now < expires_at st p) by (apply Hnew; by left).
  unfold tv_gteq. rewrite bool_decide_eq_false_2 by lia.
  eexists. split_and!; [done..|]. intros _. unfold tv_sub.
  split_and!; [lia| |].
  - intros q Hq. rewrite <-Htl in Hq.
    pose proof (expires_sorted_head st p l q Hs Htl Hq). lia.
  - exists p. split; [by left|lia].
Qed.

Lemma new_effects_trans st st1 st2 :
  (∃ es, effects st1 = effects st ++ es) →
  (∃ es, effects st2 = effects st1 ++ es) →
  new_effects st st2 = new_effects st st1 ++ new_effects st1 st2.
Proof.
  intros [es1 H1] [es2 H2].
  rewrite (new_effects_app st st1 es1), (new_effects_app st1 st2 es2) by done.
  apply new_effects_app. by rewrite H2, H1, app_assoc.
Qed.

(** X3. An awaiter in the timeout list whose deadline has passed is woken
    by the very next turn of the dispatcher, wherever it stands in the
    list: the turn does not wait for the kernel, takes the awaiter off
    the list, marks it as timed out and hands its fibril to
    [fibril_add_ready]. *)
Theorem async_manager_worker_turn_sweep now now' threads st p :
  timeout_inv st →
  p ∈ timeout_list st → expires_at st p <= now → now <= now' →
  ∃ st', async_manager_worker_turn now now' threads st
         = Some (st', threads, MContinue)
    ∧ (p ∉ timeout_list st')
    ∧ timeout_list st'
      = filter (λ q, now' < expires_at st q) (timeout_list st)
    ∧ FibrilAddReady (fid_at st p) ∈ new_effects st st'
    ∧ heap st' !! p = obj_with_wdata woken <$> heap st !! p.
Proof.
  intros Hinv Hp He Hnow. pose proof Hinv as [Hnd Hs Hl].
  unfold async_manager_worker_turn. st_simpl.
  destruct (timeout_list st) as [|h l] eqn:Htl;
    [by apply elem_of_nil in Hp|].
  destruct (Hl h) as (w & fr & Hw & _); [rewrite Htl; by left|].
  change (wdata_at (emit FutexDown st) h) with (wdata_at st h).
  rewrite Hw. simpl.
  assert (Hh : expires_at st h = expires (to_event w)).
  { unfold expires_at. by rewrite Hw. }
  assert (Hle : expires_at st h <= expires_at st p).
  { eapply expires_sorted_head; [done..|]. by rewrite Htl. }
  unfold tv_gteq. rewrite bool_decide_eq_true_2 by lia.
  eexists. split; [done|].
  set (st1 := emit FutexUp (emit FutexDown st)).
  assert (Hinv1 : timeout_inv st1) by (by do 2 apply timeout_inv_emit).
  destruct (handle_expired_timeouts_spec now' st1 Hinv1)
    as (H1 & H2 & H3 & H4 & _).
  assert (Hp1 : p ∈ timeout_list st1) by (subst st1; st_simpl; by rewrite Htl).
  assert (He1 : ∀ q, expires_at st1 q = expires_at st q) by done.
  split_and!.
  - rewrite H1, list_elem_of_filter, He1. lia.
  - rewrite H1. subst st1. st_simpl. by rewrite Htl.
  - rewrite (new_effects_trans st st1).
    2:{ exists [FutexDown; FutexUp]. subst st1. st_simpl.
        by rewrite <-app_assoc. }
    2:{ unfold handle_expired_timeouts.
        destruct (expire_walk_spec now' (timeout_list st1)
                    (emit FutexDown st1)) as (_ & E & _).
        - done.
        - by destruct Hinv1.
        - by destruct Hinv1.
        - intros q Hq. destruct Hinv1 as [_ _ Hl1].
          destruct (Hl1 q Hq) as (w1 & fr1 & ? & ? & _). eauto.
        - st_simpl. rewrite E. st_simpl. rewrite <-!app_assoc.
          by eexists. }
    rewrite H2. apply elem_of_app. right. right. apply elem_of_app. left.
    apply (list_elem_of_fmap_2 (λ q, FibrilAddReady (fid_at st1 q))).
    rewrite list_elem_of_filter, He1. split; [lia|done].
  - rewrite H3; [done..|]. rewrite He1. lia.
Qed.

(** ** The futex discipline *)

Lemma futex_after_app h es1 es2 :
  futex_after h (es1 ++ es2) = h1 ← futex_after h es1; futex_after h1 es2.
Proof.
  revert h. induction es1 as [|e es1 IH]; intros h; [done|].
  destruct e, h; simpl; try done; apply IH.
Qed.

Lemma futex_step_refl h st : futex_step h h st st.
Proof. exists []. by rewrite app_nil_r. Qed.

Lemma futex_step_trans h1 h2 h3 st1 st2 st3 :
  futex_step h1 h2 st1 st2 → futex_step h2 h3 st2 st3 →
  futex_step h1 h3 st1 st3.
Proof.
  intros (es1 & E1 & F1) (es2 & E2 & F2). exists (es1 ++ es2).
  split; [by rewrite E2, E1, app_assoc|].
  by rewrite futex_after_app, F1.
Qed.

Lemma futex_step_emit h h1 h2 st st' e :
  futex_step h h1 st st' → futex_after h1 [e] = Some h2 →
  futex_step h h2 st (emit e st').
Proof.
  intros H1 H2. eapply futex_step_trans; [done|].
  exists [e]. done.
Qed.

Lemma futex_step_set_timeout_list h h' st st' l :
  futex_step h h' st st' → futex_step h h' st (set_timeout_list l st').
Proof. done. Qed.

Lemma futex_step_set_conn_hash_table h h' st st' l :
  futex_step h h' st st' → futex_step h h' st (set_conn_hash_table l st').
Proof. done. Qed.

Lemma futex_step_with_call_store h h' st st' f :
  futex_step h h' st st' → futex_step h h' st (with_call_store f st').
Proof. done. Qed.

Lemma futex_step_with_parked h h' st st' f :
  futex_step h h' st st' → futex_step h h' st (with_parked f st').
Proof. done. Qed.

Lemma futex_step_with_heap h h' st st' f :
  futex_step h h' st st' → futex_step h h' st (with_heap f st').
Proof. done. Qed.

Lemma futex_step_with_freed h h' st st' f :
  futex_step h h' st st' → futex_step h h' st (with_freed f st').
Proof. done. Qed.

Lemma futex_step_free h h' st st' p :
  futex_step h h' st st' → futex_step h h' st (free p st').
Proof.
  intros H. unfold free. eapply futex_step_emit; [|reflexivity].
  by apply futex_step_with_freed.
Qed.

Lemma futex_step_upd_wdata h h' st st' p f :
  futex_step h h' st st' → futex_step h h' st (upd_wdata p f st').
Proof. done. Qed.

Lemma futex_step_upd_conn h h' st st' p f :
  futex_step h h' st st' → futex_step h h' st (upd_conn p f st').
Proof. done. Qed.

Lemma futex_step_upd_msg h h' st st' p f :
  futex_step h h' st st' → futex_step h h' st (upd_msg p f st').
Proof. done. Qed.

Lemma futex_step_alloc h h' st st' p o :
  futex_step h h' st st' → futex_step h h' st (alloc p o st').
Proof. done. Qed.

Lemma futex_step_park h st st' p fr :
  futex_step h true st st' → futex_step h false st (park p fr st').
Proof.
  intros H. unfold park.
  eapply (futex_step_emit _ true); [|reflexivity].
  apply futex_step_with_parked.
  eapply futex_step_emit; [done|reflexivity].
Qed.

Ltac solve_futex :=
  first
    [ eassumption | apply futex_step_refl
    | apply futex_step_park; solve_futex
    | apply futex_step_set_timeout_list; solve_futex
    | apply futex_step_set_conn_hash_table; solve_futex
    | apply futex_step_with_call_store; solve_futex
    | apply futex_step_with_parked; solve_futex
    | apply futex_step_upd_wdata; solve_futex
    | apply futex_step_upd_conn; solve_futex
    | apply futex_step_upd_msg; solve_futex
    | apply futex_step_alloc; solve_futex
    | apply futex_step_free; solve_futex
    | apply futex_step_with_freed; solve_futex
    | eapply futex_step_emit; [solve_futex|reflexivity]
    | match goal with
      | |- futex_step _ _ _ (if ?b then _ else _) => destruct b; solve_futex
      | |- futex_step _ _ _ (match ?d with Some _ => _ | None => _ end) =>
          destruct d; solve_futex
      end ].

Lemma async_insert_timeout_futex h h' wd st0 st st' :
  futex_step h h' st0 st → async_insert_timeout wd st = Some st' →
  futex_step h h' st0 st'.
Proof.
  intros H0 (w & _ & ->)%async_insert_timeout_Some. solve_futex.
Qed.

Lemma expire_walk_futex h tv l st0 st :
  futex_step h true st0 st → futex_step h true st0 (expire_walk tv l st).
Proof.
  revert st. induction l as [|cur next IH]; intros st H0; simpl; [done|].
  destruct (wdata_at st cur) as [waiter|]; [|done].
  destruct (tv_gt _ _); [done|]. apply IH.
  destruct (active waiter); solve_futex.
Qed.

Lemma handle_expired_timeouts_futex tv st :
  futex_step false false st (handle_expired_timeouts tv st).
Proof.
  unfold handle_expired_timeouts.
  eapply (futex_step_emit _ true); [|reflexivity].
  apply expire_walk_futex. solve_futex.
Qed.

Lemma route_call_futex callid call msg_alloc st :
  futex_step false false st (route_call callid call msg_alloc st).1.
Proof.
  unfold route_call.
  destruct (hash_table_find _ _) as [hlp|]; [|simpl; solve_futex].
  destruct (conn_at _ hlp) as [c|]; [|simpl; solve_futex].
  destruct msg_alloc; simpl; [|solve_futex].
  eapply (futex_step_emit _ true); [|reflexivity].
  destruct (active (conn_wdata c)).
  - destruct (decide _); solve_futex.
  - eapply (futex_step_emit _ true); [|reflexivity].
    apply futex_step_upd_wdata.
    destruct (inlist _); destruct (decide _); solve_futex.
Qed.

Lemma process_notification_futex callid call msg_alloc new_fid st :
  futex_step false false st
    (process_notification callid call msg_alloc new_fid st).1.
Proof. unfold process_notification. destruct msg_alloc; simpl; solve_futex. Qed.

Lemma async_new_connection_futex hash callid call conn_alloc new_fid st :
  futex_step false false st
    (async_new_connection hash callid call conn_alloc new_fid st).1.
Proof.
  unfold async_new_connection. destruct conn_alloc as [[p blk]|]; simpl.
  - destruct (decide (new_fid = 0)); simpl.
    + destruct (decide _); solve_futex.
    + unfold hash_table_insert. solve_futex.
  - destruct (decide _); solve_futex.
Qed.

Lemma handle_call_futex callid call msg_alloc conn_alloc new_fid st :
  futex_step false false st
    (handle_call callid call msg_alloc conn_alloc new_fid st).
Proof.
  unfold handle_call.
  destruct (decide _); [apply process_notification_futex|].
  destruct (decide _); [apply async_new_connection_futex|].
  pose proof (route_call_futex callid call msg_alloc st) as Hr.
  destruct (route_call _ _ _ _) as [st' []]; simpl in *; solve_futex.
Qed.

Lemma reply_received_futex arg rv data st st' :
  reply_received arg rv data st = Some st' → futex_step false false st st'.
Proof.
  unfold reply_received. destruct (msg_at st arg) as [msg|]; [|done].
  simpl. intros [= <-].
  eapply (futex_step_emit _ true); [|reflexivity].
  assert (H1 : futex_step false true st
                 (upd_msg arg (set_retval rv) (emit FutexDown st)))
    by solve_futex.
  destruct (active (msg_wdata msg)), (inlist (to_event (msg_wdata msg))),
    data as [d|]; try destruct (decide (dataptr msg ≠ 0)); solve_futex.
Qed.

Lemma get_call_loop_futex conn usecs st0 st st' r :
  futex_step false true st0 st →
  get_call_loop conn usecs st = Some (st', r) →
  futex_step false false st0 st'.
Proof.
  intros H0. unfold get_call_loop.
  destruct (conn_at st conn) as [c|]; [|done]. simpl.
  destruct (msg_queue c) as [|msg rest].
  - destruct (decide (close_callid c ≠ 0)).
    { intros [= <- _]. solve_futex. }
    destruct (decide (usecs ≠ 0)); simpl.
    + destruct (async_insert_timeout conn st) as [st1|] eqn:Hins; [|done].
      simpl. intros [= <- _].
      apply futex_step_park, futex_step_upd_wdata.
      by eapply async_insert_timeout_futex.
    + intros [= <- _]. solve_futex.
  - intros [= <- _]. solve_futex.
Qed.

Lemma async_get_call_timeout_futex conn usecs now st st' r :
  async_get_call_timeout conn usecs now st = Some (st', r) →
  futex_step false false st st'.
Proof.
  unfold async_get_call_timeout.
  destruct (conn_at st conn) as [c|]; [|done]. simpl.
  apply get_call_loop_futex. destruct (decide _); solve_futex.
Qed.

Lemma async_get_call_timeout_resume_futex conn usecs st st' r :
  async_get_call_timeout_resume conn usecs st = Some (st', r) →
  futex_step false false st st'.
Proof.
  unfold async_get_call_timeout_resume.
  destruct (conn_at st conn) as [c|]; [|done]. simpl.
  destruct (_ && _).
  - intros [= <- _]. solve_futex.
  - apply get_call_loop_futex. solve_futex.
Qed.

Lemma drain_msg_queue_futex conn q st0 st :
  futex_step false false st0 st →
  futex_step false false st0 (drain_msg_queue conn q st).
Proof.
  revert st. induction q as [|msg rest IH]; intros st H0; simpl; [done|].
  apply IH. solve_futex.
Qed.

Lemma connection_fibril_futex conn st st' :
  connection_fibril conn st = Some st' → futex_step false false st st'.
Proof.
  intros H. apply connection_fibril_Some in H as (c & _ & _ & _ & H).
  revert H. simpl.
  assert (H1 : futex_step false false st
            (emit FutexUp
               (hash_table_remove (conn_in_phone_hash c)
                  (emit FutexDown st)))).
  { unfold hash_table_remove, conn_remove.
    destruct (hash_table_find _ _); solve_futex. }
  destruct (decide _); intros [= <-].
  - eapply (futex_step_emit _ false); [|reflexivity].
    by apply drain_msg_queue_futex.
  - by apply drain_msg_queue_futex.
Qed.

Lemma async_send_futex phoneid method args dptr msg_alloc st :
  futex_step false false st
    (async_send phoneid method args dptr msg_alloc st).1.
Proof. unfold async_send. destruct msg_alloc as [[p blk]|]; simpl; solve_futex. Qed.

Lemma async_wait_for_futex amsgid retval_ptr self st st' r :
  async_wait_for amsgid retval_ptr self st = Some (st', r) →
  futex_step false false st st'.
Proof.
  unfold async_wait_for, wait_for_done.
  destruct (msg_at st amsgid) as [msg|] eqn:Hmsg; [|done]. simpl.
  destruct (done msg).
  - change (msg_at (emit ?e ?s) amsgid) with (msg_at s amsgid).
    change (msg_at (emit ?e ?s) amsgid) with (msg_at s amsgid).
    rewrite Hmsg. simpl. intros [= <- _]. solve_futex.
  - intros [= <- _]. solve_futex.
Qed.

Lemma async_wait_timeout_futex amsgid retval_ptr timeout now self st st' r :
  async_wait_timeout amsgid retval_ptr timeout now self st = Some (st', r) →
  futex_step false false st st'.
Proof.
  unfold async_wait_timeout, wait_timeout_done.
  destruct (decide (timeout < 0)). { intros [= <- _]. solve_futex. }
  destruct (msg_at st amsgid) as [msg|] eqn:Hmsg; [|done]. simpl.
  destruct (done msg).
  - change (msg_at (emit ?e ?s) amsgid) with (msg_at s amsgid).
    change (msg_at (emit ?e ?s) amsgid) with (msg_at s amsgid).
    rewrite Hmsg. simpl. intros [= <- _]. solve_futex.
  - destruct (async_insert_timeout _ _) as [st1|] eqn:Hins; [|done]. simpl.
    intros [= <- _]. apply futex_step_park.
    eapply async_insert_timeout_futex; [|done]. solve_futex.
Qed.

Lemma async_usleep_futex timeout now self msg_alloc st st' r :
  async_usleep timeout now self msg_alloc st = Some (st', r) →
  futex_step false false st st'.
Proof.
  unfold async_usleep. destruct msg_alloc as [[p blk]|].
  - destruct (async_insert_timeout _ _) as [st1|] eqn:Hins; [|done]. simpl.
    intros [= <- _]. apply futex_step_park.
    eapply async_insert_timeout_futex; [|done]. solve_futex.
  - intros [= <- _]. solve_futex.
Qed.

Lemma resume_futex p fr st st' o :
  resume p fr st = Some (st', o) → futex_step false false st st'.
Proof.
  destruct fr as [usecs|rp|rp|]; simpl.
  - destruct (async_get_call_timeout_resume _ _ _) as [[st1 r]|] eqn:H;
      [|done].
    simpl. intros [= <- _]. by eapply async_get_call_timeout_resume_futex.
  - unfold async_wait_for_resume, wait_for_done.
    destruct (msg_at st p); [|done]. simpl. intros [= <- _]. solve_futex.
  - unfold async_wait_timeout_resume, wait_timeout_done.
    destruct (msg_at st p) as [m|]; [|done]. simpl.
    destruct (done m); simpl; intros [= <- _]; solve_futex.
  - unfold async_usleep_resume. simpl. intros [= <- _]. solve_futex.
Qed.

Lemma exec_futex l st st' o :
  exec l st = Some (st', o) → futex_step false false st st'.
Proof.
  intros H%exec_inv.
  destruct l as [callid call ma ca nf|now|arg rv data|hash callid call ca nf
                |conn usecs now|conn|ph m a1 a2 a3 a4 dp ma
                |ph m a1 a2 a3 a4 a5 dp ma|amsgid rp self
                |amsgid rp timeout now self|timeout now self ma|p].
  - destruct H as (_ & -> & _). apply handle_call_futex.
  - destruct H as [-> _]. apply handle_expired_timeouts_futex.
  - destruct H as [H _]. by eapply reply_received_futex.
  - destruct H as (_ & f & H & _).
    pose proof (async_new_connection_futex hash callid call ca nf st) as Hf.
    by rewrite H in Hf.
  - destruct H as (_ & r & H & _). by eapply async_get_call_timeout_futex.
  - destruct H as (_ & H & _). by eapply connection_fibril_futex.
  - destruct H as (_ & id & H & _).
    pose proof (async_send_futex ph m [a1; a2; a3; a4] dp ma st) as Hf.
    by rewrite H in Hf.
  - destruct H as (_ & id & H & _).
    pose proof (async_send_futex ph m [a1; a2; a3; a4; a5] dp ma st) as Hf.
    by rewrite H in Hf.
  - destruct H as (_ & r & H & _). by eapply async_wait_for_futex.
  - destruct H as (_ & r & H & _). by eapply async_wait_timeout_futex.
  - destruct H as (_ & r & H & _). by eapply async_usleep_futex.
  - destruct H as (fr & w & _ & _ & _ & H).
    apply resume_futex in H. done.
Qed.

Lemma run_futex ls st st' tr :
  run ls st = Some (st', tr) → futex_step false false st st'.
Proof.
  revert st tr. induction ls as [|l ls IH]; intros st tr; simpl.
  - intros [= <- _]. apply futex_step_refl.
  - destruct (exec l st) as [[st1 o]|] eqn:Hexec; [|done]. simpl.
    destruct (run ls st1) as [[st2 tr2]|] eqn:Hrun; [|done]. simpl.
    intros [= <- _]. eapply futex_step_trans; [by eapply exec_futex|].
    by eapply IH.
Qed.

(** X4. Whatever the framework is asked to do, it takes and releases
    [async_futex] in turn and has released it when the call returns or
    the fibril has switched to the manager; it sends no answer and no
    request while it holds the futex, and it switches to the manager only
    while holding it. *)
Theorem futex_discipline ls st st' tr :
  run ls st = Some (st', tr) →
  futex_after false (new_effects st st') = Some false
  ∧ Forall (λ ev, futex_after false (new_effects (ev_pre ev) (ev_post ev))
                  = Some false) tr.
Proof.
  intros Hrun. split.
  - destruct (run_futex _ _ _ _ Hrun) as (es & E & F).
    by rewrite (new_effects_app _ _ es).
  - revert st tr Hrun. induction ls as [|l ls IH]; intros st tr; simpl.
    + by intros [= _ <-].
    + destruct (exec l st) as [[st1 o]|] eqn:Hexec; [|done]. simpl.
      destruct (run ls st1) as [[st2 tr2]|] eqn:Hrun; [|done]. simpl.
      intros [= <- <-]. constructor; [|by eapply IH].
      destruct (exec_futex _ _ _ _ Hexec) as (es & E & F). simpl.
      by rewrite (new_effects_app _ _ es).
Qed.

(** ** The connection table *)

Lemma async_insert_timeout_table wd st st' :
  async_insert_timeout wd st = Some st' →
  conn_hash_table st' = conn_hash_table st.
Proof. by intros (w & _ & ->)%async_insert_timeout_Some. Qed.

Lemma expire_walk_table tv l st :
  conn_hash_table (expire_walk tv l st) = conn_hash_table st.
Proof.
  revert st. induction l as [|cur next IH]; intros st; simpl; [done|].
  destruct (wdata_at st cur) as [waiter|]; [|done].
  destruct (tv_gt _ _); [done|]. rewrite IH.
  by destruct (active waiter).
Qed.

Lemma route_call_table callid call msg_alloc st :
  conn_hash_table (route_call callid call msg_alloc st).1
  = conn_hash_table st.
Proof.
  unfold route_call.
  destruct (hash_table_find _ _) as [hlp|]; [|done].
  destruct (conn_at _ hlp) as [c|]; [|done].
  destruct msg_alloc; simpl; [|done].
  by destruct (decide _), (active (conn_wdata c)),
    (inlist (to_event (conn_wdata c))).
Qed.

Lemma get_call_loop_table conn usecs st st' r :
  get_call_loop conn usecs st = Some (st', r) →
  conn_hash_table st' = conn_hash_table st.
Proof.
  unfold get_call_loop. destruct (conn_at st conn) as [c|]; [|done]. simpl.
  destruct (msg_queue c) as [|msg rest]; [|by intros [= <- _]].
  destruct (decide (close_callid c ≠ 0)); [by intros [= <- _]|].
  destruct (decide (usecs ≠ 0)); simpl; [|by intros [= <- _]].
  destruct (async_insert_timeout conn st) as [st1|] eqn:Hins; [|done].
  simpl. intros [= <- _]. st_simpl.
  by eapply async_insert_timeout_table.
Qed.

Lemma resume_table p fr st st' o :
  resume p fr st = Some (st', o) → conn_hash_table st' = conn_hash_table st.
Proof.
  destruct fr as [usecs|rp|rp|]; simpl.
  - unfold async_get_call_timeout_resume.
    destruct (conn_at st p) as [c|]; [|done]. simpl.
    destruct (_ && _); simpl; [by intros [= <- _]|].
    destruct (get_call_loop _ _ _) as [[st1 r]|] eqn:H; [|done]. simpl.
    intros [= <- _]. by apply get_call_loop_table in H.
  - unfold async_wait_for_resume, wait_for_done.
    destruct (msg_at st p); [|done]. simpl. by intros [= <- _].
  - unfold async_wait_timeout_resume, wait_timeout_done.
    destruct (msg_at st p) as [m|]; [|done]. simpl.
    destruct (done m); simpl; by intros [= <- _].
  - unfold async_usleep_resume. simpl. by intros [= <- _].
Qed.

Lemma unlink_first_sublist x l : unlink_first x l `sublist_of` l.
Proof.
  induction l as [|y l IH]; simpl; [done|].
  case_decide; [by apply sublist_cons|by apply sublist_skip].
Qed.

Lemma unlink_first_notin x l : x ∉ l → unlink_first x l = l.
Proof.
  induction l as [|y l IH]; simpl; [done|].
  intros [Hne Hx]%not_elem_of_cons. rewrite decide_False by done.
  f_equal. by apply IH.
Qed.

Lemma unlink_first_snoc x l : x ∉ l → unlink_first x (l ++ [x]) = l.
Proof.
  induction l as [|y l IH]; simpl; [by rewrite decide_True|].
  intros [Hne Hx]%not_elem_of_cons. rewrite decide_False by done.
  f_equal. by apply IH.
Qed.

Lemma table_conns_sublist st st' :
  table_conns st →
  conn_hash_table st' `sublist_of` conn_hash_table st →
  (∀ q, is_Some (conn_at st q) → is_Some (conn_at st' q)) →
  table_conns st'.
Proof.
  intros [Hnd Hlive] Hsub Hkept. split; [by eapply sublist_NoDup|].
  intros p Hp. apply Hkept, Hlive. by eapply elem_of_sublist.
Qed.

Lemma table_conns_same st st' :
  table_conns st → conn_hash_table st' = conn_hash_table st →
  (∀ q, is_Some (conn_at st q) → is_Some (conn_at st' q)) →
  table_conns st'.
Proof. intros H E. apply table_conns_sublist; [done|by rewrite E]. Qed.

Lemma table_conns_fresh st p : table_conns st → heap st !! p = None →
  p ∉ conn_hash_table st.
Proof.
  intros [_ Hlive] Hp Hin. destruct (Hlive p Hin) as [c Hc].
  unfold conn_at in Hc. by rewrite Hp in Hc.
Qed.

Lemma async_new_connection_table_conns hash callid call conn_alloc new_fid st :
  fresh_block st conn_alloc = true → table_conns st →
  table_conns (async_new_connection hash callid call conn_alloc new_fid st).1.
Proof.
  intros Hfresh Hinv.
  pose proof (async_new_connection_msgs_kept hash callid call conn_alloc
                new_fid st Hfresh) as [_ Hkept].
  revert Hkept. unfold async_new_connection.
  destruct conn_alloc as [[p blk]|]; simpl.
  - apply fresh_block_Some in Hfresh as [_ Hp].
    destruct (decide (new_fid = 0)); simpl.
    + intros Hkept. apply (table_conns_same st); [done| |done].
      by destruct (decide _).
    + intros Hkept. destruct Hinv as [Hnd Hlive]. split.
      * st_simpl. apply NoDup_app. split_and!; [done| |apply NoDup_singleton].
        intros q Hq ->%list_elem_of_singleton.
        by apply (table_conns_fresh st p).
      * st_simpl. intros q [Hq| ->%list_elem_of_singleton]%elem_of_app.
        -- by apply Hkept, Hlive.
        -- unfold conn_at. st_simpl. rewrite lookup_insert_eq. by eexists.
  - intros Hkept. apply (table_conns_same st); [done| |done].
    by destruct (decide _).
Qed.

Lemma reply_received_conns arg rv data st st' q :
  reply_received arg rv data st = Some st' →
  is_Some (conn_at st q) → is_Some (conn_at st' q).
Proof.
  intros (Hat & _ & m & m' & Hm & _)%reply_received_msg [c Hc].
  assert (q ≠ arg).
  { intros ->. unfold conn_at, msg_at in *.
    destruct (heap st !! arg) as [[|]|]; done. }
  rewrite (only_at_conn arg st st') by done. by eexists.
Qed.

Lemma reply_received_table arg rv data st st' :
  reply_received arg rv data st = Some st' →
  conn_hash_table st' = conn_hash_table st.
Proof.
  unfold reply_received. destruct (msg_at st arg) as [msg|]; [|done].
  simpl. intros [= <-].
  destruct (active (msg_wdata msg)), (inlist (to_event (msg_wdata msg))),
    data as [d|]; try destruct (decide (dataptr msg ≠ 0)); done.
Qed.

Lemma exec_table_conns l st st' o :
  exec l st = Some (st', o) → table_conns st → table_conns st'.
Proof.
  intros H%exec_inv Hinv.
  destruct l as [callid call ma ca nf|now|arg rv data|hash callid call ca nf
                |conn usecs now|conn|ph m a1 a2 a3 a4 dp ma
                |ph m a1 a2 a3 a4 a5 dp ma|amsgid rp self
                |amsgid rp timeout now self|timeout now self ma|p].
  - destruct H as (Hfresh & -> & _). unfold handle_call.
    destruct (decide _).
    { apply (table_conns_same st); [done| |].
      - unfold process_notification. by destruct ma.
      - apply process_notification_msgs_kept. }
    destruct (decide _); [by apply async_new_connection_table_conns|].
    pose proof (route_call_msgs_kept callid call ma st) as [_ Hk].
    pose proof (route_call_table callid call ma st) as Ht.
    destruct (route_call _ _ _ _) as [st1 []]; simpl in *;
      by apply (table_conns_same st).
  - destruct H as [-> _]. apply (table_conns_same st); [done| |].
    + unfold handle_expired_timeouts. st_simpl. by rewrite expire_walk_table.
    + apply handle_expired_timeouts_msgs_kept.
  - destruct H as [H _]. apply (table_conns_same st); [done| |].
    + by eapply reply_received_table.
    + intros q. by eapply reply_received_conns.
  - destruct H as (Hfresh & f & H & _).
    pose proof (async_new_connection_table_conns hash callid call ca nf st
                  Hfresh Hinv) as Hf.
    by rewrite H in Hf.
  - destruct H as (_ & r & H & _). apply (table_conns_same st); [done| |].
    + unfold async_get_call_timeout in H.
      destruct (conn_at st conn); [|done]. simpl in H.
      apply get_call_loop_table in H. rewrite H. by destruct (decide _).
    + by eapply async_get_call_timeout_msgs_kept.
  - destruct H as (_ & H & _).
    pose proof (connection_fibril_msgs_kept _ _ _ H) as [_ Hk].
    apply (table_conns_sublist st); [done| |done].
    apply connection_fibril_Some in H as (c & _ & _ & _ & H). simpl in H.
    assert (Hsub : conn_hash_table
              (drain_msg_queue conn (msg_queue c)
                 (emit FutexUp
                    (hash_table_remove (conn_in_phone_hash c)
                       (emit FutexDown st))))
            `sublist_of` conn_hash_table st).
    { rewrite drain_msg_queue_conn_hash_table. unfold hash_table_remove.
      destruct (hash_table_find _ _); st_simpl; [|done].
      apply unlink_first_sublist. }
    destruct (decide _); by injection H as <-.
  - destruct H as (Hfresh & id & H & _).
    pose proof (async_send_msgs_kept ph m [a1; a2; a3; a4] dp ma st Hfresh)
      as [_ Hk].
    rewrite H in Hk. apply (table_conns_same st); [done| |done].
    unfold async_send in H. destruct ma as [[p blk]|]; by injection H as <- _.
  - destruct H as (Hfresh & id & H & _).
    pose proof (async_send_msgs_kept ph m [a1; a2; a3; a4; a5] dp ma st
                  Hfresh) as [_ Hk].
    rewrite H in Hk. apply (table_conns_same st); [done| |done].
    unfold async_send in H. destruct ma as [[p blk]|]; by injection H as <- _.
  - destruct H as (_ & r & H & _). apply (table_conns_same st); [done| |].
    + unfold async_wait_for, wait_for_done in H.
      destruct (msg_at st amsgid) as [msg|] eqn:Hmsg; [|done]. simpl in H.
      destruct (done msg); [|by injection H as <- _].
      change (msg_at (emit ?e ?s) amsgid) with (msg_at s amsgid) in H.
      change (msg_at (emit ?e ?s) amsgid) with (msg_at s amsgid) in H.
      rewrite Hmsg in H. by injection H as <- _.
    + by eapply async_wait_for_msgs_kept.
  - destruct H as (_ & r & H & _). apply (table_conns_same st); [done| |].
    + unfold async_wait_timeout, wait_timeout_done in H.
      destruct (decide _); [by injection H as <- _|].
      destruct (msg_at st amsgid) as [msg|] eqn:Hmsg; [|done]. simpl in H.
      destruct (done msg).
      * change (msg_at (emit ?e ?s) amsgid) with (msg_at s amsgid) in H.
        change (msg_at (emit ?e ?s) amsgid) with (msg_at s amsgid) in H.
        rewrite Hmsg in H. by injection H as <- _.
      * destruct (async_insert_timeout _ _) as [st1|] eqn:Hins; [|done].
        injection H as <- _. st_simpl.
        by apply async_insert_timeout_table in Hins.
    + by eapply async_wait_timeout_msgs_kept.
  - destruct H as (Hfresh & r & H & _). apply (table_conns_same st); [done| |].
    + unfold async_usleep in H. destruct ma as [[p blk]|].
      * destruct (async_insert_timeout _ _) as [st1|] eqn:Hins; [|done].
        injection H as <- _. st_simpl.
        by apply async_insert_timeout_table in Hins.
      * by injection H as <- _.
    + by eapply async_usleep_msgs_kept.
  - destruct H as (fr & w & _ & _ & _ & H).
    apply (table_conns_same (with_parked (delete p) st)); [done| |].
    + by eapply resume_table.
    + eapply resume_msgs_kept; [|done]. apply msgs_kept_refl.
Qed.

Lemma table_conns_init : table_conns init_state.
Proof. split; [constructor|]. by intros p ?%elem_of_nil. Qed.

Lemma run_table_conns ls st st' tr :
  table_conns st → run ls st = Some (st', tr) → table_conns st'.
Proof.
  revert st tr. induction ls as [|l ls IH]; intros st tr Hinv; simpl.
  - by intros [= <- _].
  - destruct (exec l st) as [[st1 o]|] eqn:Hexec; [|done]. simpl.
    destruct (run ls st1) as [[st2 tr2]|] eqn:Hrun; [|done]. simpl.
    intros [= <- _]. eapply IH; [|done]. by eapply exec_table_conns.
Qed.

(** *** Freed blocks *)

Lemma async_insert_timeout_freed wd st st' :
  async_insert_timeout wd st = Some st' → freed st' = freed st.
Proof. by intros (w & _ & ->)%async_insert_timeout_Some. Qed.

Lemma expire_walk_freed tv l st : freed (expire_walk tv l st) = freed st.
Proof.
  revert st. induction l as [|cur next IH]; intros st; simpl; [done|].
  destruct (wdata_at st cur) as [waiter|]; [|done].
  destruct (tv_gt _ _); [done|]. rewrite IH.
  by destruct (active waiter).
Qed.

Lemma route_call_freed callid call msg_alloc st :
  freed (route_call callid call msg_alloc st).1 = freed st.
Proof.
  unfold route_call.
  destruct (hash_table_find _ _) as [hlp|]; [|done].
  destruct (conn_at _ hlp) as [c|]; [|done].
  destruct msg_alloc; simpl; [|done].
  by destruct (decide _), (active (conn_wdata c)),
    (inlist (to_event (conn_wdata c))).
Qed.

Lemma get_call_loop_freed conn usecs st st' r :
  get_call_loop conn usecs st = Some (st', r) → freed st' = freed st.
Proof.
  unfold get_call_loop. destruct (conn_at st conn) as [c|]; [|done]. simpl.
  destruct (msg_queue c) as [|msg rest]; [|by intros [= <- _]].
  destruct (decide (close_callid c ≠ 0)); [by intros [= <- _]|].
  destruct (decide (usecs ≠ 0)); simpl; [|by intros [= <- _]].
  destruct (async_insert_timeout conn st) as [st1|] eqn:Hins; [|done].
  simpl. intros [= <- _]. st_simpl.
  by eapply async_insert_timeout_freed.
Qed.

Lemma reply_received_freed arg rv data st st' :
  reply_received arg rv data st = Some st' → freed st' = freed st.
Proof.
  unfold reply_received. destruct (msg_at st arg) as [msg|]; [|done].
  simpl. intros [= <-].
  destruct (active (msg_wdata msg)), (inlist (to_event (msg_wdata msg))),
    data as [d|]; try destruct (decide (dataptr msg ≠ 0)); done.
Qed.

(** A step that frees nothing, and one that frees a message. *)
Lemma frees_nothing st st' q :
  freed st' = freed st → q ∈ freed st' →
  q ∈ freed st ∨ (is_Some (heap st' !! q) ∧ q ∉ conn_hash_table st').
Proof. intros ->. by left. Qed.

Lemma frees_msg st st' p m q :
  table_conns st → msg_at st p = Some m → msgs_kept st st' →
  conn_hash_table st' = conn_hash_table st →
  freed st' = {[p]} ∪ freed st → q ∈ freed st' →
  q ∈ freed st ∨ (is_Some (heap st' !! q) ∧ q ∉ conn_hash_table st').
Proof.
  intros [_ Hconns] Hm Hk Ht -> [->%elem_of_singleton|Hq]%elem_of_union;
    [right|by left].
  split.
  - eapply msgs_kept_live; [done|]. unfold msg_at in Hm.
    destruct (heap st !! p); [by eexists|done].
  - rewrite Ht. intros [c Hc]%Hconns. by eapply conn_at_msg_at.
Qed.

Lemma async_new_connection_freed hash callid call conn_alloc new_fid st q :
  fresh_block st conn_alloc = true → table_conns st →
  q ∈ freed (async_new_connection hash callid call conn_alloc new_fid st).1 →
  q ∈ freed st
  ∨ (is_Some (heap (async_new_connection hash callid call conn_alloc
                      new_fid st).1 !! q)
     ∧ q ∉ conn_hash_table
             (async_new_connection hash callid call conn_alloc new_fid
                st).1).
Proof.
  intros Hfresh Hinv. unfold async_new_connection.
  destruct conn_alloc as [[p blk]|]; simpl.
  2: { destruct (decide _); by left. }
  apply fresh_block_Some in Hfresh as [_ Hp].
  destruct (decide (new_fid = 0)); simpl; [|by left].
  assert (∀ st1 : state,
            freed st1 = {[p]} ∪ freed st → heap st1 !! p = Some
              (OConn (mk_conn (set_fid new_fid (set_active true (conn_wdata blk)))
                 hash [] callid
                 (match call with Some c => c | None => conn_call blk end) 0)) →
            conn_hash_table st1 = conn_hash_table st →
            q ∈ freed st1 →
            q ∈ freed st
            ∨ (is_Some (heap st1 !! q) ∧ q ∉ conn_hash_table st1)) as Hgen.
  { intros st1 -> Hh Ht [->%elem_of_singleton|Hq]%elem_of_union;
      [right|by left].
    split; [by rewrite Hh|]. rewrite Ht. by apply table_conns_fresh. }
  destruct (decide _); apply Hgen; st_simpl; by rewrite ?lookup_insert_eq.
Qed.

Lemma exec_freed l st st' o q :
  exec l st = Some (st', o) → table_conns st → blocks_inv st →
  q ∈ freed st' →
  q ∈ freed st ∨ (is_Some (heap st' !! q) ∧ q ∉ conn_hash_table st').
Proof.
  intros H%exec_inv Hinv [_ Hsl].
  destruct l as [callid call ma ca nf|now|arg rv data|hash callid call ca nf
                |conn usecs now|conn|ph m a1 a2 a3 a4 dp ma
                |ph m a1 a2 a3 a4 a5 dp ma|amsgid rp self
                |amsgid rp timeout now self|timeout now self ma|p].
  - destruct H as (Hfresh & -> & _). unfold handle_call.
    destruct (decide _).
    { apply frees_nothing. unfold process_notification. by destruct ma. }
    destruct (decide _); [by apply async_new_connection_freed|].
    pose proof (route_call_freed callid call ma st) as Hf.
    destruct (route_call _ _ _ _) as [st1 []]; simpl in *;
      by apply frees_nothing.
  - destruct H as [-> _]. apply frees_nothing.
    unfold handle_expired_timeouts. st_simpl. by rewrite expire_walk_freed.
  - destruct H as [H _]. apply frees_nothing.
    by eapply reply_received_freed.
  - destruct H as (Hfresh & f & H & _).
    pose proof (async_new_connection_freed hash callid call ca nf st q
                  Hfresh Hinv) as Hf.
    by rewrite H in Hf.
  - destruct H as (_ & r & H & _). apply frees_nothing.
    unfold async_get_call_timeout in H.
    destruct (conn_at st conn); [|done]. simpl in H.
    apply get_call_loop_freed in H. rewrite H. by destruct (decide _).
  - destruct H as (_ & H & _).
    pose proof (connection_fibril_msgs_kept _ _ _ H) as Hk.
    apply connection_fibril_Some in H as (c & Hc & _ & _ & H).
    simpl in H.
    assert (Hst : ∀ st1,
              freed st1 = freed (hash_table_remove (conn_in_phone_hash c)
                                   (emit FutexDown st)) →
              conn_hash_table st1
              = conn_hash_table (hash_table_remove (conn_in_phone_hash c)
                                   (emit FutexDown st)) →
              msgs_kept st st1 → q ∈ freed st1 →
              q ∈ freed st
              ∨ (is_Some (heap st1 !! q) ∧ q ∉ conn_hash_table st1)).
    { intros st1 Hf Ht Hk1. rewrite Hf, Ht, hash_table_remove_freed.
      unfold hash_table_remove.
      change (hash_table_find (emit FutexDown st)) with (hash_table_find st).
      destruct (hash_table_find st _) as [cur|] eqn:Hfind; [|by left].
      intros [->%elem_of_singleton|Hq]%elem_of_union; [right|by left].
      apply hash_table_find_conn in Hfind as (cc & Hcc & Hin).
      split.
      - eapply msgs_kept_live; [done|]. unfold conn_at in Hcc.
        destruct (heap st !! cur); [by eexists|done].
      - st_simpl. apply unlink_first_NoDup, Hinv. }
    destruct (decide _); injection H as <-; apply Hst; st_simpl;
      by rewrite ?drain_msg_queue_freed, ?drain_msg_queue_conn_hash_table.
  - destruct H as (Hfresh & id & H & _). apply frees_nothing.
    unfold async_send in H. destruct ma as [[p blk]|]; by injection H as <- _.
  - destruct H as (Hfresh & id & H & _). apply frees_nothing.
    unfold async_send in H. destruct ma as [[p blk]|]; by injection H as <- _.
  - destruct H as (_ & r & H & _).
    pose proof (async_wait_for_msgs_kept _ _ _ _ _ _ H) as Hk.
    unfold async_wait_for, wait_for_done in H.
    destruct (msg_at st amsgid) as [msg|] eqn:Hmsg; [|done]. simpl in H.
    destruct (done msg);
      [|apply frees_nothing; by injection H as <- _].
    change (msg_at (emit ?e ?s) amsgid) with (msg_at s amsgid) in H.
    change (msg_at (emit ?e ?s) amsgid) with (msg_at s amsgid) in H.
    rewrite Hmsg in H. injection H as <- _.
    by eapply (frees_msg st _ amsgid).
  - destruct H as (_ & r & H & _).
    pose proof (async_wait_timeout_msgs_kept _ _ _ _ _ _ _ _ H) as Hk.
    unfold async_wait_timeout, wait_timeout_done in H.
    destruct (decide _);
      [apply frees_nothing; by injection H as <- _|].
    destruct (msg_at st amsgid) as [msg|] eqn:Hmsg; [|done]. simpl in H.
    destruct (done msg).
    + change (msg_at (emit ?e ?s) amsgid) with (msg_at s amsgid) in H.
      change (msg_at (emit ?e ?s) amsgid) with (msg_at s amsgid) in H.
      rewrite Hmsg in H. injection H as <- _.
      by eapply (frees_msg st _ amsgid).
    + apply frees_nothing.
      destruct (async_insert_timeout _ _) as [st1|] eqn:Hins; [|done].
      injection H as <- _. st_simpl.
      by apply async_insert_timeout_freed in Hins.
  - destruct H as (Hfresh & r & H & _). apply frees_nothing.
    unfold async_usleep in H. destruct ma as [[p blk]|].
    + destruct (async_insert_timeout _ _) as [st1|] eqn:Hins; [|done].
      injection H as <- _. st_simpl.
      by apply async_insert_timeout_freed in Hins.
    + by injection H as <- _.
  - destruct H as (fr & w & Hfr & _ & _ & H).
    pose proof (resume_msgs_kept _ _ st _ _ _
                  (msgs_kept_with_parked _ _ _ (msgs_kept_refl _)) H) as Hk.
    pose proof (resume_table _ _ _ _ _ H) as Ht.
    destruct fr as [usecs|rp|rp|]; simpl in H.
    + apply frees_nothing.
      unfold async_get_call_timeout_resume in H.
      destruct (conn_at _ p) as [c|]; [|done]. simpl in H.
      destruct (_ && _); simpl in H; [by injection H as <- _|].
      destruct (get_call_loop _ _ _) as [[st1 r]|] eqn:Hg; [|done].
      simpl in H. injection H as <- _. by apply get_call_loop_freed in Hg.
    + unfold async_wait_for_resume, wait_for_done in H.
      destruct (msg_at _ p) as [m|] eqn:Hm; [|done]. simpl in H.
      injection H as <- _. by eapply (frees_msg st _ p).
    + unfold async_wait_timeout_resume, wait_timeout_done in H.
      destruct (msg_at _ p) as [m|] eqn:Hm; [|done]. simpl in H.
      destruct (done m); simpl in H; injection H as <- _;
        [by eapply (frees_msg st _ p)|by apply frees_nothing].
    + unfold async_usleep_resume in H. injection H as <- _.
      destruct (Hsl p Hfr) as [m Hm]. by eapply (frees_msg st _ p).
Qed.

Lemma async_usleep_msg timeout now self p blk st st' r :
  async_usleep timeout now self (Some (p, blk)) st = Some (st', r) →
  is_Some (msg_at st' p).
Proof.
  unfold async_usleep.
  destruct (async_insert_timeout _ _) as [st1|] eqn:Hins; [|done].
  simpl. intros [= <- _].
  pose proof (async_insert_timeout_msgs_kept _ _ _ _ (msgs_kept_refl _) Hins)
    as [Hk _].
  edestruct Hk as (m' & Hm' & _); [|by exists m'].
  autorewrite with heap_read. rewrite !decide_True by done. reflexivity.
Qed.

(** A step parks a fibril in [async_usleep] only on the message it has
    just allocated. *)
Lemma exec_parked_usleep l st st' o q :
  exec l st = Some (st', o) → parked st' !! q = Some FUsleep →
  parked st !! q = Some FUsleep ∨ is_Some (msg_at st' q).
Proof.
  intros H%exec_inv.
  assert (Hsame : parked st' = parked st →
            parked st' !! q = Some FUsleep →
            parked st !! q = Some FUsleep ∨ is_Some (msg_at st' q)).
  { intros ->. by left. }
  assert (Hins : ∀ p fr, fr ≠ FUsleep →
            parked st' = <[p := fr]> (parked st) →
            parked st' !! q = Some FUsleep →
            parked st !! q = Some FUsleep ∨ is_Some (msg_at st' q)).
  { intros p fr Hfr ->. destruct (decide (p = q)) as [->|Hne].
    - rewrite lookup_insert_eq. by intros [= ?].
    - rewrite lookup_insert_ne by done. by left. }
  destruct l as [callid call ma ca nf|now|arg rv data|hash callid call ca nf
                |conn usecs now|conn|ph m a1 a2 a3 a4 dp ma
                |ph m a1 a2 a3 a4 a5 dp ma|amsgid rp self
                |amsgid rp timeout now self|timeout now self ma|p].
  - destruct H as (Hfresh & -> & _). apply Hsame. unfold handle_call.
    destruct (decide _).
    { unfold process_notification. by destruct ma. }
    destruct (decide _).
    { destruct ca as [[p blk]|].
      - by destruct (async_new_connection_only_at (IPC_GET_ARG5 call)
                       callid (Some call) p blk nf st) as (_ & _ & ->).
      - unfold async_new_connection. by destruct (decide _). }
    destruct (route_call_only_at callid call ma st) as (p & _ & _ & Hp).
    by destruct (route_call _ _ _ _) as [st1 []].
  - destruct H as [-> _]. apply Hsame.
    unfold handle_expired_timeouts. st_simpl. by rewrite expire_walk_parked.
  - destruct H as [H _]. apply Hsame.
    by apply reply_received_msg in H as (_ & -> & _).
  - destruct H as (Hfresh & f & H & _). apply Hsame.
    destruct ca as [[p blk]|].
    + destruct (async_new_connection_only_at hash callid call p blk nf st)
        as (_ & _ & Hp). by rewrite H in Hp.
    + unfold async_new_connection in H.
      destruct (decide _); by injection H as <- _.
  - destruct H as (_ & r & H & _).
    apply async_get_call_timeout_only_at in H as (_ & _ & Hp).
    destruct r; [by apply Hsame|]. eapply Hins; [|exact Hp]. done.
  - destruct H as (_ & H & _). apply Hsame.
    by apply connection_fibril_only_at in H as (_ & _ & ->).
  - destruct H as (Hfresh & id & H & _). apply Hsame.
    unfold async_send in H. destruct ma as [[p blk]|]; by injection H as <- _.
  - destruct H as (Hfresh & id & H & _). apply Hsame.
    unfold async_send in H. destruct ma as [[p blk]|]; by injection H as <- _.
  - destruct H as (_ & r & H & _).
    apply async_wait_for_only_at in H as (_ & Hp).
    destruct r; [by apply Hsame|]. destruct Hp as [Hp _].
    eapply Hins; [|exact Hp]. done.
  - destruct H as (_ & r & H & _).
    apply async_wait_timeout_only_at in H as (_ & Hp).
    destruct r; [by apply Hsame|]. destruct Hp as [Hp _].
    eapply Hins; [|exact Hp]. done.
  - destruct H as (Hfresh & r & H & _).
    destruct ma as [[p blk]|]; [|apply Hsame; by injection H as <- _].
    pose proof (async_usleep_msg _ _ _ _ _ _ _ _ H) as Hm.
    apply async_usleep_only_at in H as (_ & -> & _).
    destruct (decide (p = q)) as [->|Hne]; [by right|].
    rewrite lookup_insert_ne by done. by left.
  - destruct H as (fr & w & Hfr & _ & _ & H).
    assert (Hdel : parked st' = delete p (parked st) →
              parked st' !! q = Some FUsleep →
              parked st !! q = Some FUsleep ∨ is_Some (msg_at st' q)).
    { intros ->. intros [_ ?]%lookup_delete_Some. by left. }
    destruct fr as [usecs|rp|rp|]; simpl in H.
    + destruct (async_get_call_timeout_resume _ _ _) as [[st1 r]|] eqn:Hg;
        [|done].
      simpl in H. injection H as <- _.
      apply async_get_call_timeout_resume_only_at in Hg as (_ & _ & Hp).
      destruct r; [by apply Hdel|]. rewrite Hp. st_simpl.
      destruct (decide (p = q)) as [->|Hne].
      * rewrite lookup_insert_eq. by intros [= ?].
      * rewrite lookup_insert_ne by done.
        intros [_ ?]%lookup_delete_Some. by left.
    + destruct (async_wait_for_resume _ _ _) as [[st1 r]|] eqn:Hg; [|done].
      simpl in H. injection H as <- _.
      apply wait_for_done_only_at in Hg as (_ & Hp). by apply Hdel.
    + destruct (async_wait_timeout_resume _ _ _) as [[st1 r]|] eqn:Hg;
        [|done].
      simpl in H. injection H as <- _.
      apply async_wait_timeout_resume_only_at in Hg as (_ & Hp).
      by apply Hdel.
    + injection H as <- _. by apply Hdel.
Qed.

(** What a step keeps in the heap. *)
Lemma exec_heap_kept l st st' o q :
  exec l st = Some (st', o) →
  is_Some (heap st !! q) → is_Some (heap st' !! q).
Proof.
  intros H%exec_inv.
  destruct l as [callid call ma ca nf|now|arg rv data|hash callid call ca nf
                |conn usecs now|conn|ph m a1 a2 a3 a4 dp ma
                |ph m a1 a2 a3 a4 a5 dp ma|amsgid rp self
                |amsgid rp timeout now self|timeout now self ma|p].
  - destruct H as (Hfresh & -> & _).
    by eapply msgs_kept_live, handle_call_msgs_kept.
  - destruct H as [-> _].
    eapply msgs_kept_live, handle_expired_timeouts_msgs_kept.
  - destruct H as [H _].
    apply reply_received_msg in H as (Hat & _ & m & m' & Hm & Hm' & _).
    destruct (decide (q = arg)) as [->|Hne].
    + intros _. unfold msg_at in Hm'.
      destruct (heap st' !! arg); [by eexists|done].
    + by destruct (Hat q Hne) as [-> _].
  - destruct H as (Hfresh & f & H & _).
    pose proof (async_new_connection_msgs_kept hash callid call ca nf st
                  Hfresh) as Hk.
    rewrite H in Hk. by eapply msgs_kept_live.
  - destruct H as (_ & r & H & _).
    by eapply msgs_kept_live, async_get_call_timeout_msgs_kept.
  - destruct H as (_ & H & _).
    by eapply msgs_kept_live, connection_fibril_msgs_kept.
  - destruct H as (Hfresh & id & H & _).
    pose proof (async_send_msgs_kept ph m [a1; a2; a3; a4] dp ma st Hfresh)
      as Hk.
    rewrite H in Hk. by eapply msgs_kept_live.
  - destruct H as (Hfresh & id & H & _).
    pose proof (async_send_msgs_kept ph m [a1; a2; a3; a4; a5] dp ma st
                  Hfresh) as Hk.
    rewrite H in Hk. by eapply msgs_kept_live.
  - destruct H as (_ & r & H & _).
    by eapply msgs_kept_live, async_wait_for_msgs_kept.
  - destruct H as (_ & r & H & _).
    by eapply msgs_kept_live, async_wait_timeout_msgs_kept.
  - destruct H as (Hfresh & r & H & _).
    by eapply msgs_kept_live, async_usleep_msgs_kept.
  - destruct H as (fr & w & _ & _ & _ & H).
    eapply msgs_kept_live, resume_msgs_kept; [|done].
    apply msgs_kept_with_parked, msgs_kept_refl.
Qed.

Lemma exec_blocks_inv l st st' o :
  exec l st = Some (st', o) → table_conns st → blocks_inv st →
  blocks_inv st'.
Proof.
  intros Hexec Hconns Hinv. split.
  - intros q Hq.
    destruct (exec_freed _ _ _ _ _ Hexec Hconns Hinv Hq) as [Hq'|[? _]];
      [|done].
    eapply exec_heap_kept; [done|]. by apply Hinv.
  - intros q Hq.
    destruct (exec_parked_usleep _ _ _ _ _ Hexec Hq) as [Hq'|?]; [|done].
    destruct Hinv as [_ Hsl]. destruct (Hsl q Hq') as [m Hm].
    destruct (exec_msgs _ _ _ _ _ _ Hexec Hm) as (m' & Hm' & _).
    by exists m'.
Qed.

Lemma exec_table_inv l st st' o :
  exec l st = Some (st', o) → blocks_inv st → table_inv st →
  table_inv st'.
Proof.
  intros Hexec Hb [Hconns Hlive].
  pose proof (exec_table_conns _ _ _ _ Hexec Hconns) as Hconns'.
  split; [done|]. intros q Hq Hf.
  destruct (exec_freed _ _ _ _ _ Hexec Hconns Hb Hf) as [Hf'|[_ ?]];
    [|done].
  (* [q] was freed before: it was not in the table then, so it has been
     entered by this step, as a block not handed out before. *)
  assert (Hold : q ∉ conn_hash_table st) by (intros ?; by eapply Hlive).
  destruct Hb as [Halloc _]. specialize (Halloc q Hf').
  apply exec_inv in Hexec.
  assert (Hsame : conn_hash_table st' `sublist_of` conn_hash_table st →
            False).
  { intros Hsub. apply Hold. by eapply elem_of_sublist. }
  assert (Hnew : ∀ hash cid cl ca nf,
            fresh_block st ca = true →
            q ∈ conn_hash_table
                  (async_new_connection hash cid cl ca nf st).1 → False).
  { intros hash cid cl [[p blk]|] nf Hfresh; unfold async_new_connection.
    - apply fresh_block_Some in Hfresh as [_ Hp].
      destruct (decide (nf = 0)); simpl.
      + by destruct (decide _).
      + st_simpl. intros [?| ->%list_elem_of_singleton]%elem_of_app; [done|].
        rewrite Hp in Halloc. by destruct Halloc.
    - by destruct (decide _). }
  destruct l as [callid call ma ca nf|now|arg rv data|hash callid call ca nf
                |conn usecs now|conn|ph m a1 a2 a3 a4 dp ma
                |ph m a1 a2 a3 a4 a5 dp ma|amsgid rp self
                |amsgid rp timeout now self|timeout now self ma|p].
  - destruct Hexec as (Hfresh & -> & _). revert Hq. unfold handle_call.
    destruct (decide _).
    { unfold process_notification. by destruct ma. }
    destruct (decide _); [by apply Hnew|].
    pose proof (route_call_table callid call ma st) as Ht.
    destruct (route_call _ _ _ _) as [st1 []]; simpl in *; by rewrite Ht.
  - destruct Hexec as [-> _]. apply Hsame.
    unfold handle_expired_timeouts. st_simpl. by rewrite expire_walk_table.
  - destruct Hexec as [H _]. apply Hsame.
    by rewrite (reply_received_table _ _ _ _ _ H).
  - destruct Hexec as (Hfresh & f & H & _).
    apply (Hnew hash callid call ca nf Hfresh). by rewrite H.
  - destruct Hexec as (_ & r & H & _). apply Hsame.
    unfold async_get_call_timeout in H.
    destruct (conn_at st conn); [|done]. simpl in H.
    apply get_call_loop_table in H. rewrite H. by destruct (decide _).
  - destruct Hexec as (_ & H & _). apply Hsame.
    apply connection_fibril_Some in H as (c & _ & _ & _ & H). simpl in H.
    assert (Hsub : conn_hash_table
              (drain_msg_queue conn (msg_queue c)
                 (emit FutexUp
                    (hash_table_remove (conn_in_phone_hash c)
                       (emit FutexDown st))))
            `sublist_of` conn_hash_table st).
    { rewrite drain_msg_queue_conn_hash_table. unfold hash_table_remove.
      destruct (hash_table_find _ _); st_simpl; [|done].
      apply unlink_first_sublist. }
    destruct (decide _); by injection H as <-.
  - destruct Hexec as (Hfresh & id & H & _). apply Hsame.
    unfold async_send in H. destruct ma as [[p blk]|]; by injection H as <- _.
  - destruct Hexec as (Hfresh & id & H & _). apply Hsame.
    unfold async_send in H. destruct ma as [[p blk]|]; by injection H as <- _.
  - destruct Hexec as (_ & r & H & _). apply Hsame.
    unfold async_wait_for, wait_for_done in H.
    destruct (msg_at st amsgid) as [msg|] eqn:Hmsg; [|done]. simpl in H.
    destruct (done msg); [|by injection H as <- _].
    change (msg_at (emit ?e ?s) amsgid) with (msg_at s amsgid) in H.
    change (msg_at (emit ?e ?s) amsgid) with (msg_at s amsgid) in H.
    rewrite Hmsg in H. by injection H as <- _.
  - destruct Hexec as (_ & r & H & _). apply Hsame.
    unfold async_wait_timeout, wait_timeout_done in H.
    destruct (decide _); [by injection H as <- _|].
    destruct (msg_at st amsgid) as [msg|] eqn:Hmsg; [|done]. simpl in H.
    destruct (done msg).
    + change (msg_at (emit ?e ?s) amsgid) with (msg_at s amsgid) in H.
      change (msg_at (emit ?e ?s) amsgid) with (msg_at s amsgid) in H.
      rewrite Hmsg in H. by injection H as <- _.
    + destruct (async_insert_timeout _ _) as [st1|] eqn:Hins; [|done].
      injection H as <- _. st_simpl.
      by rewrite (async_insert_timeout_table _ _ _ Hins).
  - destruct Hexec as (Hfresh & r & H & _). apply Hsame.
    unfold async_usleep in H. destruct ma as [[p blk]|].
    + destruct (async_insert_timeout _ _) as [st1|] eqn:Hins; [|done].
      injection H as <- _. st_simpl.
      by rewrite (async_insert_timeout_table _ _ _ Hins).
    + by injection H as <- _.
  - destruct Hexec as (fr & w & _ & _ & _ & H). apply Hsame.
    by rewrite (resume_table _ _ _ _ _ H).
Qed.

Lemma table_inv_init : table_inv init_state.
Proof.
  split; [apply table_conns_init|]. by intros p ?%elem_of_nil.
Qed.

Lemma blocks_inv_init : blocks_inv init_state.
Proof.
  split.
  - intros p Hp. simpl in Hp. set_solver.
  - intros p Hp. simpl in Hp. by rewrite lookup_empty in Hp.
Qed.

Lemma run_table_inv ls st st' tr :
  blocks_inv st → table_inv st → run ls st = Some (st', tr) →
  blocks_inv st' ∧ table_inv st'.
Proof.
  revert st tr. induction ls as [|l ls IH]; intros st tr Hb Hinv; simpl.
  - by intros [= <- _].
  - destruct (exec l st) as [[st1 o]|] eqn:Hexec; [|done]. simpl.
    destruct (run ls st1) as [[st2 tr2]|] eqn:Hrun; [|done]. simpl.
    intros [= <- _]. eapply IH; [| |done].
    + eapply exec_blocks_inv; [done|apply Hinv|done].
    + by eapply exec_table_inv.
Qed.

(** X5. In every state the framework can reach, the connection table
    holds no record twice, and every entry is the address of a connection
    record that has not been freed. *)
Theorem conn_hash_table_inv ls st tr :
  run ls init_state = Some (st, tr) →
  NoDup (conn_hash_table st)
  ∧ ∀ p, p ∈ conn_hash_table st →
      is_Some (conn_at st p) ∧ p ∉ freed st.
Proof.
  intros Hrun.
  destruct (run_table_inv _ _ _ _ blocks_inv_init table_inv_init Hrun)
    as [_ [[Hnd Hconns] Hlive]].
  split; [done|]. intros p Hp. split; [by apply Hconns|by apply Hlive].
Qed.

(** ** Calls that send no answer *)

Lemma quiet_refl st : quiet st st.
Proof. exists []. by rewrite app_nil_r. Qed.

Lemma quiet_trans st1 st2 st3 : quiet st1 st2 → quiet st2 st3 → quiet st1 st3.
Proof.
  intros (es1 & E1 & F1) (es2 & E2 & F2). exists (es1 ++ es2).
  split; [by rewrite E2, E1, app_assoc|].
  by rewrite answers_of_app, F1, F2.
Qed.

Lemma quiet_emit st st' e :
  quiet st st' → answers_of [e] = [] → quiet st (emit e st').
Proof.
  intros H1 H2. eapply quiet_trans; [done|]. by exists [e].
Qed.

Lemma quiet_same st st' st'' :
  quiet st st' → effects st'' = effects st' → quiet st st''.
Proof. intros (es & E & F) H. exists es. by rewrite H. Qed.

Lemma quiet_answers st st' : quiet st st' → answers_of (new_effects st st') = [].
Proof. intros (es & E & F). by rewrite (new_effects_app _ _ es). Qed.

Lemma quiet_answer st st' callid rc :
  quiet st st' →
  answers_of (new_effects st (emit (IpcAnswer0 callid rc) st'))
  = [(callid, rc)].
Proof.
  intros (es & E & F). rewrite (new_effects_app _ _ (es ++ [IpcAnswer0 callid rc])).
  - by rewrite answers_of_app, F.
  - st_simpl. by rewrite E, app_assoc.
Qed.

Lemma quiet_set_timeout_list st st' l :
  quiet st st' → quiet st (set_timeout_list l st').
Proof. done. Qed.

Lemma quiet_set_conn_hash_table st st' l :
  quiet st st' → quiet st (set_conn_hash_table l st').
Proof. done. Qed.

Lemma quiet_with_call_store st st' f :
  quiet st st' → quiet st (with_call_store f st').
Proof. done. Qed.

Lemma quiet_with_parked st st' f :
  quiet st st' → quiet st (with_parked f st').
Proof. done. Qed.

Lemma quiet_upd_wdata st st' p f :
  quiet st st' → quiet st (upd_wdata p f st').
Proof. done. Qed.

Lemma quiet_upd_conn st st' p f :
  quiet st st' → quiet st (upd_conn p f st').
Proof. done. Qed.

Lemma quiet_upd_msg st st' p f :
  quiet st st' → quiet st (upd_msg p f st').
Proof. done. Qed.

Lemma quiet_alloc st st' p o : quiet st st' → quiet st (alloc p o st').
Proof. done. Qed.

Lemma quiet_park st st' p fr : quiet st st' → quiet st (park p fr st').
Proof.
  intros H. unfold park. apply quiet_emit; [|done].
  apply quiet_with_parked. by apply quiet_emit.
Qed.

Ltac solve_quiet :=
  first
    [ eassumption | apply quiet_refl
    | apply quiet_park; solve_quiet
    | apply quiet_set_timeout_list; solve_quiet
    | apply quiet_set_conn_hash_table; solve_quiet
    | apply quiet_with_call_store; solve_quiet
    | apply quiet_with_parked; solve_quiet
    | apply quiet_upd_wdata; solve_quiet
    | apply quiet_upd_conn; solve_quiet
    | apply quiet_upd_msg; solve_quiet
    | apply quiet_alloc; solve_quiet
    | apply quiet_emit; [solve_quiet|reflexivity]
    | match goal with
      | |- quiet _ (if ?b then _ else _) => destruct b; solve_quiet
      | |- quiet _ (match ?d with Some _ => _ | None => _ end) =>
          destruct d; solve_quiet
      end ].

Lemma expire_walk_quiet tv l st0 st :
  quiet st0 st → quiet st0 (expire_walk tv l st).
Proof.
  revert st. induction l as [|cur next IH]; intros st H0; simpl; [done|].
  destruct (wdata_at st cur) as [waiter|]; [|done].
  destruct (tv_gt _ _); [done|]. apply IH.
  destruct (active waiter); solve_quiet.
Qed.

Lemma handle_expired_timeouts_quiet tv st :
  quiet st (handle_expired_timeouts tv st).
Proof.
  unfold handle_expired_timeouts. apply quiet_emit; [|done].
  apply expire_walk_quiet. apply quiet_emit; [apply quiet_refl|done].
Qed.

Lemma route_call_quiet callid call msg_alloc st :
  quiet st (route_call callid call msg_alloc st).1.
Proof.
  unfold route_call.
  destruct (hash_table_find _ _) as [hlp|]; [|simpl; solve_quiet].
  destruct (conn_at _ hlp) as [c|]; [|simpl; solve_quiet].
  destruct msg_alloc; simpl; [|solve_quiet].
  apply quiet_emit; [|done].
  destruct (active (conn_wdata c)).
  - destruct (decide _); solve_quiet.
  - apply quiet_emit; [|done].
    destruct (inlist _); destruct (decide _); solve_quiet.
Qed.

Lemma process_notification_quiet callid call msg_alloc new_fid st :
  quiet st (process_notification callid call msg_alloc new_fid st).1.
Proof. unfold process_notification. destruct msg_alloc; simpl; solve_quiet. Qed.

(** ** What [route_call] returns *)

Lemma route_call_result callid call msg_alloc st :
  (route_call callid call msg_alloc st).2
  = bool_decide (is_Some (hash_table_find st (in_phone_hash call)))
    && msg_alloc.
Proof.
  unfold route_call.
  change (hash_table_find (emit FutexDown st)) with (hash_table_find st).
  destruct (hash_table_find st _) as [hlp|] eqn:Hfind; [|done].
  apply hash_table_find_conn in Hfind as (c & Hc & _).
  change (conn_at (emit FutexDown st)) with (conn_at st). rewrite Hc.
  rewrite bool_decide_eq_true_2 by (by eexists).
  by destruct msg_alloc.
Qed.

(** ** A new connection *)

Lemma async_new_connection_ok hash callid call p blk new_fid st :
  new_fid ≠ 0 →
  async_new_connection hash callid call (Some (p, blk)) new_fid st
  = (emit (FibrilAddReady new_fid)
       (emit FutexUp
          (hash_table_insert p
             (emit FutexDown
                (alloc p (OConn (new_conn hash callid call blk new_fid))
                   st)))),
     new_fid).
Proof.
  intros Hfid. unfold async_new_connection.
  rewrite decide_False by done. unfold new_conn. by destruct call.
Qed.

Lemma find_first `{EqDecision A} (f : A → bool) l p :
  p ∈ l → f p = true → (∀ q, q ∈ l → q ≠ p → f q = false) →
  List.find f l = Some p.
Proof.
  induction l as [|x l IH]; intros Hp Hfp Hf; [by apply elem_of_nil in Hp|].
  simpl. destruct (decide (x = p)) as [->|Hne]; [by rewrite Hfp|].
  rewrite Hf by (by left || done).
  apply IH; [|done|].
  - by apply elem_of_cons in Hp as [->|Hp].
  - intros q Hq. apply Hf. by right.
Qed.

Lemma find_all_false {A} (f : A → bool) l :
  (∀ q, q ∈ l → f q = false) → List.find f l = None.
Proof.
  induction l as [|x l IH]; intros Hf; [done|]. simpl.
  rewrite Hf by (by left). apply IH. intros q Hq. apply Hf. by right.
Qed.

Lemma hash_table_find_None st key q :
  hash_table_find st key = None → q ∈ conn_hash_table st →
  conn_compare st key q = false.
Proof.
  unfold hash_table_find. intros Hnone Hq.
  apply list_elem_of_In in Hq.
  by apply (find_none _ _ Hnone) in Hq.
Qed.

Lemma hash_table_find_new hash callid call p blk new_fid st st1 f :
  new_fid ≠ 0 → heap st !! p = None →
  hash_table_find st hash = None →
  async_new_connection hash callid call (Some (p, blk)) new_fid st
    = (st1, f) →
  hash_table_find st1 hash = Some p
  ∧ conn_at st1 p = Some (new_conn hash callid call blk new_fid)
  ∧ conn_hash_table st1 = conn_hash_table st ++ [p]
  ∧ (∀ q, q ≠ p → heap st1 !! q = heap st !! q)
  ∧ timeout_list st1 = timeout_list st ∧ parked st1 = parked st
  ∧ f = new_fid.
Proof.
  intros Hfid Hp Hnone. rewrite async_new_connection_ok by done.
  intros [= <- <-].
  assert (Hc : conn_at
            (emit (FibrilAddReady new_fid)
               (emit FutexUp
                  (hash_table_insert p
                     (emit FutexDown
                        (alloc p
                           (OConn (new_conn hash callid call blk new_fid))
                           st))))) p
          = Some (new_conn hash callid call blk new_fid)).
  { unfold conn_at. st_simpl. by rewrite lookup_insert_eq. }
  split_and!; try done.
  - unfold hash_table_find. st_simpl. apply find_first.
    + apply elem_of_app. right. by left.
    + unfold conn_compare. rewrite Hc. simpl. by apply bool_decide_eq_true.
    + intros q [Hq|Hq%list_elem_of_singleton]%elem_of_app Hne; [|done].
      rewrite <-(hash_table_find_None st hash q Hnone Hq).
      unfold conn_compare, conn_at. st_simpl.
      by rewrite lookup_insert_ne.
  - intros q Hq. st_simpl. by rewrite lookup_insert_ne.
Qed.

Lemma handle_call_connect callid call msg_alloc conn_alloc new_fid st :
  connect_request callid call →
  handle_call callid call msg_alloc conn_alloc new_fid st
  = (async_new_connection (IPC_GET_ARG5 call) callid (Some call) conn_alloc
       new_fid st).1.
Proof.
  intros [Hn Hm]. unfold handle_call.
  rewrite decide_False by (by intros []).
  by rewrite decide_True.
Qed.

Lemma handle_call_route callid call msg_alloc conn_alloc new_fid st :
  routable callid call →
  handle_call callid call msg_alloc conn_alloc new_fid st
  = if (route_call callid call msg_alloc st).2
    then (route_call callid call msg_alloc st).1
    else emit (IpcAnswer0 callid EHANGUP)
           (route_call callid call msg_alloc st).1.
Proof.
  intros (Hn & H1 & H2). unfold handle_call.
  rewrite decide_False by (by intros []).
  rewrite decide_False by (by intros [|]).
  by destruct (route_call _ _ _ _) as [st1 []].
Qed.

(** ** From the dispatcher to the inbox *)

Lemma route_call_active callid call hlp c st :
  hash_table_find st (in_phone_hash call) = Some hlp →
  conn_at st hlp = Some c → active (conn_wdata c) = true →
  new_effects st (route_call callid call true st).1 = [FutexDown; FutexUp]
  ∧ (route_call callid call true st).2 = true.
Proof.
  intros Hfind Hc Hact. unfold route_call.
  change (hash_table_find (emit FutexDown st)) with (hash_table_find st).
  change (conn_at (emit FutexDown st)) with (conn_at st).
  rewrite Hfind, Hc, Hact. simpl. split; [|done].
  apply new_effects_app. destruct (decide _); st_simpl;
    by rewrite <-app_assoc.
Qed.

(** X6. A request for a connection that the dispatcher can serve enters a
    new connection under the phone hash given in the fifth argument of
    the request and makes its fibril ready; a later call that carries
    this phone hash finds the connection and is put in its inbox, the
    inbox having been empty.  Neither call is answered by the
    dispatcher. *)
Theorem handle_call_connect_then_route cid call ma p blk new_fid
    cid2 call2 ca2 nf2 st :
  connect_request cid call → new_fid ≠ 0 → heap st !! p = None →
  hash_table_find st (IPC_GET_ARG5 call) = None →
  routable cid2 call2 → in_phone_hash call2 = IPC_GET_ARG5 call →
  let st1 := handle_call cid call ma (Some (p, blk)) new_fid st in
  let st2 := handle_call cid2 call2 true ca2 nf2 st1 in
  hash_table_find st1 (IPC_GET_ARG5 call) = Some p
  ∧ conn_at st1 p
    = Some (new_conn (IPC_GET_ARG5 call) cid (Some call) blk new_fid)
  ∧ queue_at st1 p = []
  ∧ queue_at st2 p = [mk_msg cid2 call2]
  ∧ new_effects st st1 = [FutexDown; FutexUp; FibrilAddReady new_fid]
  ∧ new_effects st1 st2 = [FutexDown; FutexUp].
Proof.
  intros Hconn Hfid Hp Hnone Hroute Hhash st1 st2.
  assert (E1 : st1 = (async_new_connection (IPC_GET_ARG5 call) cid
                        (Some call) (Some (p, blk)) new_fid st).1)
    by (by apply handle_call_connect).
  destruct (async_new_connection _ _ _ _ _ _) as [st1' f] eqn:Hnew.
  simpl in E1. subst st1'.
  pose proof (hash_table_find_new _ _ _ _ _ _ _ _ _ Hfid Hp Hnone Hnew)
    as (Hfind & Hc & _).
  assert (Hq1 : queue_at st1 p = []) by (unfold queue_at; by rewrite Hc).
  assert (E2 : st2 = (route_call cid2 call2 true st1).1).
  { subst st2. rewrite handle_call_route by done.
    rewrite route_call_result, Hhash, Hfind.
    by rewrite bool_decide_eq_true_2 by (by eexists). }
  split_and!; [done..| | |].
  - rewrite E2, route_call_queue, Hq1, Hhash, decide_True; done.
  - rewrite async_new_connection_ok in Hnew by done.
    injection Hnew as Hst _. rewrite <-Hst. apply new_effects_app.
    unfold hash_table_insert. st_simpl. by rewrite <-!app_assoc.
  - rewrite E2. eapply route_call_active; [by rewrite Hhash|done..].
Qed.

(** X7. What the dispatcher answers itself.  For the call it has received
    it sends at most one answer: [ENOMEM] to a request for a connection
    that cannot be set up, [EHANGUP] to a call that [route_call] turns
    down.  A timeout of the wait, an answer, a notification, a connection
    that is set up and a call that is routed bring no answer from the
    dispatcher. *)
Theorem async_manager_worker_received_answers callid call now' msg_alloc
    conn_alloc new_fid threads st :
  answers_of
    (new_effects st
       (async_manager_worker_received callid call now' msg_alloc conn_alloc
          new_fid threads st).1)
  = if decide (callid = 0 ∨ Z.land callid IPC_CALLID_ANSWERED ≠ 0
               ∨ Z.land callid IPC_CALLID_NOTIFICATION ≠ 0)
    then []
    else if decide (IPC_GET_METHOD call = IPC_M_CONNECT_ME
                    ∨ IPC_GET_METHOD call = IPC_M_CONNECT_ME_TO)
    then (if decide (is_Some conn_alloc ∧ new_fid ≠ 0) then []
          else [(callid, ENOMEM)])
    else if decide (is_Some (hash_table_find st (in_phone_hash call))
                    ∧ msg_alloc = true)
    then [] else [(callid, EHANGUP)].
Proof.
  unfold async_manager_worker_received.
  destruct (decide (callid = 0)) as [->|Hcid]; cbn [fst].
  { rewrite (decide_True (P := _ ∨ _)) by (by left).
    apply quiet_answers, handle_expired_timeouts_quiet. }
  destruct (decide (Z.land callid IPC_CALLID_ANSWERED ≠ 0)) as [Ha|Ha];
    cbn [fst].
  { rewrite (decide_True (P := _ ∨ _)) by (right; by left).
    apply quiet_answers, quiet_refl. }
  destruct (decide (Z.land callid IPC_CALLID_NOTIFICATION ≠ 0)) as [Hn|Hn].
  { rewrite (decide_True (P := _ ∨ _)) by (right; by right).
    unfold handle_call. rewrite decide_True by done.
    apply quiet_answers, process_notification_quiet. }
  rewrite (decide_False (P := _ ∨ _ ∨ _)) by naive_solver.
  assert (Hn0 : Z.land callid IPC_CALLID_NOTIFICATION = 0) by lia.
  destruct (decide (IPC_GET_METHOD call = IPC_M_CONNECT_ME
                    ∨ IPC_GET_METHOD call = IPC_M_CONNECT_ME_TO))
    as [Hm|Hm].
  - rewrite handle_call_connect by (by split).
    unfold async_new_connection.
    destruct conn_alloc as [[p blk]|]; cbn [fst].
    + destruct (decide (new_fid = 0)) as [->|Hfid]; cbn [fst].
      * destruct (decide (_ ∧ _)) as [[_ ?]|_]; [done|].
        rewrite decide_True by done. apply quiet_answer.
        apply quiet_emit; [|done]. eapply quiet_same; [apply quiet_refl|done].
      * destruct (decide (_ ∧ _)) as [_|Hno].
        2:{ exfalso. apply Hno. split; [by eexists|done]. }
        apply quiet_answers. unfold hash_table_insert.
        do 2 (apply quiet_emit; [|done]).
        eapply quiet_same; [|reflexivity].
        apply quiet_emit; [|done]. eapply quiet_same; [apply quiet_refl|done].
    + destruct (decide (_ ∧ _)) as [[[? [=]] _]|_].
      rewrite decide_True by done. apply quiet_answer, quiet_refl.
  - rewrite handle_call_route by (split_and!; [done|naive_solver..]).
    rewrite route_call_result.
    pose proof (route_call_quiet callid call msg_alloc st) as Hq.
    destruct (decide (is_Some (hash_table_find st (in_phone_hash call))
                      ∧ msg_alloc = true)) as [[Hs ->]|Hno].
    + rewrite bool_decide_eq_true_2 by done. simpl.
      by apply quiet_answers.
    + replace (bool_decide _ && msg_alloc) with false.
      * by apply quiet_answer.
      * symmetry. apply andb_false_iff.
        destruct msg_alloc; [left|by right].
        apply bool_decide_eq_false. naive_solver.
Qed.

(** ** The default handler *)

(** X8. With the default handler in place a request for a connection is
    refused: the connection is set up and entered in the table, and its
    fibril answers the request with [ENOENT] and nothing else.  When the
    handler has returned, the fibril takes the connection out of the table
    again, which leaves the table as it was, and the record is freed.
    What [connection_fibril] does next it reads from the freed record, so
    every connection the default handler refuses ends in a read of freed
    memory. *)
Theorem default_client_connection_refuses cid call ma p blk new_fid st :
  table_inv st → connect_request cid call → new_fid ≠ 0 →
  heap st !! p = None → p ∉ freed st →
  hash_table_find st (IPC_GET_ARG5 call) = None →
  let st1 := handle_call cid call ma (Some (p, blk)) new_fid st in
  let st2 := default_client_connection cid call st1 in
  conn_at st1 p
  = Some (new_conn (IPC_GET_ARG5 call) cid (Some call) blk new_fid)
  ∧ (∃ st3, connection_fibril_remove p st2 = Some st3
       ∧ new_effects st st3
         = [FutexDown; FutexUp; FibrilAddReady new_fid;
            IpcAnswer0 cid ENOENT; FutexDown; Free p; FutexUp]
       ∧ conn_hash_table st3 = conn_hash_table st
       ∧ hash_table_find st3 (IPC_GET_ARG5 call) = None
       ∧ p ∈ freed st3
       ∧ connection_fibril_drain p st3 = None)
  ∧ connection_fibril_start default_client_connection p st1 = None.
Proof.
  intros [Hinv _] Hconn Hfid Hp Hlive Hnone st1 st2.
  assert (E1 : st1 = (async_new_connection (IPC_GET_ARG5 call) cid
                        (Some call) (Some (p, blk)) new_fid st).1)
    by (by apply handle_call_connect).
  destruct (async_new_connection _ _ _ _ _ _) as [st1' f] eqn:Hnew.
  simpl in E1. subst st1'.
  pose proof (hash_table_find_new _ _ _ _ _ _ _ _ _ Hfid Hp Hnone Hnew)
    as (Hfind & Hc & Htab & Hheap & _).
  assert (Hst1 : effects st1
                 = effects st
                     ++ [FutexDown; FutexUp; FibrilAddReady new_fid]
                 ∧ freed st1 = freed st).
  { rewrite async_new_connection_ok in Hnew by done.
    injection Hnew as Hst _. rewrite <-Hst.
    unfold hash_table_insert. st_simpl. by rewrite <-!app_assoc. }
  destruct Hst1 as [He1 Hf1].
  pose proof (table_conns_fresh st p Hinv Hp) as Hnotin.
  assert (Hl2 : live_conn_at st2 p
                = Some (new_conn (IPC_GET_ARG5 call) cid (Some call) blk
                          new_fid)).
  { apply live_conn_at_Some. split; [done|].
    unfold st2, default_client_connection. st_simpl. by rewrite Hf1. }
  assert (Hrem : ∃ st3, connection_fibril_remove p st2 = Some st3
       ∧ new_effects st st3
         = [FutexDown; FutexUp; FibrilAddReady new_fid;
            IpcAnswer0 cid ENOENT; FutexDown; Free p; FutexUp]
       ∧ conn_hash_table st3 = conn_hash_table st
       ∧ hash_table_find st3 (IPC_GET_ARG5 call) = None
       ∧ p ∈ freed st3
       ∧ connection_fibril_drain p st3 = None).
  { unfold connection_fibril_remove. rewrite Hl2. simpl.
    assert (Hrm : hash_table_remove (IPC_GET_ARG5 call) (emit FutexDown st2)
                  = conn_remove p
                      (set_conn_hash_table (conn_hash_table st)
                         (emit FutexDown st2))).
    { unfold hash_table_remove.
      change (hash_table_find (emit FutexDown st2))
        with (hash_table_find st1).
      rewrite Hfind.
      change (conn_hash_table (emit FutexDown st2))
        with (conn_hash_table st1).
      by rewrite Htab, unlink_first_snoc. }
    rewrite Hrm. eexists. split; [done|].
    unfold st2, default_client_connection. split_and!.
    - apply new_effects_app. st_simpl. rewrite He1.
      by rewrite <-!app_assoc.
    - done.
    - unfold hash_table_find. st_simpl.
      apply find_all_false. intros q Hq.
      rewrite <-(hash_table_find_None st _ q Hnone Hq).
      unfold conn_compare, conn_at. st_simpl.
      rewrite Hheap; [done|]. by intros ->.
    - st_simpl. set_solver.
    - unfold connection_fibril_drain, live_conn_at. st_simpl.
      rewrite decide_True by set_solver. done. }
  split; [done|]. split; [exact Hrem|].
  destruct Hrem as (st3 & Hr & _ & _ & _ & _ & Hd).
  unfold connection_fibril_start.
  assert (live_conn_at st1 p
          = Some (new_conn (IPC_GET_ARG5 call) cid (Some call) blk new_fid))
    as ->.
  { apply live_conn_at_Some. split; [done|]. by rewrite Hf1. }
  simpl. unfold connection_fibril.
  change (default_client_connection cid call st1) with st2.
  by rewrite Hr.
Qed.

(** ** Parking and waking *)

Lemma exec_resume p fr w st :
  parked st !! p = Some fr → wdata_at st p = Some w → active w = true →
  exec (LResume p) st = resume p fr (with_parked (delete p) st).
Proof.
  intros Hfr Hw Ha. simpl. rewrite Hfr. simpl. rewrite Hw. simpl.
  by rewrite Ha, option_guard_True.
Qed.

Lemma exec_resume_inactive p w st :
  wdata_at st p = Some w → active w = false → exec (LResume p) st = None.
Proof.
  intros Hw Ha. simpl. destruct (parked st !! p); [|done]. simpl.
  rewrite Hw. simpl. rewrite Ha. by rewrite option_guard_False.
Qed.

Lemma conn_at_heap st st' p f c :
  heap st' !! p = obj_with_wdata f <$> heap st !! p →
  conn_at st p = Some c → conn_at st' p = Some (with_conn_wdata f c).
Proof.
  unfold conn_at. intros ->. by destruct (heap st !! p) as [[?|?]|]; intros [= ->].
Qed.

Lemma msg_at_heap st st' p f m :
  heap st' !! p = obj_with_wdata f <$> heap st !! p →
  msg_at st p = Some m → msg_at st' p = Some (with_msg_wdata f m).
Proof.
  unfold msg_at. intros ->. by destruct (heap st !! p) as [[?|?]|]; intros [= ->].
Qed.

Lemma heap_eq_conn_at st st' p :
  heap st' !! p = heap st !! p → conn_at st' p = conn_at st p.
Proof. unfold conn_at. by intros ->. Qed.

Lemma heap_eq_msg_at st st' p :
  heap st' !! p = heap st !! p → msg_at st' p = msg_at st p.
Proof. unfold msg_at. by intros ->. Qed.

Lemma heap_eq_wdata_at st st' p :
  heap st' !! p = heap st !! p → wdata_at st' p = wdata_at st p.
Proof. unfold wdata_at. by intros ->. Qed.

Lemma async_insert_timeout_is_Some wd w st :
  wdata_at st wd = Some w →
  async_insert_timeout wd st
  = Some (set_timeout_list
            (insert_walk st (expires (to_event w)) wd (timeout_list st))
            (upd_wdata wd (set_inlist true)
               (upd_wdata wd (set_occurred false) st))).
Proof.
  intros Hw.
  destruct (async_insert_timeout wd st) as [st'|] eqn:H.
  - apply async_insert_timeout_Some in H as (w' & Hw' & ->).
    rewrite Hw in Hw'. by injection Hw' as <-.
  - unfold async_insert_timeout in H. rewrite Hw in H. simpl in H.
    rewrite !wdata_at_upd_wdata, !decide_True, Hw in H by done.
    done.
Qed.

(** The state in which [async_get_call_timeout] leaves a connection
    whose inbox is empty and which has not been hung up. *)
Lemma async_get_call_timeout_parks conn c usecs now st :
  conn_at st conn = Some c → msg_queue c = [] → close_callid c = 0 →
  ∃ st1 w1,
    async_get_call_timeout conn usecs now st = Some (st1, Switched)
    ∧ conn_at st1 conn
      = Some (mk_conn w1 (conn_in_phone_hash c) [] (conn_callid c)
                (conn_call c) 0)
    ∧ fid w1 = fid (conn_wdata c) ∧ active w1 = false
    ∧ (usecs ≠ 0 → expires (to_event w1) = now + usecs
                    ∧ conn ∈ timeout_list st1
                    ∧ inlist (to_event w1) = true)
    ∧ (usecs = 0 → timeout_list st1 = timeout_list st
                    ∧ inlist (to_event w1) = false)
    ∧ parked st1 = <[conn := FGetCall usecs]> (parked st)
    ∧ conn_hash_table st1 = conn_hash_table st
    ∧ (∀ q, q ≠ conn → heap st1 !! q = heap st !! q).
Proof.
  intros Hc Hq Hclose. unfold async_get_call_timeout. rewrite Hc. simpl.
  destruct c as [w hash queue cid ccall close]. simpl in *. subst.
  destruct (decide (usecs ≠ 0)) as [Hu|Hu].
  - set (st_a := upd_wdata conn (set_expires (tv_add now usecs))
                   (emit FutexDown st)).
    assert (Hca : conn_at st_a conn
              = Some (mk_conn (set_expires (tv_add now usecs) w) hash []
                        cid ccall 0)).
    { subst st_a. autorewrite with heap_read. rewrite decide_True by done.
      by rewrite Hc. }
    unfold get_call_loop. rewrite Hca. simpl.
    rewrite decide_True by done.
    erewrite async_insert_timeout_is_Some
      by (apply wdata_at_conn in Hca; exact Hca).
    simpl. eexists _, _. split; [done|]. split_and!.
    + autorewrite with heap_read. rewrite !decide_True by done.
      rewrite Hca. simpl. reflexivity.
    + done.
    + done.
    + intros _. split_and!; [done| |done]. st_simpl.
      apply insert_walk_elem_of. by left.
    + done.
    + done.
    + done.
    + intros q Hne. subst st_a. st_simpl. by rewrite !lookup_alter_ne.
  - assert (usecs = 0) as -> by (destruct (decide (usecs = 0)); [done|];
                                  exfalso; by apply Hu).
    set (st_a := upd_wdata conn (set_inlist false) (emit FutexDown st)).
    assert (Hca : conn_at st_a conn
              = Some (mk_conn (set_inlist false w) hash [] cid ccall 0)).
    { subst st_a. autorewrite with heap_read. rewrite decide_True by done.
      by rewrite Hc. }
    unfold get_call_loop. rewrite Hca. simpl. eexists _, _. split; [done|]. split_and!.
    + autorewrite with heap_read. rewrite !decide_True by done.
      rewrite Hca. simpl. reflexivity.
    + done.
    + done.
    + done.
    + done.
    + done.
    + done.
    + intros q Hne. subst st_a. st_simpl. by rewrite !lookup_alter_ne.
Qed.

Lemma exec_get_call_timeout conn usecs now st :
  parked st !! conn = None →
  exec (LGetCallTimeout conn usecs now) st
  = '(st', r) ← async_get_call_timeout conn usecs now st;
    Some (st', OGetCall r).
Proof. intros Hp. simpl. by rewrite option_guard_True. Qed.

(** X9. A server fibril that reads its inbox with a timeout while the
    inbox is empty is parked in the timeout list with the deadline
    [now + usecs].  No sweep before the deadline lets it run.  The first
    sweep at or after the deadline makes its fibril ready, and the read
    then returns the call id [0] without storing a call. *)
Theorem async_get_call_timeout_expires conn c usecs now st :
  timeout_inv st → conn_at st conn = Some c → msg_queue c = [] →
  close_callid c = 0 → usecs ≠ 0 → parked st !! conn = None →
  ∃ st1, exec (LGetCallTimeout conn usecs now) st
         = Some (st1, OGetCall Switched)
    ∧ conn ∈ timeout_list st1
    ∧ expires_at st1 conn = now + usecs
    ∧ (∀ tv, tv < now + usecs →
         exec (LResume conn) (handle_expired_timeouts tv st1) = None)
    ∧ (∀ tv, now + usecs <= tv →
         FibrilAddReady (fid (conn_wdata c))
           ∈ new_effects st1 (handle_expired_timeouts tv st1)
         ∧ ∃ st3, exec (LResume conn) (handle_expired_timeouts tv st1)
                  = Some (st3, OGetCall (Return (0, None)))
             ∧ (conn ∉ timeout_list st3) ∧ queue_at st3 conn = []).
Proof.
  intros Hinv Hc Hq Hclose Hu Hpk.
  destruct (async_get_call_timeout_parks conn c usecs now st Hc Hq Hclose)
    as (st1 & w1 & Hget & Hc1 & Hfid & Hact & Hexp & _ & Hpk1 & _).
  destruct (Hexp Hu) as (He & Hin & _).
  assert (Hexec : exec (LGetCallTimeout conn usecs now) st
                  = Some (st1, OGetCall Switched)).
  { rewrite exec_get_call_timeout by done. by rewrite Hget. }
  assert (Hinv1 : timeout_inv st1) by (by eapply exec_timeout_inv).
  assert (He1 : expires_at st1 conn = now + usecs).
  { unfold expires_at. by rewrite (wdata_at_conn _ _ _ Hc1). }
  exists st1. split_and!; [done..| |].
  - intros tv Htv.
    destruct (handle_expired_timeouts_spec tv st1 Hinv1)
      as (_ & _ & _ & Hsame & _).
    eapply exec_resume_inactive; [|exact Hact].
    rewrite (heap_eq_wdata_at st1) by (apply Hsame; right; lia).
    by apply wdata_at_conn in Hc1.
  - intros tv Htv.
    destruct (handle_expired_timeouts_spec tv st1 Hinv1)
      as (Htl & Heff & Hwoken & _ & Hpk2 & _).
    set (st2 := handle_expired_timeouts tv st1) in *.
    assert (Hc2 : conn_at st2 conn
              = Some (with_conn_wdata woken
                        (mk_conn w1 (conn_in_phone_hash c) []
                           (conn_callid c) (conn_call c) 0))).
    { eapply conn_at_heap; [|done]. apply Hwoken; [done|lia]. }
    split.
    + rewrite Heff. right. apply elem_of_app. left.
      replace (fid (conn_wdata c)) with (fid_at st1 conn).
      2:{ unfold fid_at. by rewrite (wdata_at_conn _ _ _ Hc1). }
      apply (list_elem_of_fmap_2 (λ q, FibrilAddReady (fid_at st1 q))).
      apply list_elem_of_filter. split; [lia|done].
    + erewrite exec_resume.
      2:{ rewrite Hpk2, Hpk1. apply lookup_insert_eq. }
      2:{ by apply wdata_at_conn in Hc2. }
      2:{ done. }
      simpl. unfold async_get_call_timeout_resume.
      autorewrite with heap_read. rewrite Hc2. simpl.
      rewrite bool_decide_eq_true_2 by done. simpl.
      eexists. split; [done|]. split.
      * st_simpl. rewrite Htl, list_elem_of_filter. lia.
      * unfold queue_at. autorewrite with heap_read. by rewrite Hc2.
Qed.

Lemma hash_table_find_ext st st' key :
  conn_hash_table st' = conn_hash_table st →
  (∀ q, q ∈ conn_hash_table st →
     conn_in_phone_hash <$> conn_at st' q
     = conn_in_phone_hash <$> conn_at st q) →
  hash_table_find st' key = hash_table_find st key.
Proof.
  unfold hash_table_find. intros -> Hsame.
  induction (conn_hash_table st) as [|x l IH]; [done|]. simpl.
  assert (Hx : conn_compare st' key x = conn_compare st key x).
  { unfold conn_compare. specialize (Hsame x ltac:(by left)).
    destruct (conn_at st' x) as [c1|], (conn_at st x) as [c2|];
      simpl in *; try done.
    injection Hsame as Hsame. by rewrite Hsame. }
  rewrite Hx. destruct (conn_compare st key x); [done|].
  apply IH. intros q Hq. apply Hsame. by right.
Qed.

(** What [route_call] does for a connection whose fibril is waiting. *)
Lemma route_call_wakes callid call hlp c st :
  hash_table_find st (in_phone_hash call) = Some hlp →
  conn_at st hlp = Some c → active (conn_wdata c) = false →
  (route_call callid call true st).2 = true
  ∧ new_effects st (route_call callid call true st).1
    = [FutexDown; FibrilAddReady (fid (conn_wdata c)); FutexUp]
  ∧ (∃ c', conn_at (route_call callid call true st).1 hlp = Some c'
         ∧ msg_queue c' = msg_queue c ++ [mk_msg callid call]
         ∧ active (conn_wdata c') = true
         ∧ close_callid c'
           = (if decide (IPC_GET_METHOD call = IPC_M_PHONE_HUNGUP)
              then callid else close_callid c))
  ∧ timeout_list (route_call callid call true st).1
    = (if inlist (to_event (conn_wdata c))
       then list_remove hlp (timeout_list st) else timeout_list st)
  ∧ parked (route_call callid call true st).1 = parked st.
Proof.
  intros Hfind Hc Hact. unfold route_call.
  change (hash_table_find (emit FutexDown st)) with (hash_table_find st).
  change (conn_at (emit FutexDown st)) with (conn_at st).
  rewrite Hfind, Hc, Hact. cbn [negb fst snd].
  destruct c as [w hash queue cid ccall close]. simpl in *.
  split; [done|]. split_and!.
  - apply new_effects_app.
    destruct (decide _), (inlist (to_event w)); st_simpl;
      by rewrite <-!app_assoc.
  - destruct (decide _), (inlist (to_event w)); eexists;
      (split; [autorewrite with heap_read; rewrite ?decide_True by done;
               rewrite Hc; simpl; reflexivity|done]).
  - by destruct (decide _), (inlist (to_event w)).
  - by destruct (decide _), (inlist (to_event w)).
Qed.

Lemma async_insert_timeout_quiet wd st0 st st' :
  quiet st0 st → async_insert_timeout wd st = Some st' → quiet st0 st'.
Proof.
  intros H0 (w & _ & ->)%async_insert_timeout_Some. solve_quiet.
Qed.

Lemma get_call_loop_quiet conn usecs st0 st st' r :
  quiet st0 st → get_call_loop conn usecs st = Some (st', r) →
  quiet st0 st'.
Proof.
  intros H0. unfold get_call_loop.
  destruct (conn_at st conn) as [c|]; [|done]. simpl.
  destruct (msg_queue c) as [|msg rest].
  - destruct (decide (close_callid c ≠ 0)).
    { intros [= <- _]. solve_quiet. }
    destruct (decide (usecs ≠ 0)); simpl.
    + destruct (async_insert_timeout conn st) as [st1|] eqn:Hins; [|done].
      simpl. intros [= <- _]. apply quiet_park, quiet_upd_wdata.
      by eapply async_insert_timeout_quiet.
    + intros [= <- _]. solve_quiet.
  - intros [= <- _]. solve_quiet.
Qed.

Lemma async_get_call_timeout_quiet conn usecs now st st' r :
  async_get_call_timeout conn usecs now st = Some (st', r) → quiet st st'.
Proof.
  unfold async_get_call_timeout.
  destruct (conn_at st conn) as [c|]; [|done]. simpl.
  apply get_call_loop_quiet. destruct (decide _); solve_quiet.
Qed.

Lemma async_get_call_timeout_resume_quiet conn usecs st st' r :
  async_get_call_timeout_resume conn usecs st = Some (st', r) →
  quiet st st'.
Proof.
  unfold async_get_call_timeout_resume.
  destruct (conn_at st conn) as [c|]; [|done]. simpl.
  destruct (_ && _).
  - intros [= <- _]. solve_quiet.
  - apply get_call_loop_quiet. solve_quiet.
Qed.

(** A fibril that waits on its empty inbox and the call that wakes it. *)
Lemma async_get_call_timeout_woken conn c usecs now cid call ca nf st :
  timeout_inv st → conn_at st conn = Some c → msg_queue c = [] →
  close_callid c = 0 → parked st !! conn = None →
  routable cid call →
  hash_table_find st (in_phone_hash call) = Some conn →
  ∃ st1 w1 w2,
    async_get_call_timeout conn usecs now st = Some (st1, Switched)
    ∧ wdata_at st1 conn = Some w1 ∧ active w1 = false
    ∧ new_effects st1 (handle_call cid call true ca nf st1)
      = [FutexDown; FibrilAddReady (fid (conn_wdata c)); FutexUp]
    ∧ (conn ∉ timeout_list (handle_call cid call true ca nf st1))
    ∧ parked (handle_call cid call true ca nf st1) !! conn
      = Some (FGetCall usecs)
    ∧ wdata_at (handle_call cid call true ca nf st1) conn = Some w2
    ∧ active w2 = true
    ∧ ∃ st3, async_get_call_timeout_resume conn usecs
               (with_parked (delete conn)
                  (handle_call cid call true ca nf st1))
             = Some (st3, Return (cid, Some call))
        ∧ queue_at st3 conn = [].
Proof.
  intros Hinv Hc Hq Hclose Hpk Hroute Hfind.
  destruct (async_get_call_timeout_parks conn c usecs now st Hc Hq Hclose)
    as (st1 & w1 & Hget & Hc1 & Hfid & Hact & Hexp & Hnoexp & Hpk1 & Htab
        & Hheap).
  assert (Hexec : exec (LGetCallTimeout conn usecs now) st
                  = Some (st1, OGetCall Switched)).
  { rewrite exec_get_call_timeout by done. by rewrite Hget. }
  assert (Hinv1 : timeout_inv st1) by (by eapply exec_timeout_inv).
  assert (Hfind1 : hash_table_find st1 (in_phone_hash call) = Some conn).
  { rewrite <-Hfind. apply hash_table_find_ext; [done|].
    intros q _. destruct (decide (q = conn)) as [->|Hne].
    - by rewrite Hc1, Hc.
    - by rewrite (heap_eq_conn_at st st1) by (by apply Hheap). }
  destruct (route_call_wakes cid call conn _ st1 Hfind1 Hc1 Hact)
    as (Hres & Heff & (c2 & Hc2 & Hq2 & Hact2 & _) & Htl2 & Hpk2).
  assert (E2 : handle_call cid call true ca nf st1
               = (route_call cid call true st1).1).
  { rewrite handle_call_route by done. by rewrite Hres. }
  exists st1, w1, (conn_wdata c2). rewrite E2.
  split_and!; [done| |done| | | | |done|].
  - by apply wdata_at_conn in Hc1.
  - rewrite Heff. simpl. by rewrite Hfid.
  - rewrite Htl2. simpl.
    destruct (decide (usecs = 0)) as [Hu|Hu].
    + destruct (Hnoexp Hu) as [Htl1 ->]. rewrite Htl1.
      by apply linked_parked.
    + destruct (Hexp Hu) as (_ & _ & ->).
      rewrite elem_of_list_remove. by intros [].
  - rewrite Hpk2, Hpk1. apply lookup_insert_eq.
  - by apply wdata_at_conn in Hc2.
  - unfold async_get_call_timeout_resume.
    autorewrite with heap_read. rewrite Hc2. simpl. rewrite Hq2.
    rewrite (bool_decide_eq_false_2 (_ = [])) by done.
    rewrite andb_false_r. unfold get_call_loop.
    autorewrite with heap_read. rewrite Hc2. simpl. rewrite Hq2. simpl.
    eexists. split; [done|].
    unfold queue_at. autorewrite with heap_read.
    rewrite decide_True by done. by rewrite Hc2.
Qed.

(** X10. A server fibril that waits on its empty inbox, with or without a
    timeout, cannot run until something wakes it.  A call that the
    dispatcher routes to the connection takes the fibril off the timeout
    list, makes it ready exactly once, and the read then returns this
    call and leaves the inbox empty. *)
Theorem async_get_call_woken_by_call conn c usecs now cid call ca nf st :
  timeout_inv st → conn_at st conn = Some c → msg_queue c = [] →
  close_callid c = 0 → parked st !! conn = None →
  routable cid call →
  hash_table_find st (in_phone_hash call) = Some conn →
  ∃ st1, exec (LGetCallTimeout conn usecs now) st
         = Some (st1, OGetCall Switched)
    ∧ exec (LResume conn) st1 = None
    ∧ new_effects st1 (handle_call cid call true ca nf st1)
      = [FutexDown; FibrilAddReady (fid (conn_wdata c)); FutexUp]
    ∧ (conn ∉ timeout_list (handle_call cid call true ca nf st1))
    ∧ ∃ st3, exec (LResume conn) (handle_call cid call true ca nf st1)
             = Some (st3, OGetCall (Return (cid, Some call)))
        ∧ queue_at st3 conn = [].
Proof.
  intros Hinv Hc Hq Hclose Hpk Hroute Hfind.
  destruct (async_get_call_timeout_woken conn c usecs now cid call ca nf st)
    as (st1 & w1 & w2 & Hget & Hw1 & Hact1 & Heff & Hnotin & Hpk2 & Hw2
        & Hact2 & st3 & Hres & Hq3); [done..|].
  exists st1. split_and!; [|by eapply exec_resume_inactive|done..|].
  - rewrite exec_get_call_timeout by done. by rewrite Hget.
  - exists st3. split; [|done].
    erewrite exec_resume by done. simpl. by rewrite Hres.
Qed.

(** ** Sleeping and waiting with a timeout *)

(** What [reply_received] leaves behind. *)
Lemma reply_received_spec p m rv data st :
  msg_at st p = Some m →
  ∃ st' m',
    reply_received p rv data st = Some st'
    ∧ msg_at st' p = Some m'
    ∧ done m' = true ∧ retval m' = int_to_ipcarg rv
    ∧ dataptr m' = dataptr m
    ∧ active (msg_wdata m') = true ∧ fid (msg_wdata m') = fid (msg_wdata m)
    ∧ timeout_list st'
      = (if inlist (to_event (msg_wdata m))
         then list_remove p (timeout_list st) else timeout_list st)
    ∧ new_effects st st'
      = FutexDown
        :: (if active (msg_wdata m) then []
            else [FibrilAddReady (fid (msg_wdata m))])
        ++ [FutexUp]
    ∧ parked st' = parked st
    ∧ conn_hash_table st' = conn_hash_table st
    ∧ call_store st'
      = match data with
        | Some d =>
            if decide (dataptr m ≠ 0)
            then <[dataptr m := d]> (call_store st) else call_store st
        | None => call_store st
        end
    ∧ (∀ q, q ≠ p → heap st' !! q = heap st !! q).
Proof.
  intros Hm. unfold reply_received. rewrite Hm. simpl.
  destruct m as [w dn dp rt]. simpl.
  destruct (active w) eqn:Hact;
    (eexists _, _; split; [done|]; split_and!;
     [ destruct (inlist (to_event w)), data as [d|];
         try destruct (decide (dp ≠ 0));
         autorewrite with heap_read; rewrite ?decide_True by done;
         rewrite Hm; simpl; reflexivity
     | done | done | done | done | done
     | by destruct (inlist (to_event w)), data as [d|];
         try destruct (decide (dp ≠ 0))
     | apply new_effects_app;
       destruct (inlist (to_event w)), data as [d|];
         try destruct (decide (dp ≠ 0)); st_simpl; by rewrite <-?app_assoc
     | by destruct (inlist (to_event w)), data as [d|];
         try destruct (decide (dp ≠ 0))
     | by destruct (inlist (to_event w)), data as [d|];
         try destruct (decide (dp ≠ 0))
     | by destruct (inlist (to_event w)), data as [d|];
         try destruct (decide (dp ≠ 0))
     | intros q Hq;
       destruct (inlist (to_event w)), data as [d|];
         try destruct (decide (dp ≠ 0)); st_simpl;
         by rewrite !lookup_alter_ne ]).
Qed.

(** The state in which [async_wait_timeout] leaves a message that has no
    reply yet. *)
Lemma async_wait_timeout_parks p m rp timeout now self st :
  msg_at st p = Some m → done m = false → 0 <= timeout →
  ∃ st1 w1,
    async_wait_timeout p rp timeout now self st = Some (st1, Switched)
    ∧ msg_at st1 p = Some (mk_amsg w1 false (dataptr m) (retval m))
    ∧ fid w1 = self ∧ active w1 = false ∧ inlist (to_event w1) = true
    ∧ expires (to_event w1) = now + timeout
    ∧ p ∈ timeout_list st1
    ∧ parked st1 = <[p := FWaitTimeout rp]> (parked st)
    ∧ call_store st1 = call_store st
    ∧ (∀ q, q ≠ p → heap st1 !! q = heap st !! q).
Proof.
  intros Hm Hd Ht. unfold async_wait_timeout.
  rewrite decide_False by lia. rewrite Hm. simpl. rewrite Hd.
  destruct m as [w dn dp rt]. simpl in *. subst dn.
  set (st_a := upd_wdata p (set_active false)
                 (upd_wdata p (set_fid self)
                    (upd_wdata p (set_expires (tv_add now timeout))
                       (emit FutexDown st)))).
  assert (Hma : msg_at st_a p
            = Some (mk_amsg (set_active false (set_fid self
                       (set_expires (tv_add now timeout) w))) false dp rt)).
  { subst st_a. autorewrite with heap_read. rewrite !decide_True by done.
    by rewrite Hm. }
  erewrite async_insert_timeout_is_Some
    by (apply wdata_at_msg in Hma; exact Hma).
  simpl. eexists _, _. split; [done|]. split_and!.
  - autorewrite with heap_read. rewrite !decide_True by done.
    rewrite Hma. simpl. reflexivity.
  - done.
  - done.
  - done.
  - done.
  - st_simpl. apply insert_walk_elem_of. by left.
  - done.
  - done.
  - intros q Hne. subst st_a. st_simpl. by rewrite !lookup_alter_ne.
Qed.

Lemma exec_wait_timeout p rp timeout now self st :
  parked st !! p = None →
  exec (LWaitTimeout p rp timeout now self) st
  = '(st', r) ← async_wait_timeout p rp timeout now self st;
    Some (st', OWaitTimeout r).
Proof. intros Hp. simpl. rewrite option_guard_True; [done|by right]. Qed.

(** X11. A fibril that waits for a reply with a timeout is parked in the
    timeout list.  When the reply arrives first, [reply_received] takes
    the fibril off the list and makes it ready, and the wait then
    returns [0], stores the status of the reply as the [ipcarg_t] it was
    kept as in [retval], and frees the message. *)
Theorem async_wait_timeout_reply_in_time p m rp timeout now self rv data st :
  timeout_inv st → msg_at st p = Some m → done m = false →
  0 <= timeout → parked st !! p = None →
  ∃ st1 st2 st3,
    exec (LWaitTimeout p rp timeout now self) st
      = Some (st1, OWaitTimeout Switched)
    ∧ p ∈ timeout_list st1
    ∧ exec (LReplyReceived p rv data) st1 = Some (st2, OVoid)
    ∧ (p ∉ timeout_list st2)
    ∧ new_effects st1 st2 = [FutexDown; FibrilAddReady self; FutexUp]
    ∧ exec (LResume p) st2
      = Some (st3,
              OWaitTimeout
                (Return (0, if rp then Some (int_to_ipcarg rv) else None)))
    ∧ new_effects st2 st3 = [Free p].
Proof.
  intros Hinv Hm Hd Ht Hpk.
  destruct (async_wait_timeout_parks p m rp timeout now self st Hm Hd Ht)
    as (st1 & w1 & Hwait & Hm1 & Hfid & Hact & Hin & He & Hl1 & Hpk1 & _).
  destruct (reply_received_spec p _ rv data st1 Hm1)
    as (st2 & m2 & Hrep & Hm2 & Hd2 & Hrv2 & _ & Hact2 & _ & Htl2 & Heff2
        & Hpk2 & _).
  simpl in Htl2, Heff2. rewrite Hin in Htl2. rewrite Hact, Hfid in Heff2.
  exists st1, st2. eexists. split_and!.
  - rewrite exec_wait_timeout by done. by rewrite Hwait.
  - done.
  - simpl. by rewrite Hrep.
  - rewrite Htl2, elem_of_list_remove. by intros [].
  - done.
  - erewrite exec_resume.
    2:{ rewrite Hpk2, Hpk1. apply lookup_insert_eq. }
    2:{ by apply wdata_at_msg in Hm2. }
    2:{ done. }
    simpl. unfold async_wait_timeout_resume, wait_timeout_done.
    autorewrite with heap_read. rewrite Hm2. simpl. rewrite Hd2. simpl.
    rewrite Hrv2. reflexivity.
  - by apply new_effects_app.
Qed.

Lemma exec_wait_for p rp self st :
  parked st !! p = None →
  exec (LWaitFor p rp self) st
  = '(st', r) ← async_wait_for p rp self st; Some (st', OWaitFor r).
Proof. intros Hp. simpl. by rewrite option_guard_True. Qed.

(** X12. A wait that ran into its timeout returns [ETIMEOUT] and leaves
    the message in place.  A reply that arrives afterwards is recorded
    without waking anybody, and a second wait on the same message then
    returns at once with the status of that reply, as the [ipcarg_t] it
    was kept as in [retval], and frees the message. *)
Theorem async_wait_timeout_late_reply p m rp timeout now self tv rv data
    rp' self' st :
  timeout_inv st → msg_at st p = Some m → done m = false →
  0 <= timeout → parked st !! p = None → now + timeout <= tv →
  ∃ st1 st3 st4 st5,
    exec (LWaitTimeout p rp timeout now self) st
      = Some (st1, OWaitTimeout Switched)
    ∧ exec (LResume p) (handle_expired_timeouts tv st1)
      = Some (st3, OWaitTimeout (Return (ETIMEOUT, None)))
    ∧ new_effects (handle_expired_timeouts tv st1) st3 = []
    ∧ exec (LReplyReceived p rv data) st3 = Some (st4, OVoid)
    ∧ new_effects st3 st4 = [FutexDown; FutexUp]
    ∧ exec (LWaitFor p rp' self') st4
      = Some (st5,
              OWaitFor
                (Return (if rp' then Some (int_to_ipcarg rv) else None)))
    ∧ new_effects st4 st5 = [FutexDown; FutexUp; Free p].
Proof.
  intros Hinv Hm Hd Ht Hpk Htv.
  destruct (async_wait_timeout_parks p m rp timeout now self st Hm Hd Ht)
    as (st1 & w1 & Hwait & Hm1 & Hfid & Hact & Hin & He & Hl1 & Hpk1 & _).
  assert (Hexec : exec (LWaitTimeout p rp timeout now self) st
                  = Some (st1, OWaitTimeout Switched)).
  { rewrite exec_wait_timeout by done. by rewrite Hwait. }
  assert (Hinv1 : timeout_inv st1) by (by eapply exec_timeout_inv).
  destruct (handle_expired_timeouts_spec tv st1 Hinv1)
    as (_ & _ & Hwoken & _ & Hpk2 & _).
  set (st2 := handle_expired_timeouts tv st1) in *.
  assert (Hm2 : msg_at st2 p
            = Some (with_msg_wdata woken
                      (mk_amsg w1 false (dataptr m) (retval m)))).
  { eapply msg_at_heap; [|done]. apply Hwoken; [done|].
    unfold expires_at. rewrite (wdata_at_msg _ _ _ Hm1). simpl. lia. }
  set (st3 := with_parked (delete p) st2).
  assert (Hm3 : msg_at st3 p
            = Some (with_msg_wdata woken
                      (mk_amsg w1 false (dataptr m) (retval m)))) by done.
  destruct (reply_received_spec p _ rv data st3 Hm3)
    as (st4 & m4 & Hrep & Hm4 & Hd4 & Hrv4 & _ & _ & _ & _ & Heff4 & Hpk4
        & _).
  exists st1, st3, st4. eexists. split_and!.
  - done.
  - fold st2. erewrite exec_resume.
    2:{ rewrite Hpk2, Hpk1. apply lookup_insert_eq. }
    2:{ by apply wdata_at_msg in Hm2. }
    2:{ done. }
    simpl. unfold async_wait_timeout_resume. fold st3. rewrite Hm3.
    reflexivity.
  - apply new_effects_app. by rewrite app_nil_r.
  - simpl. by rewrite Hrep.
  - done.
  - rewrite exec_wait_for.
    2:{ rewrite Hpk4. subst st3. st_simpl. apply lookup_delete_eq. }
    unfold async_wait_for, wait_for_done. rewrite Hm4. simpl.
    rewrite Hd4. autorewrite with heap_read. rewrite Hm4. simpl.
    rewrite Hrv4. reflexivity.
  - apply new_effects_app. st_simpl. by rewrite <-!app_assoc.
Qed.

(** The state in which [async_usleep] leaves its message. *)
Lemma async_usleep_parks timeout now self p blk st :
  ∃ st1 w1,
    async_usleep timeout now self (Some (p, blk)) st = Some (st1, Switched)
    ∧ msg_at st1 p = Some (mk_amsg w1 (done blk) (dataptr blk) (retval blk))
    ∧ fid w1 = self ∧ active w1 = false ∧ inlist (to_event w1) = true
    ∧ expires (to_event w1) = now + timeout
    ∧ p ∈ timeout_list st1
    ∧ parked st1 = <[p := FUsleep]> (parked st).
Proof.
  unfold async_usleep.
  set (st_a := emit FutexDown
                 (upd_wdata p (set_expires (tv_add now timeout))
                    (upd_wdata p (set_active false)
                       (upd_wdata p (set_fid self)
                          (alloc p (OMsg blk) st))))).
  assert (Hma : msg_at st_a p
            = Some (mk_amsg (set_expires (tv_add now timeout)
                       (set_active false (set_fid self (msg_wdata blk))))
                      (done blk) (dataptr blk) (retval blk))).
  { subst st_a. autorewrite with heap_read. rewrite !decide_True by done.
    done. }
  erewrite async_insert_timeout_is_Some
    by (apply wdata_at_msg in Hma; exact Hma).
  simpl. eexists _, _. split; [done|]. split_and!.
  - autorewrite with heap_read. rewrite !decide_True by done.
    rewrite Hma. simpl. reflexivity.
  - done.
  - done.
  - done.
  - done.
  - st_simpl. apply insert_walk_elem_of. by left.
  - done.
Qed.

Lemma exec_usleep timeout now self msg_alloc st :
  fresh_block st msg_alloc = true →
  exec (LUsleep timeout now self msg_alloc) st
  = '(st', r) ← async_usleep timeout now self msg_alloc st;
    Some (st', OUsleep r).
Proof. intros Hp. simpl. by rewrite option_guard_True. Qed.

(** X13. [async_usleep] sleeps for at least the time asked for: its fibril
    is parked with the deadline [now + timeout], no sweep of the timeout
    list before the deadline lets it run, and the first sweep at or after
    the deadline makes it ready; the call then frees its message and
    returns. *)
Theorem async_usleep_sleeps timeout now self p blk st :
  timeout_inv st → p ≠ 0 → heap st !! p = None →
  ∃ st1, exec (LUsleep timeout now self (Some (p, blk))) st
         = Some (st1, OUsleep Switched)
    ∧ p ∈ timeout_list st1
    ∧ expires_at st1 p = now + timeout
    ∧ (∀ tv, tv < now + timeout →
         exec (LResume p) (handle_expired_timeouts tv st1) = None)
    ∧ (∀ tv, now + timeout <= tv →
         FibrilAddReady self
           ∈ new_effects st1 (handle_expired_timeouts tv st1)
         ∧ ∃ st3, exec (LResume p) (handle_expired_timeouts tv st1)
                  = Some (st3, OUsleep (Return ()))
             ∧ new_effects (handle_expired_timeouts tv st1) st3 = [Free p]
             ∧ (p ∉ timeout_list st3)).
Proof.
  intros Hinv Hp0 Hp.
  destruct (async_usleep_parks timeout now self p blk st)
    as (st1 & w1 & Hsleep & Hm1 & Hfid & Hact & Hin & He & Hl1 & Hpk1).
  assert (Hexec : exec (LUsleep timeout now self (Some (p, blk))) st
                  = Some (st1, OUsleep Switched)).
  { rewrite exec_usleep.
    - by rewrite Hsleep.
    - apply andb_true_iff. split; by apply bool_decide_eq_true. }
  assert (Hinv1 : timeout_inv st1) by (by eapply exec_timeout_inv).
  assert (He1 : expires_at st1 p = now + timeout).
  { unfold expires_at. by rewrite (wdata_at_msg _ _ _ Hm1). }
  exists st1. split_and!; [done..| |].
  - intros tv Htv.
    destruct (handle_expired_timeouts_spec tv st1 Hinv1)
      as (_ & _ & _ & Hsame & _).
    eapply exec_resume_inactive; [|exact Hact].
    rewrite (heap_eq_wdata_at st1) by (apply Hsame; right; lia).
    by apply wdata_at_msg in Hm1.
  - intros tv Htv.
    destruct (handle_expired_timeouts_spec tv st1 Hinv1)
      as (Htl & Heff & Hwoken & _ & Hpk2 & _).
    set (st2 := handle_expired_timeouts tv st1) in *.
    assert (Hm2 : msg_at st2 p
              = Some (with_msg_wdata woken
                        (mk_amsg w1 (done blk) (dataptr blk) (retval blk)))).
    { eapply msg_at_heap; [|done]. apply Hwoken; [done|lia]. }
    split.
    + rewrite Heff. right. apply elem_of_app. left.
      replace self with (fid_at st1 p).
      2:{ unfold fid_at. by rewrite (wdata_at_msg _ _ _ Hm1). }
      apply (list_elem_of_fmap_2 (λ q, FibrilAddReady (fid_at st1 q))).
      apply list_elem_of_filter. split; [lia|done].
    + erewrite exec_resume.
      2:{ rewrite Hpk2, Hpk1. apply lookup_insert_eq. }
      2:{ by apply wdata_at_msg in Hm2. }
      2:{ done. }
      simpl. eexists. split; [done|]. split.
      * by apply new_effects_app.
      * st_simpl. rewrite Htl, list_elem_of_filter. lia.
Qed.

(** ** Requests *)

(** What [async_send] sets up in the block it is given. *)
Lemma async_send_spec phoneid method args dptr p blk st :
  ∃ st' w,
    async_send phoneid method args dptr (Some (p, blk)) st = (st', p)
    ∧ msg_at st' p = Some (mk_amsg w false dptr (retval blk))
    ∧ active w = true ∧ inlist (to_event w) = false
    ∧ effects st' = effects st ++ [IpcCallAsync phoneid method args p]
    ∧ call_store st' = call_store st
    ∧ parked st' = parked st
    ∧ timeout_list st' = timeout_list st
    ∧ (∀ q, q ≠ p → heap st' !! q = heap st !! q).
Proof.
  unfold async_send. eexists _, _. split; [done|]. split_and!.
  - autorewrite with heap_read. rewrite !decide_True by done.
    simpl. reflexivity.
  - done.
  - done.
  - done.
  - done.
  - done.
  - done.
  - intros q Hq. st_simpl. rewrite !lookup_alter_ne by done.
    by rewrite lookup_insert_ne.
Qed.

(** The state in which [async_wait_for] leaves a message that has no
    reply yet. *)
Lemma async_wait_for_parks p m rp self st :
  msg_at st p = Some m → done m = false →
  ∃ st1 w1,
    async_wait_for p rp self st = Some (st1, Switched)
    ∧ msg_at st1 p = Some (mk_amsg w1 false (dataptr m) (retval m))
    ∧ fid w1 = self ∧ active w1 = false ∧ inlist (to_event w1) = false
    ∧ effects st1
      = effects st ++ [FutexDown; FibrilSwitchToManager; FutexUp]
    ∧ parked st1 = <[p := FWaitFor rp]> (parked st)
    ∧ call_store st1 = call_store st
    ∧ timeout_list st1 = timeout_list st.
Proof.
  intros Hm Hd. unfold async_wait_for. rewrite Hm. simpl. rewrite Hd.
  destruct m as [w dn dp rt]. simpl in *. subst dn.
  eexists _, _. split; [done|]. split_and!.
  - autorewrite with heap_read. rewrite !decide_True by done.
    rewrite Hm. simpl. reflexivity.
  - done.
  - done.
  - done.
  - st_simpl. by rewrite <-!app_assoc.
  - done.
  - done.
  - done.
Qed.

Lemma async_req_common phoneid method args r1 r2 r3 r4 r5 result stale
    p blk self rv data st :
  result ≠ 0 →
  ∃ st1 st2 st3,
    (let '(st0, eid) :=
       async_send phoneid method args result (Some (p, blk))
         (with_call_store (insert result stale) st) in
     w ← async_wait_for eid true self st0;
     async_req_done result r1 r2 r3 r4 r5 w) = Some (st1, Switched)
    ∧ new_effects st st1
      = [IpcCallAsync phoneid method args p; FutexDown;
         FibrilSwitchToManager; FutexUp]
    ∧ reply_received p rv data st1 = Some st2
    ∧ async_req_resume p r1 r2 r3 r4 r5 result (with_parked (delete p) st2)
      = Some (st3,
              Return (req_values (from_option id stale data)
                        (int_to_ipcarg rv) r1 r2 r3 r4 r5))
    ∧ new_effects st2 st3 = [Free p].
Proof.
  intros Hres.
  destruct (async_send_spec phoneid method args result p blk
              (with_call_store (insert result stale) st))
    as (st0 & w0 & Hsend & Hm0 & _ & _ & He0 & Hcs0 & _).
  rewrite Hsend.
  destruct (async_wait_for_parks p _ true self st0 Hm0 eq_refl)
    as (st1 & w1 & Hwait & Hm1 & _ & _ & _ & He1 & _ & Hcs1 & _).
  rewrite Hwait. simpl.
  destruct (reply_received_spec p _ rv data st1 Hm1)
    as (st2 & m2 & Hrep & Hm2 & Hd2 & Hrv2 & _ & _ & _ & _ & _ & _ & _
        & Hcs2 & _).
  simpl in Hcs2.
  exists st1, st2. eexists. split_and!.
  - done.
  - apply new_effects_app. rewrite He1, He0. st_simpl.
    by rewrite <-app_assoc.
  - done.
  - unfold async_req_resume, async_wait_for_resume, wait_for_done.
    autorewrite with heap_read. rewrite Hm2. simpl.
    rewrite Hcs2, Hcs1, Hcs0. st_simpl.
    destruct data as [d|]; simpl.
    + rewrite decide_True by done. rewrite lookup_insert_eq. simpl.
      by rewrite Hrv2.
    + rewrite lookup_insert_eq. simpl. by rewrite Hrv2.
  - by apply new_effects_app.
Qed.

(** X14. A request is a send followed by a wait: [async_req_fast] and
    [async_req_slow] send the call with the address of their local
    [result] as the place for the answer and park the fibril; once
    [reply_received] has run for the message, they return the status it
    was given, as the [ipcarg_t] kept in [retval], and hand out, through
    the pointers that are not null, the arguments of the answer.  If the kernel passed no answer record,
    what they hand out is what the local held before. *)
Theorem async_req_round_trip phoneid method arg1 arg2 arg3 arg4 arg5
    r1 r2 r3 r4 r5 result stale p blk self rv data st :
  result ≠ 0 →
  (∃ st1 st2 st3,
     async_req_fast phoneid method arg1 arg2 arg3 arg4 r1 r2 r3 r4 r5
       result stale (Some (p, blk)) self st = Some (st1, Switched)
     ∧ new_effects st st1
       = [IpcCallAsync phoneid method [arg1; arg2; arg3; arg4] p;
          FutexDown; FibrilSwitchToManager; FutexUp]
     ∧ reply_received p rv data st1 = Some st2
     ∧ async_req_resume p r1 r2 r3 r4 r5 result
         (with_parked (delete p) st2)
       = Some (st3,
               Return (req_values (from_option id stale data)
                         (int_to_ipcarg rv) r1 r2 r3 r4 r5))
     ∧ new_effects st2 st3 = [Free p])
  ∧ (∃ st1 st2 st3,
       async_req_slow phoneid method arg1 arg2 arg3 arg4 arg5
         r1 r2 r3 r4 r5 result stale (Some (p, blk)) self st
       = Some (st1, Switched)
       ∧ new_effects st st1
         = [IpcCallAsync phoneid method [arg1; arg2; arg3; arg4; arg5] p;
            FutexDown; FibrilSwitchToManager; FutexUp]
       ∧ reply_received p rv data st1 = Some st2
       ∧ async_req_resume p r1 r2 r3 r4 r5 result
           (with_parked (delete p) st2)
         = Some (st3,
                 Return (req_values (from_option id stale data)
                           (int_to_ipcarg rv) r1 r2 r3 r4 r5))
       ∧ new_effects st2 st3 = [Free p]).
Proof.
  intros Hres. split.
  - apply (async_req_common phoneid method [arg1; arg2; arg3; arg4]);
      done.
  - apply (async_req_common phoneid method [arg1; arg2; arg3; arg4; arg5]);
      done.
Qed.

(** X15. Neither [async_req_fast] nor [async_req_slow] looks at what the
    send returns.  When the message cannot be allocated nothing is sent,
    and the null id goes on to [async_wait_for], which reads the message
    record through it: the call has no result. *)
Theorem async_req_alloc_failure phoneid method arg1 arg2 arg3 arg4 arg5
    r1 r2 r3 r4 r5 result stale self st :
  msg_at st 0 = None →
  async_send_4 phoneid method arg1 arg2 arg3 arg4 result None st = (st, 0)
  ∧ async_req_fast phoneid method arg1 arg2 arg3 arg4 r1 r2 r3 r4 r5
      result stale None self st = None
  ∧ async_req_slow phoneid method arg1 arg2 arg3 arg4 arg5 r1 r2 r3 r4 r5
      result stale None self st = None.
Proof.
  intros Hm. split; [done|].
  unfold async_req_fast, async_req_slow, async_send_4, async_send_5,
    async_send_fast, async_send_slow, async_send, async_wait_for.
  autorewrite with heap_read. by rewrite Hm.
Qed.

(** ** The hash of the connection table *)

(** X16. [conn_hash] gives an index into the table's chains for every key:
    the number made of bits 4 to 8 of the key. *)
Theorem conn_hash_index key :
  0 <= conn_hash key < CONN_HASH_TABLE_CHAINS
  ∧ ∀ i, 0 <= i →
      Z.testbit (conn_hash key) i
      = bool_decide (i < 5) && Z.testbit key (i + 4).
Proof.
  unfold conn_hash, CONN_HASH_TABLE_CHAINS. split.
  - apply Z.mod_pos_bound. lia.
  - intros i Hi. change 32 with (2 ^ 5).
    destruct (decide (i < 5)) as [Hlt|Hge].
    + rewrite bool_decide_eq_true_2 by done. simpl.
      rewrite Z.mod_pow2_bits_low by lia.
      by rewrite Z.shiftr_spec by lia.
    + rewrite bool_decide_eq_false_2 by done. simpl.
      apply Z.mod_pow2_bits_high. lia.
Qed.

(** ** Bulk-data helpers *)

Lemma forward_fast_refused write callid data phoneid method arg1 arg2 arg3
    arg4 dptr msg_alloc forward_rc self st :
  IPC_GET_METHOD data ≠ forward_method write →
  forward_fast write callid data phoneid method arg1 arg2 arg3 arg4 dptr
    msg_alloc forward_rc self st
  = Some (emit (IpcAnswer0 callid EINVAL) st, Return EINVAL).
Proof.
  intros Hm. destruct write; unfold forward_fast, forward_method in *.
  - unfold async_data_write_forward_fast, async_data_write_receive.
    by rewrite decide_True.
  - unfold async_data_read_forward_fast, async_data_read_receive.
    rewrite (decide_True (P := _ ≠ _)) by done. by rewrite decide_True.
Qed.

Lemma forward_fast_accepted write callid data phoneid method arg1 arg2 arg3
    arg4 dptr msg_alloc forward_rc self st :
  IPC_GET_METHOD data = forward_method write →
  forward_fast write callid data phoneid method arg1 arg2 arg3 arg4 dptr
    msg_alloc forward_rc self st
  = forward_send callid phoneid method arg1 arg2 arg3 arg4 dptr msg_alloc
      forward_rc self st.
Proof.
  intros Hm. destruct write; unfold forward_fast, forward_method in *.
  - unfold async_data_write_forward_fast, async_data_write_receive.
    by rewrite decide_False by (intros H; by apply H).
  - unfold async_data_read_forward_fast, async_data_read_receive.
    rewrite (decide_False (P := _ ≠ _)) by (intros H; by apply H).
    by rewrite decide_False.
Qed.

(** The cast [(int) rc] gives back the status that was widened to
    [ipcarg_t]. *)
Lemma to_int_int_to_ipcarg (rv : Z) :
  32 ≤ ipcarg_bits → - 2 ^ 31 ≤ rv < 2 ^ 31 → to_int (int_to_ipcarg rv) = rv.
Proof.
  intros Hw Hrv. unfold to_int, int_to_ipcarg.
  replace ipcarg_bits with (32 + (ipcarg_bits - 32)) by lia.
  rewrite Z.pow_add_r by lia.
  assert (0 < 2 ^ (ipcarg_bits - 32)) by (apply Z.pow_pos_nonneg; lia).
  rewrite <-(Z.add_mod_idemp_l (rv `mod` _)) by lia.
  rewrite Z.mod_mod_divide by apply Z.divide_factor_l.
  rewrite Z.add_mod_idemp_l by lia. rewrite Z.mod_small; lia.
Qed.

(** X17. The two forwarding functions.  A call of another method than the
    one they take, and a send that cannot allocate its message, both end
    with the answer [EINVAL] to the received call, the return value
    [EINVAL], and nothing sent.  Otherwise the request is sent and the
    fibril waits for the reply, also when [ipc_forward_fast] has failed:
    in that case the received call is answered with the error of the
    forward once the reply is in and that error is returned; if the
    forward went through the received call is not answered here and the
    status of the reply is returned: the [ipcarg_t] word the reply left in
    the message, cast to [int], which is the status the reply came with
    when that is an [int] and a word has at least 32 bits.  Either way the
    message is freed exactly once. *)
Theorem forward_fast_outcomes write callid data phoneid method arg1 arg2
    arg3 arg4 dptr p blk forward_rc self rv rdata st :
  p ≠ 0 →
  (∀ msg_alloc,
     IPC_GET_METHOD data ≠ forward_method write
     ∨ msg_alloc = None →
     forward_fast write callid data phoneid method arg1 arg2 arg3 arg4
       dptr msg_alloc forward_rc self st
     = Some (emit (IpcAnswer0 callid EINVAL) st, Return EINVAL))
  ∧ (IPC_GET_METHOD data = forward_method write →
     ∃ st1 st2 st3,
       forward_fast write callid data phoneid method arg1 arg2 arg3 arg4
         dptr (Some (p, blk)) forward_rc self st = Some (st1, Switched)
       ∧ new_effects st st1
         = [IpcCallAsync phoneid method [arg1; arg2; arg3; arg4] p;
            FutexDown; FibrilSwitchToManager; FutexUp]
       ∧ reply_received p rv rdata st1 = Some st2
       ∧ (if decide (forward_rc ≠ EOK)
          then forward_failed_resume p callid forward_rc
                 (with_parked (delete p) st2)
               = Some (st3, Return forward_rc)
               ∧ new_effects st2 st3
                 = [Free p; IpcAnswer0 callid forward_rc]
          else forward_resume p (with_parked (delete p) st2)
               = Some (st3, Return (to_int (int_to_ipcarg rv)))
               ∧ new_effects st2 st3 = [Free p]))
  ∧ (32 ≤ ipcarg_bits → - 2 ^ 31 ≤ rv < 2 ^ 31 →
     to_int (int_to_ipcarg rv) = rv).
Proof.
  intros Hp. split; [|split; [|apply to_int_int_to_ipcarg]].
  - intros msg_alloc [Hm| ->]; [by apply forward_fast_refused|].
    destruct (decide (IPC_GET_METHOD data = forward_method write)) as [Hm|Hm];
      [|by apply forward_fast_refused].
    by rewrite forward_fast_accepted.
  - intros Hm. rewrite forward_fast_accepted by done.
    unfold forward_send, async_send_fast.
    destruct (async_send_spec phoneid method [arg1; arg2; arg3; arg4] dptr
                p blk st)
      as (st0 & w0 & Hsend & Hm0 & _ & _ & He0 & _).
    rewrite Hsend. rewrite decide_False by done.
    destruct (decide (forward_rc ≠ EOK)) as [Hf|Hf].
    + destruct (async_wait_for_parks p _ false self st0 Hm0 eq_refl)
        as (st1 & w1 & Hwait & Hm1 & _ & _ & _ & He1 & _).
      rewrite Hwait. simpl.
      destruct (reply_received_spec p _ rv rdata st1 Hm1)
        as (st2 & m2 & Hrep & Hm2 & _).
      exists st1, st2. eexists. split_and!.
      * done.
      * apply new_effects_app. rewrite He1, He0. by rewrite <-app_assoc.
      * done.
      * unfold forward_failed_resume, async_wait_for_resume, wait_for_done.
        autorewrite with heap_read. rewrite Hm2. simpl. reflexivity.
      * apply new_effects_app. st_simpl. by rewrite <-app_assoc.
    + destruct (async_wait_for_parks p _ true self st0 Hm0 eq_refl)
        as (st1 & w1 & Hwait & Hm1 & _ & _ & _ & He1 & _).
      rewrite Hwait. simpl.
      destruct (reply_received_spec p _ rv rdata st1 Hm1)
        as (st2 & m2 & Hrep & Hm2 & _ & Hrv2 & _).
      exists st1, st2. eexists. split_and!.
      * done.
      * apply new_effects_app. rewrite He1, He0. by rewrite <-app_assoc.
      * done.
      * unfold forward_resume, async_wait_for_resume, wait_for_done.
        autorewrite with heap_read. rewrite Hm2. simpl.
        by rewrite Hrv2.
      * by apply new_effects_app.
Qed.

(** What [async_get_call] does when it need not wait. *)
Lemma async_get_call_now conn c now st :
  conn_at st conn = Some c →
  (∀ msg rest, msg_queue c = msg :: rest →
     ∃ st', async_get_call conn now st
            = Some (st', Return (callid msg, Some (call msg)))
       ∧ quiet st st' ∧ queue_at st' conn = rest)
  ∧ (msg_queue c = [] → close_callid c ≠ 0 →
     ∃ st', async_get_call conn now st
            = Some (st', Return (close_callid c, Some hungup_call))
       ∧ quiet st st' ∧ queue_at st' conn = [])
  ∧ (msg_queue c = [] → close_callid c = 0 →
     ∃ st', async_get_call conn now st = Some (st', Switched)
       ∧ quiet st st' ∧ queue_at st' conn = []).
Proof.
  intros Hc. unfold async_get_call, async_get_call_timeout. rewrite Hc.
  simpl. destruct c as [w hash queue cid ccall close]. simpl.
  set (st_a := upd_wdata conn (set_inlist false) (emit FutexDown st)).
  assert (Hca : conn_at st_a conn
            = Some (mk_conn (set_inlist false w) hash queue cid ccall close)).
  { subst st_a. autorewrite with heap_read. rewrite decide_True by done.
    by rewrite Hc. }
  assert (Hqa : quiet st st_a).
  { subst st_a. eapply quiet_same; [|reflexivity].
    apply quiet_emit; [apply quiet_refl|done]. }
  unfold get_call_loop. rewrite Hca. simpl. split_and!.
  - intros msg rest ->. eexists. split; [done|]. split.
    + apply quiet_emit; [|done]. eapply quiet_same; [exact Hqa|done].
    + unfold queue_at. autorewrite with heap_read.
      rewrite decide_True by done. by rewrite Hca.
  - intros -> Hclose. rewrite decide_True by done.
    eexists. split; [done|]. split.
    + apply quiet_emit; [|done]. exact Hqa.
    + unfold queue_at. autorewrite with heap_read. rewrite Hca. simpl.
      done.
  - intros -> Hclose. rewrite decide_False by (intros H; by apply H).
    simpl. eexists. split; [done|]. split.
    + unfold park. apply quiet_emit; [|done].
      eapply quiet_same; [|reflexivity]. apply quiet_emit; [|done].
      eapply quiet_same; [exact Hqa|done].
    + unfold queue_at. autorewrite with heap_read.
      rewrite decide_True by done. rewrite Hca. simpl. done.
Qed.

(** X18. [async_data_write_void] answers one call with the value it is
    given, whatever the method of that call: the call at the head of the
    inbox, which it takes out, or, when the inbox is empty and the
    connection was hung up, the closing call.  When there is nothing to
    answer it parks the fibril and sends nothing; it then answers the
    call whose arrival wakes the fibril. *)
Theorem async_data_write_void_answers conn c now retval st :
  conn_at st conn = Some c →
  (∀ msg rest, msg_queue c = msg :: rest →
     ∃ st', async_data_write_void conn now retval st
            = Some (st', Return ())
       ∧ answers_of (new_effects st st') = [(callid msg, retval)]
       ∧ queue_at st' conn = rest)
  ∧ (msg_queue c = [] → close_callid c ≠ 0 →
     ∃ st', async_data_write_void conn now retval st
            = Some (st', Return ())
       ∧ answers_of (new_effects st st') = [(close_callid c, retval)])
  ∧ (msg_queue c = [] → close_callid c = 0 →
     ∃ st1, async_data_write_void conn now retval st
            = Some (st1, Switched)
       ∧ answers_of (new_effects st st1) = []
       ∧ ∀ cid call ca nf,
           timeout_inv st → parked st !! conn = None →
           routable cid call →
           hash_table_find st (in_phone_hash call) = Some conn →
           ∃ st3, async_data_write_void_resume conn retval
                    (with_parked (delete conn)
                       (handle_call cid call true ca nf st1))
                  = Some (st3, Return ())
             ∧ answers_of
                 (new_effects (handle_call cid call true ca nf st1) st3)
               = [(cid, retval)]).
Proof.
  intros Hc.
  destruct (async_get_call_now conn c now st Hc) as (H1 & H2 & H3).
  unfold async_data_write_void. split_and!.
  - intros msg rest Hq. destruct (H1 msg rest Hq) as (st' & -> & Hqt & Hq').
    simpl. eexists. split; [done|]. split; [by apply quiet_answer|done].
  - intros Hq Hclose. destruct (H2 Hq Hclose) as (st' & -> & Hqt & _).
    simpl. eexists. split; [done|]. by apply quiet_answer.
  - intros Hq Hclose. destruct (H3 Hq Hclose) as (st1 & Hget & Hqt & _).
    rewrite Hget. simpl. exists st1. split; [done|].
    split; [by apply quiet_answers|].
    intros cid call ca nf Hinv Hpk Hroute Hfind.
    destruct (async_get_call_timeout_woken conn c 0 now cid call ca nf st)
      as (st1' & w1 & w2 & Hget' & _ & _ & _ & _ & _ & _ & _ & st3 & Hres
          & _); [done..|].
    unfold async_get_call in Hget. rewrite Hget in Hget'.
    injection Hget' as <-.
    unfold async_data_write_void_resume, async_get_call_resume.
    rewrite Hres. simpl. eexists. split; [done|].
    apply async_get_call_timeout_resume_quiet in Hres.
    by apply (quiet_answer
                (with_parked (delete conn)
                   (handle_call cid call true ca nf st1))).
Qed.

(** X19. On a connection that was hung up and whose inbox is empty every
    bulk-transfer helper fails.  The call it is handed is the closing
    call with the record [async_get_call] makes up for it, whose method
    none of the receive helpers takes; [async_data_write_accept] and the
    two forwarding functions answer the closing call with [EINVAL] and
    return [EINVAL]. *)
Theorem hungup_refuses_transfers conn c now st :
  conn_at st conn = Some c → msg_queue c = [] → close_callid c ≠ 0 →
  ∃ st', async_get_call conn now st
         = Some (st', Return (close_callid c, Some hungup_call))
    ∧ (async_share_in_receive hungup_call).1 = 0
    ∧ (async_share_out_receive hungup_call).1 = 0
    ∧ (∀ size_ptr, (async_data_read_receive size_ptr hungup_call).1 = 0)
    ∧ (async_data_write_receive hungup_call).1 = false
    ∧ (∀ bits nullterm min_size max_size granularity received_ptr malloc
         finalize,
         async_data_write_accept bits (close_callid c) hungup_call nullterm
           min_size max_size granularity received_ptr malloc finalize
         = mk_write_accept EINVAL [(close_callid c, EINVAL)] None None None)
    ∧ (∀ write phoneid method arg1 arg2 arg3 arg4 dptr msg_alloc forward_rc
         self,
         forward_fast write (close_callid c) hungup_call phoneid method
           arg1 arg2 arg3 arg4 dptr msg_alloc forward_rc self st'
         = Some (emit (IpcAnswer0 (close_callid c) EINVAL) st',
                 Return EINVAL)).
Proof.
  intros Hc Hq Hclose.
  destruct (async_get_call_now conn c now st Hc) as (_ & H2 & _).
  destruct (H2 Hq Hclose) as (st' & Hget & _).
  exists st'. split_and!; [done..| |].
  - intros. reflexivity.
  - intros. apply forward_fast_refused. by destruct write.
Qed.

(** ** No wake-up is lost and none comes for nothing *)

Lemma tl_others_refl p st : tl_others p st st.
Proof. by intros q _. Qed.

Lemma tl_others_trans p st1 st2 st3 :
  tl_others p st1 st2 → tl_others p st2 st3 → tl_others p st1 st3.
Proof. intros H1 H2 q Hq. by rewrite (H2 q Hq), (H1 q Hq). Qed.

Lemma tl_others_same p st st' st'' :
  tl_others p st st' → timeout_list st'' = timeout_list st' →
  tl_others p st st''.
Proof. intros H E q Hq. rewrite E. by apply H. Qed.

Lemma tl_others_remove p st st' st'' :
  tl_others p st st' →
  timeout_list st'' = list_remove p (timeout_list st') →
  tl_others p st st''.
Proof.
  intros H E q Hq. rewrite E, elem_of_list_remove, (H q Hq). naive_solver.
Qed.

Lemma async_insert_timeout_tl wd st0 st st' :
  tl_others wd st0 st → async_insert_timeout wd st = Some st' →
  tl_others wd st0 st'.
Proof.
  intros H0 (w & _ & ->)%async_insert_timeout_Some q Hq. st_simpl.
  rewrite insert_walk_elem_of, <-(H0 q Hq). naive_solver.
Qed.

Lemma wake_inv_step p0 st st' :
  wake_inv st → only_at p0 st st' → tl_others p0 st st' →
  (∀ fr w, parked st' !! p0 = Some fr → wdata_at st' p0 = Some w →
     wake_ok st' p0 fr w) →
  wake_inv st'.
Proof.
  intros Hinv Hat Htl H0 p fr w Hfr Hw.
  destruct (decide (p = p0)) as [->|Hne]; [by apply H0|].
  destruct (Hat p Hne) as [Hh Hpk].
  rewrite Hpk in Hfr. rewrite (heap_eq_wdata_at st st' p Hh) in Hw.
  destruct (Hinv p fr w Hfr Hw) as [H1 H2]. split.
  - intros Ha Hl. apply (Htl p Hne). by apply H1.
  - intros usecs Hu. rewrite (heap_eq_conn_at st st' p Hh). by apply H2.
Qed.

Lemma wake_inv_same st st' :
  heap st' = heap st → parked st' = parked st →
  timeout_list st' = timeout_list st → wake_inv st → wake_inv st'.
Proof.
  intros Hh Hp Ht Hinv p fr w. unfold wake_ok, wdata_at, conn_at.
  rewrite Hh, Hp, Ht. apply Hinv.
Qed.

Lemma wake_inv_unparked p0 st st' :
  wake_inv st → only_at p0 st st' → tl_others p0 st st' →
  parked st' !! p0 = None → wake_inv st'.
Proof.
  intros Hinv Hat Htl Hp. eapply wake_inv_step; [done..|].
  intros fr w. by rewrite Hp.
Qed.

Lemma wake_inv_unpark p st :
  wake_inv st → wake_inv (with_parked (delete p) st).
Proof.
  intros Hinv q fr w Hq. st_simpl.
  apply lookup_delete_Some in Hq as [_ Hq]. by apply Hinv.
Qed.

Lemma wake_inv_init : wake_inv init_state.
Proof. intros p fr w Hfr. simpl in Hfr. by rewrite lookup_empty in Hfr. Qed.

(** What [route_call] does to the connection it finds. *)
Lemma route_call_step callid call msg_alloc st :
  ∃ p, only_at p st (route_call callid call msg_alloc st).1
    ∧ tl_others p st (route_call callid call msg_alloc st).1
    ∧ parked (route_call callid call msg_alloc st).1 = parked st
    ∧ (heap (route_call callid call msg_alloc st).1 = heap st
       ∧ timeout_list (route_call callid call msg_alloc st).1
         = timeout_list st
       ∨ ∃ c', conn_at (route_call callid call msg_alloc st).1 p = Some c'
           ∧ msg_queue c' ≠ [] ∧ active (conn_wdata c') = true).
Proof.
  unfold route_call.
  change (hash_table_find (emit FutexDown st)) with (hash_table_find st).
  destruct (hash_table_find st _) as [hlp|] eqn:Hfind.
  2:{ exists 0. split_and!; [solve_only_at|by intros ? _|done|].
      by left. }
  apply hash_table_find_conn in Hfind as (c & Hc & _).
  change (conn_at (emit FutexDown st)) with (conn_at st). rewrite Hc.
  exists hlp. destruct msg_alloc; cbn [negb fst].
  2:{ split_and!; [solve_only_at|by intros ? _|done|]. by left. }
  destruct c as [w hash queue cid ccall close]. simpl.
  split_and!.
  - destruct (decide _); solve_only_at.
  - destruct (decide _), (active w), (inlist (to_event w));
      first [ by eapply tl_others_same; [apply tl_others_refl|]
            | by eapply tl_others_remove; [apply tl_others_refl|] ].
  - by destruct (decide _), (active w), (inlist (to_event w)).
  - right.
    destruct (decide _), (active w) eqn:Ha, (inlist (to_event w));
      eexists;
      (split; [autorewrite with heap_read; rewrite ?decide_True by done;
               rewrite Hc; simpl; reflexivity|]);
      (split; [simpl; by destruct queue|done]).
Qed.

(** What parking in [async_get_call_timeout] leaves behind. *)
Lemma get_call_loop_step conn usecs st0 st st' r :
  tl_others conn st0 st → get_call_loop conn usecs st = Some (st', r) →
  tl_others conn st0 st'
  ∧ (r = Switched →
     ∃ c', conn_at st' conn = Some c' ∧ active (conn_wdata c') = false
       ∧ (usecs ≠ 0 → conn ∈ timeout_list st')).
Proof.
  intros H0. unfold get_call_loop.
  destruct (conn_at st conn) as [c|] eqn:Hc; [|done]. simpl.
  destruct (msg_queue c) as [|msg rest].
  - destruct (decide (close_callid c ≠ 0)).
    { intros [= <- <-]. split; [|done].
      by eapply tl_others_same; [exact H0|]. }
    destruct (decide (usecs ≠ 0)) as [Hu|Hu]; simpl.
    + destruct (async_insert_timeout conn st) as [st1|] eqn:Hins; [|done].
      simpl. intros [= <- <-]. split.
      * eapply (tl_others_same _ _ st1); [|done].
        by eapply async_insert_timeout_tl.
      * intros _.
        apply async_insert_timeout_Some in Hins as (w & Hw & ->).
        eexists. split_and!.
        -- autorewrite with heap_read. rewrite !decide_True by done.
           rewrite Hc. simpl. reflexivity.
        -- done.
        -- intros _. st_simpl. apply insert_walk_elem_of. by left.
    + intros [= <- <-]. split.
      * by eapply tl_others_same; [exact H0|].
      * intros _. eexists. split_and!.
        -- autorewrite with heap_read. rewrite !decide_True by done.
           rewrite Hc. simpl. reflexivity.
        -- done.
        -- done.
  - intros [= <- <-]. split; [|done].
    by eapply tl_others_same; [exact H0|].
Qed.

Lemma wake_ok_parked_get_call st conn usecs c' w :
  conn_at st conn = Some c' → active (conn_wdata c') = false →
  (usecs ≠ 0 → conn ∈ timeout_list st) →
  wdata_at st conn = Some w → wake_ok st conn (FGetCall usecs) w.
Proof.
  intros Hc Ha Hl Hw. rewrite (wdata_at_conn _ _ _ Hc) in Hw.
  injection Hw as <-. split.
  - intros _ Hlk. apply Hl. simpl in Hlk. by apply bool_decide_eq_true in Hlk.
  - intros usecs' _. exists c'. split; [done|]. by rewrite Ha.
Qed.

Lemma frame_of_msg st p usecs m :
  wake_inv st → parked st !! p = Some (FGetCall usecs) →
  msg_at st p = Some m → False.
Proof.
  intros Hinv Hfr Hm.
  destruct (Hinv p _ _ Hfr (wdata_at_msg _ _ _ Hm)) as [_ H2].
  destruct (H2 usecs eq_refl) as (c & Hc & _).
  by eapply conn_at_msg_at.
Qed.

Lemma handle_expired_timeouts_wake_inv now st :
  timeout_inv st → wake_inv st → wake_inv (handle_expired_timeouts now st).
Proof.
  intros Htinv Hinv.
  destruct (handle_expired_timeouts_spec now st Htinv)
    as (Htl & _ & Hwoken & Hsame & Hpk & _).
  intros p fr w Hfr Hw. rewrite Hpk in Hfr.
  destruct (decide (p ∈ timeout_list st ∧ expires_at st p <= now))
    as [[Hin Hexp]|Hno].
  - specialize (Hwoken p Hin Hexp).
    destruct Htinv as [_ _ Hl].
    destruct (Hl p Hin) as (w0 & fr0 & Hw0 & Ha0 & _ & Hfr0 & Hlk).
    rewrite Hfr in Hfr0. injection Hfr0 as <-.
    assert (Hw' : w = woken w0).
    { unfold wdata_at in Hw, Hw0. rewrite Hwoken in Hw.
      destruct (heap st !! p) as [[c|m]|]; simpl in *; congruence. }
    subst w. split; [done|].
    intros usecs ->.
    destruct (Hinv p _ _ Hfr Hw0) as [_ H2].
    destruct (H2 usecs eq_refl) as (c & Hc & _).
    exists (with_conn_wdata woken c). split; [by eapply conn_at_heap|].
    intros _. right. split; [|done].
    simpl in Hlk. by apply bool_decide_eq_true in Hlk.
  - assert (Hh : heap (handle_expired_timeouts now st) !! p = heap st !! p).
    { apply Hsame. destruct (decide (p ∈ timeout_list st)); [|by left].
      right. apply Z.nle_gt. naive_solver. }
    rewrite (heap_eq_wdata_at _ _ _ Hh) in Hw.
    destruct (Hinv p fr w Hfr Hw) as [H1 H2]. split.
    + intros Ha Hlk. specialize (H1 Ha Hlk).
      rewrite Htl, list_elem_of_filter. split; [|done].
      apply Z.nle_gt. naive_solver.
    + intros usecs Hu. rewrite (heap_eq_conn_at _ _ _ Hh). by apply H2.
Qed.

Lemma async_new_connection_tl hash callid call conn_alloc new_fid st :
  timeout_list (async_new_connection hash callid call conn_alloc new_fid st).1
  = timeout_list st.
Proof.
  unfold async_new_connection. destruct conn_alloc as [[p blk]|]; simpl.
  - destruct (decide (new_fid = 0)); simpl; [|done]. by destruct (decide _).
  - by destruct (decide _).
Qed.

Lemma async_send_tl phoneid method args dptr msg_alloc st :
  timeout_list (async_send phoneid method args dptr msg_alloc st).1
  = timeout_list st.
Proof. unfold async_send. by destruct msg_alloc as [[p blk]|]. Qed.

Lemma connection_fibril_tl conn st st' :
  connection_fibril conn st = Some st' →
  timeout_list st' = timeout_list st.
Proof.
  intros H. apply connection_fibril_Some in H as (c & _ & _ & _ & H).
  simpl in H. destruct (decide _); injection H as <-; st_simpl;
    by rewrite drain_msg_queue_timeout_list; st_simpl;
    rewrite hash_table_remove_timeout_list.
Qed.

Lemma wait_for_done_tl amsgid rp st st' r :
  wait_for_done amsgid rp st = Some (st', r) →
  timeout_list st' = timeout_list st.
Proof.
  unfold wait_for_done. destruct (msg_at st amsgid); [|done].
  simpl. by intros [= <- _].
Qed.

Lemma async_wait_for_tl amsgid rp self st st' r :
  async_wait_for amsgid rp self st = Some (st', r) →
  timeout_list st' = timeout_list st.
Proof.
  unfold async_wait_for. destruct (msg_at st amsgid) as [m|]; [|done].
  simpl. destruct (done m).
  - intros H%wait_for_done_tl. by rewrite H.
  - by intros [= <- _].
Qed.

Lemma async_wait_timeout_step amsgid rp timeout now self st st' r :
  async_wait_timeout amsgid rp timeout now self st = Some (st', r) →
  tl_others amsgid st st'
  ∧ (r = Switched → amsgid ∈ timeout_list st'
     ∧ ∃ m', msg_at st' amsgid = Some m'
         ∧ active (msg_wdata m') = false).
Proof.
  unfold async_wait_timeout.
  destruct (decide _). { intros [= <- <-]. split; [by intros ? _|done]. }
  destruct (msg_at st amsgid) as [m|] eqn:Hm; [|done]. simpl.
  destruct (done m).
  - unfold wait_timeout_done. autorewrite with heap_read. rewrite Hm. simpl.
    intros [= <- <-]. split; [by intros ? _|done].
  - destruct (async_insert_timeout _ _) as [st1|] eqn:Hins; [|done].
    simpl. intros [= <- <-]. split.
    + eapply (tl_others_same _ _ st1); [|done].
      eapply async_insert_timeout_tl; [|done]. by intros ? _.
    + intros _.
      apply async_insert_timeout_Some in Hins as (w & Hw & ->).
      split; [st_simpl; apply insert_walk_elem_of; by left|].
      eexists. split.
      * autorewrite with heap_read. rewrite !decide_True by done.
        rewrite Hm. simpl. reflexivity.
      * done.
Qed.

Lemma async_wait_timeout_resume_tl amsgid rp st st' r :
  async_wait_timeout_resume amsgid rp st = Some (st', r) →
  timeout_list st' = timeout_list st.
Proof.
  unfold async_wait_timeout_resume, wait_timeout_done.
  destruct (msg_at st amsgid) as [m|]; [|done]. simpl.
  destruct (done m); simpl; by intros [= <- _].
Qed.

Lemma async_usleep_step timeout now self p blk st st' r :
  async_usleep timeout now self (Some (p, blk)) st = Some (st', r) →
  tl_others p st st' ∧ p ∈ timeout_list st'.
Proof.
  unfold async_usleep.
  destruct (async_insert_timeout _ _) as [st1|] eqn:Hins; [|done].
  simpl. intros [= <- <-]. split.
  - eapply (tl_others_same _ _ st1); [|done].
    eapply async_insert_timeout_tl; [|done]. by intros ? _.
  - apply async_insert_timeout_Some in Hins as (w & Hw & ->).
    st_simpl. apply insert_walk_elem_of. by left.
Qed.

Lemma wake_ok_linked st p fr w :
  p ∈ timeout_list st → (∀ usecs, fr ≠ FGetCall usecs) → wake_ok st p fr w.
Proof. intros Hin Hfr. split; [done|]. intros usecs ->. by destruct (Hfr usecs). Qed.

Lemma exec_wake_inv l st st' o :
  timeout_inv st → wait_for_inv st → wake_inv st →
  exec l st = Some (st', o) → wake_inv st'.
Proof.
  intros Htl Hwf Hinv Hexec%exec_inv.
  assert (Hfresh : ∀ {A} p (blk : A),
            fresh_block st (Some (p, blk)) = true → parked st !! p = None).
  { intros A p blk [_ Hf]%fresh_block_Some. destruct Hwf as [HE _].
    destruct (parked st !! p) eqn:Hp; [|done].
    destruct (HE p) as [x Hx]; [by eexists|]. by rewrite Hf in Hx. }
  assert (Hnew : ∀ hash cid cl ca nf, fresh_block st ca = true →
            wake_inv (async_new_connection hash cid cl ca nf st).1).
  { intros hash cid cl [[p blk]|] nf Hf.
    - destruct (async_new_connection_only_at hash cid cl p blk nf st)
        as (Hat & Hc & Hpk).
      eapply wake_inv_unparked; [done..| |].
      + intros q _. by rewrite async_new_connection_tl.
      + rewrite Hpk. by eapply Hfresh.
    - unfold async_new_connection.
      destruct (decide _); by apply (wake_inv_same st). }
  assert (Hsend : ∀ ph mt args dp ma, fresh_block st ma = true →
            wake_inv (async_send ph mt args dp ma st).1).
  { intros ph mt args dp [[p blk]|] Hf; [|done].
    destruct (async_send_only_at ph mt args dp p blk st) as (Hat & Hp).
    eapply wake_inv_unparked; [done..| |].
    + intros q _. by rewrite async_send_tl.
    + rewrite Hp. by eapply Hfresh. }
  destruct l as [cid cl ma ca nf|now|arg rv data|hash cid cl ca nf
    |c usecs now|c|ph mt a1 a2 a3 a4 dp ma|ph mt a1 a2 a3 a4 a5 dp ma
    |amsgid rp self|amsgid rp timeout now self|timeout now self ma|p].
  - destruct Hexec as (Hf & -> & ->). unfold handle_call.
    destruct (decide _).
    { unfold process_notification.
      destruct ma; by apply (wake_inv_same st). }
    destruct (decide _); [by apply Hnew|].
    destruct (route_call_step cid cl ma st) as (p & Hat & Hto & Hpk & Hk).
    destruct (route_call cid cl ma st) as [st1 routed]. simpl in *.
    assert (wake_inv st1).
    { destruct Hk as [[Hh Ht]|(c' & Hc' & Hq & Ha)];
        [by apply (wake_inv_same st)|].
      eapply wake_inv_step; [done..|].
      intros fr w Hfr Hw. rewrite (wdata_at_conn _ _ _ Hc') in Hw.
      injection Hw as <-. split; [by rewrite Ha|].
      intros usecs _. exists c'. split; [done|]. intros _. by left. }
    destruct routed; [done|]. by apply (wake_inv_same st1).
  - destruct Hexec as (-> & ->).
    by apply handle_expired_timeouts_wake_inv.
  - destruct Hexec as (H & ->).
    destruct (msg_at st arg) as [m|] eqn:Hm.
    2:{ unfold reply_received in H. by rewrite Hm in H. }
    destruct (reply_received_spec arg m rv data st Hm)
      as (st2 & m2 & Hrep & Hm2 & _ & _ & _ & Ha2 & _ & Htl2 & _ & Hpk2 & _
          & _ & Hheap).
    rewrite Hrep in H. injection H as <-.
    eapply (wake_inv_step arg); [done| | |].
    + intros q Hq. split; [by apply Hheap|by rewrite Hpk2].
    + destruct (inlist _);
        [by eapply tl_others_remove; [apply tl_others_refl|]
        |by eapply tl_others_same; [apply tl_others_refl|]].
    + intros fr w Hfr Hw. rewrite (wdata_at_msg _ _ _ Hm2) in Hw.
      injection Hw as <-. split; [by rewrite Ha2|].
      intros usecs ->. rewrite Hpk2 in Hfr.
      by destruct (frame_of_msg st arg usecs m).
  - destruct Hexec as (Hf & f & Hn & ->).
    specialize (Hnew hash cid cl ca nf Hf). by rewrite Hn in Hnew.
  - destruct Hexec as (Hpk & r & Hg & ->).
    pose proof (async_get_call_timeout_only_at _ _ _ _ _ _ Hg)
      as (Hat & _ & Hp').
    unfold async_get_call_timeout in Hg.
    destruct (conn_at st c) as [c0|]; [|done]. simpl in Hg.
    apply (get_call_loop_step c usecs st) in Hg as [Hto Hsw].
    2:{ destruct (decide _); by intros ? _. }
    eapply wake_inv_step; [done..|].
    intros fr w Hfr Hw. destruct r.
    + rewrite Hp', Hpk in Hfr. done.
    + rewrite Hp', lookup_insert_eq in Hfr. injection Hfr as <-.
      destruct (Hsw eq_refl) as (c' & Hc' & Ha' & Hl').
      by eapply wake_ok_parked_get_call.
  - destruct Hexec as (Hpk & H & ->).
    pose proof (connection_fibril_tl _ _ _ H) as Ht.
    apply connection_fibril_only_at in H as (Hat & _ & Hp').
    eapply wake_inv_unparked; [done..| |].
    + intros q _. by rewrite Ht.
    + by rewrite Hp'.
  - destruct Hexec as (Hf & id & Hn & ->).
    specialize (Hsend ph mt [a1; a2; a3; a4] dp ma Hf).
    by rewrite Hn in Hsend.
  - destruct Hexec as (Hf & id & Hn & ->).
    specialize (Hsend ph mt [a1; a2; a3; a4; a5] dp ma Hf).
    by rewrite Hn in Hsend.
  - destruct Hexec as (Hpk & r & H & ->).
    pose proof (async_wait_for_tl _ _ _ _ _ _ H) as Ht.
    apply async_wait_for_only_at in H as (Hat & Hr).
    eapply wake_inv_step; [done|done| |].
    + intros q _. by rewrite Ht.
    + intros fr w Hfr Hw. destruct r.
      * rewrite Hr, Hpk in Hfr. done.
      * destruct Hr as (Hp' & _). rewrite Hp', lookup_insert_eq in Hfr.
        injection Hfr as <-. split; [done|]. by intros usecs [=].
  - destruct Hexec as (Hpk & r & H & ->).
    destruct (decide (timeout < 0)) as [Hneg|Hpos].
    { rewrite wait_timeout_negative in H by done.
      by injection H as <- <-. }
    destruct Hpk as [?|Hpk]; [done|].
    pose proof (async_wait_timeout_step _ _ _ _ _ _ _ _ H) as [Hto Hsw].
    apply async_wait_timeout_only_at in H as (Hat & Hr).
    eapply wake_inv_step; [done..|].
    intros fr w Hfr Hw. destruct r.
    + rewrite Hr, Hpk in Hfr. done.
    + destruct Hr as (Hp' & _). rewrite Hp', lookup_insert_eq in Hfr.
      injection Hfr as <-. destruct (Hsw eq_refl) as (Hin & _).
      apply wake_ok_linked; [done|]. by intros usecs [=].
  - destruct Hexec as (Hf & r & H & ->).
    destruct ma as [[p blk]|]; [|by injection H as <- <-].
    pose proof (async_usleep_step _ _ _ _ _ _ _ _ H) as [Hto Hin].
    apply async_usleep_only_at in H as (Hat & Hp & Hlive).
    eapply wake_inv_step; [done..|].
    intros fr w Hfr Hw. rewrite Hp, lookup_insert_eq in Hfr.
    injection Hfr as <-. apply wake_ok_linked; [done|]. by intros usecs [=].
  - destruct Hexec as (fr & w & Hfr & Hw & Ha & Hr).
    pose proof (wake_inv_unpark p st Hinv) as Hinv0.
    assert (Hp0 : parked (with_parked (delete p) st) !! p = None)
      by (st_simpl; apply lookup_delete_eq).
    unfold resume in Hr. destruct fr as [usecs|rp|rp|].
    + destruct (async_get_call_timeout_resume _ _ _) as [[st1 r]|] eqn:Hg;
        [|done].
      simpl in Hr. injection Hr as <- <-.
      pose proof (async_get_call_timeout_resume_only_at _ _ _ _ _ Hg)
        as (Hat & _ & Hp').
      unfold async_get_call_timeout_resume in Hg.
      destruct (conn_at _ p) as [c0|]; [|done]. simpl in Hg.
      destruct (_ && _).
      { injection Hg as <- <-.
        by apply (wake_inv_same (with_parked (delete p) st)). }
      apply (get_call_loop_step p usecs (with_parked (delete p) st)) in Hg
        as [Hto Hsw]; [|by intros ? _].
      eapply wake_inv_step; [done..|].
      intros fr w' Hfr' Hw'. destruct r.
      * rewrite Hp', Hp0 in Hfr'. done.
      * rewrite Hp', lookup_insert_eq in Hfr'. injection Hfr' as <-.
        destruct (Hsw eq_refl) as (c' & Hc' & Ha' & Hl').
        by eapply wake_ok_parked_get_call.
    + destruct (async_wait_for_resume _ _ _) as [[st1 r]|] eqn:Hg; [|done].
      simpl in Hr. injection Hr as <- <-.
      pose proof (wait_for_done_tl _ _ _ _ _ Hg) as Ht.
      apply wait_for_done_only_at in Hg as (Hat & Hp).
      eapply wake_inv_unparked; [done..| |].
      * intros q _. by rewrite Ht.
      * by rewrite Hp.
    + destruct (async_wait_timeout_resume _ _ _) as [[st1 r]|] eqn:Hg;
        [|done].
      simpl in Hr. injection Hr as <- <-.
      pose proof (async_wait_timeout_resume_tl _ _ _ _ _ Hg) as Ht.
      apply async_wait_timeout_resume_only_at in Hg as (Hat & Hp).
      eapply wake_inv_unparked; [done..| |].
      * intros q _. by rewrite Ht.
      * by rewrite Hp.
    + simpl in Hr. injection Hr as <- <-.
      by apply (wake_inv_same (with_parked (delete p) st)).
Qed.

Lemma run_wake_inv ls st st' tr :
  timeout_inv st → wait_for_inv st → wake_inv st →
  run ls st = Some (st', tr) →
  timeout_inv st' ∧ wait_for_inv st' ∧ wake_inv st'.
Proof.
  revert st tr. induction ls as [|l ls IH]; intros st tr Htl Hwf Hwk Hrun.
  - by injection Hrun as <- <-.
  - apply run_cons in Hrun as (st1 & o & tr' & Hexec & Hrun & ->).
    eapply IH; [| | |done].
    + by eapply exec_timeout_inv.
    + by eapply exec_wait_for_inv.
    + by eapply exec_wake_inv.
Qed.

(** X20. No wake-up is lost.  In every state the framework can reach, the
    timeout list holds exactly the awaiters on which a fibril is parked
    with a timeout, in [async_usleep], in [async_wait_timeout] or in
    [async_get_call_timeout] with a timeout, and which have not been
    made active. *)
Theorem timeout_list_members ls st tr p :
  run ls init_state = Some (st, tr) →
  p ∈ timeout_list st
  ↔ ∃ fr w, parked st !! p = Some fr ∧ frame_links fr = true
      ∧ wdata_at st p = Some w ∧ active w = false.
Proof.
  intros Hrun.
  destruct (run_wake_inv ls init_state st tr timeout_inv_init
              wait_for_inv_init wake_inv_init Hrun) as ([_ _ Hl] & _ & Hwk).
  split.
  - intros Hin. destruct (Hl p Hin) as (w & fr & Hw & Ha & _ & Hfr & Hlk).
    by exists fr, w.
  - intros (fr & w & Hfr & Hlk & Hw & Ha).
    by destruct (Hwk p fr w Hfr Hw) as [H1 _]; apply H1.
Qed.

(** X21. No wake-up comes for nothing.  In every state the framework can
    reach, a server fibril that runs again inside
    [async_get_call_timeout] returns from it and does not go back to
    sleep: with the call at the head of its inbox, which it takes out,
    or, when the inbox is empty, with the call id [0] after a wait with
    a timeout. *)
Theorem async_get_call_timeout_wakes_to_return ls st tr p st' r :
  run ls init_state = Some (st, tr) →
  exec (LResume p) st = Some (st', OGetCall r) →
  (∃ msg, head (queue_at st p) = Some msg
     ∧ r = Return (callid msg, Some (call msg))
     ∧ queue_at st' p = tail (queue_at st p))
  ∨ (queue_at st p = [] ∧ r = Return (0, None)
     ∧ ∃ usecs, parked st !! p = Some (FGetCall usecs) ∧ usecs ≠ 0).
Proof.
  intros Hrun Hexec.
  destruct (run_wake_inv ls init_state st tr timeout_inv_init
              wait_for_inv_init wake_inv_init Hrun) as (_ & _ & Hwk).
  apply exec_inv in Hexec as (fr & w & Hfr & Hw & Ha & Hr).
  destruct (Hwk p fr w Hfr Hw) as [_ H2].
  destruct fr as [usecs|rp|rp|]; simpl in Hr.
  2:{ destruct (async_wait_for_resume _ _ _) as [[? ?]|]; by simpl in Hr. }
  2:{ destruct (async_wait_timeout_resume _ _ _) as [[? ?]|]; by simpl in Hr. }
  2:{ done. }
  destruct (H2 usecs eq_refl) as (c & Hc & Hwake).
  specialize (Hwake Ha).
  rewrite (wdata_at_conn _ _ _ Hc) in Hw. injection Hw as <-.
  unfold async_get_call_timeout_resume in Hr.
  autorewrite with heap_read in Hr. rewrite Hc in Hr. simpl in Hr.
  assert (Hq : queue_at st p = msg_queue c) by (unfold queue_at; by rewrite Hc).
  rewrite Hq.
  destruct (msg_queue c) as [|msg rest] eqn:Hqc.
  - destruct Hwake as [?|[Hu Hocc]]; [done|].
    rewrite Hocc in Hr. rewrite !bool_decide_eq_true_2 in Hr by done.
    simpl in Hr. injection Hr as <- <-. right. split_and!; [done..|].
    by exists usecs.
  - rewrite (bool_decide_eq_false_2 (_ = [])) in Hr by done.
    rewrite andb_false_r in Hr. unfold get_call_loop in Hr.
    autorewrite with heap_read in Hr. rewrite Hc in Hr. simpl in Hr.
    rewrite Hqc in Hr. simpl in Hr. injection Hr as <- <-. left.
    exists msg. split_and!; [done..|].
    unfold queue_at. autorewrite with heap_read.
    rewrite decide_True by done. by rewrite Hc.
Qed.

End async.

(** * Runs on a 64-bit machine *)

#[local] Existing Instance lp64.

Lemma handle_call_unrouted_witness :
  let known := mk_call 1024 0 0 0 0 0 7 in
  let unknown := mk_call 1024 0 0 0 0 0 9 in
  hash_table_find drain_example 7 = Some 100
  ∧ hash_table_find drain_example 9 = None
  ∧ (route_call 16 known true drain_example).2 ≠ false
  ∧ (route_call 16 known false drain_example).2 = false
  ∧ (route_call 16 unknown true drain_example).2 = false
  ∧ answers_of (new_effects drain_example
                  (handle_call 16 known false None 0 drain_example))
    = [(16, EHANGUP)]
  ∧ answers_of (new_effects drain_example
                  (handle_call 16 unknown true None 0 drain_example))
    = [(16, EHANGUP)].
Proof.
  intros known unknown.
  destruct (handle_call_unrouted 16 known true None 0 drain_example)
    as [Hroute _]; [reflexivity|vm_compute; lia|vm_compute; lia|].
  destruct (handle_call_unrouted 16 known false None 0 drain_example)
    as [Hfail Hknown]; [reflexivity|vm_compute; lia|vm_compute; lia|].
  destruct (handle_call_unrouted 16 unknown true None 0 drain_example)
    as [Hmiss Hunknown]; [reflexivity|vm_compute; lia|vm_compute; lia|].
  split; [vm_compute; reflexivity|]. split; [vm_compute; reflexivity|].
  split.
  { intros H. apply Hroute in H. destruct H as [H|H]; vm_compute in H;
      discriminate H. }
  split; [apply Hfail; right; reflexivity|].
  split; [apply Hmiss; left; vm_compute; reflexivity|].
  split.
  - apply Hknown. right. reflexivity.
  - apply Hunknown. left. vm_compute. reflexivity.
Defined.

Lemma connection_fibril_reads_freed_record_witness :
  map callid (msg_queue drain_example_conn) = [8; 12]
  ∧ close_callid drain_example_conn = 12
  ∧ connection_fibril 100 drain_example = None
  ∧ ∃ st1, connection_fibril_remove 100 drain_example = Some st1
      ∧ new_effects drain_example st1 = [FutexDown; Free 100; FutexUp]
      ∧ 100 ∈ freed st1
      ∧ connection_fibril_drain 100 st1 = None.
Proof.
  destruct (connection_fibril_reads_freed_record 100 drain_example_conn
              drain_example)
    as ((st1 & H1 & _ & H2 & _ & H3 & H4) & Hnone & _).
  - vm_compute. reflexivity.
  - vm_compute. discriminate.
  - vm_compute. reflexivity.
  - vm_compute. apply NoDup_singleton.
  - split; [vm_compute; reflexivity|]. split; [vm_compute; reflexivity|].
    split; [exact Hnone|]. exists st1. split; [exact H1|].
    split; [exact H2|]. split; [exact H3|exact H4].
Defined.

Lemma get_call_hungup_idempotent_witness :
  ∃ st' tr,
    run [LGetCallTimeout 100 0 50; LGetCallTimeout 100 10 60;
         LGetCallTimeout 100 0 70]
      (state_after
         [LNewConnection 7 0 None (Some (100, stale_conn)) 11;
          LHandleCall 12 (mk_call IPC_M_PHONE_HUNGUP 0 0 0 0 0 7) true
            None 0;
          LGetCallTimeout 100 0 40]) = Some (st', tr)
    ∧ length tr = 3%nat
    ∧ Forall (λ ev, ev_out ev = OGetCall (Return (12, Some hungup_call))) tr.
Proof.
  eapply (get_call_hungup_idempotent 100
            (mk_conn (mk_awaiter 11 true (mk_to_event 3 false true)) 7 []
               0 zero_call 12)
            [(0, 50); (10, 60); (0, 70)]).
  - vm_compute. reflexivity.
  - reflexivity.
  - simpl. lia.
  - vm_compute. reflexivity.
Defined.

Lemma async_wait_timeout_negative_witness :
  done_at replied_example 300 = Some true
  ∧ async_wait_timeout 300 true (-1) 0 1 replied_example
    = Some (replied_example, Return (ETIMEOUT, None)).
Proof.
  split; [vm_compute; reflexivity|].
  apply (async_wait_timeout_negative 300 true (-1) 0 1 replied_example).
  lia.
Defined.

Lemma async_wait_timeout_keeps_amsg_witness :
  async_wait_timeout_resume 300 true timed_out_example
    = Some (timed_out_example, Return (ETIMEOUT, None))
  ∧ is_Some (reply_received 300 0 None timed_out_example).
Proof.
  assert (H : async_wait_timeout_resume 300 true timed_out_example
              = Some (timed_out_example, Return (ETIMEOUT, None)))
    by (vm_compute; reflexivity).
  split; [exact H|].
  destruct (async_wait_timeout_keeps_amsg 300 true 10 0 1
              timed_out_example timed_out_example ETIMEOUT None
              (or_intror H)) as ((_ & _ & Hr) & _).
  - reflexivity.
  - apply Hr. vm_compute. eexists. reflexivity.
Defined.

(** C8 as stated fails: a size within all bounds does not make the call
    return [EOK] when the buffer cannot be allocated. *)
Lemma write_accept_within_bounds_enomem :
  let data := mk_call IPC_M_DATA_WRITE 0 4 0 0 0 7 in
  let r := async_data_write_accept 32 8 data false 0 0 0 true (λ _, None)
             (λ _ _, (EOK, [1; 2; 3; 4])) in
  ¬ size_rejected (IPC_GET_ARG2 data) 0 0 0
  ∧ wa_rc r = ENOMEM ∧ wa_rc r ≠ EOK ∧ wa_received r = None.
Proof.
  simpl. split_and!; [|done..].
  unfold size_rejected, IPC_GET_ARG2. simpl. lia.
Qed.

Lemma inbox_fifo_witness :
  ∃ st' tr, run flood_example init_state = Some (st', tr)
    ∧ concat (map (dequeued 100) tr)
      = [mk_msg 8 (mk_call 1025 0 0 0 0 0 7);
         mk_msg 12 (mk_call 1026 0 0 0 0 0 7);
         mk_msg 16 (mk_call 1027 0 0 0 0 0 7)]
    ∧ concat (map (dequeued 100) tr) ++ queue_at st' 100
      = queue_at init_state 100 ++ concat (map (accepted 100) tr).
Proof.
  destruct (run flood_example init_state) as [[st' tr]|] eqn:Hrun;
    [|by vm_compute in Hrun].
  exists st', tr. split; [reflexivity|]. split.
  - vm_compute in Hrun. injection Hrun as <- <-. vm_compute. reflexivity.
  - apply (inbox_fifo 100 flood_example init_state st' tr Hrun).
    vm_compute. intros H. by repeat (apply elem_of_cons in H as [H|H]; [done|]);
      apply elem_of_nil in H.
Defined.

(** C1 as stated fails: after a hangup the fibril is handed the closing
    call id a second time, with a record that was never passed to
    [route_call]. *)
Lemma returned_not_passed_after_hangup :
  ∃ st' tr, run hangup_reread_example init_state = Some (st', tr)
    ∧ queue_at st' 100 = []
    ∧ concat (map (passed 100) tr)
      = [mk_msg 12 (mk_call IPC_M_PHONE_HUNGUP 0 0 0 0 0 7)]
    ∧ concat (map (returned 100) tr)
      = [mk_msg 12 (mk_call IPC_M_PHONE_HUNGUP 0 0 0 0 0 7);
         mk_msg 12 hungup_call]
    ∧ concat (map (returned 100) tr) ≠ concat (map (passed 100) tr).
Proof.
  destruct (run hangup_reread_example init_state) as [[st' tr]|] eqn:Hrun;
    [|by vm_compute in Hrun].
  exists st', tr. split; [reflexivity|].
  vm_compute in Hrun. injection Hrun as <- <-.
  split_and!; [vm_compute; reflexivity..|]. vm_compute. discriminate.
Qed.

Lemma timeout_list_order_witness :
  ∃ st tr, run sleepers_example init_state = Some (st, tr)
    ∧ timeout_list st = [202; 201; 200; 203]
    ∧ expires_sorted st ∧ linked_ok st.
Proof.
  destruct (run sleepers_example init_state) as [[st tr]|] eqn:Hrun;
    [|by vm_compute in Hrun].
  exists st, tr. split; [reflexivity|].
  destruct (timeout_list_order sleepers_example st tr Hrun)
    as ((_ & Hs & Hl) & _).
  split; [|done].
  vm_compute in Hrun. injection Hrun as <- <-. reflexivity.
Defined.

(** C3 as stated fails: of two awaiters with the same [expires] the one
    linked later is ahead in the list and is woken first. *)
Lemma timeout_ties_not_fifo :
  let first := LUsleep 5 0 1 (Some (200, stale_amsg)) in
  let second := LUsleep 5 0 2 (Some (201, stale_amsg)) in
  is_Some (run [first; second] init_state)
  ∧ timeout_list (state_after [first]) = [200]
  ∧ timeout_list (state_after [first; second]) = [201; 200]
  ∧ expires_at (state_after [first; second]) 200
    = expires_at (state_after [first; second]) 201
  ∧ new_effects (state_after [first; second])
      (handle_expired_timeouts 5 (state_after [first; second]))
    = [FutexDown; FibrilAddReady 2; FibrilAddReady 1; FutexUp].
Proof.
  split_and!; [vm_compute; by eexists|vm_compute; reflexivity..].
Qed.

(** The third way out of the list: [reply_received] unlinks an awaiter
    that is waiting with a timeout when its answer comes first, and does
    not touch [inlist].  The flag then stays set on a record that is in
    no list. *)
Lemma reply_received_leaves_inlist :
  (300 ∉ timeout_list answered_in_time_example)
  ∧ inlist_at answered_in_time_example 300 = Some true
  ∧ done_at answered_in_time_example 300 = Some true.
Proof.
  split_and!; [|vm_compute; reflexivity..].
  vm_compute. apply not_elem_of_nil.
Qed.

Lemma amsg_done_once_witness :
  ∃ st tr ev',
    run request_example init_state = Some (st, tr)
    ∧ map ev_out tr
      = [OId 300; OWaitFor Switched; OVoid;
         OWaitFor (Return (Some (2 ^ 64 - 8)))]
    ∧ drop 1 tr !! 2%nat = Some ev'
    ∧ wait_for_returns 300 ev' = Some true
    ∧ length (filter (done_set 300) (drop 1 tr)) = 1%nat
    ∧ done_at (ev_pre ev') 300 = Some true
    ∧ ∃ rv, last_reply 300 (take 2 (drop 1 tr)) = Some rv
        ∧ ev_out ev' = OWaitFor (Return (Some (int_to_ipcarg rv))).
Proof.
  destruct (run request_example init_state) as [[st tr]|] eqn:Hrun;
    [|by vm_compute in Hrun].
  assert (Hev : ∃ ev, tr !! 0%nat = Some ev ∧ created_by_send 300 ev
            ∧ ∃ ev', drop 1 tr !! 2%nat = Some ev'
                ∧ wait_for_returns 300 ev' = Some true
                ∧ ∃ ev'', ev'' ∈ drop 1 tr ∧ is_Some (reply_to 300 ev'')).
  { vm_compute in Hrun. injection Hrun as <- <-.
    eexists. split; [reflexivity|]. split; [reflexivity|].
    eexists. split; [reflexivity|]. split; [vm_compute; reflexivity|].
    eexists. split; [simpl; right; left|vm_compute; eexists; reflexivity]. }
  destruct Hev as (ev & Hi & Hs & ev' & Hj & Hw & Hrep).
  destruct (amsg_done_once request_example st tr 0 ev 300 Hrun Hi Hs)
    as (_ & _ & _ & _ & _ & Hone & Hwait).
  destruct (Hwait 2%nat ev' true Hj Hw) as [Hdone Hret].
  exists st, tr, ev'. split; [reflexivity|].
  split; [vm_compute in Hrun; injection Hrun as <- <-; reflexivity|].
  split; [exact Hj|]. split; [exact Hw|]. split; [by apply Hone|].
  split; [exact Hdone|exact Hret].
Defined.

Lemma handle_expired_timeouts_sweep_witness :
  timeout_list (state_after sleepers_example) = [202; 201; 200; 203]
  ∧ timeout_list (handle_expired_timeouts 5 (state_after sleepers_example))
    = [203]
  ∧ new_effects (state_after sleepers_example)
      (handle_expired_timeouts 5 (state_after sleepers_example))
    = [FutexDown; FibrilAddReady 3; FibrilAddReady 2; FibrilAddReady 1;
       FutexUp].
Proof.
  assert (Hinv : timeout_inv (state_after sleepers_example)).
  { apply (run_timeout_inv sleepers_example init_state _
             (from_option snd [] (run sleepers_example init_state)));
      [apply timeout_inv_init|].
    vm_compute. reflexivity. }
  destruct (handle_expired_timeouts_sweep 5 _ Hinv) as (H1 & H2 & _).
  split; [vm_compute; reflexivity|]. split.
  - rewrite H1. vm_compute. reflexivity.
  - rewrite H2. vm_compute. reflexivity.
Defined.

Lemma async_manager_worker_turn_wait_witness :
  ∃ t, async_manager_worker_turn 1 1 0 (state_after sleepers_example)
       = Some (emit FutexUp (emit FutexDown (state_after sleepers_example)),
               1, MWait t)
    ∧ t = 2.
Proof.
  assert (Hinv : timeout_inv (state_after sleepers_example)).
  { apply (run_timeout_inv sleepers_example init_state _
             (from_option snd [] (run sleepers_example init_state)));
      [apply timeout_inv_init|].
    vm_compute. reflexivity. }
  assert (Htl : timeout_list (state_after sleepers_example)
                = [202; 201; 200; 203]) by (vm_compute; reflexivity).
  destruct (async_manager_worker_turn_wait 1 1 0 _ Hinv)
    as (t & Hturn & _ & Ht).
  - intros p Hp. rewrite Htl in Hp.
    repeat (apply elem_of_cons in Hp as [->|Hp]; [vm_compute; reflexivity|]).
    by apply elem_of_nil in Hp.
  - exists t. split; [exact Hturn|].
    destruct Ht as (_ & Hmin & p & Hp & He); [by rewrite Htl|].
    assert (H202 : 1 + t <= expires_at (state_after sleepers_example) 202).
    { apply Hmin. rewrite Htl. by left. }
    assert (E202 : expires_at (state_after sleepers_example) 202 = 3)
      by (vm_compute; reflexivity).
    assert (E201 : expires_at (state_after sleepers_example) 201 = 5)
      by (vm_compute; reflexivity).
    assert (E200 : expires_at (state_after sleepers_example) 200 = 5)
      by (vm_compute; reflexivity).
    assert (E203 : expires_at (state_after sleepers_example) 203 = 9)
      by (vm_compute; reflexivity).
    rewrite Htl in Hp.
    repeat (apply elem_of_cons in Hp as [->|Hp]; [lia|]).
    by apply elem_of_nil in Hp.
Defined.

Lemma async_manager_worker_turn_sweep_witness :
  ∃ st', async_manager_worker_turn 5 6 0 (state_after sleepers_example)
         = Some (st', 0, MContinue)
    ∧ timeout_list st' = [203].
Proof.
  assert (Hinv : timeout_inv (state_after sleepers_example)).
  { apply (run_timeout_inv sleepers_example init_state _
             (from_option snd [] (run sleepers_example init_state)));
      [apply timeout_inv_init|].
    vm_compute. reflexivity. }
  assert (Htl : timeout_list (state_after sleepers_example)
                = [202; 201; 200; 203]) by (vm_compute; reflexivity).
  destruct (async_manager_worker_turn_sweep 5 6 0 _ 200 Hinv)
    as (st' & Hturn & _ & Hl & _).
  - rewrite Htl. set_solver.
  - vm_compute. discriminate.
  - lia.
  - exists st'. split; [exact Hturn|]. rewrite Hl. vm_compute. reflexivity.
Defined.

Lemma futex_discipline_witness :
  futex_after false (effects (state_after flood_example)) = Some false.
Proof.
  destruct (futex_discipline flood_example init_state
              (state_after flood_example)
              (from_option snd [] (run flood_example init_state)))
    as [H _]; [vm_compute; reflexivity|].
  exact H.
Defined.

Lemma conn_hash_table_inv_witness :
  conn_hash_table (state_after flood_example) = [100]
  ∧ NoDup (conn_hash_table (state_after flood_example))
  ∧ is_Some (conn_at (state_after flood_example) 100)
  ∧ 100 ∉ freed (state_after flood_example).
Proof.
  assert (Ht : conn_hash_table (state_after flood_example) = [100])
    by (vm_compute; reflexivity).
  destruct (conn_hash_table_inv flood_example (state_after flood_example)
              (from_option snd [] (run flood_example init_state)))
    as [Hnd Hall]; [vm_compute; reflexivity|].
  split; [exact Ht|]. split; [exact Hnd|].
  apply Hall. rewrite Ht. left.
Defined.

Lemma handle_call_connect_then_route_witness :
  let connect := mk_call IPC_M_CONNECT_ME_TO 0 0 0 0 7 3 in
  let request := mk_call 1024 1 2 3 4 5 7 in
  let st1 := handle_call 8 connect true (Some (100, stale_conn)) 11
               init_state in
  let st2 := handle_call 12 request true None 0 st1 in
  hash_table_find st1 7 = Some 100
  ∧ queue_at st2 100 = [mk_msg 12 request].
Proof.
  intros connect request st1 st2.
  destruct (handle_call_connect_then_route 8 connect true 100 stale_conn 11
              12 request None 0 init_state)
    as (H1 & _ & _ & H2 & _).
  - split; [reflexivity|]. right. reflexivity.
  - lia.
  - reflexivity.
  - reflexivity.
  - split; [reflexivity|]. split; vm_compute; lia.
  - reflexivity.
  - split; [exact H1|exact H2].
Defined.

Lemma default_client_connection_refuses_witness :
  let connect := mk_call IPC_M_CONNECT_ME_TO 0 0 0 0 7 3 in
  let st1 := handle_call 8 connect true (Some (100, stale_conn)) 11
               init_state in
  let st2 := default_client_connection 8 connect st1 in
  hash_table_find st1 7 = Some 100
  ∧ (∃ st3, connection_fibril_remove 100 st2 = Some st3
       ∧ answers_of (effects st3) = [(8, ENOENT)]
       ∧ conn_hash_table st3 = []
       ∧ 100 ∈ freed st3
       ∧ connection_fibril_drain 100 st3 = None)
  ∧ connection_fibril_start default_client_connection 100 st1 = None.
Proof.
  intros connect st1 st2.
  destruct (default_client_connection_refuses 8 connect true 100 stale_conn
              11 init_state)
    as (_ & (st3 & H1 & H2 & H3 & _ & H4 & H5) & Hnone).
  - apply table_inv_init.
  - split; [reflexivity|]. right. reflexivity.
  - lia.
  - reflexivity.
  - vm_compute. discriminate.
  - reflexivity.
  - split; [vm_compute; reflexivity|]. split; [|exact Hnone].
    exists st3. split; [exact H1|]. split.
    { change (effects st3) with (new_effects init_state st3).
      rewrite H2. reflexivity. }
    split; [exact H3|]. split; [exact H4|exact H5].
Defined.

Lemma async_get_call_timeout_expires_witness :
  let st := state_after [LNewConnection 7 0 None (Some (100, stale_conn)) 11]
  in
  ∃ st1, exec (LGetCallTimeout 100 50 1000) st
         = Some (st1, OGetCall Switched)
    ∧ exec (LResume 100) (handle_expired_timeouts 1049 st1) = None
    ∧ ∃ st3, exec (LResume 100) (handle_expired_timeouts 1050 st1)
             = Some (st3, OGetCall (Return (0, None))).
Proof.
  intros st.
  destruct (async_get_call_timeout_expires 100
              (new_conn 7 0 None stale_conn 11) 50 1000 st)
    as (st1 & H1 & _ & _ & H2 & H3).
  - apply (run_timeout_inv
             [LNewConnection 7 0 None (Some (100, stale_conn)) 11]
             init_state _
             (from_option snd []
                (run [LNewConnection 7 0 None (Some (100, stale_conn)) 11]
                   init_state))); [apply timeout_inv_init|].
    vm_compute. reflexivity.
  - vm_compute. reflexivity.
  - reflexivity.
  - reflexivity.
  - lia.
  - vm_compute. reflexivity.
  - exists st1. split; [exact H1|]. split; [apply H2; lia|].
    destruct (H3 1050) as (_ & st3 & H & _); [lia|].
    exists st3. exact H.
Defined.

Lemma async_get_call_woken_by_call_witness :
  let st := state_after [LNewConnection 7 0 None (Some (100, stale_conn)) 11]
  in
  let call := mk_call 1024 1 2 3 4 5 7 in
  ∃ st1, exec (LGetCallTimeout 100 0 1000) st
         = Some (st1, OGetCall Switched)
    ∧ ∃ st3, exec (LResume 100) (handle_call 12 call true None 0 st1)
             = Some (st3, OGetCall (Return (12, Some call))).
Proof.
  intros st call.
  destruct (async_get_call_woken_by_call 100
              (new_conn 7 0 None stale_conn 11) 0 1000 12 call None 0 st)
    as (st1 & H1 & _ & _ & _ & st3 & H3 & _).
  - apply (run_timeout_inv
             [LNewConnection 7 0 None (Some (100, stale_conn)) 11]
             init_state _
             (from_option snd []
                (run [LNewConnection 7 0 None (Some (100, stale_conn)) 11]
                   init_state))); [apply timeout_inv_init|].
    vm_compute. reflexivity.
  - vm_compute. reflexivity.
  - reflexivity.
  - reflexivity.
  - vm_compute. reflexivity.
  - split; [reflexivity|]. split; vm_compute; lia.
  - vm_compute. reflexivity.
  - exists st1. split; [exact H1|]. exists st3. exact H3.
Defined.

Lemma async_wait_timeout_reply_in_time_witness :
  ∃ st1 st2 st3,
    exec (LWaitTimeout 300 true 10 0 1)
      (state_after [LSendFast 1 1024 0 0 0 0 0 (Some (300, stale_amsg))])
      = Some (st1, OWaitTimeout Switched)
    ∧ exec (LReplyReceived 300 EHANGUP None) st1 = Some (st2, OVoid)
    ∧ exec (LResume 300) st2
      = Some (st3, OWaitTimeout (Return (0, Some (2 ^ 64 - 8)))).
Proof.
  destruct (async_wait_timeout_reply_in_time 300
              (mk_amsg (set_active true (set_inlist false stale_awaiter))
                 false 0 99)
              true 10 0 1 EHANGUP None
              (state_after
                 [LSendFast 1 1024 0 0 0 0 0 (Some (300, stale_amsg))]))
    as (st1 & st2 & st3 & H1 & _ & H2 & _ & _ & H3 & _).
  - apply (run_timeout_inv
             [LSendFast 1 1024 0 0 0 0 0 (Some (300, stale_amsg))]
             init_state _
             (from_option snd []
                (run [LSendFast 1 1024 0 0 0 0 0 (Some (300, stale_amsg))]
                   init_state))); [apply timeout_inv_init|].
    vm_compute. reflexivity.
  - vm_compute. reflexivity.
  - reflexivity.
  - lia.
  - vm_compute. reflexivity.
  - exists st1, st2, st3. split; [exact H1|]. split; [exact H2|exact H3].
Defined.

Lemma async_wait_timeout_late_reply_witness :
  ∃ st1 st3 st4 st5,
    exec (LWaitTimeout 300 true 10 0 1)
      (state_after [LSendFast 1 1024 0 0 0 0 0 (Some (300, stale_amsg))])
      = Some (st1, OWaitTimeout Switched)
    ∧ exec (LResume 300) (handle_expired_timeouts 10 st1)
      = Some (st3, OWaitTimeout (Return (ETIMEOUT, None)))
    ∧ exec (LReplyReceived 300 EHANGUP None) st3 = Some (st4, OVoid)
    ∧ exec (LWaitFor 300 true 2) st4
      = Some (st5, OWaitFor (Return (Some (2 ^ 64 - 8)))).
Proof.
  destruct (async_wait_timeout_late_reply 300
              (mk_amsg (set_active true (set_inlist false stale_awaiter))
                 false 0 99)
              true 10 0 1 10 EHANGUP None true 2
              (state_after
                 [LSendFast 1 1024 0 0 0 0 0 (Some (300, stale_amsg))]))
    as (st1 & st3 & st4 & st5 & H1 & H2 & _ & H3 & _ & H4 & _).
  - apply (run_timeout_inv
             [LSendFast 1 1024 0 0 0 0 0 (Some (300, stale_amsg))]
             init_state _
             (from_option snd []
                (run [LSendFast 1 1024 0 0 0 0 0 (Some (300, stale_amsg))]
                   init_state))); [apply timeout_inv_init|].
    vm_compute. reflexivity.
  - vm_compute. reflexivity.
  - reflexivity.
  - lia.
  - vm_compute. reflexivity.
  - lia.
  - exists st1, st3, st4, st5.
    split; [exact H1|]. split; [exact H2|]. split; [exact H3|exact H4].
Defined.

Lemma async_usleep_sleeps_witness :
  ∃ st1, exec (LUsleep 50 1000 1 (Some (200, stale_amsg))) init_state
         = Some (st1, OUsleep Switched)
    ∧ exec (LResume 200) (handle_expired_timeouts 1049 st1) = None
    ∧ ∃ st3, exec (LResume 200) (handle_expired_timeouts 1050 st1)
             = Some (st3, OUsleep (Return ())).
Proof.
  destruct (async_usleep_sleeps 50 1000 1 200 stale_amsg init_state)
    as (st1 & H1 & _ & _ & H2 & H3).
  - apply timeout_inv_init.
  - lia.
  - reflexivity.
  - exists st1. split; [exact H1|]. split; [apply H2; lia|].
    destruct (H3 1050) as (_ & st3 & H & _); [lia|].
    exists st3. exact H.
Defined.

Lemma async_req_round_trip_witness :
  ∃ st1 st2 st3,
    async_req_fast 1 1024 1 2 3 4 true false false false true 500
      zero_call (Some (300, stale_amsg)) 21 init_state
    = Some (st1, Switched)
    ∧ reply_received 300 EHANGUP (Some (mk_call 0 11 12 13 14 15 0)) st1
      = Some st2
    ∧ async_req_resume 300 true false false false true 500
        (with_parked (delete 300) st2)
      = Some (st3,
              Return (mk_req_result (2 ^ 64 - 8) (Some 11) None None None
                        (Some 15))).
Proof.
  destruct (async_req_round_trip 1 1024 1 2 3 4 0
              true false false false true 500 zero_call 300 stale_amsg 21
              EHANGUP (Some (mk_call 0 11 12 13 14 15 0)) init_state)
    as [(st1 & st2 & st3 & H1 & _ & H2 & H3 & _) _]; [lia|].
  exists st1, st2, st3. split; [exact H1|]. split; [exact H2|exact H3].
Defined.

Lemma async_req_alloc_failure_witness :
  async_req_fast 1 1024 1 2 3 4 true true true true true 500 zero_call
    None 21 init_state = None.
Proof.
  apply (async_req_alloc_failure 1 1024 1 2 3 4 0 true true true true true
           500 zero_call 21 init_state).
  reflexivity.
Defined.

Lemma forward_fast_outcomes_witness :
  let write := mk_call (forward_method true) 0 0 0 0 0 0 in
  forward_fast true 12 hungup_call 1 1024 0 0 0 0 0
    (Some (300, stale_amsg)) 0 21 init_state
  = Some (emit (IpcAnswer0 12 EINVAL) init_state, Return EINVAL)
  ∧ ∃ st1 st2 st3,
      forward_fast true 12 write 1 1024 0 0 0 0 0 (Some (300, stale_amsg))
        EOK 21 init_state = Some (st1, Switched)
      ∧ reply_received 300 EHANGUP None st1 = Some st2
      ∧ forward_resume 300 (with_parked (delete 300) st2)
        = Some (st3, Return EHANGUP).
Proof.
  intros write. split.
  - destruct (forward_fast_outcomes true 12 hungup_call 1 1024 0 0 0 0 0
                300 stale_amsg 0 21 0 None init_state) as [H _]; [lia|].
    apply H. left. vm_compute. lia.
  - destruct (forward_fast_outcomes true 12 write 1 1024 0 0 0 0 0
                300 stale_amsg EOK 21 EHANGUP None init_state)
      as (_ & H & Hint); [lia|].
    destruct H as (st1 & st2 & st3 & H1 & _ & H2 & H3); [reflexivity|].
    exists st1, st2, st3. split; [exact H1|]. split; [exact H2|].
    rewrite decide_False in H3 by (intros H; by apply H).
    destruct H3 as [H3 _]. rewrite Hint in H3; [exact H3| |].
    + vm_compute. discriminate.
    + unfold EHANGUP. lia.
Defined.

Lemma async_data_write_void_answers_witness :
  ∃ st', async_data_write_void 100 0 EINVAL drain_example
         = Some (st', Return ())
    ∧ answers_of (new_effects drain_example st') = [(8, EINVAL)].
Proof.
  destruct (async_data_write_void_answers 100 drain_example_conn 0 EINVAL
              drain_example) as (H & _).
  - vm_compute. reflexivity.
  - destruct (H (mk_msg 8 (mk_call 1024 0 0 0 0 0 7))
                [mk_msg 12 (mk_call IPC_M_PHONE_HUNGUP 0 0 0 0 0 7)])
      as (st' & H1 & H2 & _); [vm_compute; reflexivity|].
    exists st'. split; [exact H1|exact H2].
Defined.

Lemma hungup_refuses_transfers_witness :
  let st := state_after hangup_reread_example in
  ∃ st', async_get_call 100 60 st = Some (st', Return (12, Some hungup_call))
    ∧ forward_fast true 12 hungup_call 1 1024 0 0 0 0 0 None 0 21 st'
      = Some (emit (IpcAnswer0 12 EINVAL) st', Return EINVAL).
Proof.
  intros st.
  destruct (hungup_refuses_transfers 100
              (from_option id stale_conn (conn_at st 100)) 60 st)
    as (st' & H1 & _ & _ & _ & _ & _ & H2).
  - vm_compute. reflexivity.
  - vm_compute. reflexivity.
  - vm_compute. discriminate.
  - exists st'. split; [exact H1|apply H2].
Defined.

Lemma timeout_list_members_witness :
  200 ∈ timeout_list (state_after sleepers_example).
Proof.
  apply (timeout_list_members sleepers_example _
           (from_option snd [] (run sleepers_example init_state)) 200).
  - vm_compute. reflexivity.
  - eexists _, _. split_and!; vm_compute; reflexivity.
Defined.

Lemma async_get_call_timeout_wakes_to_return_witness :
  let ls := [LNewConnection 7 0 None (Some (100, stale_conn)) 11;
             LGetCallTimeout 100 0 40;
             LHandleCall 8 (mk_call 1025 0 0 0 0 0 7) true None 0] in
  ∃ st', exec (LResume 100) (state_after ls)
         = Some (st', OGetCall (Return (8, Some (mk_call 1025 0 0 0 0 0 7)))).
Proof.
  intros ls.
  destruct (exec (LResume 100) (state_after ls)) as [[st' o]|] eqn:Hexec;
    [|by vm_compute in Hexec].
  assert (Ho : ∃ r, o = OGetCall r).
  { vm_compute in Hexec. injection Hexec as _ <-. by eexists. }
  destruct Ho as [r ->].
  destruct (async_get_call_timeout_wakes_to_return ls (state_after ls)
              (from_option snd [] (run ls init_state)) 100 st' r)
    as [(msg & Hh & -> & _)|(Hq & _)].
  - vm_compute. reflexivity.
  - exact Hexec.
  - exists st'. vm_compute in Hh. injection Hh as <-. reflexivity.
  - vm_compute in Hq. discriminate.
Defined.
